(* ===== verification/_CoqProject ===== *)
-Q . S2P
Prelude.v
GoStrings.v
Base64.v
JavaScript.v
GoMonad.v
Concurrency.v
Ghost.v
Hub.v
Dashboard.v
LogBridge.v
RoutesPage.v
Crypto.v
ToyCrypto.v
OnionLayer.v
KeyCache.v
Node.v
NodeSpec.v
Fragments.v
OnionBuild.v
Network.v
Views.v
Directory.v
DirectorySpec.v
DirectoryConcurrency.v
Cluster.v
ClusterSpec.v
Send.v
SendSpec.v
SuperSendSpec.v
RoutesSpec.v
Visit.v
EndToEnd.v
SuperEndToEnd.v
Commands.v
Web.v
ChatPage.v
ChatPageSpec.v
CommandSpec.v
FrontEnds.v
LongSend.v
ChatFlow.v
NodeConcurrency.v
Schedules.v
Duplicates.v
Reassembling.v
ToyNetwork.v
NetworkTheorems.v
PrivacyTheorems.v
CodecTheorems.v
NodeTheorems.v
DirectoryTheorems.v
SendTheorems.v
CommandTheorems.v
EndToEndTheorems.v
ConcurrencyTheorems.v
HubTheorems.v
PageTheorems.v
RoutesTheorems.v
