(* ===== verification/Prelude.v ===== *)
(** * DOR, a decentralised onion router: verification library

    ** The program

    A node (src/node_server/node and model) accepts connections, each of which
    carries one line: [GET_PUBKEY], [NACK:<id>] or an onion.  An onion is a
    line that opens, with the RSA key of the node, to a layer: [RELAY] (pass
    the data on and remember whom to tell when it is refused), [FINAL] (deliver
    the message, or keep it until all its fragments came, and send the
    acknowledgement onion it contains) or [ACK] (wake the sender).  The sending
    side picks a route from the list of the directory server, builds the onion
    and the return onion, registers a channel for the answer, sends, and tries
    again on refusal.  SEND routes over single relays, SSEND over groups of
    relays, any member of which can open the layer.  Commands come from the
    console or the web page.  The directory server
    (src/node_server/List_Serveur, data) keeps a table of nodes with scores and
    removes those that stop answering.  The web page of a node (the script in
    node/web_page.go) posts commands to it and reads its log; the dashboard
    (src/dashboard) collects the telemetry of the nodes, and the script of its
    page rebuilds routes from it.

    ** Files and sources

    - Prelude: Go results with errors and panics, notations, hints, lists.
      GoStrings: strings, strconv, bufio.ReadString, bufio.Scanner.  Base64:
      encoding/base64.  JavaScript: strings, objects, regular expressions and
      EventSource, as the scripts of the pages use them.
    - GoMonad: goroutines as programs over effects (locks, accesses to the
      shared state, channels, network, clock, randomness, output), their run
      alone and a weakest-precondition calculus.  Concurrency: interleavings of
      goroutines, data races, lock discipline, progress, sends that block.
      Ghost: invariants with a ghost value per goroutine.
    - Crypto (model/Broadcast.go, AES of model/Node.go, [encryptForNode]):
      encryption of a layer over the interface [CryptoLib] to crypto/rsa,
      crypto/cipher and crypto/x509; ToyCrypto is an instance that satisfies
      its laws.  OnionLayer (model/OnionLayer.go).  KeyCache
      (node/keycache.go).
    - Node (model/Node.go): the state [Node], [Proc] with the key cache, and
      [handlerroutine], one definition per case, and the eviction goroutine of
      [StartNode].  NodeSpec: rules for the cases.  Fragments (model/Node.go 301-332, [splitMessage]).
    - OnionBuild (node/onion.go, node/super_send.go): both encapsulators and
      their specification [onion].  Cluster (node/cluster.go), ClusterSpec.
      Send (node/send.go, node/super_send.go, node/telemetry.go), SendSpec;
      SuperSendSpec: the rule of the blacklist of SSEND, as an automaton over
      the trace ([polite]).
    - Network: several nodes and the lines in flight.  Views: what the holder
      of a key reads of an onion.
    - Directory (List_Serveur/serveur.go, data/SQLManager.go), DirectorySpec;
      DirectoryConcurrency: connections, console and reachability test of a
      server side by side.
    - EndToEnd, SuperEndToEnd: the goroutines of SEND and SSEND up to their
      wait, and what the network does with the onion they posted.  LongSend:
      the goroutines of a SEND in chunks, one after the other.
    - Commands (node/cli.go, [processCmd] of node/web.go, node/main.go),
      CommandSpec.  FrontEnds: the copies of the commands in cli.go and web.go
      compared one by one.  Web: the HTTP handlers of node/web.go.
    - Hub: the log broker of node/web.go and the clients of the dashboard as
      a step relation.  Dashboard: dashboard/main.go, the frames of the
      streams.  LogBridge: the pipe that captures standard output, from a print
      to the log page ([startStdoutBridge], [handleLogs]).
    - ChatPage (the script of node/web_page.go): variables and screen as a
      record, one definition per function, [page_step] for what can happen.
      ChatPageSpec: the invariant.  ChatFlow: from a command of the page to the
      goroutine it starts, from a printed line to the page.
    - RoutesPage (the script of dashboard/main.go, lines 193-638), RoutesSpec.
      Visit: a page and the server together, from the two requests the script
      ends with ([visit_step]).
    - NodeConcurrency: every goroutine of a node keeps the lock discipline and
      any invariant that the elementary updates keep.  Schedules: the
      interleavings that block a node or end it.  Duplicates: one line handled by many
      goroutines; Reassembling: the chunks of one message handled by many.
    - ToyNetwork: concrete processes for the witnesses.

    Theorems are in the files named [*Theorems]: EndToEnd (a SEND, whole or in
    chunks, or SSEND, from the answer of the directory to the printed
    acknowledgement), Network (a message and its
    acknowledgement travel the whole route; a refusal travels back; the
    encapsulators implement [onion]), Privacy (what each hop reads), Codec
    (layers, encryption, fragments), Node (the handler case by case, the window
    in which replays are dropped), Send
    (termination and limits of the retries, the groups), Directory
    (registration, eviction, the list, the table in every interleaving), Command (key rotation, start-up, console against web page), Concurrency (no
    data race, progress, invariants, duplicates, the blocking acknowledgement,
    the key that expires under way), Hub (the event streams, the log page), Page
    (a message of the web page from the key stroke to its mark, the screen in
    step with the data, the side bar and the directory, what the page gets
    wrong, how it takes a message off a log line), Routes (the routes and counts
    of the dashboard's page, from its opening on).

    ** How the code is rendered

    - A goroutine is a value of [prog S A], where [S] is the state its process
      shares.  [run] executes it alone: an oracle [env] answers dials,
      requests, draws and the clock, and is arbitrary in the theorems.  [wp]
      is total: the program returns, without panic and without blocking.
      A goroutine run alone finds its mutexes free, and each of its waits is
      closed by an answer, with any change to the node meanwhile, or by the
      time-out; [send_ends] and [super_send_ends] are about such runs, and
      [only_acks_block] and [ack_and_nack_block] about what others may hold.
      [step] of Concurrency interleaves goroutines effect by effect, with any
      answer, and lets new ones start at any time; so a theorem about [reach]
      holds for every schedule.
    - The shared fields are guarded by the mutexes of the code.  A read or
      write names the mutex that the code holds at that point ([EAcc]), and
      the theorem [no_data_race] shows that it is held.  An SQL statement of the
      directory is atomic: it is one access under [Db], which nobody locks.  [ID], [Port] and
      [NodeIP] have no mutex: they are written only before the node serves
      commands ([EGet], [ESet]).
    - A panic is [Raise]; nothing in the program recovers, so it ends the
      process.  Errors are values of a sum type; their texts, where they come
      from the Go library, are the field [lib_error] of [CryptoLib] (in the
      directory, which prints none of them, a fixed word).
    - The directory's connection (TLS) is the effect [ERequest]: one line out,
      one answer in, or an error.  The theorems that join client and directory
      take [handleConnection] itself as the answer.
    - The goroutine that waits for an acknowledgement is written in line in
      [send_onion], since its spawner returns at once; [await_ack] is its body.
      The telemetry goroutines are one effect.  A [go] statement of a command is
      the effect [ESpawn].
    - [RegenerateKeys] writes both keys in one access, since the code assigns
      them in one critical section; making and marshalling a key do not fail.
    - The console and the page have their own copies of the commands, as in the
      code: [cli_MSG] and [web_MSG], and so on.
    - [selectedNode] of the node's page is a copy of the entry of [knownNodes],
      not the shared object: the script reads only its address, which does not
      change.
    - [crypto/rand] is taken not to fail.  [sort.Slice] is any permutation in
      order (class [GoSort]).  Scores are IEEE doubles (SpecFloat).
    - One eviction pass reads the clock once.
    - Integers are Go's 64-bit [int]: [Atoi] saturates as strconv does; the
      counters of the program stay far from the limits, which the theorems on
      fragments state as a hypothesis.
    - Fuel: [SendWithRetry] and its SSEND counterpart recurse on fuel; the
      goroutines start with [maxRetries + 1], and [send_ends] and
      [super_send_ends] prove that this is enough.  [split_loop] has the length
      of the message plus one, enough by [split_message].

    ** What is not modelled

    TLS set-up, listeners and accept loops (a connection is a goroutine that
    may start at any time; whether the set-up succeeds is the effect [EFault]),
    the SQLite file itself, slog output (it goes to the standard error output,
    which no pipe reads, so it reaches neither the log stream nor a page), JSON
    and HTTP transport, the HTML and style sheets of the two web pages
    (node/web_page.go 4-213, dashboard/main.go 39-192) and the vis-network
    drawing, the benchmark and deployment scripts and the Go tests.  The HTML
    that the scripts put together is a record of what it shows; scrolling, the
    camera's pictures and the connection lamp are left out, and so is an event
    stream that breaks off and is opened again by the browser.  [go
    node.StartNode()] is recorded as started; what it runs are the handlers and
    the eviction loop.  The scripts use objects as maps; keys that every object
    inherits ([constructor] and the like) are not treated, nor are quotes in a
    key that goes into a CSS selector. *)

From Stdlib Require Export Ascii ZArith Lia.
From stdpp Require Export base numbers strings gmap list sorting.

(** ** Results of Go calls

    A Go call that returns [(value, error)] is [GOk v] or [GErr e]; a run-time
    panic (index out of range, nil dereference, ...) is [GPanic why]: it takes
    the whole process down, so it is never turned into an error. *)

Inductive gores (A : Type) : Type :=
| GOk (a : A)
| GErr (e : string)
| GPanic (why : string).
Arguments GOk {A} a.
Arguments GErr {A} e.
Arguments GPanic {A} why.

#[export] Instance gores_ret : MRet gores := fun A a => GOk a.
#[export] Instance gores_bind : MBind gores := fun A B f m =>
  match m with
  | GOk a => f a
  | GErr e => GErr e
  | GPanic w => GPanic w
  end.

#[export] Instance gores_eq_dec {A} `{EqDecision A} : EqDecision (gores A).
Proof. solve_decision. Defined.

(** [l[i]] of a Go slice: out of range it panics. *)
Definition index {A} (l : list A) (i : nat) : gores A :=
  match l !! i with
  | Some x => GOk x
  | None => GPanic "index out of range"
  end.

(** [l[i], l[j] = l[j], l[i]]. *)
Definition swap {A} (i j : nat) (l : list A) : list A :=
  match l !! i, l !! j with
  | Some x, Some y => <[i := y]> (<[j := x]> l)
  | _, _ => l
  end.

(** ** Tactics *)

(** Case analysis on the scrutinee of the innermost [match] of the goal. *)
Ltac case_match_goal :=
  match goal with
  | |- context [match ?x with _ => _ end] =>
      lazymatch x with
      | context [match _ with _ => _ end] => fail
      | _ => destruct x eqn:?
      end
  end.

(** Destructs existentials and conjunctions of the context. *)
Ltac deex :=
  repeat match goal with
  | H : exists _, _ |- _ => let x := fresh "x" in destruct H as [x H]
  | H : _ /\ _ |- _ => destruct H
  end.

(** Turns the boolean comparisons of the context into propositions. *)
Ltac b2p :=
  repeat match goal with
  | H : _ && _ = true |- _ => apply andb_true_iff in H as [? ?]
  | H : _ || _ = false |- _ => apply orb_false_iff in H as [? ?]
  | H : negb _ = true |- _ => apply negb_true_iff in H
  | H : negb _ = false |- _ => apply negb_false_iff in H
  | H : String.eqb _ _ = true |- _ => apply String.eqb_eq in H
  | H : String.eqb _ _ = false |- _ => apply String.eqb_neq in H
  | H : Ascii.eqb _ _ = true |- _ => apply Ascii.eqb_eq in H
  | H : Ascii.eqb _ _ = false |- _ => apply Ascii.eqb_neq in H
  end.

(** ** Lists *)

Lemma Forall_sublist {A} (P : A -> Prop) l k : l `sublist_of` k -> Forall P k -> Forall P l.
Proof. intros Hs%sublist_subseteq. rewrite !Forall_forall. auto. Qed.

Lemma StronglySorted_sublist {A} (R : relation A) l k :
  l `sublist_of` k -> StronglySorted R k -> StronglySorted R l.
Proof.
  induction 1 as [|x l k Hs IH|x l k Hs IH]; [done|..]; intros [Hk Hx]%StronglySorted_inv; [|by apply IH].
  constructor; [by apply IH|]. by eapply Forall_sublist.
Qed.

Lemma swap_perm {A} i j (l : list A) : swap i j l ≡ₚ l.
Proof.
  unfold swap. destruct (l !! i) as [x|] eqn:Hi; [|done].
  destruct (l !! j) as [y|] eqn:Hj; [|done].
  apply Permutation_inj. split.
  - by rewrite !length_insert.
  - assert (Hli := lookup_lt_Some _ _ _ Hi). assert (Hlj := lookup_lt_Some _ _ _ Hj).
    exists (fun k => if decide (k = i) then j else if decide (k = j) then i else k).
    split.
    + intros a b. repeat case_decide; congruence.
    + intros k. case_decide; [subst k|]; [by rewrite list_lookup_insert_eq
        by (by rewrite length_insert)|].
      rewrite list_lookup_insert_ne by done.
      case_decide; [subst k|]; [by rewrite list_lookup_insert_eq|].
      by rewrite list_lookup_insert_ne.
Qed.

Lemma length_swap {A} i j (l : list A) : length (swap i j l) = length l.
Proof. apply Permutation_length, swap_perm. Qed.

(** Swapping commutes with a map, so two slices swapped by the same indices
    stay aligned. *)
Lemma swap_fmap {A B} (f : A -> B) i j (l : list A) :
  swap i j (f <$> l) = f <$> swap i j l.
Proof.
  unfold swap. rewrite !list_lookup_fmap.
  destruct (l !! i), (l !! j); simpl; [|done..].
  by rewrite !list_fmap_insert.
Qed.

Lemma last_cons_ne {A} (x : A) l : l <> [] -> last (x :: l) = last l.
Proof. by destruct l. Qed.

(** ** Strings *)

Lemma app_str_cons a s t : (String a s +:+ t)%string = String a (s +:+ t).
Proof. reflexivity. Qed.

Lemma app_str_nil_l t : ("" +:+ t)%string = t.
Proof. reflexivity. Qed.

Lemma app_str_nil_r s : (s +:+ "")%string = s.
Proof. induction s as [|a s IH]; [done|]. by rewrite app_str_cons, IH. Qed.

Lemma app_str_assoc s t u : ((s +:+ t) +:+ u)%string = (s +:+ (t +:+ u))%string.
Proof. induction s as [|a s IH]; [done|]. by rewrite !app_str_cons, IH. Qed.

Lemma length_str_app s t :
  String.length (s +:+ t) = String.length s + String.length t.
Proof. induction s as [|a s IH]; [done|]. rewrite app_str_cons. cbn. lia. Qed.

(** [sforall p s]: every byte of [s] satisfies [p]. *)
Fixpoint sforall (p : ascii -> bool) (s : string) : bool :=
  match s with
  | EmptyString => true
  | String a s' => p a && sforall p s'
  end.

Lemma sforall_app p s t : sforall p (s +:+ t) = sforall p s && sforall p t.
Proof.
  induction s as [|a s IH]; [done|].
  rewrite app_str_cons. cbn. by rewrite IH, andb_assoc.
Qed.

Lemma sforall_impl (p q : ascii -> bool) s :
  (forall a, p a = true -> q a = true) -> sforall p s = true -> sforall q s = true.
Proof.
  intros Hpq. induction s as [|a s IH]; cbn; [done|].
  intros H. b2p. rewrite (Hpq a), IH; done.
Qed.

(** A property of all bytes is decided by running through the 256 of them. *)
Definition forall_bytes (p : ascii -> bool) : bool :=
  forallb (fun n => p (ascii_of_nat n)) (seq 0 256).

Lemma forall_bytes_spec p : forall_bytes p = true -> forall a, p a = true.
Proof.
  unfold forall_bytes. rewrite forallb_forall. intros H a.
  rewrite <- (ascii_nat_embedding a). apply H, in_seq.
  pose proof (nat_ascii_bounded a). lia.
Qed.

Create HintDb dor.
Create Rewrite HintDb dor_str.
#[export] Hint Rewrite app_str_nil_r app_str_nil_l app_str_assoc app_str_cons
  length_str_app sforall_app : dor_str.
