(* ===== verification/GoStrings.v ===== *)
(** * Go strings: the part of [strings], [strconv] and [bufio] the program uses

    A Go string is a sequence of bytes, here a [string] of [ascii] bytes.
    Every separator of the program is one byte, so [Split], [SplitN], [Join],
    [LastIndex] and [Contains] take the separator as an [ascii]. *)

From S2P Require Import Prelude.

Local Open Scope char_scope.
Local Open Scope Z_scope.
Local Open Scope nat_scope.
Local Open Scope stdpp_scope.

Definition nl : ascii := "010"%char.
Definition colon : ascii := ":"%char.
Definition pipe : ascii := "|"%char.
Definition comma : ascii := ","%char.
Definition semi : ascii := ";"%char.
Definition slash : ascii := "/"%char.

Definition str1 (c : ascii) : string := String c EmptyString.

(** ** Membership, prefixes, slices *)

(** [strings.Contains(s, c)] for a one-byte [c]. *)
Definition Contains (s : string) (c : ascii) : bool :=
  negb (sforall (fun a => negb (Ascii.eqb a c)) s).

Fixpoint HasPrefix (s p : string) {struct p} : bool :=
  match p, s with
  | EmptyString, _ => true
  | String a p', String b s' => Ascii.eqb a b && HasPrefix s' p'
  | String _ _, EmptyString => false
  end.

(** [s[n:]] and [s[:n]] for [n <= len(s)]. *)
Fixpoint str_drop (n : nat) (s : string) : string :=
  match n, s with
  | S n', String _ s' => str_drop n' s'
  | _, _ => s
  end.

Fixpoint str_take (n : nat) (s : string) : string :=
  match n, s with
  | S n', String a s' => String a (str_take n' s')
  | _, _ => EmptyString
  end.

(** [strings.TrimPrefix(s, p)]. *)
Definition TrimPrefix (s p : string) : string :=
  if HasPrefix s p then str_drop (String.length p) s else s.

(** ** Split and join *)

Definition cons_head (a : ascii) (l : list string) : list string :=
  match l with
  | x :: xs => String a x :: xs
  | [] => [str1 a]
  end.

Fixpoint Split (s : string) (c : ascii) : list string :=
  match s with
  | EmptyString => [""]
  | String a s' =>
      if Ascii.eqb a c then "" :: Split s' c else cons_head a (Split s' c)
  end.

(** [strings.SplitN(s, c, n)] for [n > 0]: at most [n] pieces, the last one
    unsplit. *)
Fixpoint SplitN (s : string) (c : ascii) (n : nat) : list string :=
  match n with
  | 0 => []
  | 1 => [s]
  | S m =>
      match s with
      | EmptyString => [""]
      | String a s' =>
          if Ascii.eqb a c then "" :: SplitN s' c m
          else cons_head a (SplitN s' c n)
      end
  end.

Fixpoint Join (l : list string) (c : ascii) : string :=
  match l with
  | [] => ""
  | [x] => x
  | x :: l' => x +:+ String c (Join l' c)
  end.

(** [strings.LastIndex(s, c)] for a one-byte [c]: [-1] when absent. *)
Fixpoint LastIndex (s : string) (c : ascii) : Z :=
  match s with
  | EmptyString => (-1)%Z
  | String a s' =>
      let r := LastIndex s' c in
      if (0 <=? r)%Z then (r + 1)%Z else if Ascii.eqb a c then 0%Z else (-1)%Z
  end.

(** ** Space *)

(** The UTF-8 encodings of the runes for which [unicode.IsSpace] holds. *)
Definition byte_str (l : list nat) : string :=
  foldr (fun n s => String (ascii_of_nat n) s) EmptyString l.

Definition space_seqs : list string :=
  (byte_str <$> ([[9]; [10]; [11]; [12]; [13]; [32]; [194; 133]; [194; 160]; [225; 154; 128]]
     ++ ((fun k => [226; 128; 128 + k]) <$> seq 0 11)
     ++ [[226; 128; 168]; [226; 128; 169]; [226; 128; 175]; [226; 129; 159]; [227; 128; 128]])).

(** One rune of [seqs] off the front of [s]. *)
Fixpoint strip1 (seqs : list string) (s : string) : option string :=
  match seqs with
  | [] => None
  | q :: qs => if HasPrefix s q then Some (str_drop (String.length q) s) else strip1 qs s
  end.

Fixpoint strip (fuel : nat) (seqs : list string) (s : string) : string :=
  match fuel with
  | 0 => s
  | S f => match strip1 seqs s with Some s' => strip f seqs s' | None => s end
  end.

Definition TrimLeft (s : string) : string := strip (String.length s) space_seqs s.
Definition TrimRight (s : string) : string :=
  String.rev (strip (String.length s) (String.rev <$> space_seqs) (String.rev s)).

(** [strings.TrimSpace]. *)
Definition TrimSpace (s : string) : string := TrimRight (TrimLeft s).

(** [bufio.Reader.ReadString('\n')] on a connection whose peer sends [s] and
    closes: [None] is [io.EOF] before a newline. *)
Fixpoint ReadString (s : string) : option string :=
  match s with
  | EmptyString => None
  | String a s' =>
      if Ascii.eqb a nl then Some (str1 nl)
      else match ReadString s' with Some r => Some (String a r) | None => None end
  end.

(** ** Upper case

    Only compared with ASCII command words: beside [a]..[z] the runes whose
    upper case is ASCII are U+0131 (dotless i) and U+017F (long s); every other
    non-ASCII rune has a non-ASCII upper case, and its bytes are kept. *)
Definition upper_ascii (a : ascii) : ascii :=
  let n := nat_of_ascii a in
  if (97 <=? n) && (n <=? 122) then ascii_of_nat (n - 32) else a.

Fixpoint ToUpper (s : string) : string :=
  match s with
  | EmptyString => EmptyString
  | String a s' =>
      match s' with
      | String b s'' =>
          if Ascii.eqb a (ascii_of_nat 196) && Ascii.eqb b (ascii_of_nat 177)
          then String "I" (ToUpper s'')
          else if Ascii.eqb a (ascii_of_nat 197) && Ascii.eqb b (ascii_of_nat 191)
          then String "S" (ToUpper s'')
          else String (upper_ascii a) (ToUpper s')
      | EmptyString => str1 (upper_ascii a)
      end
  end.

(** ** Integers (Go [int] is 64 bits wide) *)

Definition max_int : Z := 9223372036854775807%Z.
Definition min_int : Z := (-9223372036854775808)%Z.
Definition is_int64 (z : Z) : Prop := (min_int <= z <= max_int)%Z.

Definition digit (d : Z) : ascii := ascii_of_nat (Z.to_nat (48 + d)).

Definition digit_val (a : ascii) : option Z :=
  let n := Z.of_nat (nat_of_ascii a) in
  if ((48 <=? n) && (n <=? 57))%Z then Some (n - 48)%Z else None.

Fixpoint digits (fuel : nat) (z : Z) : string :=
  match fuel with
  | 0 => str1 (digit (z mod 10))
  | S f =>
      if (z <? 10)%Z then str1 (digit (z mod 10))
      else digits f (z / 10) +:+ str1 (digit (z mod 10))
  end.

(** [strconv.Itoa], and the verb [%d] of [fmt]. *)
Definition Itoa (z : Z) : string :=
  let n := Z.abs z in
  let s := digits (Z.to_nat (Z.log2 n)) n in
  if (z <? 0)%Z then String "-" s else s.

Inductive num_error := ErrSyntax | ErrRange.

Fixpoint parse_digits (acc : Z) (s : string) : option Z :=
  match s with
  | EmptyString => Some acc
  | String a s' =>
      match digit_val a with
      | Some d => parse_digits (acc * 10 + d) s'
      | None => None
      end
  end.

(** [strconv.Atoi]: on [ErrSyntax] the value is 0, on [ErrRange] the nearest
    representable integer. *)
Definition Atoi (s : string) : Z * option num_error :=
  let '(neg, body) :=
    match s with
    | String a s' =>
        if Ascii.eqb a "-" then (true, s')
        else if Ascii.eqb a "+" then (false, s') else (false, s)
    | EmptyString => (false, s)
    end in
  match body with
  | EmptyString => (0%Z, Some ErrSyntax)
  | _ =>
      match parse_digits 0 body with
      | None => (0%Z, Some ErrSyntax)
      | Some v =>
          let v := if neg then (- v)%Z else v in
          if (v <? min_int)%Z then (min_int, Some ErrRange)
          else if (max_int <? v)%Z then (max_int, Some ErrRange)
          else (v, None)
      end
  end.

(** The value of [x, _ := strconv.Atoi(s)]. *)
Definition atoi_val (s : string) : Z := (Atoi s).1.

Example split_ex : Split "a,,b" comma = ["a"; ""; "b"]. Proof. reflexivity. Qed.
Example splitn_ex : SplitN "a|b|c|d" pipe 3 = ["a"; "b"; "c|d"]. Proof. reflexivity. Qed.
Example trim_ex : TrimSpace (String nl " a b" +:+ byte_str [226; 128; 131; 32]) = "a b".
Proof. reflexivity. Qed.
Example upper_ex : ToUpper (byte_str [197; 191] +:+ "end") = "SEND". Proof. reflexivity. Qed.
Example itoa_ex : Itoa (-9223372036854775808) = "-9223372036854775808". Proof. reflexivity. Qed.
Example atoi_ex : Atoi "+9223372036854775808" = (max_int, Some ErrRange). Proof. reflexivity. Qed.
Example lastindex_ex : LastIndex "a,b,c" comma = 3%Z. Proof. reflexivity. Qed.

(** ** Lemmas: membership *)

(** [c] does not occur in [s]. *)
Definition lacks (c : ascii) (s : string) : Prop := Contains s c = false.

#[export] Instance lacks_dec c s : Decision (lacks c s).
Proof. unfold lacks. apply _. Defined.

Lemma lacks_sforall c s : lacks c s <-> sforall (fun a => negb (Ascii.eqb a c)) s = true.
Proof. unfold lacks, Contains. by rewrite negb_false_iff. Qed.

Lemma lacks_nil c : lacks c "".
Proof. done. Qed.

Lemma lacks_cons c a s : lacks c (String a s) <-> a <> c /\ lacks c s.
Proof.
  rewrite !lacks_sforall. cbn. rewrite andb_true_iff, negb_true_iff.
  by rewrite Ascii.eqb_neq.
Qed.

Lemma lacks_app c s t : lacks c (s +:+ t) <-> lacks c s /\ lacks c t.
Proof. rewrite !lacks_sforall, sforall_app. by rewrite andb_true_iff. Qed.

Lemma lacks_app_2 c s t : lacks c s -> lacks c t -> lacks c (s +:+ t).
Proof. intros ??. by apply lacks_app. Qed.

Lemma lacks_cons_2 c a s : a <> c -> lacks c s -> lacks c (String a s).
Proof. intros ??. by apply lacks_cons. Qed.

(** A string over an alphabet that excludes [c]. *)
Lemma sforall_lacks p c s : sforall p s = true -> p c = false -> lacks c s.
Proof.
  intros Hs Hp. apply lacks_sforall. revert Hs. apply sforall_impl.
  intros a Ha. apply negb_true_iff, Ascii.eqb_neq. intros ->. congruence.
Qed.

Lemma Contains_app s c t : Contains (s +:+ String c t) c = true.
Proof.
  unfold Contains. rewrite sforall_app. cbn. rewrite Ascii.eqb_refl. cbn.
  by rewrite andb_false_r.
Qed.

#[export] Hint Resolve lacks_nil lacks_app_2 : dor.

(** ** Lemmas: prefixes and slices *)

Lemma HasPrefix_app p s : HasPrefix (p +:+ s) p = true.
Proof.
  induction p as [|a p IH]; [by destruct s|].
  rewrite app_str_cons. cbn. by rewrite Ascii.eqb_refl.
Qed.

Lemma str_drop_app p s : str_drop (String.length p) (p +:+ s) = s.
Proof. induction p as [|a p IH]; [done|]. by rewrite app_str_cons. Qed.

Lemma str_take_app p s : str_take (String.length p) (p +:+ s) = p.
Proof. induction p as [|a p IH]; [done|]. rewrite app_str_cons. cbn. by rewrite IH. Qed.

Lemma str_take_drop n s : str_take n s +:+ str_drop n s = s.
Proof.
  revert s. induction n as [|n IH]; intros [|a s]; try done.
  cbn [str_take str_drop]. by rewrite app_str_cons, IH.
Qed.

Lemma length_str_take n s : String.length (str_take n s) = min n (String.length s).
Proof. revert s. induction n as [|n IH]; intros [|a s]; cbn; auto. Qed.

Lemma length_str_drop n s : String.length (str_drop n s) = String.length s - n.
Proof. revert s. induction n as [|n IH]; intros [|a s]; cbn; auto. Qed.

Lemma HasPrefix_false_head a b s p : a <> b -> HasPrefix (String a s) (String b p) = false.
Proof.
  intros H. cbn. destruct (Ascii.eqb_spec b a) as [->|]; done.
Qed.

Lemma HasPrefix_true s p : HasPrefix s p = true -> s = p +:+ str_drop (String.length p) s.
Proof.
  revert s. induction p as [|a p IH]; intros s H; [done|].
  destruct s as [|b s]; [done|]. cbn [HasPrefix] in H. b2p. subst.
  rewrite app_str_cons. cbn. f_equal. by apply IH.
Qed.

(** ** Lemmas: split and join *)

Lemma Split_not_nil s c : Split s c <> [].
Proof.
  destruct s as [|a s]; cbn; [done|]. destruct (Ascii.eqb a c); [done|].
  by destruct (Split s c).
Qed.

Lemma Split_lacks s c : lacks c s -> Split s c = [s].
Proof.
  induction s as [|a s IH]; [done|]. rewrite lacks_cons. intros [Ha Hs]. cbn.
  apply Ascii.eqb_neq in Ha. by rewrite Ha, (IH Hs).
Qed.

Lemma Split_app x y c : lacks c x -> Split (x +:+ String c y) c = x :: Split y c.
Proof.
  induction x as [|a x IH]; intros Hx.
  - rewrite app_str_nil_l. cbn. by rewrite Ascii.eqb_refl.
  - apply lacks_cons in Hx as [Ha Hx]. rewrite app_str_cons. cbn.
    apply Ascii.eqb_neq in Ha. by rewrite Ha, (IH Hx).
Qed.

Lemma SplitN_1 s c : SplitN s c 1 = [s].
Proof. by destruct s. Qed.

Lemma SplitN_lacks s c n : lacks c s -> SplitN s c (S n) = [s].
Proof.
  destruct n as [|n]; [intros; apply SplitN_1|].
  induction s as [|a s IH]; [done|]. rewrite lacks_cons. intros [Ha Hs].
  cbn [SplitN]. apply Ascii.eqb_neq in Ha. by rewrite Ha, (IH Hs).
Qed.

Lemma SplitN_app x y c n :
  lacks c x -> SplitN (x +:+ String c y) c (S (S n)) = x :: SplitN y c (S n).
Proof.
  induction x as [|a x IH]; intros Hx.
  - rewrite app_str_nil_l. cbn [SplitN]. by rewrite Ascii.eqb_refl.
  - apply lacks_cons in Hx as [Ha Hx]. rewrite app_str_cons. cbn [SplitN].
    apply Ascii.eqb_neq in Ha. by rewrite Ha, (IH Hx).
Qed.

Lemma Join_cons x l c : l <> [] -> Join (x :: l) c = x +:+ String c (Join l c).
Proof. by destruct l. Qed.

Lemma Split_Join l c : l <> [] -> Forall (lacks c) l -> Split (Join l c) c = l.
Proof.
  induction l as [|x l IH]; [done|]. intros _ [Hx Hl]%Forall_cons_1.
  destruct l as [|y l]; [by apply Split_lacks|].
  rewrite Join_cons, Split_app, IH by done. done.
Qed.

Lemma sforall_Join p d l :
  p d = true -> Forall (fun s => sforall p s = true) l -> sforall p (Join l d) = true.
Proof.
  intros Hd Hl. induction Hl as [|x l Hx Hl IH]; [done|].
  destruct l as [|y l]; [done|]. rewrite Join_cons, sforall_app by done.
  cbn [sforall]. by rewrite Hx, Hd, IH.
Qed.

Lemma lacks_Join d l c : d <> c -> Forall (lacks d) l -> lacks d (Join l c).
Proof.
  intros Hne Hl. rewrite lacks_sforall. apply sforall_Join.
  - apply negb_true_iff, Ascii.eqb_neq. congruence.
  - eapply Forall_impl; [exact Hl|]. intros s. apply lacks_sforall.
Qed.

Lemma Contains_Join a l c d : Contains a d = true -> Contains (Join (a :: l) c) d = true.
Proof.
  intros Ha. destruct l as [|b l]; [done|]. rewrite Join_cons by done. unfold Contains in *.
  rewrite sforall_app, negb_andb, Ha. done.
Qed.

Lemma Join_cons_head a l c : l <> [] -> Join (cons_head a l) c = String a (Join l c).
Proof. destruct l as [|x [|y l]]; done. Qed.

Lemma Join_Split s c : Join (Split s c) c = s.
Proof.
  induction s as [|a s IH]; [done|]. cbn.
  pose proof (Split_not_nil s c).
  destruct (Ascii.eqb_spec a c) as [->|].
  - rewrite Join_cons, IH by done. done.
  - by rewrite Join_cons_head, IH.
Qed.

Lemma SplitN_not_nil s c n : SplitN s c (S n) <> [].
Proof.
  destruct n as [|n]; [by rewrite SplitN_1|].
  destruct s as [|a s]; [done|]. cbn [SplitN].
  destruct (Ascii.eqb a c); [done|]. by destruct (SplitN s c (S (S n))).
Qed.

Lemma Join_SplitN s c n : Join (SplitN s c (S n)) c = s.
Proof.
  revert n. induction s as [|a s IH]; intros n; destruct n as [|n]; try done.
  cbn [SplitN]. destruct (Ascii.eqb_spec a c) as [->|].
  - rewrite Join_cons, IH by apply SplitN_not_nil. done.
  - by rewrite Join_cons_head, IH by apply SplitN_not_nil.
Qed.

Lemma length_SplitN s c n : length (SplitN s c n) <= n.
Proof.
  revert n. induction s as [|a s IH]; intros [|[|n]]; cbn [SplitN length]; try lia.
  destruct (Ascii.eqb a c); cbn [length].
  - specialize (IH (S n)). lia.
  - specialize (IH (S (S n))). pose proof (SplitN_not_nil s c (S n)).
    destruct (SplitN s c (S (S n))); cbn in *; lia || done.
Qed.

(** Every piece but the last is free of the separator; so is the last one when
    fewer than [n] pieces came out. *)
Lemma SplitN_pieces s c n l x :
  SplitN s c n = l ++ [x] -> Forall (lacks c) l /\ (length l + 1 < n -> lacks c x).
Proof.
  revert n l x. induction s as [|a s IH]; intros n l x H.
  - destruct n as [|[|n]]; cbn in H.
    + by destruct l.
    + destruct l as [|? [|]]; simplify_eq/=. split; [constructor|intros; lia].
    + destruct l as [|? [|]]; simplify_eq/=. split; [constructor|]. intros; apply lacks_nil.
  - destruct n as [|[|n]]; cbn [SplitN] in H.
    + by destruct l.
    + destruct l as [|? [|]]; simplify_eq/=. split; [constructor|intros; lia].
    + destruct (Ascii.eqb_spec a c) as [->|Ha].
      * destruct l as [|y l]; cbn in H; injection H as Hy H; subst.
        { by apply SplitN_not_nil in H. }
        destruct (IH _ _ _ H) as [Hl Hx].
        split; [constructor; [apply lacks_nil|done]|]. cbn [length]. intros. apply Hx. lia.
      * destruct (SplitN s c (S (S n))) as [|y ys] eqn:E.
        { by apply SplitN_not_nil in E. }
        cbn in H. destruct l as [|z l]; cbn in H; injection H as Hy H; subst.
        -- destruct (IH _ [] _ E) as [_ Hx]. split; [constructor|].
           cbn [length] in *. intros. apply lacks_cons. split; [done|]. apply Hx. lia.
        -- destruct (IH _ (y :: l) _ E) as [Hl Hx]. apply Forall_cons_1 in Hl as [Hy Hl].
           split; [|cbn [length] in *; intros; apply Hx; lia].
           constructor; [|done]. by apply lacks_cons.
Qed.

(** ** Lemmas: lines and space *)

Lemma ReadString_line s t : lacks nl s -> ReadString (s +:+ String nl t) = Some (s +:+ str1 nl).
Proof.
  induction s as [|a s IH]; intros Hs; [done|].
  apply lacks_cons in Hs as [Ha Hs]. rewrite !app_str_cons. cbn.
  apply Ascii.eqb_neq in Ha. by rewrite Ha, (IH Hs).
Qed.

(** Printable, non-space ASCII: base64 text, identifiers, addresses. *)
Definition graphic (a : ascii) : bool :=
  let n := nat_of_ascii a in (33 <=? n) && (n <=? 126).

Definition nongraphic_head (q : string) : bool :=
  match q with String b _ => negb (graphic b) | EmptyString => false end.

Lemma strip1_graphic seqs a s :
  forallb nongraphic_head seqs = true -> graphic a = true -> strip1 seqs (String a s) = None.
Proof.
  intros Hq Ha. induction seqs as [|q qs IH]; [done|]. cbn in Hq. b2p. cbn [strip1].
  destruct q as [|b q]; [done|]. rewrite HasPrefix_false_head; [by apply IH|].
  intros ->. by cbn in *; rewrite Ha in *.
Qed.

Lemma strip1_empty seqs : forallb nongraphic_head seqs = true -> strip1 seqs "" = None.
Proof.
  induction seqs as [|[|b q] qs IH]; [done|done|]. cbn. intros H. b2p. by apply IH.
Qed.

Lemma strip_graphic fuel seqs s :
  forallb nongraphic_head seqs = true -> sforall graphic s = true -> strip fuel seqs s = s.
Proof.
  intros Hq Hs. destruct fuel as [|f]; [done|]. cbn [strip].
  destruct s as [|a s]; [by rewrite strip1_empty|].
  cbn in Hs. b2p. by rewrite strip1_graphic.
Qed.

Lemma rev_app_spec s t u : String.rev_app s t +:+ u = String.rev_app s (t +:+ u).
Proof. revert t. induction s as [|a s IH]; intros t; [done|]. cbn. by rewrite IH, app_str_cons. Qed.

Lemma str_rev_cons a s : String.rev (String a s) = String.rev s +:+ str1 a.
Proof. unfold String.rev. cbn. by rewrite rev_app_spec. Qed.

Lemma str_rev_app s t : String.rev (s +:+ t) = String.rev t +:+ String.rev s.
Proof.
  induction s as [|a s IH]; [by rewrite app_str_nil_l, app_str_nil_r|].
  rewrite app_str_cons, !str_rev_cons, IH. by rewrite app_str_assoc.
Qed.

Lemma str_rev_involutive s : String.rev (String.rev s) = s.
Proof. induction s as [|a s IH]; [done|]. by rewrite str_rev_cons, str_rev_app, IH. Qed.

Lemma length_str_rev s : String.length (String.rev s) = String.length s.
Proof.
  induction s as [|a s IH]; [done|].
  rewrite str_rev_cons, length_str_app, IH. cbn. lia.
Qed.

Lemma sforall_rev p s : sforall p (String.rev s) = sforall p s.
Proof.
  induction s as [|a s IH]; [done|]. rewrite str_rev_cons, sforall_app, IH. cbn.
  by rewrite andb_true_r, andb_comm.
Qed.

Lemma TrimSpace_graphic s : sforall graphic s = true -> TrimSpace s = s.
Proof.
  intros Hs. unfold TrimSpace, TrimRight, TrimLeft.
  assert (forallb nongraphic_head space_seqs = true) by reflexivity.
  assert (forallb nongraphic_head (String.rev <$> space_seqs) = true) by reflexivity.
  rewrite (strip_graphic _ space_seqs) by done.
  rewrite strip_graphic by (rewrite ?sforall_rev; done). apply str_rev_involutive.
Qed.

(** A line made of graphic bytes comes back without its newline. *)
Lemma TrimSpace_line s : sforall graphic s = true -> TrimSpace (s +:+ str1 nl) = s.
Proof.
  intros Hs. unfold TrimSpace, TrimLeft.
  assert (Hl : strip (String.length (s +:+ str1 nl)) space_seqs (s +:+ str1 nl)
    = match s with EmptyString => "" | _ => s +:+ str1 nl end).
  { destruct s as [|a s]; [reflexivity|]. cbn in Hs. b2p.
    rewrite app_str_cons. cbn [String.length strip].
    by rewrite strip1_graphic. }
  rewrite Hl. destruct s as [|a s]; [reflexivity|]. set (t := String a s) in *.
  unfold TrimRight. rewrite str_rev_app.
  replace (String.length (t +:+ str1 nl)) with (S (String.length t))
    by (rewrite length_str_app; cbn; lia).
  change (String.rev (str1 nl) +:+ String.rev t) with (String nl (String.rev t)).
  cbn [strip].
  assert (strip1 (String.rev <$> space_seqs) (String nl (String.rev t)) = Some (String.rev t))
    as -> by reflexivity.
  rewrite strip_graphic; [apply str_rev_involutive|by vm_compute|by rewrite sforall_rev].
Qed.

(** What a peer reads of a line sent with its newline. *)
Lemma ReadString_TrimSpace s :
  sforall graphic s = true ->
  TrimSpace <$> ReadString (s +:+ str1 nl) = Some s.
Proof.
  intros Hs. unfold str1. rewrite ReadString_line; [|by eapply sforall_lacks].
  cbn. by rewrite TrimSpace_line.
Qed.

(** ** Lemmas: integers *)

Lemma digit_val_digit d : (0 <= d < 10)%Z -> digit_val (digit d) = Some d.
Proof.
  intros H. unfold digit_val, digit. rewrite nat_ascii_embedding by lia.
  rewrite Z2Nat.id by lia.
  replace (_ && _)%Z with true by (symmetry; apply andb_true_iff; split; apply Z.leb_le; lia).
  f_equal. lia.
Qed.

Lemma parse_digits_snoc s acc v d :
  parse_digits acc s = Some v -> (0 <= d < 10)%Z ->
  parse_digits acc (s +:+ str1 (digit d)) = Some (v * 10 + d)%Z.
Proof.
  revert acc. induction s as [|a s IH]; intros acc Hs Hd.
  - rewrite app_str_nil_l. cbn. rewrite digit_val_digit by done. cbn in Hs. congruence.
  - rewrite app_str_cons. cbn in *. destruct (digit_val a); [|done]. by apply IH.
Qed.

Lemma parse_digits_digits fuel z :
  (0 <= z)%Z -> (z < 2 ^ (Z.of_nat fuel + 1))%Z -> parse_digits 0 (digits fuel z) = Some z.
Proof.
  revert z. induction fuel as [|f IH]; intros z Hz Hf.
  - cbn in Hf. cbn. rewrite digit_val_digit by (apply Z.mod_pos_bound; lia).
    rewrite Z.mod_small by lia. f_equal; lia.
  - cbn [digits]. destruct (Z.ltb_spec z 10).
    + cbn. rewrite digit_val_digit by (apply Z.mod_pos_bound; lia).
      rewrite Z.mod_small by lia. f_equal; lia.
    + rewrite (parse_digits_snoc _ _ (z / 10)).
      * f_equal. pose proof (Z.div_mod z 10). lia.
      * apply IH; [apply Z.div_pos; lia|]. apply Z.div_lt_upper_bound; [lia|].
        rewrite Nat2Z.inj_succ in Hf. replace (Z.succ (Z.of_nat f) + 1)%Z
          with (Z.of_nat f + 1 + 1)%Z in Hf by lia.
        rewrite (Z.pow_add_r 2 (Z.of_nat f + 1) 1) in Hf by lia. lia.
      * apply Z.mod_pos_bound; lia.
Qed.

Definition is_digit (a : ascii) : bool :=
  let n := nat_of_ascii a in (48 <=? n) && (n <=? 57).

Lemma is_digit_digit d : (0 <= d < 10)%Z -> is_digit (digit d) = true.
Proof.
  intros H. unfold is_digit, digit. rewrite nat_ascii_embedding by lia.
  apply andb_true_iff. split; apply Nat.leb_le; lia.
Qed.

Lemma digits_are_digits fuel z : sforall is_digit (digits fuel z) = true.
Proof.
  assert (Hd : forall z, sforall is_digit (str1 (digit (z mod 10))) = true).
  { intros x. cbn. rewrite is_digit_digit; [done|]. apply Z.mod_pos_bound. lia. }
  revert z. induction fuel as [|f IH]; intros z; cbn [digits]; [apply Hd|].
  destruct (z <? 10)%Z; [apply Hd|]. by rewrite sforall_app, IH, Hd.
Qed.

Lemma digits_cons fuel z : exists a s, digits fuel z = String a s.
Proof.
  destruct fuel as [|f]; cbn [digits]; [by eexists _, _|].
  destruct (z <? 10)%Z; [by eexists _, _|].
  destruct (digits f (z / 10)) as [|a s]; [by eexists _, _|].
  rewrite app_str_cons. by eexists _, _.
Qed.

(** The text of a decimal integer. *)
Definition int_char (a : ascii) : bool := is_digit a || Ascii.eqb a "-".

Lemma Itoa_chars z : sforall int_char (Itoa z) = true.
Proof.
  unfold Itoa. set (s := digits _ _).
  assert (Hs : sforall int_char s = true).
  { eapply sforall_impl, digits_are_digits. intros a Ha. unfold int_char. by rewrite Ha. }
  destruct (z <? 0)%Z; [cbn|]; by rewrite ?Hs.
Qed.

Lemma Itoa_lacks c z : int_char c = false -> lacks c (Itoa z).
Proof. intros. eapply sforall_lacks; [apply Itoa_chars|done]. Qed.

Lemma int_char_graphic a : int_char a = true -> graphic a = true.
Proof.
  assert (H : implb (int_char a) (graphic a) = true)
    by (revert a; apply forall_bytes_spec; by vm_compute).
  intros Ha. by rewrite Ha in H.
Qed.

Lemma Itoa_graphic z : sforall graphic (Itoa z) = true.
Proof. eapply sforall_impl; [apply int_char_graphic|apply Itoa_chars]. Qed.

Lemma parse_digits_digits_log n :
  (0 <= n)%Z -> parse_digits 0 (digits (Z.to_nat (Z.log2 n)) n) = Some n.
Proof.
  intros Hn. apply parse_digits_digits; [done|].
  rewrite Z2Nat.id by apply Z.log2_nonneg.
  destruct (decide (n = 0%Z)) as [->|]; [done|].
  pose proof (Z.log2_spec n). rewrite <- Z.add_1_r in *. lia.
Qed.

Lemma digits_head fuel z a s : digits fuel z = String a s -> is_digit a = true.
Proof. intros H. pose proof (digits_are_digits fuel z) as Hd. rewrite H in Hd. cbn in Hd. by b2p. Qed.

(** [strconv.Atoi] reads back every [int] that [strconv.Itoa] (or [%d]) prints. *)
Lemma Atoi_Itoa z : is_int64 z -> Atoi (Itoa z) = (z, None).
Proof.
  unfold is_int64. intros Hz. unfold Itoa, Atoi.
  set (n := Z.abs z). assert (Hn : (0 <= n)%Z) by lia.
  pose proof (parse_digits_digits_log n Hn) as Hp.
  destruct (digits_cons (Z.to_nat (Z.log2 n)) n) as (a & s & Hd).
  pose proof (digits_head _ _ _ _ Hd) as Ha. rewrite Hd in *.
  destruct (Z.ltb_spec z 0).
  - rewrite Ascii.eqb_refl, Hp. cbn beta iota zeta.
    replace (- n)%Z with z by lia.
    destruct (Z.ltb_spec z min_int); [lia|]. destruct (Z.ltb_spec max_int z); [lia|done].
  - assert (Ascii.eqb a "-" = false /\ Ascii.eqb a "+" = false) as [-> ->].
    { split; apply Ascii.eqb_neq; intros ->; done. }
    rewrite Hp. replace n with z by lia.
    destruct (Z.ltb_spec z min_int); [lia|]. destruct (Z.ltb_spec max_int z); [lia|done].
Qed.

Lemma atoi_val_Itoa z : is_int64 z -> atoi_val (Itoa z) = z.
Proof. intros Hz. unfold atoi_val. by rewrite Atoi_Itoa. Qed.

(** The value of [Atoi] is always an [int], whatever the input. *)
Lemma atoi_val_int64 s : is_int64 (atoi_val s).
Proof.
  unfold atoi_val, Atoi, is_int64, max_int, min_int.
  repeat first [ case_match_goal | progress cbn [fst] ]; try lia;
    repeat match goal with H : (_ <? _)%Z = false |- _ => apply Z.ltb_ge in H end; lia.
Qed.

(** ** bufio.Scanner, by lines *)

(** [bufio.MaxScanTokenSize]: the line and its line break must fit. *)
Definition MaxScanTokenSize : nat := 64 * 1024.
Definition too_long (line : string) : bool := MaxScanTokenSize <=? String.length line.

(** [bufio.ScanLines] drops one carriage return at the end. *)
Definition drop_cr (line : string) : string :=
  match String.rev line with
  | String "013"%char rest => String.rev rest
  | _ => line
  end.

(** The tokens of a whole input: what follows the last line break counts when it
    is not empty, and the scanner ends at the first line that is too long. *)
Fixpoint scan_pieces (pieces : list string) : list string :=
  match pieces with
  | [] => []
  | line :: rest =>
      if too_long line then []
      else match rest with
           | [] => if String.eqb line "" then [] else [drop_cr line]
           | _ => drop_cr line :: scan_pieces rest
           end
  end.
Definition scan_lines (input : string) : list string := scan_pieces (Split input nl).

Lemma scan_pieces_stop pre line rest :
  Forall (fun l => too_long l = false) pre -> too_long line = true ->
  scan_pieces (pre ++ line :: rest) = drop_cr <$> pre.
Proof.
  intros Hpre Hl. induction Hpre as [|l pre Hs Hpre IH]; cbn [scan_pieces app]; [by rewrite Hl|].
  rewrite Hs, IH. by destruct pre.
Qed.

Lemma lacks_drop_cr line : lacks nl line -> lacks nl (drop_cr line).
Proof.
  intros H. unfold drop_cr. destruct (String.rev line) as [|a r] eqn:E; [done|].
  assert (Hr : lacks nl (String a r)) by (rewrite <- E; rewrite lacks_sforall in *; by rewrite sforall_rev).
  apply lacks_cons in Hr as [_ Hr]. rewrite lacks_sforall, <- sforall_rev, <- lacks_sforall in Hr.
  by repeat case_match.
Qed.

Lemma Split_pieces s c : Forall (lacks c) (Split s c).
Proof.
  induction s as [|a s IH]; cbn [Split]; [by apply Forall_singleton, lacks_nil|].
  destruct (Ascii.eqb_spec a c) as [|Hne]; [by constructor; [apply lacks_nil|]|].
  destruct (Split s c) as [|x l]; cbn [cons_head]; [apply Forall_singleton|apply Forall_cons_1 in IH as [Hx IH]; constructor; [|done]];
    by apply lacks_cons_2.
Qed.
