(* ===== verification/Base64.v ===== *)
(** * [encoding/base64], standard alphabet with padding

    [base64.StdEncoding.EncodeToString] and [DecodeString] as the program uses
    them: keys and ciphertexts travel as base64 text so that no byte of theirs
    collides with a separator of the line protocol.  The decoder skips CR and
    LF, requires padding and does not check trailing bits; on an error it still
    returns the bytes decoded before it, and callers that ignore the error use
    them. *)

From S2P Require Import Prelude GoStrings.

Local Open Scope Z_scope.

Definition bval (a : ascii) : Z := Z.of_nat (nat_of_ascii a).
Definition byte (z : Z) : ascii := ascii_of_nat (Z.to_nat z).

Definition b64_char (v : Z) : ascii :=
  if v <? 26 then byte (65 + v)
  else if v <? 52 then byte (97 + (v - 26))
  else if v <? 62 then byte (48 + (v - 52))
  else if v =? 62 then "+"%char else "/"%char.

Definition b64_val (a : ascii) : option Z :=
  let n := bval a in
  if (65 <=? n) && (n <=? 90) then Some (n - 65)
  else if (97 <=? n) && (n <=? 122) then Some (n - 97 + 26)
  else if (48 <=? n) && (n <=? 57) then Some (n - 48 + 52)
  else if n =? 43 then Some 62
  else if n =? 47 then Some 63
  else None.

(** Four characters of a 24-bit group. *)
Definition sext (v k : Z) : ascii := b64_char (v / k mod 64).

Fixpoint EncodeToString (s : string) : string :=
  match s with
  | EmptyString => ""
  | String a EmptyString =>
      let v := bval a * 65536 in
      String (sext v 262144) (String (sext v 4096) "==")
  | String a (String b EmptyString) =>
      let v := bval a * 65536 + bval b * 256 in
      String (sext v 262144) (String (sext v 4096) (String (sext v 64) "="))
  | String a (String b (String c s')) =>
      let v := bval a * 65536 + bval b * 256 + bval c in
      String (sext v 262144) (String (sext v 4096)
        (String (sext v 64) (String (sext v 1) (EncodeToString s'))))
  end.

Definition group (x y z t : Z) : Z := x * 262144 + y * 4096 + z * 64 + t.
Definition is_eq (a : ascii) : bool := Ascii.eqb a "="%char.

(** The quanta of a text without CR and LF: bytes decoded and whether the whole
    text was well formed. *)
Fixpoint decode_quanta (s : string) : string * bool :=
  match s with
  | EmptyString => ("", true)
  | String a (String b (String c (String d s'))) =>
      match b64_val a, b64_val b with
      | Some x, Some y =>
          match b64_val c, b64_val d with
          | Some z, Some t =>
              let v := group x y z t in
              let '(r, ok) := decode_quanta s' in
              (String (byte (v / 65536)) (String (byte (v / 256 mod 256))
                 (String (byte (v mod 256)) r)), ok)
          | Some z, None =>
              if is_eq d
              then let v := group x y z 0 in
                   (String (byte (v / 65536)) (str1 (byte (v / 256 mod 256))), String.eqb s' "")
              else ("", false)
          | None, _ =>
              if is_eq c && is_eq d
              then (str1 (byte (group x y 0 0 / 65536)), String.eqb s' "")
              else ("", false)
          end
      | _, _ => ("", false)
      end
  | _ => ("", false)
  end.

Fixpoint drop_newlines (s : string) : string :=
  match s with
  | EmptyString => ""
  | String a s' =>
      if Ascii.eqb a nl || Ascii.eqb a "013"%char then drop_newlines s'
      else String a (drop_newlines s')
  end.

Definition decode_partial (s : string) : string * bool := decode_quanta (drop_newlines s).

(** [DecodeString], with the error its callers test. *)
Definition DecodeString (s : string) : option string :=
  let '(r, ok) := decode_partial s in if ok then Some r else None.

Example enc_ex : EncodeToString "onion" = "b25pb24=". Proof. reflexivity. Qed.
Example dec_ex : DecodeString "b25pb24=" = Some "onion". Proof. reflexivity. Qed.
Example dec_bad : decode_partial "b25pb24" = ("oni", false). Proof. reflexivity. Qed.

(** ** Round trip *)

Lemma bval_bound a : 0 <= bval a < 256.
Proof. unfold bval. pose proof (nat_ascii_bounded a). lia. Qed.

Lemma byte_bval a : byte (bval a) = a.
Proof. unfold byte, bval. rewrite Nat2Z.id. apply ascii_nat_embedding. Qed.

Lemma b64_val_char v : 0 <= v < 64 -> b64_val (b64_char v) = Some v.
Proof.
  intros H. assert (Hall : forallb (fun n => match b64_val (b64_char (Z.of_nat n)) with
    | Some w => w =? Z.of_nat n | None => false end) (seq 0 64) = true) by reflexivity.
  rewrite forallb_forall in Hall. specialize (Hall (Z.to_nat v)).
  rewrite Z2Nat.id in Hall by lia. rewrite in_seq in Hall. specialize (Hall ltac:(lia)).
  destruct (b64_val (b64_char v)); [|done]. apply Z.eqb_eq in Hall. congruence.
Qed.

Lemma sext_val v k : b64_val (sext v k) = Some (v / k mod 64).
Proof. apply b64_val_char, Z.mod_pos_bound. lia. Qed.

(** The alphabet of encoded text. *)
Definition is_b64 (a : ascii) : bool :=
  match b64_val a with Some _ => true | None => is_eq a end.

Lemma sext_is_b64 v k : is_b64 (sext v k) = true.
Proof. unfold is_b64. by rewrite sext_val. Qed.

(** Induction by groups of three bytes. *)
Lemma string_ind3 (P : string -> Prop) :
  P "" -> (forall a, P (str1 a)) -> (forall a b, P (String a (str1 b))) ->
  (forall a b c s, P s -> P (String a (String b (String c s)))) -> forall s, P s.
Proof.
  intros H0 H1 H2 H3. fix IH 1. intros [|a [|b [|c s]]].
  - exact H0.
  - apply H1.
  - apply H2.
  - apply H3, IH.
Qed.

Lemma EncodeToString_b64 s : sforall is_b64 (EncodeToString s) = true.
Proof.
  induction s using string_ind3; cbn [EncodeToString str1 sforall]; rewrite ?sext_is_b64;
    cbn; auto.
Qed.

Lemma is_b64_not_newline a :
  is_b64 a = true -> Ascii.eqb a nl || Ascii.eqb a "013"%char = false.
Proof.
  intros H. destruct (Ascii.eqb_spec a nl) as [->|]; [done|].
  destruct (Ascii.eqb_spec a "013"%char) as [->|]; done.
Qed.

Lemma drop_newlines_b64 s : sforall is_b64 s = true -> drop_newlines s = s.
Proof.
  induction s as [|a s IH]; [done|]. cbn. intros H. b2p.
  rewrite is_b64_not_newline, IH; done.
Qed.

Ltac div_mod_solve := Z.to_euclidean_division_equations; lia.

Lemma group3 x y z :
  0 <= x < 256 -> 0 <= y < 256 -> 0 <= z < 256 ->
  let v := x * 65536 + y * 256 + z in
  group (v / 262144 mod 64) (v / 4096 mod 64) (v / 64 mod 64) (v / 1 mod 64) = v.
Proof. intros. unfold group, v. div_mod_solve. Qed.

Lemma group2 x y :
  0 <= x < 256 -> 0 <= y < 256 ->
  let v := x * 65536 + y * 256 in
  group (v / 262144 mod 64) (v / 4096 mod 64) (v / 64 mod 64) 0 = v.
Proof. intros. unfold group, v. div_mod_solve. Qed.

Lemma group1 x :
  0 <= x < 256 ->
  let v := x * 65536 in group (v / 262144 mod 64) (v / 4096 mod 64) 0 0 = v.
Proof. intros. unfold group, v. div_mod_solve. Qed.

Lemma decode_quanta_encode s : decode_quanta (EncodeToString s) = (s, true).
Proof.
  induction s as [|a|a b|a b c s IH] using string_ind3; [done|..];
    cbn [EncodeToString str1 decode_quanta]; rewrite !sext_val; cbn [b64_val is_eq];
    pose proof (bval_bound a).
  - assert (b64_val "=" = None) as -> by reflexivity. cbn [andb is_eq Ascii.eqb].
    rewrite group1 by done. cbn. repeat f_equal.
    replace (bval a * 65536 / 65536) with (bval a) by div_mod_solve. by rewrite byte_bval.
  - pose proof (bval_bound b). assert (b64_val "=" = None) as -> by reflexivity.
    rewrite group2 by done. cbn [is_eq].
    replace ((bval a * 65536 + bval b * 256) / 65536) with (bval a) by div_mod_solve.
    replace ((bval a * 65536 + bval b * 256) / 256 mod 256) with (bval b) by div_mod_solve.
    by rewrite !byte_bval.
  - pose proof (bval_bound b). pose proof (bval_bound c).
    rewrite IH, group3 by done.
    replace ((bval a * 65536 + bval b * 256 + bval c) / 65536) with (bval a) by div_mod_solve.
    replace ((bval a * 65536 + bval b * 256 + bval c) / 256 mod 256) with (bval b)
      by div_mod_solve.
    replace ((bval a * 65536 + bval b * 256 + bval c) mod 256) with (bval c) by div_mod_solve.
    by rewrite !byte_bval.
Qed.

Lemma DecodeString_EncodeToString s : DecodeString (EncodeToString s) = Some s.
Proof.
  unfold DecodeString, decode_partial.
  rewrite drop_newlines_b64 by apply EncodeToString_b64. by rewrite decode_quanta_encode.
Qed.

(** ** Alphabet: no separator of the protocol occurs in encoded text *)

Lemma EncodeToString_lacks c s : is_b64 c = false -> lacks c (EncodeToString s).
Proof. intros. eapply sforall_lacks; [apply EncodeToString_b64|done]. Qed.

Lemma is_b64_graphic a : is_b64 a = true -> graphic a = true.
Proof.
  assert (H : implb (is_b64 a) (graphic a) = true)
    by (revert a; apply forall_bytes_spec; by vm_compute).
  intros Ha. by rewrite Ha in H.
Qed.

Lemma EncodeToString_graphic s : sforall graphic (EncodeToString s) = true.
Proof. eapply sforall_impl; [apply is_b64_graphic|apply EncodeToString_b64]. Qed.

Lemma EncodeToString_nonempty a s : EncodeToString (String a s) <> "".
Proof. by destruct s as [|b [|c s]]. Qed.
