(* ===== verification/JavaScript.v ===== *)
(** * The JavaScript of the two pages: strings, objects, patterns

    The scripts inside web_page.go and dashboard/main.go use a few built-ins.
    A string is its UTF-8 bytes; what the scripts cut at and look for is ASCII,
    so bytes serve as well as UTF-16 units.  An object used as a map is an
    association list in the order of insertion, as [Object.entries] and
    [Object.keys] enumerate it; names that every object inherits are not
    treated.  A regular expression is a list of pieces and a matcher that tries
    the longest repetition first and backtracks. *)

From S2P Require Import Prelude GoStrings.

(** [s || d]. *)
Definition or_else (s d : string) : string := if String.eqb s "" then d else s.

(** The white space and line terminators of ECMAScript, in UTF-8. *)
Definition js_space_seqs : list string :=
  byte_str <$> ([[9]; [10]; [11]; [12]; [13]; [32]; [194; 160]; [239; 187; 191]; [225; 154; 128]]
    ++ ((fun k => [226; 128; 128 + k]) <$> seq 0 11)
    ++ [[226; 128; 168]; [226; 128; 169]; [226; 128; 175]; [226; 129; 159]; [227; 128; 128]]).

(** [String.prototype.trim]. *)
Definition trim_left (s : string) : string := strip (String.length s) js_space_seqs s.
Definition trim_right (s : string) : string :=
  String.rev (strip (String.length s) (String.rev <$> js_space_seqs) (String.rev s)).
Definition js_trim (s : string) : string := trim_right (trim_left s).

(** [parseInt(s)]: sign and digits, whatever follows; [None] is [NaN].  The
    values are read off number inputs, which hold no hexadecimal text. *)
Fixpoint leading_digits (s : string) : string :=
  match s with
  | String a s' => if is_digit a then String a (leading_digits s') else ""
  | "" => ""
  end.
Definition parse_unsigned (s : string) : option Z :=
  if String.eqb (leading_digits s) "" then None else parse_digits 0 (leading_digits s).
Definition parseInt (s : string) : option Z :=
  match trim_left s with
  | String "-" s' => Z.opp <$> parse_unsigned s'
  | String "+" s' => parse_unsigned s'
  | s' => parse_unsigned s'
  end.

(** ** Objects *)

Section Objects.
Context {A : Type}.
Implicit Types o : list (string * A).

Fixpoint obj_get (k : string) o : option A :=
  match o with
  | [] => None
  | (k', v) :: o => if String.eqb k k' then Some v else obj_get k o
  end.

(** [o[k] = v]. *)
Fixpoint obj_set (k : string) (v : A) o : list (string * A) :=
  match o with
  | [] => [(k, v)]
  | (k', v') :: o => if String.eqb k k' then (k', v) :: o else (k', v') :: obj_set k v o
  end.

(** [delete o[k]]. *)
Definition obj_del (k : string) o : list (string * A) := filter (fun e => e.1 <> k) o.

Definition keys o : list string := o.*1.
#[global] Arguments keys : simpl never.

Lemma obj_get_keys k o : is_Some (obj_get k o) <-> k ∈ keys o.
Proof.
  unfold keys. induction o as [|[k' v] o IH]; cbn.
  - split; [by intros []|by intros ?%not_elem_of_nil].
  - rewrite elem_of_cons. destruct (String.eqb_spec k k') as [->|Hne].
    + split; [by left|by eexists].
    + rewrite IH. split; [by right|by intros [|]].
Qed.

Lemma obj_get_Some k v o : obj_get k o = Some v -> (k, v) ∈ o.
Proof.
  induction o as [|[k' v'] o IH]; [done|]. cbn. destruct (String.eqb_spec k k') as [->|]; intros H.
  - injection H as ->. by left.
  - right. by apply IH.
Qed.

Lemma obj_get_None k o : obj_get k o = None <-> k ∉ keys o.
Proof. rewrite <- obj_get_keys, eq_None_not_Some. done. Qed.

Lemma keys_obj_set k v o : keys (obj_set k v o) = if decide (k ∈ keys o) then keys o else keys o ++ [k].
Proof.
  unfold keys. induction o as [|[k' v'] o IH]; [done|]. cbn [obj_set].
  destruct (String.eqb_spec k k') as [->|Hne].
  - rewrite decide_True; [done|by left].
  - cbn. rewrite IH. case_decide as H1; case_decide as H2; try done.
    + by destruct H2; right.
    + by apply elem_of_cons in H2 as [|].
Qed.

Lemma obj_get_set k k' v o : obj_get k (obj_set k' v o) = if String.eqb k k' then Some v else obj_get k o.
Proof.
  induction o as [|[j w] o IH]; [done|]. cbn [obj_set].
  destruct (String.eqb_spec k' j) as [->|Hne]; cbn [obj_get].
  - by destruct (String.eqb k j).
  - rewrite IH. destruct (String.eqb_spec k j) as [->|]; [|done].
    destruct (String.eqb_spec j k'); congruence.
Qed.

Lemma keys_obj_del k o : keys (obj_del k o) = filter (fun k' => k' <> k) (keys o).
Proof.
  unfold keys, obj_del. induction o as [|[k' v] o IH]; [done|]. cbn [fmap list_fmap].
  rewrite !filter_cons. cbn [fst]. case_decide; cbn; by rewrite IH.
Qed.

Lemma obj_get_del k k' o : k <> k' -> obj_get k (obj_del k' o) = obj_get k o.
Proof.
  intros Hne. unfold obj_del. induction o as [|[j v] o IH]; [done|]. rewrite filter_cons. cbn [fst].
  case_decide as Hj; cbn [obj_get]; rewrite IH; [done|].
  destruct (String.eqb_spec k j); congruence.
Qed.

Lemma Forall_obj_set (P : string * A -> Prop) k v o :
  P (k, v) -> Forall P o -> Forall P (obj_set k v o).
Proof.
  intros Hv. induction 1 as [|[k' v'] o H1 H2 IH]; cbn [obj_set]; [by apply Forall_singleton|].
  destruct (String.eqb_spec k k') as [->|]; by constructor.
Qed.
End Objects.

(** ** Patterns *)

(** What one character of a class takes off the front of a text. *)
Definition class : Type := string -> option string.

Definition byte_if (p : ascii -> bool) : class := fun s =>
  match s with String a s' => if p a then Some s' else None | "" => None end.
Definition not_byte (c : ascii) : class := byte_if (fun a => negb (Ascii.eqb a c)).
Definition upper : class := byte_if (fun a => let n := nat_of_ascii a in (65 <=? n) && (n <=? 90)).
(** [\s], and [.] with the flag [s]. *)
Definition white : class := strip1 js_space_seqs.
Definition any : class := byte_if (fun _ => true).

Inductive piece :=
| Lit (p : string)        (* the text itself *)
| Maybe (p : string)      (* (?:p)? *)
| Star (u : class)        (* u* *)
| Plus (u : class)        (* u+ *)
| GroupOpen | GroupClose            (* a capturing group *)
| AtEnd.                  (* $ *)

Section Greedy.
Context {R : Type}.

(** As many characters of [u] as the rest [k] of the pattern allows. *)
Fixpoint greedy (fuel : nat) (u : class) (k : string -> option R) (s : string) : option R :=
  match fuel with
  | 0 => k s
  | S fuel =>
      match u s with
      | Some s' => match greedy fuel u k s' with Some r => Some r | None => k s end
      | None => k s
      end
  end.

(** A run of bytes that are not [c], up to a [c] where the rest matches. *)
Lemma greedy_until c (k : string -> option R) x y r fuel :
  lacks c x -> k (String c y) = Some r -> String.length (x +:+ String c y) <= fuel ->
  greedy fuel (not_byte c) k (x +:+ String c y) = Some r.
Proof.
  revert fuel. induction x as [|a x IH]; intros fuel Hx Hk Hf.
  - rewrite app_str_nil_l in *. destruct fuel as [|fuel]; [cbn in Hf; lia|]. cbn.
    by rewrite Ascii.eqb_refl.
  - apply lacks_cons in Hx as [Ha Hx]. rewrite app_str_cons in *. destruct fuel as [|fuel]; [cbn in Hf; lia|].
    apply Ascii.eqb_neq in Ha. cbn. rewrite Ha. cbn. rewrite IH; [done..|]. cbn in Hf. lia.
Qed.

(** A run of a class up to a text that does not start in it. *)
Lemma greedy_class p (k : string -> option R) x y r fuel :
  sforall p x = true -> byte_if p y = None -> k y = Some r -> String.length (x +:+ y) <= fuel ->
  greedy fuel (byte_if p) k (x +:+ y) = Some r.
Proof.
  revert fuel. induction x as [|a x IH]; intros fuel Hx Hy Hk Hf.
  - rewrite app_str_nil_l in *. destruct fuel as [|fuel]; cbn; [done|]. by rewrite Hy.
  - cbn in Hx. b2p. rewrite app_str_cons in *. destruct fuel as [|fuel]; [cbn in Hf; lia|].
    cbn [greedy byte_if]. rewrite H. rewrite IH; [done..|]. cbn in Hf. lia.
Qed.
End Greedy.

(** [from]: the text at the last [GroupOpen].  The result: what the groups took. *)
Fixpoint match_here (ps : list piece) (from s : string) : option (list string) :=
  match ps with
  | [] => Some []
  | Lit p :: ps => if HasPrefix s p then match_here ps from (str_drop (String.length p) s) else None
  | Maybe p :: ps =>
      match (if HasPrefix s p then match_here ps from (str_drop (String.length p) s) else None) with
      | Some l => Some l
      | None => match_here ps from s
      end
  | Star u :: ps => greedy (String.length s) u (match_here ps from) s
  | Plus u :: ps =>
      match u s with Some s' => greedy (String.length s') u (match_here ps from) s' | None => None end
  | GroupOpen :: ps => match_here ps s s
  | GroupClose :: ps =>
      l ← match_here ps from s;
      Some (str_take (String.length from - String.length s) from :: l)
  | AtEnd :: ps => if String.eqb s "" then match_here ps from s else None
  end.

(** [text.match(/^.../)], and the same without the anchor. *)
Definition match_start (ps : list piece) (s : string) : option (list string) := match_here ps s s.
Fixpoint match_any (ps : list piece) (s : string) : option (list string) :=
  match match_start ps s with
  | Some l => Some l
  | None => match s with String _ s' => match_any ps s' | "" => None end
  end.

Lemma match_lit p ps from s : match_here (Lit p :: ps) from (p +:+ s) = match_here ps from s.
Proof. cbn [match_here]. by rewrite HasPrefix_app, str_drop_app. Qed.

Lemma match_maybe p ps from s l :
  match_here ps from s = Some l -> match_here (Maybe p :: ps) from (p +:+ s) = Some l.
Proof. intros Hl. cbn [match_here]. by rewrite HasPrefix_app, str_drop_app, Hl. Qed.

Lemma match_skip p ps from s : HasPrefix s p = false -> match_here (Maybe p :: ps) from s = match_here ps from s.
Proof. intros Hp. cbn [match_here]. by rewrite Hp. Qed.

Lemma str_take_app_length x y : str_take (String.length (x +:+ y) - String.length y) (x +:+ y) = x.
Proof.
  rewrite length_str_app. replace (String.length x + String.length y - String.length y) with (String.length x) by lia.
  apply str_take_app.
Qed.

(** [([^c]+)] up to a [c]. *)
Lemma match_group_until c x ps from y l :
  lacks c x -> x <> "" -> match_here ps (x +:+ String c y) (String c y) = Some l ->
  match_here (GroupOpen :: Plus (not_byte c) :: GroupClose :: ps) from (x +:+ String c y) = Some (x :: l).
Proof.
  intros Hx Hne Hl. destruct x as [|a x]; [done|]. set (s := String a x +:+ String c y) in *.
  assert (Ha := Hx). apply lacks_cons in Ha as [Ha Hx']. apply Ascii.eqb_neq in Ha.
  cbn [match_here]. unfold s at 1. rewrite app_str_cons. cbn [not_byte byte_if]. rewrite Ha. cbn [negb].
  fold (not_byte c). apply greedy_until; [done| |done].
  change (str_take _ _) with (str_take (String.length s - String.length (String c y)) s).
  rewrite Hl. cbn. do 2 f_equal. apply (str_take_app_length (String a x)).
Qed.

(** [([A-Z]+)] up to another byte. *)
Lemma match_group_class p x ps from y l :
  sforall p x = true -> x <> "" -> byte_if p y = None -> match_here ps (x +:+ y) y = Some l ->
  match_here (GroupOpen :: Plus (byte_if p) :: GroupClose :: ps) from (x +:+ y) = Some (x :: l).
Proof.
  intros Hx Hne Hy Hl. destruct x as [|a x]; [done|]. set (s := String a x +:+ y) in *.
  assert (Ha := Hx). cbn in Ha. b2p.
  cbn [match_here]. unfold s at 1. rewrite app_str_cons. cbn [byte_if].
  rewrite H. apply greedy_class; [done|done| |done].
  rewrite Hl. cbn. do 2 f_equal. apply (str_take_app_length (String a x)).
Qed.

(** [[^c]*] up to a [c], and the same in a group. *)
Lemma match_star_until c x ps from y l :
  lacks c x -> match_here ps from (String c y) = Some l ->
  match_here (Star (not_byte c) :: ps) from (x +:+ String c y) = Some l.
Proof. intros Hx Hl. cbn [match_here]. by apply greedy_until. Qed.

(** One character of a class. *)
Lemma match_star_one u ps from a s l :
  u (String a s) = Some s -> u s = None -> match_here ps from s = Some l ->
  match_here (Star u :: ps) from (String a s) = Some l.
Proof.
  intros H1 H2 Hl. cbn [match_here]. change (String.length (String a s)) with (S (String.length s)).
  cbn [greedy]. rewrite H1. assert (Hs : greedy (String.length s) u (match_here ps from) s = Some l).
  { destruct (String.length s); cbn [greedy]; [done|]. by rewrite H2. }
  by rewrite Hs.
Qed.

Lemma match_plus_until c x ps from y l :
  lacks c x -> x <> "" -> match_here ps from (String c y) = Some l ->
  match_here (Plus (not_byte c) :: ps) from (x +:+ String c y) = Some l.
Proof.
  intros Hx Hne Hl. destruct x as [|a x]; [done|]. apply lacks_cons in Hx as [Ha Hx]. apply Ascii.eqb_neq in Ha.
  cbn [match_here]. rewrite app_str_cons. cbn [not_byte byte_if]. rewrite Ha. cbn [negb].
  fold (not_byte c). by apply greedy_until.
Qed.

Lemma match_group_star c x ps from y l :
  lacks c x -> match_here ps (x +:+ String c y) (String c y) = Some l ->
  match_here (GroupOpen :: Star (not_byte c) :: GroupClose :: ps) from (x +:+ String c y) = Some (x :: l).
Proof.
  intros Hx Hl. cbn [match_here]. apply greedy_until; [done| |done]. rewrite Hl. cbn. do 2 f_equal.
  apply (str_take_app_length x).
Qed.

(** [(.+)$] with the flag [s]: all that is left. *)
Lemma match_group_rest from s :
  s <> "" -> match_here [GroupOpen; Plus any; GroupClose; AtEnd] from s = Some [s].
Proof.
  intros Hne. destruct s as [|a s]; [done|]. cbn [match_here any byte_if].
  assert (Hs : sforall (fun _ : ascii => true) s = true) by (clear; induction s; done).
  assert (Hg := fun (k : string -> option (list string)) r H => greedy_class (fun _ => true) k s "" r (String.length s) Hs eq_refl H).
  rewrite !app_str_nil_r in Hg. apply Hg; [|lia].
  cbn. do 3 f_equal. assert (Ht := str_take_app_length s ""). rewrite app_str_nil_r in Ht.
  cbn in Ht. by rewrite Nat.sub_0_r in Ht.
Qed.

(** A pattern that starts with a text is looked for from its first byte on. *)
Lemma match_any_skip a p ps x s :
  lacks a x -> match_any (Lit (String a p) :: ps) (x +:+ s) = match_any (Lit (String a p) :: ps) s.
Proof.
  induction x as [|b x IH]; intros Hx; [done|]. apply lacks_cons in Hx as [Hb Hx]. rewrite app_str_cons.
  cbn [match_any]. rewrite IH by done. unfold match_start. cbn [match_here HasPrefix].
  apply Ascii.eqb_neq in Hb. by rewrite Ascii.eqb_sym, Hb.
Qed.

Lemma match_any_start ps s l : match_start ps s = Some l -> match_any ps s = Some l.
Proof. intros Hl. destruct s; cbn [match_any]; by rewrite Hl. Qed.

Lemma match_any_none p ps s :
  (forall i, HasPrefix (str_drop i s) p = false) -> match_any (Lit p :: ps) s = None.
Proof.
  induction s as [|a s IH]; intros Hp; assert (H0 := Hp 0); unfold str_drop in H0; cbn [match_any];
    unfold match_start; cbn [match_here]; rewrite H0; [done|].
  apply IH. intros i. apply (Hp (S i)).
Qed.

(** ** Trimming *)

Lemma strip_graphic_head fuel seqs a s :
  forallb nongraphic_head seqs = true -> graphic a = true -> strip fuel seqs (String a s) = String a s.
Proof. intros Hq Ha. destruct fuel; [done|]. cbn [strip]. by rewrite strip1_graphic. Qed.

(** A text that starts and ends with a graphic byte keeps its ends. *)
Lemma trim_ends (seqs : list string) a s b :
  forallb nongraphic_head seqs = true -> forallb nongraphic_head (String.rev <$> seqs) = true ->
  graphic a = true -> graphic b = true ->
  let x := String a s +:+ str1 b in
  String.rev (strip (String.length (strip (String.length x) seqs x)) (String.rev <$> seqs)
    (String.rev (strip (String.length x) seqs x))) = x.
Proof.
  intros H1 H2 Ha Hb x. assert (forall n, strip n seqs x = x) as -> by (intros n; by apply strip_graphic_head).
  assert (Hx : String.rev x = String b (String.rev (String a s))).
  { unfold x. by rewrite str_rev_app. }
  rewrite Hx, strip_graphic_head, <- Hx by done. apply str_rev_involutive.
Qed.

Lemma TrimSpace_ends a s b :
  graphic a = true -> graphic b = true -> TrimSpace (String a s +:+ str1 b) = String a s +:+ str1 b.
Proof. intros Ha Hb. by apply (trim_ends space_seqs). Qed.

Lemma js_trim_graphic s : sforall graphic s = true -> js_trim s = s.
Proof.
  intros Hs. unfold js_trim, trim_right, trim_left.
  rewrite (strip_graphic _ js_space_seqs) by done.
  rewrite strip_graphic by (rewrite ?sforall_rev; done). apply str_rev_involutive.
Qed.

(** ** [EventSource] *)

Definition cr : ascii := "013"%char.

(** The lines of an event stream end at LF, CR or CR LF; what follows the last
    end is not a line yet. *)
Fixpoint stream_lines (s : string) : list string :=
  match s with
  | "" => [""]
  | String a s' =>
      if Ascii.eqb a nl then "" :: stream_lines s'
      else if Ascii.eqb a cr then
        match s' with
        | String b s'' => if Ascii.eqb b nl then "" :: stream_lines s'' else "" :: stream_lines s'
        | "" => "" :: stream_lines s'
        end
      else cons_head a (stream_lines s')
  end.

(** Field and value of a line. *)
Definition field (line : string) : string * string :=
  match SplitN line colon 2 with
  | [name; value] => (name, TrimPrefix value " ")
  | _ => (line, "")
  end.

(** What [onmessage] gets; [data]: the lines since the last empty one. *)
Fixpoint dispatch_events (lines : list string) (data : option string) (type : string) : list string :=
  match lines with
  | [] | [_] => []
  | line :: rest =>
      if String.eqb line "" then
        match data with
        | Some d =>
            if String.eqb type "" || String.eqb type "message" then d :: dispatch_events rest None ""
            else dispatch_events rest None ""
        | None => dispatch_events rest None ""
        end
      else
        let '(name, value) := field line in
        if String.eqb name "data" then
          dispatch_events rest (Some match data with Some d => d +:+ str1 nl +:+ value | None => value end) type
        else if String.eqb name "event" then dispatch_events rest data value
        else dispatch_events rest data type
  end.
Definition event_stream (bytes : string) : list string := dispatch_events (stream_lines bytes) None "".

Lemma stream_lines_not_nil s : stream_lines s <> [].
Proof.
  destruct s as [|a s]; [done|]. cbn. destruct (Ascii.eqb a nl); [done|]. destruct (Ascii.eqb a cr).
  - destruct s as [|b s]; [done|]. by destruct (Ascii.eqb b nl).
  - unfold cons_head. by destruct (stream_lines s).
Qed.

Lemma stream_lines_line x y :
  lacks nl x -> lacks cr x -> stream_lines (x +:+ String nl y) = x :: stream_lines y.
Proof.
  induction x as [|a x IH]; intros Hn Hc; [done|]. apply lacks_cons in Hn as [Hn Hn'], Hc as [Hc Hc'].
  rewrite app_str_cons. cbn. apply Ascii.eqb_neq in Hn, Hc. by rewrite Hn, Hc, IH.
Qed.
