(* ===== verification/GoMonad.v ===== *)
(** * Goroutines as programs over an effect signature

    A goroutine is a finite tree of effects [prog S A]: mutexes, accesses to the
    shared state [S], channels, network, randomness, clock and output.  The tree
    is written with stdpp's monad notation, so a definition reads like the Go
    function it models.  [run] executes one goroutine alone against an
    environment of oracles; the file Concurrency interleaves several. *)

From S2P Require Import Prelude.

(** The mutexes of a node process: [Node.KeyMu], [Node.Mu], [Node.FragMu],
    [Node.SeenMu], [Node.ReceivedMu] and [KeyCache.mu]; [Db] stands for the
    lock by which SQLite makes each statement of the directory atomic. *)
Inductive mutex := KeyMu | Mu | FragMu | SeenMu | ReceivedMu | CacheMu | Db.
Inductive lockmode := Exclusive | Shared.

#[export] Instance mutex_eq_dec : EqDecision mutex.
Proof. solve_decision. Defined.
#[export] Instance lockmode_eq_dec : EqDecision lockmode.
Proof. solve_decision. Defined.

(** A telemetry event, as [telEvent] of telemetry.go. *)
Record telEvent := TelEvent {
  tel_From : string; tel_To : string; tel_Type : string;
  tel_Msg : string; tel_ExID : string; tel_Hop : Z }.

(** The goroutines that the node starts: [go SendWithRetry(...)] and
    [go SendWithRetrySuper(...)] with the arguments that vary, the accept loop,
    the web interface, the cleaner of the key cache and the loop of
    [startStdoutBridge]. *)
Inductive goroutine :=
| GoStartNode
| GoWebUI
| GoCleanCache
| GoStdoutBridge
| GoSend (destAddr message frag : string) (numRelays maxRetries startTime : Z)
| GoSendSuper (destAddr message : string) (numHops groupSize maxRetries startTime : Z).

(** An exchange with a peer: no connection, or whether the line was written
    and what was read up to a line break or an error. *)
Inductive ask_result :=
| NoDial
| Dialed (wrote : bool) (got : string) (whole : bool).

Section Programs.
Context (S : Type).

Inductive goE : Type -> Type :=
| ELock (m : mutex) (md : lockmode) : goE unit
| EUnlock (m : mutex) (md : lockmode) : goE unit
| EAcc {A : Type} (m : mutex) (f : S -> A * S) : goE A
    (* read or write the fields that [m] guards *)
| EGet {A : Type} (f : S -> A) : goE A
    (* read a field that is not written once the process serves *)
| ESet (f : S -> S) : goE unit
    (* write such a field, while the process starts *)
| EMakeChan (cap : nat) : goE nat
| EChanSend (c : nat) (b : bool) : goE unit
| ESelect (c : nat) : goE (option bool)
    (* select { case b := <-c; case <-time.After(8 s) } *)
| EDial (addr msg : string) : goE bool
    (* net.Dial, conn.Write(msg), conn.Close: err == nil *)
| ERequest (line : string) : goE (option string)
    (* one TLS exchange with the directory: line written, answer line read
       (when the caller reads one); None: an error on the way *)
| EIntn (n : Z) : goE Z
| ERandBytes (n : nat) : goE string
| ENow : goE Z
| ESleep (d : Z) : goE unit
| EGetenv (k : string) : goE string
| EFault : goE bool
    (* whether the library call made at this point returns an error *)
| EReply (s : string) : goE bool
    (* conn.Write to the peer of the connection being served *)
| EAsk (addr line : string) : goE ask_result
    (* net.Dial, conn.Write(line), ReadString, conn.Close *)
| ESpawn (g : goroutine) : goE unit
| EPrint (s : string) : goE unit
| ETelemetry (t : telEvent) : goE unit.

Inductive prog (A : Type) : Type :=
| Ret (a : A)
| Raise (why : string)
| Vis {X : Type} (e : goE X) (k : X -> prog A).

End Programs.

Arguments ELock {S}. Arguments EUnlock {S}. Arguments EAcc {S A}. Arguments EGet {S A}. Arguments ESet {S}.
Arguments EMakeChan {S}. Arguments EChanSend {S}. Arguments ESelect {S}.
Arguments EDial {S}. Arguments ERequest {S}. Arguments EIntn {S}. Arguments ERandBytes {S}.
Arguments ENow {S}. Arguments ESleep {S}. Arguments EGetenv {S}. Arguments EReply {S}. Arguments EFault {S}.
Arguments EAsk {S}. Arguments ESpawn {S}. Arguments EPrint {S}. Arguments ETelemetry {S}.
Arguments Ret {S A}. Arguments Raise {S A}. Arguments Vis {S A X}.

Fixpoint prog_bind {S A B} (p : prog S A) (f : A -> prog S B) : prog S B :=
  match p with
  | Ret a => f a
  | Raise w => Raise w
  | Vis e k => Vis e (fun x => prog_bind (k x) f)
  end.

#[export] Instance prog_mret S : MRet (prog S) := fun A a => Ret a.
#[export] Instance prog_mbind S : MBind (prog S) := fun A B f p => prog_bind p f.

Definition trigger {S X} (e : goE S X) : prog S X := Vis e (fun x => Ret x).

(** A pure Go call inside a goroutine: its panics are the goroutine's; its
    error comes back as a value. *)
Definition of_gores {S A} (r : gores A) : prog S (A + string) :=
  match r with
  | GOk a => Ret (inl a)
  | GErr e => Ret (inr e)
  | GPanic w => Raise w
  end.

(** A slice access: out of range it panics. *)
Definition get_index {S A} (l : list A) (i : nat) : prog S A :=
  match l !! i with
  | Some x => Ret x
  | None => Raise "index out of range"
  end.

Definition Lock {S} (m : mutex) : prog S unit := trigger (ELock m Exclusive).
Definition Unlock {S} (m : mutex) : prog S unit := trigger (EUnlock m Exclusive).
Definition RLock {S} (m : mutex) : prog S unit := trigger (ELock m Shared).
Definition RUnlock {S} (m : mutex) : prog S unit := trigger (EUnlock m Shared).
Definition acc {S A} (m : mutex) (f : S -> A * S) : prog S A := trigger (EAcc m f).
Definition read {S A} (m : mutex) (f : S -> A) : prog S A :=
  trigger (EAcc m (fun s => (f s, s))).
Definition write {S} (m : mutex) (f : S -> S) : prog S unit :=
  trigger (EAcc m (fun s => (tt, f s))).

(** ** Randomness *)

(** [mrand.Shuffle(len(l), swap)], and the loop of [SendWithRetry]:
    Fisher-Yates from the last index down to 1. *)
Fixpoint shuffle_from {S A} (i : nat) (l : list A) : prog S (list A) :=
  match i with
  | 0 => Ret l
  | Datatypes.S i' =>
      j ← trigger (EIntn (Z.of_nat i + 1));
      shuffle_from i' (swap i (Z.to_nat j) l)
  end.

Definition Shuffle {S A} (l : list A) : prog S (list A) := shuffle_from (length l - 1) l.

(** ** Worlds *)

Record chan := Chan { buf : list bool; cap : nat }.

(** What a goroutine did that the outside can see, or the outside answered. *)
Inductive event :=
| EvDial (addr msg : string) (ok : bool)
| EvRequest (line : string) (resp : option string)
| EvRand (z : Z)
| EvBytes (s : string)
| EvNow (t : Z)
| EvSleep (d : Z)
| EvFault (b : bool)
| EvReply (s : string) (ok : bool)
| EvAsk (addr line : string) (r : ask_result)
| EvSpawn (g : goroutine)
| EvPrint (s : string)
| EvTel (t : telEvent)
| EvWait (r : option bool).

Record world (S : Type) := World {
  w_st : S;
  w_held : list (mutex * lockmode);
  w_chans : list chan;
  w_trace : list event }.
Arguments World {S}. Arguments w_st {S}. Arguments w_held {S}. Arguments w_chans {S}.
Arguments w_trace {S}.

(** The environment: one oracle per kind of question.  The first argument is
    the number of events so far, so successive questions may be answered
    differently. *)
Record env (S : Type) := Env {
  e_rand : nat -> Z;
  e_dial : nat -> string -> bool;
  e_request : nat -> string -> option string;
  e_now : nat -> Z;
  e_reply : nat -> bool;
  e_fault : nat -> bool;
  e_wait : nat -> S -> option bool * S;
  e_getenv : string -> string;
  e_ask : nat -> string -> string -> ask_result }.
Arguments Env {S}. Arguments e_rand {S}. Arguments e_dial {S}. Arguments e_request {S}.
Arguments e_now {S}. Arguments e_reply {S}. Arguments e_fault {S}. Arguments e_wait {S}. Arguments e_getenv {S}.
Arguments e_ask {S}.

Definition is_free (m : mutex) (md : lockmode) (h : list (mutex * lockmode)) : bool :=
  match md with
  | Exclusive => forallb (fun x => bool_decide (x.1 <> m)) h
  | Shared => forallb (fun x => bool_decide (x <> (m, Exclusive))) h
  end.

Fixpoint release (x : mutex * lockmode) (h : list (mutex * lockmode)) : option (list (mutex * lockmode)) :=
  match h with
  | [] => None
  | y :: h' => if decide (x = y) then Some h' else cons y <$> release x h'
  end.

Inductive xres (S X : Type) :=
| XOk (x : X) (w : world S)
| XBlock
| XPanic (why : string).
Arguments XOk {S X}. Arguments XBlock {S X}. Arguments XPanic {S X}.

Section Exec.
Context {S : Type} (ev : env S).

Definition add_event (e : event) (w : world S) : world S :=
  World (w_st w) (w_held w) (w_chans w) (w_trace w ++ [e]).
Definition set_st (s : S) (w : world S) : world S :=
  World s (w_held w) (w_chans w) (w_trace w).
Definition set_held (h : list (mutex * lockmode)) (w : world S) : world S :=
  World (w_st w) h (w_chans w) (w_trace w).
Definition set_chans (c : list chan) (w : world S) : world S :=
  World (w_st w) (w_held w) c (w_trace w).
Definition tick (w : world S) : nat := length (w_trace w).

(** A draw of [Intn(n)]; every value of [0..n-1] is reachable by some oracle. *)
Definition draw (n : Z) (w : world S) : Z := (e_rand ev (tick w) mod n)%Z.

(** [n] random bytes, spread from one draw of the oracle. *)
Fixpoint bytes_of (n : nat) (z : Z) : string :=
  match n with
  | 0 => ""
  | Datatypes.S n' => String (ascii_of_nat (Z.to_nat (z mod 256))) (bytes_of n' (z / 256))
  end.

Definition exec {X} (e : goE S X) (w : world S) : xres S X :=
  match e with
  | ELock m md =>
      if is_free m md (w_held w) then XOk tt (set_held ((m, md) :: w_held w) w) else XBlock
  | EUnlock m md =>
      match release (m, md) (w_held w) with
      | Some h => XOk tt (set_held h w)
      | None => XPanic "unlock of unlocked mutex"
      end
  | EAcc m f => let '(a, s) := f (w_st w) in XOk a (set_st s w)
  | EGet f => XOk (f (w_st w)) w
  | ESet f => XOk tt (set_st (f (w_st w)) w)
  | EMakeChan n => XOk (length (w_chans w)) (set_chans (w_chans w ++ [Chan [] n]) w)
  | EChanSend c b =>
      match w_chans w !! c with
      | Some ch =>
          if length (buf ch) <? cap ch
          then XOk tt (set_chans (<[c := Chan (buf ch ++ [b]) (cap ch)]> (w_chans w)) w)
          else XBlock
      | None => XBlock
      end
  | ESelect c =>
      match w_chans w !! c with
      | Some (Chan (b :: r) n) =>
          XOk (Some b) (add_event (EvWait (Some b)) (set_chans (<[c := Chan r n]> (w_chans w)) w))
      | _ =>
          let '(r, s) := e_wait ev (tick w) (w_st w) in
          XOk r (add_event (EvWait r) (set_st s w))
      end
  | EDial a m =>
      let ok := e_dial ev (tick w) a in XOk ok (add_event (EvDial a m ok) w)
  | ERequest l =>
      let r := e_request ev (tick w) l in XOk r (add_event (EvRequest l r) w)
  | EIntn n =>
      if (0 <? n)%Z then XOk (draw n w) (add_event (EvRand (draw n w)) w)
      else XPanic "invalid argument to Intn"
  | ERandBytes n =>
      let s := bytes_of n (e_rand ev (tick w)) in XOk s (add_event (EvBytes s) w)
  | ENow => let t := e_now ev (tick w) in XOk t (add_event (EvNow t) w)
  | ESleep d => XOk tt (add_event (EvSleep d) w)
  | EGetenv k => XOk (e_getenv ev k) w
  | EFault => let b := e_fault ev (tick w) in XOk b (add_event (EvFault b) w)
  | EReply s => let ok := e_reply ev (tick w) in XOk ok (add_event (EvReply s ok) w)
  | EAsk a l =>
      let r := e_ask ev (tick w) a l in XOk r (add_event (EvAsk a l r) w)
  | ESpawn g => XOk tt (add_event (EvSpawn g) w)
  | EPrint s => XOk tt (add_event (EvPrint s) w)
  | ETelemetry t => XOk tt (add_event (EvTel t) w)
  end.

Inductive outcome (A : Type) :=
| Done (a : A)
| Blocked
| Panicked (why : string).
Arguments Done {A}. Arguments Blocked {A}. Arguments Panicked {A}.

Fixpoint run {A} (p : prog S A) (w : world S) : outcome A * world S :=
  match p with
  | Ret a => (Done a, w)
  | Raise why => (Panicked why, w)
  | Vis e k =>
      match exec e w with
      | XOk x w' => run (k x) w'
      | XBlock => (Blocked, w)
      | XPanic why => (Panicked why, w)
      end
  end.

End Exec.
Arguments Done {A}. Arguments Blocked {A}. Arguments Panicked {A}.

(** The messages that left: destination and line of every successful dial. *)
Definition sends (t : list event) : list (string * string) :=
  omap (fun e => match e with EvDial a m true => Some (a, m) | _ => None end) t.
Definition dials (t : list event) : list string :=
  omap (fun e => match e with EvDial a _ _ => Some a | _ => None end) t.
Definition replies (t : list event) : list string :=
  omap (fun e => match e with EvReply s _ => Some s | _ => None end) t.
Definition prints (t : list event) : list string :=
  omap (fun e => match e with EvPrint s => Some s | _ => None end) t.
Definition spawns (t : list event) : list goroutine :=
  omap (fun e => match e with EvSpawn g => Some g | _ => None end) t.

(** ** Total correctness of a goroutine run alone

    [wp ev p w Q]: from [w] the program [p] returns (no panic, no blocking),
    and its result and final world satisfy [Q]. *)
Definition wp {S A} (ev : env S) (p : prog S A) (w : world S) (Q : A -> world S -> Prop) : Prop :=
  match run ev p w with
  | (Done a, w') => Q a w'
  | _ => False
  end.

Section WP.
Context {S : Type} (ev : env S).
Implicit Types w : world S.

Lemma wp_ret {A} (a : A) w Q : wp ev (Ret a) w Q <-> Q a w.
Proof. done. Qed.

Lemma wp_vis {A X} (e : goE S X) (k : X -> prog S A) w Q :
  wp ev (Vis e k) w Q <->
  match exec ev e w with XOk x w' => wp ev (k x) w' Q | _ => False end.
Proof. unfold wp. cbn [run]. by destruct (exec ev e w). Qed.

Lemma run_bind {A B} (p : prog S A) (f : A -> prog S B) w :
  run ev (prog_bind p f) w =
  match run ev p w with
  | (Done a, w') => run ev (f a) w'
  | (Blocked, w') => (Blocked, w')
  | (Panicked s, w') => (Panicked s, w')
  end.
Proof.
  revert w. induction p as [a|s|X e k IH]; intros w; cbn [prog_bind run]; [done..|].
  by destruct (exec ev e w).
Qed.

Lemma wp_bind {A B} (p : prog S A) (f : A -> prog S B) w Q :
  wp ev (p ≫= f) w Q <-> wp ev p w (fun a w' => wp ev (f a) w' Q).
Proof.
  unfold wp, mbind, prog_mbind. rewrite run_bind.
  destruct (run ev p w) as [[a| |s] w']; done.
Qed.

Lemma wp_mono {A} (p : prog S A) w (Q R : A -> world S -> Prop) :
  wp ev p w Q -> (forall a w', Q a w' -> R a w') -> wp ev p w R.
Proof. unfold wp. destruct (run ev p w) as [[a| |s] w']; auto. Qed.

Lemma wp_run {A} (p : prog S A) w Q :
  wp ev p w Q <-> exists a w', run ev p w = (Done a, w') /\ Q a w'.
Proof.
  unfold wp. split.
  - destruct (run ev p w) as [[a| |s] w']; [eauto|done..].
  - by intros (a & w' & -> & ?).
Qed.

(** The program, run alone, comes to a wait on a channel [c]: then [Q] holds of
    [c], of what it does with the answer and of the world at that point. *)
Inductive pauses {A} (Q : nat -> (option bool -> prog S A) -> world S -> Prop) :
    prog S A -> world S -> Prop :=
| pauses_here c k w : Q c k w -> pauses Q (Vis (ESelect c) k) w
| pauses_step X (e : goE S X) k w x w' :
    exec ev e w = XOk x w' -> pauses Q (k x) w' -> pauses Q (Vis e k) w.

Lemma pauses_bind {A B} (p : prog S A) (f : A -> prog S B) w Q :
  wp ev p w (fun a w' => pauses Q (f a) w') -> pauses Q (p ≫= f) w.
Proof.
  revert w. induction p as [a|why|X e k IH]; intros w Hp; [done..|].
  rewrite wp_vis in Hp. destruct (exec ev e w) as [x w'| |] eqn:E; [|done..].
  eapply pauses_step; [exact E|]. by apply IH.
Qed.

Lemma pauses_mono {A} (p : prog S A) w (Q R : nat -> (option bool -> prog S A) -> world S -> Prop) :
  pauses Q p w -> (forall c k w', Q c k w' -> R c k w') -> pauses R p w.
Proof. intros Hp HQ. induction Hp; [apply pauses_here; auto|by eapply pauses_step]. Qed.

(** The program panics; [wp] takes it up to the call that does. *)
Definition panics {A} (p : prog S A) w (why : string) : Prop := (run ev p w).1 = Panicked why.

Lemma panics_bind {A B} (p : prog S A) (f : A -> prog S B) w why :
  wp ev p w (fun a w' => panics (f a) w' why) -> panics (p ≫= f) w why.
Proof.
  unfold wp, panics, mbind, prog_mbind. rewrite run_bind.
  destruct (run ev p w) as [[a| |s] w']; done.
Qed.

(** The program returns or panics, and never blocks. *)
Definition finishes {A} (p : prog S A) w (Q : A -> world S -> Prop) (P : string -> world S -> Prop) : Prop :=
  match run ev p w with
  | (Done a, w') => Q a w'
  | (Panicked why, w') => P why w'
  | (Blocked, _) => False
  end.

Lemma finishes_wp {A} (p : prog S A) w Q P : wp ev p w Q -> finishes p w Q P.
Proof. unfold wp, finishes. by destruct (run ev p w) as [[a| |s] w']. Qed.

Lemma finishes_bind {A B} (p : prog S A) (f : A -> prog S B) w Q P :
  wp ev p w (fun a w' => finishes (f a) w' Q P) -> finishes (p ≫= f) w Q P.
Proof.
  unfold wp, finishes, mbind, prog_mbind. rewrite run_bind.
  destruct (run ev p w) as [[a| |s] w']; done.
Qed.

(** Draws of randomness and of the clock leave everything but the trace alone,
    and the trace tells nothing to the outside. *)
Definition internal (e : event) : Prop :=
  match e with EvRand _ | EvBytes _ | EvNow _ | EvSleep _ | EvFault _ => True | _ => False end.

Definition quiet w w' : Prop :=
  w_st w' = w_st w /\ w_held w' = w_held w /\ w_chans w' = w_chans w /\
  exists t, w_trace w' = w_trace w ++ t /\ Forall internal t.

Lemma quiet_refl w : quiet w w.
Proof. repeat split. exists []. by rewrite app_nil_r. Qed.

Lemma quiet_trans w1 w2 w3 : quiet w1 w2 -> quiet w2 w3 -> quiet w1 w3.
Proof.
  intros (? & ? & ? & t & Ht & ?) (? & ? & ? & u & Hu & ?). repeat split; [congruence..|].
  exists (t ++ u). rewrite Hu, Ht, <- app_assoc. split; [done|]. by apply Forall_app.
Qed.

Lemma quiet_add_event w e : internal e -> quiet w (add_event e w).
Proof. intros He. repeat split. exists [e]. split; [done|]. by constructor. Qed.

Lemma wp_intn n w Q :
  (0 < n)%Z ->
  (forall z w', (0 <= z < n)%Z -> quiet w w' -> Q z w') ->
  wp ev (trigger (EIntn n)) w Q.
Proof.
  intros Hn HQ. unfold trigger. apply wp_vis. cbn [exec].
  destruct (Z.ltb_spec 0 n); [|lia]. apply wp_ret, HQ.
  - unfold draw. apply Z.mod_pos_bound. lia.
  - by apply quiet_add_event.
Qed.

Lemma length_bytes_of n z : String.length (bytes_of n z) = n.
Proof. revert z. induction n as [|n IH]; intros z; cbn; auto. Qed.

Lemma wp_rand_bytes n w Q :
  (forall s w', String.length s = n -> quiet w w' -> Q s w') ->
  wp ev (trigger (ERandBytes n)) w Q.
Proof.
  intros HQ. unfold trigger. apply wp_vis. cbn [exec]. apply wp_ret, HQ.
  - apply length_bytes_of.
  - by apply quiet_add_event.
Qed.

Lemma wp_shuffle_from {A} i (l : list A) w Q :
  (forall l' w', l' ≡ₚ l -> quiet w w' -> Q l' w') ->
  wp ev (shuffle_from i l) w Q.
Proof.
  revert l w Q. induction i as [|i IH]; intros l w Q HQ; cbn [shuffle_from].
  - apply wp_ret, HQ; [done|apply quiet_refl].
  - apply wp_bind, wp_intn; [lia|]. intros j w1 Hj H1. apply IH. intros l' w2 Hl H2.
    apply HQ; [|by eapply quiet_trans]. etrans; [exact Hl|apply swap_perm].
Qed.

(** Whatever the draws, [Shuffle] returns a permutation. *)
Lemma wp_shuffle {A} (l : list A) w Q :
  (forall l' w', l' ≡ₚ l -> quiet w w' -> Q l' w') -> wp ev (Shuffle l) w Q.
Proof. apply wp_shuffle_from. Qed.

End WP.

(** ** Step rules on explicit worlds

    A handler starts with no mutex held; its critical sections hold one. *)
Section Rules.
Context {S : Type} (ev : env S).
Implicit Types (s : S) (c : list chan) (t : list event).

Lemma wp_trigger {X} (e : goE S X) w Q :
  wp ev (trigger e) w Q <-> match exec ev e w with XOk x w' => Q x w' | _ => False end.
Proof. unfold trigger. by rewrite wp_vis. Qed.

Lemma wp_Lock m s c t Q :
  wp ev (Lock m) (World s [] c t) Q <-> Q tt (World s [(m, Exclusive)] c t).
Proof. unfold Lock. by rewrite wp_trigger. Qed.
Lemma wp_RLock m s c t Q :
  wp ev (RLock m) (World s [] c t) Q <-> Q tt (World s [(m, Shared)] c t).
Proof. unfold RLock. by rewrite wp_trigger. Qed.

Lemma wp_release m md s c t Q :
  wp ev (trigger (EUnlock m md)) (World s [(m, md)] c t) Q <-> Q tt (World s [] c t).
Proof. rewrite wp_trigger. cbn. by rewrite decide_True. Qed.
Lemma wp_Unlock m s c t Q :
  wp ev (Unlock m) (World s [(m, Exclusive)] c t) Q <-> Q tt (World s [] c t).
Proof. apply wp_release. Qed.
Lemma wp_RUnlock m s c t Q :
  wp ev (RUnlock m) (World s [(m, Shared)] c t) Q <-> Q tt (World s [] c t).
Proof. apply wp_release. Qed.

Lemma wp_read {A} m (f : S -> A) s h c t Q :
  wp ev (read m f) (World s h c t) Q <-> Q (f s) (World s h c t).
Proof. unfold read. by rewrite wp_trigger. Qed.
Lemma wp_write m (f : S -> S) s h c t Q :
  wp ev (write m f) (World s h c t) Q <-> Q tt (World (f s) h c t).
Proof. unfold write. by rewrite wp_trigger. Qed.
Lemma wp_get {A} (f : S -> A) s h c t Q :
  wp ev (trigger (EGet f)) (World s h c t) Q <-> Q (f s) (World s h c t).
Proof. by rewrite wp_trigger. Qed.
Lemma wp_set f s h c t Q :
  wp ev (trigger (ESet f)) (World s h c t) Q <-> Q tt (World (f s) h c t).
Proof. by rewrite wp_trigger. Qed.
Lemma wp_now s h c t Q :
  wp ev (trigger ENow) (World s h c t) Q <->
  Q (e_now ev (length t)) (World s h c (t ++ [EvNow (e_now ev (length t))])).
Proof. by rewrite wp_trigger. Qed.
Lemma wp_request l s h c t Q :
  wp ev (trigger (ERequest l)) (World s h c t) Q <->
  Q (e_request ev (length t) l) (World s h c (t ++ [EvRequest l (e_request ev (length t) l)])).
Proof. by rewrite wp_trigger. Qed.
Lemma wp_getenv k s h c t Q :
  wp ev (trigger (EGetenv k)) (World s h c t) Q <-> Q (e_getenv ev k) (World s h c t).
Proof. by rewrite wp_trigger. Qed.
Lemma wp_print x s h c t Q :
  wp ev (trigger (EPrint x)) (World s h c t) Q <-> Q tt (World s h c (t ++ [EvPrint x])).
Proof. by rewrite wp_trigger. Qed.
Lemma wp_sleep d s h c t Q :
  wp ev (trigger (ESleep d)) (World s h c t) Q <-> Q tt (World s h c (t ++ [EvSleep d])).
Proof. by rewrite wp_trigger. Qed.
Lemma wp_fault s h c t Q :
  wp ev (trigger EFault) (World s h c t) Q <->
  Q (e_fault ev (length t)) (World s h c (t ++ [EvFault (e_fault ev (length t))])).
Proof. by rewrite wp_trigger. Qed.
Lemma wp_acc {A} m (f : S -> A * S) s h c t Q :
  wp ev (acc m f) (World s h c t) Q <-> Q (f s).1 (World (f s).2 h c t).
Proof. unfold acc. rewrite wp_trigger. cbn. by destruct (f s). Qed.
Lemma wp_dial a m s h c t Q :
  wp ev (trigger (EDial a m)) (World s h c t) Q <->
  Q (e_dial ev (length t) a) (World s h c (t ++ [EvDial a m (e_dial ev (length t) a)])).
Proof. by rewrite wp_trigger. Qed.
Lemma wp_reply x s h c t Q :
  wp ev (trigger (EReply x)) (World s h c t) Q <->
  Q (e_reply ev (length t)) (World s h c (t ++ [EvReply x (e_reply ev (length t))])).
Proof. by rewrite wp_trigger. Qed.
Lemma wp_ask a l s h c t Q :
  wp ev (trigger (EAsk a l)) (World s h c t) Q <->
  Q (e_ask ev (length t) a l) (World s h c (t ++ [EvAsk a l (e_ask ev (length t) a l)])).
Proof. by rewrite wp_trigger. Qed.
Lemma wp_spawn g s h c t Q :
  wp ev (trigger (ESpawn g)) (World s h c t) Q <-> Q tt (World s h c (t ++ [EvSpawn g])).
Proof. by rewrite wp_trigger. Qed.
Lemma wp_chan_send i ch b s h c t Q :
  c !! i = Some ch -> length (buf ch) < cap ch ->
  wp ev (trigger (EChanSend i b)) (World s h c t) Q <->
  Q tt (World s h (<[i := Chan (buf ch ++ [b]) (cap ch)]> c) t).
Proof.
  intros Hi Hl. rewrite wp_trigger. cbn [exec w_chans]. rewrite Hi.
  apply Nat.ltb_lt in Hl. by rewrite Hl.
Qed.

Lemma quiet_inv s h c t w :
  quiet (World s h c t) w -> exists u, w = World s h c (t ++ u) /\ Forall internal u.
Proof.
  destruct w as [s' h' c' t']. intros (? & ? & ? & u & ? & ?). cbn in *. subst. by exists u.
Qed.
End Rules.

(** Steps through binds, locks, accesses and the oracles whose answer needs no
    hypothesis; stops at calls, tests and channel sends. *)
Ltac wp_steps :=
  repeat first
    [ rewrite wp_bind | rewrite wp_Lock | rewrite wp_RLock | rewrite wp_Unlock
    | rewrite wp_RUnlock | rewrite wp_read | rewrite wp_write | rewrite wp_get
    | rewrite wp_set | rewrite wp_now | rewrite wp_request | rewrite wp_getenv
    | rewrite wp_fault | rewrite wp_acc | rewrite wp_print | rewrite wp_sleep | rewrite wp_dial | rewrite wp_reply
    | rewrite wp_ask | rewrite wp_spawn | rewrite wp_ret ]; cbn beta.

(** [sends] and the other projections of a trace. *)
Lemma sends_app t u : sends (t ++ u) = sends t ++ sends u.
Proof. apply omap_app. Qed.
Lemma dials_app t u : dials (t ++ u) = dials t ++ dials u.
Proof. apply omap_app. Qed.
Lemma prints_app t u : prints (t ++ u) = prints t ++ prints u.
Proof. apply omap_app. Qed.
Lemma replies_app t u : replies (t ++ u) = replies t ++ replies u.
Proof. apply omap_app. Qed.

Lemma spawns_app t u : spawns (t ++ u) = spawns t ++ spawns u.
Proof. apply omap_app. Qed.

Lemma internal_sends u : Forall internal u -> sends u = [].
Proof. induction 1 as [|[] u He Hu IH]; cbn in *; done. Qed.
Lemma internal_dials u : Forall internal u -> dials u = [].
Proof. induction 1 as [|[] u He Hu IH]; cbn in *; done. Qed.
Lemma internal_prints u : Forall internal u -> prints u = [].
Proof. induction 1 as [|[] u He Hu IH]; cbn in *; done. Qed.
Lemma internal_spawns u : Forall internal u -> spawns u = [].
Proof. induction 1 as [|[] u He Hu IH]; cbn in *; done. Qed.

Create Rewrite HintDb dor_trace.
#[export] Hint Rewrite sends_app dials_app prints_app replies_app spawns_app : dor_trace.
#[export] Hint Rewrite internal_sends internal_dials internal_prints internal_spawns using assumption : dor_trace.
