(* ===== verification/Concurrency.v ===== *)
(** * Goroutines side by side

    A configuration is the shared state, the channels and one entry per
    goroutine: the mutexes it holds and what it has still to run.  A step is one
    effect of one goroutine, with any answer the outside may give, or the start
    of a goroutine; so the runs of file GoMonad are the schedules that let one
    goroutine run to its end.  Two proof methods: [each], a condition on every
    effect of a program with the mutexes held at that point, and [safe], an
    invariant of the configuration with a ghost value per goroutine. *)

From S2P Require Import Prelude GoMonad.

Abbreviation held := (list (mutex * lockmode)).

Ltac open_hyps :=
  repeat match goal with
         | H : _ /\ _ |- _ => destruct H
         | H : exists _, _ |- _ => destruct H
         end.

(** ** Configurations and steps *)

Section Concurrency.
Context {S : Type}.

Record thread := Thread { t_held : held; t_prog : prog S unit }.
Record config := Cfg { c_st : S; c_chans : list chan; c_threads : list thread }.

(** What the other goroutines hold. *)
Definition others (i : nat) (ts : list thread) : held :=
  concat (t_held <$> delete i ts).

(** One effect: result, state, channels and own mutexes after it. *)
Definition effect_ok {X} (e : goE S X) (s : S) (cs : list chan) (h o : held)
    : X -> S -> list chan -> held -> Prop :=
  match e in goE _ X return X -> S -> list chan -> held -> Prop with
  | ELock m md => fun _ s' cs' h' =>
      is_free m md (h ++ o) = true /\ s' = s /\ cs' = cs /\ h' = (m, md) :: h
  | EUnlock m md => fun _ s' cs' h' =>
      release (m, md) h = Some h' /\ s' = s /\ cs' = cs
  | EAcc m f => fun x s' cs' h' => f s = (x, s') /\ cs' = cs /\ h' = h
  | EGet f => fun x s' cs' h' => x = f s /\ s' = s /\ cs' = cs /\ h' = h
  | ESet f => fun _ s' cs' h' => s' = f s /\ cs' = cs /\ h' = h
  | EMakeChan n => fun x s' cs' h' =>
      x = length cs /\ s' = s /\ cs' = cs ++ [Chan [] n] /\ h' = h
  | EChanSend c b => fun _ s' cs' h' => exists ch,
      cs !! c = Some ch /\ length (buf ch) < cap ch /\
      cs' = <[c := Chan (buf ch ++ [b]) (cap ch)]> cs /\ s' = s /\ h' = h
  | ESelect c => fun x s' cs' h' => s' = s /\ h' = h /\
      ((x = None /\ cs' = cs) \/
       exists b r n, x = Some b /\ cs !! c = Some (Chan (b :: r) n) /\ cs' = <[c := Chan r n]> cs)
  | EIntn n => fun x s' cs' h' => (0 <= x < n)%Z /\ s' = s /\ cs' = cs /\ h' = h
  | _ => fun _ s' cs' h' => s' = s /\ cs' = cs /\ h' = h
  end.

(** What a [go] statement runs, and the programs the outside may start at any
    time: a connection accepted, a command, a timer. *)
Variable body : goroutine -> prog S unit.
Variable starts : prog S unit -> Prop.

Definition spawned {X} (e : goE S X) : list thread :=
  match e with ESpawn g => [Thread [] (body g)] | _ => [] end.

Inductive step : config -> config -> Prop :=
| step_effect i h X (e : goE S X) k s cs ts x s' cs' h' :
    ts !! i = Some (Thread h (Vis e k)) ->
    effect_ok e s cs h (others i ts) x s' cs' h' ->
    step (Cfg s cs ts) (Cfg s' cs' (<[i := Thread h' (k x)]> ts ++ spawned e))
| step_start p s cs ts :
    starts p -> step (Cfg s cs ts) (Cfg s cs (ts ++ [Thread [] p])).

Definition reach : config -> config -> Prop := rtc step.

Lemma reach_effect i X (x : X) s' cs' h' h (e : goE S X) k s cs ts c :
  ts !! i = Some (Thread h (Vis e k)) -> effect_ok e s cs h (others i ts) x s' cs' h' ->
  reach (Cfg s' cs' (<[i := Thread h' (k x)]> ts ++ spawned e)) c -> reach (Cfg s cs ts) c.
Proof. intros Hi He Hr. eapply rtc_l; [by eapply step_effect|done]. Qed.

Lemma reach_start p s cs ts c :
  starts p -> reach (Cfg s cs (ts ++ [Thread [] p])) c -> reach (Cfg s cs ts) c.
Proof. intros Hp Hr. eapply rtc_l; [by apply step_start|done]. Qed.

(** ** A condition on every effect *)

Definition held_after {X} (e : goE S X) (h : held) : option held :=
  match e with
  | ELock m md => Some ((m, md) :: h)
  | EUnlock m md => release (m, md) h
  | _ => Some h
  end.

(** [fresh]: the channels that may come to be made. *)
Definition answers (fresh : nat -> Prop) {X} (e : goE S X) : X -> Prop :=
  match e in goE _ X return X -> Prop with
  | EMakeChan _ => fresh
  | _ => fun _ => True
  end.

Section Each.
Variable ok : forall X, goE S X -> held -> Prop.
Variable fresh : nat -> Prop.

Fixpoint each {A} (p : prog S A) (h : held) (Q : A -> held -> Prop) : Prop :=
  match p with
  | Ret a => Q a h
  | Raise _ => True
  | Vis e k =>
      ok _ e h /\ match held_after e h with
                  | Some h' => forall x, answers fresh e x -> each (k x) h' Q
                  | None => False
                  end
  end.

Lemma each_bind {A B} (p : prog S A) (f : A -> prog S B) h Q :
  each p h (fun a h' => each (f a) h' Q) -> each (p ≫= f) h Q.
Proof.
  revert h. induction p as [a|w|X e k IH]; intros h; [done..|].
  cbn. intros [Hok H]. split; [done|]. destruct (held_after e h); [|done]. intros x Hx. by apply IH, H.
Qed.

Lemma each_mono {A} (p : prog S A) h (Q R : A -> held -> Prop) :
  each p h Q -> (forall a h', Q a h' -> R a h') -> each p h R.
Proof.
  intros H HQ. revert h H. induction p as [a|w|X e k IH]; intros h; [apply HQ|done|].
  cbn. intros [Hok H]. split; [done|]. destruct (held_after e h); [|done]. intros x Hx. by apply IH, H.
Qed.

(** Balanced: every mutex taken is given back. *)
Definition fine (p : prog S unit) : Prop := each p [] (fun _ h => h = []).

Definition fine_thread (t : thread) : Prop := each (t_prog t) (t_held t) (fun _ h => h = []).

Hypothesis fine_starts : forall p, starts p -> fine p.
Hypothesis fine_body : forall g, fine (body g).

(** Every channel made from here on is fresh. *)
Definition fresh_from (cs : list chan) : Prop := forall n, length cs <= n -> fresh n.

Lemma effect_held {X} (e : goE S X) s cs h o x s' cs' h' :
  effect_ok e s cs h o x s' cs' h' -> held_after e h = Some h'.
Proof. destruct e; cbn; intros; open_hyps; by subst. Qed.

Lemma effect_answers {X} (e : goE S X) s cs h o x s' cs' h' :
  fresh_from cs -> effect_ok e s cs h o x s' cs' h' -> answers fresh e x /\ fresh_from cs'.
Proof.
  intros Hf He. split.
  - destruct e; cbn in *; try done. apply Hf. by destruct He as [-> _].
  - intros n Hn. apply Hf. destruct e; cbn in *; open_hyps; subst; try done.
    + rewrite length_app in Hn. cbn in Hn. lia.
    + by rewrite length_insert in Hn.
    + destruct H1 as [[-> ->]|(b & r & n' & -> & _ & ->)]; [done|]. by rewrite length_insert in Hn.
Qed.

Lemma fresh_step c c' : fresh_from (c_chans c) -> step c c' -> fresh_from (c_chans c').
Proof. intros Hf Hs. destruct Hs; [|done]. by eapply effect_answers. Qed.

Lemma fine_step c c' :
  fresh_from (c_chans c) -> Forall fine_thread (c_threads c) -> step c c' ->
  Forall fine_thread (c_threads c').
Proof.
  intros Hfr Hf Hs. destruct Hs as [i h X e k s cs ts x s' cs' h' Hi He|p s cs ts Hp]; cbn in *.
  - apply Forall_app. split.
    + apply Forall_insert; [done|]. rewrite Forall_lookup in Hf. specialize (Hf i _ Hi).
      cbn in Hf. destruct Hf as [_ Hf]. rewrite (effect_held _ _ _ _ _ _ _ _ _ He) in Hf.
      apply Hf. by eapply effect_answers.
    + destruct e; cbn; try apply Forall_nil_2. by apply Forall_singleton, fine_body.
  - apply Forall_app. split; [done|]. by apply Forall_singleton, fine_starts.
Qed.

Lemma fine_reach c c' :
  fresh_from (c_chans c) -> Forall fine_thread (c_threads c) -> reach c c' ->
  Forall fine_thread (c_threads c') /\ fresh_from (c_chans c').
Proof.
  intros Hfr Hf Hr. induction Hr as [|c1 c2 c3 Hs Hr IH]; [done|].
  apply IH; [by eapply fresh_step|by eapply fine_step].
Qed.
End Each.

(** ** Mutual exclusion *)

Definition compatible (h h' : held) : Prop :=
  forall m md, (m, Exclusive) ∈ h -> (m, md) ∉ h'.

Definition locks_ok (ts : list thread) : Prop :=
  forall i j ti tj, i <> j -> ts !! i = Some ti -> ts !! j = Some tj ->
    compatible (t_held ti) (t_held tj).

Lemma others_elem ts i j t x : ts !! j = Some t -> i <> j -> x ∈ t_held t -> x ∈ others i ts.
Proof.
  intros Hj Hne Hx. unfold others. apply list_elem_of_In, in_concat. exists (t_held t).
  split; [|by apply list_elem_of_In]. apply list_elem_of_In, list_elem_of_fmap_2.
  apply list_elem_of_lookup. destruct (decide (j < i)).
  - exists j. by rewrite list_lookup_delete_lt.
  - exists (j - 1). rewrite list_lookup_delete_ge by lia. by replace (Datatypes.S (j - 1)) with j by lia.
Qed.

Lemma is_free_spec m md l x :
  is_free m md l = true -> x ∈ l -> x.1 = m -> md = Shared /\ x.2 = Shared.
Proof.
  intros Hf Hx Hm. destruct x as [m' md']. cbn in *. subst m'. unfold is_free in Hf.
  destruct md; rewrite forallb_forall in Hf; apply list_elem_of_In, Hf, bool_decide_eq_true in Hx.
  - done.
  - split; [done|]. by destruct md'.
Qed.

Lemma release_elem x h h' y : release x h = Some h' -> y ∈ h' -> y ∈ h.
Proof.
  revert h'. induction h as [|z h IH]; intros h'; cbn; [done|]. destruct (decide (x = z)) as [->|].
  - intros [= <-]. by right.
  - destruct (release x h) as [h1|]; [|done]. cbn. intros [= <-] [->|Hy]%elem_of_cons; [by left|].
    right. by eapply IH.
Qed.

(** What a step adds to the mutexes held was free among all goroutines. *)
Lemma effect_new_held {X} (e : goE S X) s cs h o x s' cs' h' y :
  effect_ok e s cs h o x s' cs' h' -> y ∈ h' -> y ∈ h \/ is_free y.1 y.2 (h ++ o) = true.
Proof.
  destruct e; cbn; intros He Hy; try (left; open_hyps; by subst).
  - destruct He as (Hf & _ & _ & ->). apply elem_of_cons in Hy as [->|Hy]; [by right|by left].
  - destruct He as (Hr & _). left. by eapply release_elem.
Qed.

Lemma compatible_new h h' :
  (forall y, y ∈ h -> forall m md, y.1 = m -> (m, md) ∈ h' -> y.2 = Shared /\ md = Shared) ->
  compatible h h' /\ compatible h' h.
Proof.
  intros H. split; intros m md Hm Hm'.
  - by destruct (H _ Hm m md eq_refl Hm').
  - by destruct (H _ Hm' m Exclusive eq_refl Hm).
Qed.

Lemma locks_insert i t h' p' ts :
  locks_ok ts -> ts !! i = Some t ->
  (forall y, y ∈ h' -> y ∈ t_held t \/ is_free y.1 y.2 (t_held t ++ others i ts) = true) ->
  locks_ok (<[i := Thread h' p']> ts).
Proof.
  intros Hl Hi Hn.
  assert (Hlt : i < length ts) by (by eapply lookup_lt_Some).
  assert (Hcomp : forall j tj, j <> i -> ts !! j = Some tj ->
    compatible h' (t_held tj) /\ compatible (t_held tj) h').
  { intros j tj Hne Hj. apply compatible_new.
    intros [m md] Hy m0 md0 <- Hin. cbn in *. destruct (Hn _ Hy) as [Hold|Hfree].
    - destruct md; [exfalso; by eapply (Hl i j t tj)|]. split; [done|].
      destruct md0; [|done]. exfalso. by eapply (Hl j i tj t).
    - cbn in Hfree. apply (is_free_spec _ _ _ (m, md0)) in Hfree as [? ?]; [done| |done].
      apply elem_of_app. right. by eapply others_elem. }
  intros a b ta tb Hab Ha Hb.
  destruct (decide (a = i)) as [->|Hai], (decide (b = i)) as [->|Hbi]; [done|..].
  - rewrite list_lookup_insert_eq in Ha by done. injection Ha as <-.
    rewrite list_lookup_insert_ne in Hb by done. by apply (Hcomp b tb).
  - rewrite list_lookup_insert_eq in Hb by done. injection Hb as <-.
    rewrite list_lookup_insert_ne in Ha by done. by apply (Hcomp a ta).
  - rewrite list_lookup_insert_ne in Ha, Hb by done. exact (Hl a b ta tb Hab Ha Hb).
Qed.

Lemma locks_app ts new :
  locks_ok ts -> Forall (fun t => t_held t = []) new -> locks_ok (ts ++ new).
Proof.
  intros Hl Hn i j ti tj Hne Hi Hj m md Hm Hm'.
  assert (Hcase : forall k tk, (ts ++ new) !! k = Some tk -> ts !! k = Some tk \/ t_held tk = []).
  { intros k tk Hk. apply lookup_app_Some in Hk as [?|[_ Hk]]; [by left|right].
    rewrite Forall_lookup in Hn. by eapply Hn. }
  destruct (Hcase i ti Hi) as [Hi'|E]; [|rewrite E in Hm; by apply not_elem_of_nil in Hm].
  destruct (Hcase j tj Hj) as [Hj'|E]; [|rewrite E in Hm'; by apply not_elem_of_nil in Hm'].
  by eapply (Hl i j).
Qed.

Lemma locks_step c c' : locks_ok (c_threads c) -> step c c' -> locks_ok (c_threads c').
Proof.
  intros Hl Hs. destruct Hs as [i h X e k s cs ts x s' cs' h' Hi He|p s cs ts Hp]; cbn in *.
  - apply locks_app; [|by destruct e; repeat constructor].
    eapply locks_insert; [done|done|]. intros y Hy. cbn. by eapply effect_new_held.
  - apply locks_app; [done|by repeat constructor].
Qed.

Lemma locks_reach c c' : locks_ok (c_threads c) -> reach c c' -> locks_ok (c_threads c').
Proof. intros Hl Hr. induction Hr as [|c1 c2 c3 Hs Hr IH]; [done|]. apply IH. by eapply locks_step. Qed.

(** ** Lock discipline

    Shared fields are read with their mutex held and written with it held
    exclusively; no goroutine takes a second mutex, or waits for the network,
    the clock or a channel with one held, but for the send of an
    acknowledgement under [Node.Mu].  An SQL statement ([Db]) is atomic by
    itself. *)
Definition disciplined X (e : goE S X) (h : held) : Prop :=
  match e with
  | ELock _ _ => h = []
  | EAcc m f => m = Db \/ (m, Exclusive) ∈ h \/ ((m, Shared) ∈ h /\ forall s, (f s).2 = s)
  | EChanSend _ _ => h = [(Mu, Exclusive)]
  | EIntn n => (0 < n)%Z
  | ESelect _ | EDial _ _ | ERequest _ | EAsk _ _ | EReply _ | ESleep _ => h = []
  | _ => True
  end.

(** Two goroutines about to touch the fields of one mutex, one of them to
    write. *)
Definition accesses (t : thread) {A} (m : mutex) (f : S -> A * S) : Prop :=
  exists h k, t = Thread h (Vis (EAcc m f) k).

Definition race (c : config) : Prop :=
  exists i j ti tj m A (f : S -> A * S) B (g : S -> B * S) s, i <> j /\
    c_threads c !! i = Some ti /\ c_threads c !! j = Some tj /\
    m <> Db /\ accesses ti m f /\ accesses tj m g /\ (f s).2 <> s.

Definition can_step (c : config) (i : nat) : Prop :=
  exists h X (e : goE S X) k x s' cs' h', c_threads c !! i = Some (Thread h (Vis e k)) /\
    effect_ok e (c_st c) (c_chans c) h (others i (c_threads c)) x s' cs' h'.

(** The channel a program is about to send on, the mutex it is about to take. *)
Definition head_send (p : prog S unit) : option nat :=
  match p with Vis (EChanSend n _) _ => Some n | _ => None end.
Definition head_lock (p : prog S unit) : option mutex :=
  match p with Vis (ELock m _) _ => Some m | _ => None end.

(** At the send of an acknowledgement whose channel has no room. *)
Definition stuck_send (c : config) (i : nat) : Prop :=
  exists t n, c_threads c !! i = Some t /\ head_send (t_prog t) = Some n /\
    forall ch, c_chans c !! n = Some ch -> cap ch <= length (buf ch).

Definition waits_lock (c : config) (i : nat) (m : mutex) : Prop :=
  exists t, c_threads c !! i = Some t /\ head_lock (t_prog t) = Some m.

Definition holds_lock (c : config) (i : nat) (m : mutex) : Prop :=
  exists t md, c_threads c !! i = Some t /\ (m, md) ∈ t_held t.

Definition unfinished (c : config) (i : nat) : Prop :=
  exists h X (e : goE S X) k, c_threads c !! i = Some (Thread h (Vis e k)).

(** A panic ends the process. *)
Definition no_panic (c : config) : Prop := forall i h w, c_threads c !! i <> Some (Thread h (Raise w)).

(** Every write keeps [I]; every wait is on a fresh channel. *)
Definition keeps_inv (I : S -> Prop) (fresh : nat -> Prop) X (e : goE S X) : Prop :=
  match e with
  | ESelect c => fresh c
  | EAcc _ f => forall s, I s -> I (f s).2
  | ESet f => forall s, I s -> I (f s)
  | _ => True
  end.

Definition guarded (I : S -> Prop) (fresh : nat -> Prop) X (e : goE S X) (h : held) : Prop :=
  disciplined X e h /\ keeps_inv I fresh X e.

Section Disciplined.
Context (fresh : nat -> Prop).

Lemma race_free c :
  Forall (fine_thread disciplined fresh) (c_threads c) -> locks_ok (c_threads c) -> ~ race c.
Proof.
  intros Hf Hl (i & j & ti & tj & m & A & f & B & g & s & Hne & Hi & Hj & Hdb & (hi & ki & ->) & (hj & kj & ->) & Hw).
  rewrite Forall_lookup in Hf. destruct (Hf i _ Hi) as [Hai _]. destruct (Hf j _ Hj) as [Haj _].
  cbn in Hai, Haj. destruct Hai as [?|[Hai|[_ Hai]]]; [done| |by apply Hw].
  assert (Hc := Hl i j _ _ Hne Hi Hj m). cbn in Hc.
  destruct Haj as [?|[Haj|[Haj _]]]; [done|by eapply Hc..].
Qed.

Lemma not_free m md (l : held) : is_free m md l = false -> exists md', (m, md') ∈ l.
Proof.
  intros H. destruct (decide (Forall (fun x : mutex * lockmode => x.1 <> m) l)) as [Hf|Hf].
  - exfalso. assert (is_free m md l = true); [|congruence].
    unfold is_free. destruct md; apply forallb_forall; intros x Hx; apply list_elem_of_In in Hx;
      rewrite Forall_forall in Hf; apply bool_decide_eq_true; [by apply Hf|].
    intros ->. by apply (Hf _ Hx).
  - apply not_Forall_Exists in Hf; [|apply _]. apply Exists_exists in Hf as ([m' md'] & Hx & Hm).
    exists md'. cbn in Hm. destruct (decide (m' = m)) as [->|]; [done|by destruct Hm].
Qed.

Lemma others_inv ts i x : x ∈ others i ts -> exists j t, j <> i /\ ts !! j = Some t /\ x ∈ t_held t.
Proof.
  unfold others. intros Hx. apply list_elem_of_In, in_concat in Hx as (l & Hl & Hx).
  apply list_elem_of_In, list_elem_of_fmap in Hl as (t & -> & Ht).
  apply list_elem_of_lookup in Ht as [j Hj]. destruct (decide (j < i)).
  - rewrite list_lookup_delete_lt in Hj by done. exists j, t. split; [lia|]. by rewrite <- list_elem_of_In in Hx.
  - rewrite list_lookup_delete_ge in Hj by lia. exists (Datatypes.S j), t. split; [lia|].
    by rewrite <- list_elem_of_In in Hx.
Qed.

Lemma fine_enabled c i h X (e : goE S X) k :
  fine_thread disciplined fresh (Thread h (Vis e k)) ->
  c_threads c !! i = Some (Thread h (Vis e k)) ->
  can_step c i \/ stuck_send c i \/
  exists m, waits_lock c i m /\ exists j, j <> i /\ holds_lock c j m.
Proof.
  intros [Hd Ha] Hi. cbn in Hd, Ha.
  assert (Hgo : (exists x s' cs' h', effect_ok e (c_st c) (c_chans c) h (others i (c_threads c)) x s' cs' h')
    -> can_step c i) by (intros (x & s' & cs' & h' & He); by exists h, X, e, k, x, s', cs', h').
  destruct e; cbn [held_after] in Ha.
  - destruct (is_free m md (h ++ others i (c_threads c))) eqn:E.
    { left. apply Hgo. by exists tt, (c_st c), (c_chans c), ((m, md) :: h). }
    right; right. exists m. split; [by eexists|]. cbn in Hd. subst h. cbn [app] in E.
    apply not_free in E as [md' E]. apply others_inv in E as (j & t & Hne & Hj & Hm).
    exists j. split; [done|]. by exists t, md'.
  - destruct (release (m, md) h) as [h'|] eqn:E; [|done].
    left. apply Hgo. by exists tt, (c_st c), (c_chans c), h'.
  - left. apply Hgo. destruct (f (c_st c)) as [a s'] eqn:E. by exists a, s', (c_chans c), h.
  - left. apply Hgo. by eexists _, _, _, _.
  - left. apply Hgo. by exists tt, (f (c_st c)), (c_chans c), h.
  - left. apply Hgo. by eexists _, _, _, _.
  - destruct (c_chans c !! c0) as [ch|] eqn:E; [destruct (decide (length (buf ch) < cap ch))|].
    + left. apply Hgo. exists tt, (c_st c), (<[c0 := Chan (buf ch ++ [b]) (cap ch)]> (c_chans c)), h.
      by exists ch.
    + right; left. eexists _, c0. split; [done|]. split; [done|]. intros ch' Hch'. rewrite E in Hch'.
      injection Hch' as <-. lia.
    + right; left. eexists _, c0. split; [done|]. split; [done|]. intros ch' Hch'. by rewrite E in Hch'.
  - left. apply Hgo. exists None, (c_st c), (c_chans c), h. cbn. split; [done|]. split; [done|]. by left.
  - left. apply Hgo. by exists true, (c_st c), (c_chans c), h.
  - left. apply Hgo. by exists None, (c_st c), (c_chans c), h.
  - left. apply Hgo. exists 0%Z, (c_st c), (c_chans c), h. cbn in *. repeat split; lia.
  - left. apply Hgo. by exists "", (c_st c), (c_chans c), h.
  - left. apply Hgo. by exists 0%Z, (c_st c), (c_chans c), h.
  - left. apply Hgo. by exists tt, (c_st c), (c_chans c), h.
  - left. apply Hgo. by exists "", (c_st c), (c_chans c), h.
  - left. apply Hgo. by exists true, (c_st c), (c_chans c), h.
  - left. apply Hgo. by exists true, (c_st c), (c_chans c), h.
  - left. apply Hgo. by exists NoDial, (c_st c), (c_chans c), h.
  - left. apply Hgo. by exists tt, (c_st c), (c_chans c), h.
  - left. apply Hgo. by exists tt, (c_st c), (c_chans c), h.
  - left. apply Hgo. by exists tt, (c_st c), (c_chans c), h.
Qed.

(** Some goroutine can always go on, unless the send of an acknowledgement
    blocks: the holder of the mutex another one waits for does not itself wait
    for a mutex. *)
Lemma progress c i :
  Forall (fine_thread disciplined fresh) (c_threads c) -> no_panic c -> unfinished c i ->
  can_step c i \/ stuck_send c i \/
  exists m j, waits_lock c i m /\ holds_lock c j m /\ (can_step c j \/ stuck_send c j).
Proof.
  intros Hf Hnp (h & X & e & k & Hi). assert (Hf' := Hf). rewrite Forall_lookup in Hf'.
  destruct (fine_enabled c i h X e k (Hf' i _ Hi) Hi) as [?|[?|(m & Hm & j & Hne & Hj)]]; [by left|by right; left|].
  right; right. exists m, j. split; [done|]. split; [done|]. destruct Hj as (t & md & Hj & Hmd).
  destruct t as [hj pj]. assert (Hfj := Hf' j _ Hj). cbn in Hmd. unfold fine_thread in Hfj. cbn in Hfj.
  destruct pj as [a|w|Y e' k'].
  - cbn in Hfj. subst hj. by apply not_elem_of_nil in Hmd.
  - by destruct (Hnp j hj w).
  - destruct (fine_enabled c j hj Y e' k') as [?|[?|(m' & (t' & Ht' & Hw) & _)]];
      [done|done|by left|by right|].
    rewrite Hj in Ht'. injection Ht' as <-. exfalso. destruct Hfj as [Hd _].
    cbn in Hw. destruct e'; try done. cbn in Hd. subst hj. by apply not_elem_of_nil in Hmd.
Qed.

Lemma each_weaken (ok ok' : forall X, goE S X -> held -> Prop) {A} (p : prog S A) h Q :
  (forall X e h, ok X e h -> ok' X e h) -> each ok fresh p h Q -> each ok' fresh p h Q.
Proof.
  intros Hok. revert h. induction p as [a|w|X e k IH]; intros h; [done..|].
  cbn. intros [H1 H2]. split; [by apply Hok|]. destruct (held_after e h); [|done]. intros x Hx. by apply IH, H2.
Qed.

Lemma fine_disciplined I ts : Forall (fine_thread (guarded I fresh) fresh) ts -> Forall (fine_thread disciplined fresh) ts.
Proof. intros H. eapply Forall_impl; [exact H|]. intros t. apply each_weaken. by intros X e h []. Qed.
End Disciplined.

(** The invariant of the shared state. *)
Lemma inv_step I fresh c c' :
  Forall (fine_thread (guarded I fresh) fresh) (c_threads c) -> I (c_st c) -> step c c' -> I (c_st c').
Proof.
  intros Hf HI Hs. destruct Hs as [i h X e k s cs ts x s' cs' h' Hi He|p s cs ts Hp]; cbn in *; [|done].
  rewrite Forall_lookup in Hf. destruct (Hf i _ Hi) as [[_ Hk] _]. destruct e; cbn in *;
    open_hyps; subst; try done.
  - specialize (Hk s HI). by destruct (f s); simplify_eq/=.
  - by apply Hk.
Qed.

Lemma inv_reach I fresh c c' :
  (forall p, starts p -> fine (guarded I fresh) fresh p) -> (forall g, fine (guarded I fresh) fresh (body g)) ->
  fresh_from fresh (c_chans c) ->
  Forall (fine_thread (guarded I fresh) fresh) (c_threads c) -> I (c_st c) -> reach c c' ->
  Forall (fine_thread (guarded I fresh) fresh) (c_threads c') /\ I (c_st c').
Proof.
  intros Hst Hb Hfr Hf HI Hr. induction Hr as [|c1 c2 c3 Hs Hr IH]; [done|].
  apply IH; [by eapply fresh_step|by eapply fine_step|by eapply inv_step].
Qed.

(** ** A send that never ends

    Once a channel is full and nobody waits on it any more, the goroutine at
    its send stays there, and so does every goroutine that wants the mutex it
    holds. *)
Definition full (n : nat) (cs : list chan) : Prop :=
  exists ch, cs !! n = Some ch /\ cap ch <= length (buf ch).

Definition sends_on (n : nat) (m : mutex) (t : thread) : Prop :=
  head_send (t_prog t) = Some n /\ (m, Exclusive) ∈ t_held t.

Definition waits_for (m : mutex) (t : thread) : Prop := head_lock (t_prog t) = Some m.

Section Stuck.
Context (ok : forall X, goE S X -> held -> Prop) (n : nat) (m : mutex).
Hypothesis ok_select : forall c h, ok _ (ESelect c) h -> c <> n.

Definition other_than (c : nat) : Prop := c <> n.

Lemma full_fresh cs : full n cs -> fresh_from other_than cs.
Proof. intros (ch & Hch & _) k Hk ->. apply lookup_lt_Some in Hch. lia. Qed.

Lemma stuck_keeps h h' X (e : goE S X) k s cs o x s' cs' :
  full n cs -> fine_thread ok other_than (Thread h (Vis e k)) -> effect_ok e s cs h o x s' cs' h' ->
  full n cs' /\ head_send (Vis e (fun _ => Ret tt)) <> Some n.
Proof.
  intros (ch & Hch & Hfull) [Hok _] He. destruct e; cbn in *; open_hyps; subst;
    try by split; [exists ch|].
  - split; [|done]. exists ch. split; [|done]. rewrite lookup_app_l; [done|by eapply lookup_lt_Some].
  - assert (c <> n) as Hne. { intros ->. rewrite Hch in H. injection H as <-. lia. }
    split; [|congruence]. exists ch. by rewrite list_lookup_insert_ne.
  - split; [|done]. apply ok_select in Hok.
    destruct H1 as [[-> ->]|(b & r & n' & -> & _ & ->)]; [by exists ch|].
    exists ch. by rewrite list_lookup_insert_ne.
Qed.

Lemma not_taken i j tj h X (e : goE S X) k s cs ts x s' cs' h' :
  ts !! j = Some tj -> (m, Exclusive) ∈ t_held tj -> i <> j -> ts !! i = Some (Thread h (Vis e k)) ->
  effect_ok e s cs h (others i ts) x s' cs' h' -> head_lock (Vis e (fun _ => Ret tt)) <> Some m.
Proof.
  intros Hj Hm Hne Hi He. destruct e; cbn; try done. intros [= ->]. cbn in He.
  destruct He as [Hf _].
  destruct (is_free_spec _ _ _ (m, Exclusive) Hf) as [_ [=]]; [|done].
  apply elem_of_app. right. by apply (others_elem ts i j tj).
Qed.

Lemma stuck_step c c' j tj :
  Forall (fine_thread ok other_than) (c_threads c) -> full n (c_chans c) ->
  c_threads c !! j = Some tj -> sends_on n m tj -> step c c' ->
  full n (c_chans c') /\ c_threads c' !! j = Some tj /\
  (forall i t, i <> j -> c_threads c !! i = Some t -> waits_for m t -> c_threads c' !! i = Some t).
Proof.
  intros Hf Hfull Hj [Hs Hm] Hstep.
  destruct Hstep as [i h X e k s cs ts x s' cs' h' Hi He|p s cs ts Hp]; cbn in *.
  2:{ split; [done|]. split; [by apply lookup_app_l_Some|]. intros. by apply lookup_app_l_Some. }
  rewrite Forall_lookup in Hf.
  destruct (stuck_keeps h h' X e k s cs _ x s' cs' Hfull (Hf i _ Hi) He) as [Hfull' Hsend].
  assert (i <> j) as Hne.
  { intros ->. rewrite Hj in Hi. injection Hi as ->. apply Hsend. by destruct e. }
  split; [done|]. split.
  - apply lookup_app_l_Some. by rewrite list_lookup_insert_ne.
  - intros i' t Hne' Ht Hw. apply lookup_app_l_Some. rewrite list_lookup_insert_ne; [done|].
    intros <-. rewrite Hi in Ht. injection Ht as <-.
    eapply (not_taken i j tj h X e k s cs ts); [done..|]. by destruct e.
Qed.

Lemma stuck_forever c c' j tj :
  (forall p, starts p -> fine ok other_than p) -> (forall g, fine ok other_than (body g)) ->
  Forall (fine_thread ok other_than) (c_threads c) -> full n (c_chans c) ->
  c_threads c !! j = Some tj -> sends_on n m tj -> reach c c' ->
  full n (c_chans c') /\ c_threads c' !! j = Some tj /\
  (forall i t, i <> j -> c_threads c !! i = Some t -> waits_for m t -> c_threads c' !! i = Some t).
Proof.
  intros Hst Hb Hf Hfull Hj Hs Hr. induction Hr as [c|c1 c2 c3 H12 Hr IH]; [done|].
  destruct (stuck_step c1 c2 j tj Hf Hfull Hj Hs H12) as (Hfull2 & Hj2 & Hw2).
  destruct (IH (fine_step _ _ Hst Hb _ _ (full_fresh _ Hfull) Hf H12) Hfull2 Hj2) as (Hfull3 & Hj3 & Hw3).
  split; [done|]. split; [done|]. intros i t Hne Ht Hw. by apply Hw3; [|apply Hw2|].
Qed.

Lemma stuck_no_step c j tj i t :
  full n (c_chans c) -> c_threads c !! j = Some tj -> sends_on n m tj ->
  c_threads c !! i = Some t -> i = j \/ waits_for m t -> ~ can_step c i.
Proof.
  intros (ch & Hch & Hfull) Hj [Hs Hm] Hi Hw (h & X & e & k & x & s' & cs' & h' & He & Heff).
  destruct (decide (i = j)) as [->|Hne].
  - rewrite Hj in He. injection He as ->. destruct e; try done. cbn in *. injection Hs as ->.
    open_hyps. rewrite Hch in H. injection H as <-. lia.
  - destruct Hw as [?|Hw]; [done|]. rewrite Hi in He. injection He as ->.
    eapply (not_taken i j tj h X e k); [done..|]. by destruct e.
Qed.
End Stuck.
End Concurrency.

(** ** Proving programs guarded

    [balanced] programs compose; the critical sections are stepped through. *)
Section Balanced.
Context {S : Type} (I : S -> Prop) (fresh : nat -> Prop).

Definition balanced {A} (p : prog S A) : Prop := each (guarded I fresh) fresh p [] (fun _ h => h = []).

Lemma bal_bind {A B} (p : prog S A) (f : A -> prog S B) :
  balanced p -> (forall a, balanced (f a)) -> balanced (p ≫= f).
Proof.
  intros Hp Hf. apply each_bind. eapply each_mono; [exact Hp|]. intros a h ->. apply Hf.
Qed.

Lemma bal_call {A} (p : prog S A) Q :
  balanced p -> (forall a, Q a []) -> each (guarded I fresh) fresh p [] Q.
Proof. intros Hp HQ. eapply each_mono; [exact Hp|]. by intros a h ->. Qed.

Lemma bal_ret {A} (a : A) : balanced (Ret a).
Proof. done. Qed.

Lemma bal_raise {A} w : balanced (@Raise S A w).
Proof. done. Qed.

Lemma bal_make_chan {A} n (f : nat -> prog S A) :
  (forall c, fresh c -> balanced (f c)) -> balanced (trigger (EMakeChan n) ≫= f).
Proof. intros Hf. split; [done|]. exact Hf. Qed.

Lemma bal_trigger {X} (e : goE S X) :
  guarded I fresh X e [] -> held_after e [] = Some [] -> balanced (trigger e).
Proof. intros Hg Hh. split; [done|]. by rewrite Hh. Qed.

Lemma bal_get_index {A} (l : list A) i : balanced (get_index l i).
Proof. unfold get_index. by destruct (l !! i). Qed.

Lemma bal_of_gores {A} (r : gores A) : balanced (of_gores r).
Proof. by destruct r. Qed.

Lemma each_of_gores ok {A} (r : gores A) h (Q : A + string -> held -> Prop) :
  (forall a, Q a h) -> each ok fresh (@of_gores S A r) h Q.
Proof. intros H. by destruct r; cbn. Qed.

Lemma bal_shuffle_from {A} i (l : list A) : balanced (shuffle_from i l).
Proof.
  revert l. induction i as [|i IH]; intros l; [done|]. cbn [shuffle_from].
  apply bal_bind; [|intros; apply IH]. apply bal_trigger; [|done]. split; [cbn; lia|done].
Qed.

Lemma bal_shuffle {A} (l : list A) : balanced (Shuffle l).
Proof. apply bal_shuffle_from. Qed.
End Balanced.

Create HintDb dor_bal.
#[export] Hint Resolve bal_ret bal_raise bal_get_index bal_of_gores bal_shuffle : dor_bal.
#[export] Hint Extern 1 (balanced _ _ (trigger _)) =>
  (apply bal_trigger; [by split|done]) : dor_bal.

(** Through binds and case analyses down to calls of balanced programs. *)
Ltac bal_steps :=
  repeat first
    [ solve [auto 2 with dor_bal]
    | lazymatch goal with
      | |- balanced _ _ (Lock _ ≫= _) => fail
      | |- balanced _ _ (RLock _ ≫= _) => fail
      | |- balanced _ _ (trigger (EMakeChan _) ≫= _) => apply bal_make_chan; intros ? ?
      | _ => apply bal_bind; [|intros ?]
      end
    | match goal with
      | |- balanced _ _ (match ?x with _ => _ end) => destruct x eqn:?
      | |- balanced _ _ (if ?x then _ else _) => destruct x eqn:?
      | |- balanced _ _ (let _ := _ in _) => cbn zeta
      end ].

(** Through a critical section. *)
Ltac each_steps :=
  repeat first
    [ apply each_bind
    | match goal with
      | |- each _ _ (Ret _) _ _ => cbn [each]
      | |- each _ _ (of_gores _) _ _ => apply each_of_gores; intros ?
      | |- each _ _ (trigger _) _ _ => split; [split|cbn [held_after]; intros ? _]
      | |- each _ _ (Lock _) _ _ => split; [by split|cbn [held_after]; intros ? _]
      | |- each _ _ (RLock _) _ _ => split; [by split|cbn [held_after]; intros ? _]
      | |- each _ _ (Unlock _) _ _ => split; [by split|cbn [held_after release]; rewrite decide_True by done; intros ? _]
      | |- each _ _ (RUnlock _) _ _ => split; [by split|cbn [held_after release]; rewrite decide_True by done; intros ? _]
      | |- each _ _ (read _ _) _ _ => split; [split; [cbn; first [by left|by right; left; left|by right; right; split; [left|]]|by intros ?]|cbn [held_after]; intros ? _]
      | |- each _ _ (write _ _) _ _ => split; [split; [cbn; first [by left|by right; left; left]|cbn; intros ? ?]|cbn [held_after]; intros ? _]
      | |- each _ _ (match ?x with _ => _ end) _ _ => destruct x eqn:?
      | |- each _ _ (if ?x then _ else _) _ _ => destruct x eqn:?
      | |- each _ _ _ [] _ => apply bal_call; [solve [auto 2 with dor_bal]|intros ?]
      end ]; try done.
