(* ===== verification/Ghost.v ===== *)
(** * Invariants with a ghost value per goroutine

    [safe Inv p h t Q]: run from the mutexes [h] and the ghost value [t], every
    effect of [p] can be matched by a change of its own ghost value that keeps
    [Inv], whatever the other goroutines did in between; at its end [Q] holds.
    [Inv] relates the shared state to the mutexes and ghost values of all
    goroutines. *)

From S2P Require Import Prelude GoMonad Concurrency.

Section Ghost.
Context {S T : Type}.

(** The mutexes and the ghost value of each goroutine. *)
Abbreviation ghosts := (list (held * T)).

Variable Inv : S -> ghosts -> Prop.

(** No other goroutine holds what goroutine [i] holds exclusively. *)
Definition apart (i : nat) (h : held) (gs : ghosts) : Prop :=
  forall j g, j <> i -> gs !! j = Some g -> compatible h g.1.

Fixpoint safe {A} (p : prog S A) (h : held) (t : T) (Q : A -> held -> T -> Prop) : Prop :=
  match p with
  | Ret a => Q a h t
  | Raise _ => True
  | Vis e k => forall s gs i o cs x s' cs' h',
      Inv s gs -> gs !! i = Some (h, t) -> apart i h gs -> effect_ok e s cs h o x s' cs' h' ->
      exists t', Inv s' (<[i := (h', t')]> gs) /\ safe (k x) h' t' Q
  end.

Lemma safe_ret {A} (a : A) h t (Q : A -> held -> T -> Prop) : Q a h t -> safe (Ret a) h t Q.
Proof. done. Qed.

Lemma safe_bind {A B} (p : prog S A) (f : A -> prog S B) h t Q :
  safe p h t (fun a h' t' => safe (f a) h' t' Q) -> safe (p ≫= f) h t Q.
Proof.
  revert h t. induction p as [a|w|X e k IH]; intros h t; [done..|]. cbn.
  intros H s gs i o cs x s' cs' h' HI Hi Ha He.
  destruct (H s gs i o cs x s' cs' h' HI Hi Ha He) as (t' & HI' & Hs). exists t'. split; [done|by apply IH].
Qed.

Lemma safe_mono {A} (p : prog S A) h t (Q R : A -> held -> T -> Prop) :
  safe p h t Q -> (forall a h' t', Q a h' t' -> R a h' t') -> safe p h t R.
Proof.
  intros H HQ. revert h t H. induction p as [a|w|X e k IH]; intros h t; [apply HQ|done|]. cbn.
  intros H s gs i o cs x s' cs' h' HI Hi Ha He.
  destruct (H s gs i o cs x s' cs' h' HI Hi Ha He) as (t' & HI' & Hs). exists t'. split; [done|by apply IH].
Qed.

(** ** Programs that leave what [Inv] depends on alone *)
Section Quiet.
Context {V : Type} (view : S -> V) (t : T).
Hypothesis inv_view : forall s s' gs i h h',
  view s' = view s -> Inv s gs -> gs !! i = Some (h, t) -> Inv s' (<[i := (h', t)]> gs).

Definition view_kept {A} (p : prog S A) (h : held) : Prop :=
  forall v, each (guarded (fun s => view s = v) (fun _ => True)) (fun _ => True) p h (fun _ _ => True).

Lemma balanced_view_kept {A} (p : prog S A) :
  (forall v, balanced (fun s => view s = v) (fun _ => True) p) -> view_kept p [].
Proof. intros Hb v. by eapply each_mono; [apply Hb|]. Qed.

Lemma effect_view {X} (e : goE S X) s cs h o x s' cs' h' :
  keeps_inv (fun s1 => view s1 = view s) (fun _ => True) X e ->
  effect_ok e s cs h o x s' cs' h' -> view s' = view s.
Proof.
  intros Hk He. destruct e; cbn in *; open_hyps; subst; try done.
  - specialize (Hk s eq_refl). by destruct (f s); simplify_eq/=.
  - by apply (Hk s).
Qed.

Lemma safe_view_kept {A} (p : prog S A) h :
  view_kept p h -> safe p h t (fun _ _ t' => t' = t).
Proof.
  revert h. induction p as [a|w|X e k IH]; intros h Hv; [done..|].
  intros s gs i o cs x s' cs' h' HI Hi Ha He. exists t. split.
  - apply (inv_view s s' gs i h h'); [|done..]. destruct (Hv (view s)) as [[_ Hk] _]. by eapply effect_view.
  - apply IH. intros v. destruct (Hv v) as [_ Hx]. rewrite (effect_held _ _ _ _ _ _ _ _ _ He) in Hx.
    apply Hx. by destruct e.
Qed.
End Quiet.

(** ** Runs *)
Variable body : goroutine -> prog S unit.
Variable starts : prog S unit -> Prop.
Variable Q : T -> Prop.

(** A ghost value a goroutine may start with. *)
Variable entry : T -> Prop.
Hypothesis inv_entry : forall s gs t, entry t -> Inv s gs -> Inv s (gs ++ [([], t)]).

Definition starts_safe (p : prog S unit) : Prop := exists t, entry t /\ safe p [] t (fun _ _ t => Q t).

Hypothesis safe_starts : forall p, starts p -> starts_safe p.
Hypothesis safe_body : forall g, starts_safe (body g).

Definition matches (th : thread) (g : held * T) : Prop :=
  t_held th = g.1 /\ safe (t_prog th) g.1 g.2 (fun _ _ t => Q t).

Definition good (c : config) (gs : ghosts) : Prop :=
  Forall2 matches (c_threads c) gs /\ Inv (c_st c) gs /\ locks_ok (c_threads c).

Lemma matches_apart ts gs i h p :
  Forall2 matches ts gs -> locks_ok ts -> ts !! i = Some (Thread h p) -> apart i h gs.
Proof.
  intros Hm Hl Hi j g Hne Hj. destruct (Forall2_lookup_r _ _ _ _ _ Hm Hj) as (th & Hth & Hh & _).
  rewrite <- Hh. apply (Hl i j (Thread h p) th); [congruence|done..].
Qed.

Lemma good_start c gs p :
  starts_safe p -> good c gs ->
  exists gs', good (Cfg (c_st c) (c_chans c) (c_threads c ++ [Thread [] p])) gs'.
Proof.
  intros (t & Ht & Hp) (Hm & HI & Hl). exists (gs ++ [([], t)]). split; [|split].
  - apply Forall2_app; [done|]. by apply Forall2_cons.
  - by apply inv_entry.
  - apply locks_app; [done|by repeat constructor].
Qed.

Lemma good_step c c' gs : good c gs -> step body starts c c' -> exists gs', good c' gs'.
Proof.
  intros (Hm & HI & Hl) Hs. pose proof (locks_step _ _ c c' Hl Hs) as Hl'.
  destruct Hs as [i h X e k s cs ts x s' cs' h' Hi He|p s cs ts Hp]; cbn in *.
  2:{ by apply (good_start (Cfg s cs ts) gs); [apply safe_starts|]. }
  destruct (Forall2_lookup_l _ _ _ _ _ Hm Hi) as ([h0 t] & Hg & Hh & Hsafe). cbn in Hh. subst h0.
  destruct (Hsafe s gs i _ cs x s' cs' h' HI Hg (matches_apart _ _ _ _ _ Hm Hl Hi) He) as (t' & HI' & Hk).
  assert (Hgood : good (Cfg s' cs' (<[i:=Thread h' (k x)]> ts)) (<[i:=(h', t')]> gs)).
  { split; [|split]; [by apply Forall2_insert|done|]. eapply locks_insert; [done|done|].
    intros y Hy. cbn. by eapply effect_new_held. }
  destruct e; cbn [spawned]; try (rewrite app_nil_r; by eexists).
  by apply (good_start _ _ (body g) (safe_body g)) in Hgood.
Qed.

Lemma good_reach c c' gs : good c gs -> reach body starts c c' -> exists gs', good c' gs'.
Proof.
  intros Hg Hr. revert gs Hg. induction Hr as [|c1 c2 c3 Hs Hr IH]; intros gs Hg; [by exists gs|].
  destruct (good_step _ _ _ Hg Hs) as (gs' & Hg'). by eapply IH.
Qed.
End Ghost.
