(* ===== verification/Hub.v ===== *)
(** * Publish and subscribe: the log broker of node/web.go and the event stream
    of dashboard/main.go

    Both keep a set of buffered channels behind a mutex: [broadcastLog] and
    [broadcast] offer a value to every channel without waiting
    ([select { case ch <- v: default: }]), the stream handlers subscribe,
    forward what they receive and unsubscribe; the dashboard also closes the
    channel.  The state machine below has one step per channel operation, so
    receivers run between the offers of one broadcast. *)

From S2P Require Import Prelude.

Section Hub.
Context {A : Type}.

(** [make(chan string, 256)], [make(chan Event, 64)]. *)
Variable capacity : nat.

Record channel := Channel { queue : list A; closed : bool }.

Record hub := Hub {
  channels : gmap nat channel;          (* every channel made *)
  subs : gset nat;                      (* the keys of [subs], of [clients] *)
  sending : option (A * list nat);      (* the holder of the mutex in its loop *)
  out : gmap nat (list A);              (* what each stream handler forwarded *)
  sent : list A;                        (* the broadcasts so far *)
  since : gmap nat nat;                 (* how many there were at subscription *)
  dropped : gset nat }.                 (* the channels an offer found full *)

Definition empty_hub : hub := Hub ∅ ∅ None ∅ [] ∅ ∅.

(** [select { case ch <- x: default: }]; [None]: a send on a closed channel
    panics. *)
Definition offer (x : A) (c : nat) (rest : list nat) (h : hub) : option hub :=
  match channels h !! c with
  | None | Some (Channel _ true) => None
  | Some (Channel q false) =>
      if length q <? capacity
      then Some (Hub (<[c := Channel (q ++ [x]) false]> (channels h)) (subs h) (Some (x, rest))
                   (out h) (sent h) (since h) (dropped h))
      else Some (Hub (channels h) (subs h) (Some (x, rest)) (out h) (sent h) (since h)
                   ({[c]} ∪ dropped h))
  end.

(** [subscribe]: a new channel, put in the map under the mutex. *)
Definition subscribe (c : nat) (h : hub) : hub :=
  Hub (<[c := Channel [] false]> (channels h)) ({[c]} ∪ subs h) (sending h)
    (<[c := []]> (out h)) (sent h) (<[c := length (sent h)]> (since h)) (dropped h).

(** [unsubscribe], the first half of the deferred function of [/stream]. *)
Definition unsubscribe (c : nat) (h : hub) : hub :=
  Hub (channels h) (subs h ∖ {[c]}) (sending h) (out h) (sent h) (since h) (dropped h).

(** [close(ch)], its second half. *)
Definition close (c : nat) (q : list A) (h : hub) : hub :=
  Hub (<[c := Channel q true]> (channels h)) (subs h) (sending h) (out h) (sent h) (since h) (dropped h).

(** [mutex.Lock] and the head of the loop: a map is ranged over in any order. *)
Definition begin (x : A) (order : list nat) (h : hub) : hub :=
  Hub (channels h) (subs h) (Some (x, order)) (out h) (sent h ++ [x]) (since h) (dropped h).

Definition finish (h : hub) : hub :=
  Hub (channels h) (subs h) None (out h) (sent h) (since h) (dropped h).

(** [case line := <-ch] and the write to the client. *)
Definition forward (c : nat) (x : A) (q : list A) (h : hub) : hub :=
  Hub (<[c := Channel q false]> (channels h)) (subs h) (sending h)
    (alter (fun l => l ++ [x]) c (out h)) (sent h) (since h) (dropped h).

Inductive action := Publish (x : A) | Other.

Inductive hub_step : action -> hub -> hub -> Prop :=
| step_subscribe c h :
    sending h = None -> channels h !! c = None -> hub_step Other h (subscribe c h)
| step_unsubscribe c h :
    sending h = None -> hub_step Other h (unsubscribe c h)
| step_close c q h :
    c ∉ subs h -> channels h !! c = Some (Channel q false) -> hub_step Other h (close c q h)
| step_begin x order h :
    sending h = None -> order ≡ₚ elements (subs h) -> hub_step (Publish x) h (begin x order h)
| step_offer x c rest h h' :
    sending h = Some (x, c :: rest) -> offer x c rest h = Some h' -> hub_step Other h h'
| step_finish x h :
    sending h = Some (x, []) -> hub_step Other h (finish h)
| step_forward c x q h :
    channels h !! c = Some (Channel (x :: q) false) -> hub_step Other h (forward c x q h).

Definition hub_reach : hub -> hub -> Prop := rtc (fun h h' => exists a, hub_step a h h').

(** ** The invariant *)

(** The broadcasts whose offer to [c] has been made, or never will be. *)
Definition due (h : hub) (c : nat) : list A :=
  match sending h with
  | Some (_, todo) => if decide (c ∈ todo) then take (length (sent h) - 1) (sent h) else sent h
  | None => sent h
  end.

(** The stream of [c]: what was forwarded and what is queued, against what was
    broadcast since the subscription. *)
Definition stream_ok (h : hub) (c : nat) (q : list A) : Prop :=
  exists o n, out h !! c = Some o /\ since h !! c = Some n /\ n <= length (due h c) /\
    length q <= capacity /\ o ++ q `sublist_of` drop n (due h c) /\
    (c ∈ subs h -> c ∉ dropped h -> o ++ q = drop n (due h c)).

Record hub_ok (h : hub) : Prop := {
  ok_subs c : c ∈ subs h -> exists q, channels h !! c = Some (Channel q false);
  ok_sending x todo : sending h = Some (x, todo) ->
    NoDup todo /\ (forall c, c ∈ todo -> c ∈ subs h) /\ exists l, sent h = l ++ [x];
  ok_streams c q b : channels h !! c = Some (Channel q b) -> stream_ok h c q }.

Lemma empty_ok : hub_ok empty_hub.
Proof. split; [done..|]. intros c q b H. cbn in H. by rewrite lookup_empty in H. Qed.

(** A stream not concerned by a step. *)
Lemma stream_same h h' c q :
  out h' !! c = out h !! c -> since h' !! c = since h !! c -> due h' c = due h c ->
  (c ∈ subs h' -> c ∈ subs h) -> (c ∉ dropped h' -> c ∉ dropped h) ->
  stream_ok h c q -> stream_ok h' c q.
Proof.
  intros Ho Hs Hd Hsub Hdr (o & n & H1 & H2 & H3 & H4 & H5 & H6).
  exists o, n. rewrite Ho, Hs, Hd. repeat split; auto.
Qed.

Lemma ok_subscribe c h :
  hub_ok h -> sending h = None -> channels h !! c = None -> hub_ok (subscribe c h).
Proof.
  intros [H1 H2 H3] Hn Hc. split; cbn.
  - intros d Hd. destruct (decide (d = c)) as [->|Hne].
    + exists []. by rewrite lookup_insert_eq.
    + rewrite lookup_insert_ne by done. apply H1. set_solver.
  - intros x todo Ht. congruence.
  - intros d q b [[<- [= <- <-]]|[Hne Hd]]%lookup_insert_Some.
    + exists [], (length (sent h)). unfold due. cbn. rewrite !lookup_insert_eq, Hn, drop_all. cbn.
      repeat split; [lia|lia|constructor].
    + apply (stream_same h); cbn; rewrite ?lookup_insert_ne by done; try done.
      * set_solver.
      * by eapply H3.
Qed.

Lemma ok_unsubscribe c h : hub_ok h -> sending h = None -> hub_ok (unsubscribe c h).
Proof.
  intros [H1 H2 H3] Hn. split; cbn.
  - intros d Hd. apply H1. set_solver.
  - intros x todo Ht. congruence.
  - intros d q b Hd. apply (stream_same h); cbn; try done; [set_solver|by eapply H3].
Qed.

Lemma ok_close c q h :
  hub_ok h -> c ∉ subs h -> channels h !! c = Some (Channel q false) -> hub_ok (close c q h).
Proof.
  intros [H1 H2 H3] Hn Hc. split; cbn; [|done|].
  - intros d Hd. rewrite lookup_insert_ne by set_solver. by apply H1.
  - intros d q' b [[<- [= <- <-]]|[Hne Hd]]%lookup_insert_Some; apply (stream_same h); cbn; try done; by eapply H3.
Qed.

Lemma ok_begin x order h :
  hub_ok h -> sending h = None -> order ≡ₚ elements (subs h) -> hub_ok (begin x order h).
Proof.
  intros [H1 H2 H3] Hn Ho.
  assert (Hin : forall c, c ∈ order <-> c ∈ subs h) by (intros c; by rewrite Ho, elem_of_elements).
  split; cbn; [done| |].
  - intros y todo [= <- <-]. split; [by rewrite Ho; apply NoDup_elements|]. split; [apply Hin|by eexists].
  - intros c q b Hc. destruct (H3 c q b Hc) as (o & n & G1 & G2 & G3 & G4 & G5 & G6).
    assert (Hd : due h c = sent h) by (unfold due; by rewrite Hn). rewrite Hd in *.
    exists o, n. unfold due. cbn. rewrite length_app. cbn.
    replace (length (sent h) + 1 - 1) with (length (sent h)) by lia. rewrite take_app_length.
    destruct (decide (c ∈ order)) as [Hc'|Hc']; [done|]. repeat split; try done.
    + rewrite length_app. lia.
    + rewrite drop_app_le by done. by apply sublist_inserts_r.
    + intros Hs. by apply Hin in Hs.
Qed.

Lemma ok_finish x h : hub_ok h -> sending h = Some (x, []) -> hub_ok (finish h).
Proof.
  intros [H1 H2 H3] Hs. split; cbn; [done|done|].
  intros c q b Hc. apply (stream_same h); cbn; try done; [|by eapply H3].
  unfold due. cbn. by rewrite Hs, decide_False by by apply not_elem_of_nil.
Qed.

Lemma ok_forward c x q h :
  hub_ok h -> channels h !! c = Some (Channel (x :: q) false) -> hub_ok (forward c x q h).
Proof.
  intros [H1 H2 H3] Hc. split; cbn; [|done|].
  - intros d Hd. destruct (decide (d = c)) as [->|Hne]; [rewrite lookup_insert_eq; by eexists|].
    rewrite lookup_insert_ne by done. by apply H1.
  - intros d q' b [[<- [= <- <-]]|[Hne Hd]]%lookup_insert_Some.
    + destruct (H3 _ _ _ Hc) as (o & n & G1 & G2 & G3 & G4 & G5 & G6). exists (o ++ [x]), n. cbn.
      cbn. rewrite lookup_alter_eq, G1. unfold due in *. cbn in *. rewrite <- app_assoc. repeat split; try done. lia.
    + apply (stream_same h); cbn; try done; [by rewrite lookup_alter_ne|by eapply H3].
Qed.

(** An offer to one stream counts the broadcast as made for it. *)
Lemma due_offered h h' x c rest l d :
  sending h = Some (x, c :: rest) -> NoDup (c :: rest) -> sent h = l ++ [x] -> sent h' = sent h ->
  sending h' = Some (x, rest) ->
  (d <> c -> due h' d = due h d) /\ due h c = l /\ due h' c = l ++ [x].
Proof.
  intros Hs [Hc Hnd]%NoDup_cons Hl Hsent Hs'. unfold due. rewrite Hs, Hs', Hsent, Hl.
  rewrite length_app. cbn. replace (length l + 1 - 1) with (length l) by lia. rewrite take_app_length.
  split; [|split].
  - intros Hne. destruct (decide (d ∈ rest)), (decide (d ∈ c :: rest)); try done; set_solver.
  - rewrite decide_True by set_solver. done.
  - rewrite decide_False by done. done.
Qed.

Lemma ok_offer x c rest h h' :
  hub_ok h -> sending h = Some (x, c :: rest) -> offer x c rest h = Some h' -> hub_ok h'.
Proof.
  intros [H1 H2 H3] Hs Hoff. destruct (H2 _ _ Hs) as (Hnd & Htodo & l & Hl).
  assert (Hcs : c ∈ subs h) by (apply Htodo; set_solver).
  destruct (H1 c Hcs) as [q Hq]. unfold offer in Hoff. rewrite Hq in Hoff.
  destruct (H3 _ _ _ Hq) as (o & n & G1 & G2 & G3 & G4 & G5 & G6).
  assert (Hrest : NoDup rest /\ (forall d, d ∈ rest -> d ∈ subs h)).
  { apply NoDup_cons in Hnd as [_ ?]. split; [done|]. intros d Hd. apply Htodo. set_solver. }
  destruct (Nat.ltb_spec (length q) capacity) as [Hlt|Hge]; injection Hoff as <-;
    match goal with |- hub_ok ?h' => pose proof (due_offered h h' x c rest l) as Hdue end;
    (split; cbn).
  - intros d Hd. destruct (decide (d = c)) as [->|Hne]; [rewrite lookup_insert_eq; by eexists|].
    rewrite lookup_insert_ne by done. by apply H1.
  - intros y todo [= <- <-]. destruct Hrest. split_and!; [done..|by exists l].
  - intros d q' b [[<- [= <- <-]]|[Hne Hd]]%lookup_insert_Some.
    + destruct (Hdue c) as (_ & E & E'); [done..|]. exists o, n. rewrite E in *. rewrite E'. cbn.
      rewrite !length_app, drop_app_le, app_assoc by done. cbn. split_and!; try done; [lia..| |].
      * by apply sublist_app.
      * intros Hc Hd. by rewrite G6.
    + apply (stream_same h); cbn; try done; [by apply Hdue|by eapply H3].
  - done.
  - intros y todo [= <- <-]. destruct Hrest. split_and!; [done..|by exists l].
  - intros d q' b Hd. destruct (decide (d = c)) as [->|Hne].
    + rewrite Hq in Hd. injection Hd as <- <-.
      destruct (Hdue c) as (_ & E & E'); [done..|]. exists o, n. rewrite E in *. rewrite E'. cbn.
      rewrite !length_app, drop_app_le by done. cbn. split_and!; try done; [lia| |set_solver].
      by apply sublist_inserts_r.
    + apply (stream_same h); cbn; try done; [by apply Hdue|set_solver|by eapply H3].
Qed.

Lemma ok_step a h h' : hub_ok h -> hub_step a h h' -> hub_ok h'.
Proof.
  intros Hok Hs. destruct Hs;
    eauto using ok_subscribe, ok_unsubscribe, ok_close, ok_begin, ok_offer, ok_finish, ok_forward.
Qed.

Lemma ok_reach h : hub_reach empty_hub h -> hub_ok h.
Proof.
  intros Hr. assert (H : hub_ok empty_hub) by apply empty_ok. revert H.
  induction Hr as [|h1 h2 h3 [a Hs] Hr IH]; [done|]. intros H. by eapply IH, ok_step.
Qed.
Lemma due_sublist h c n : drop n (due h c) `sublist_of` drop n (sent h).
Proof.
  unfold due. destruct (sending h) as [[x todo]|]; [|done]. case_decide; [|done].
  rewrite <- (take_drop (length (sent h) - 1) (sent h)) at 3. rewrite drop_app. by apply sublist_inserts_r.
Qed.

(** The loop of a broadcast: an offer never waits and never finds its channel
    closed. *)
Lemma offer_possible x c rest h :
  hub_ok h -> sending h = Some (x, c :: rest) ->
  exists h', offer x c rest h = Some h' /\ sending h' = Some (x, rest).
Proof.
  intros [H1 H2 _] Hs. destruct (H2 _ _ Hs) as (_ & Hin & _).
  destruct (H1 c) as [q Hq]; [by apply Hin; left|]. unfold offer. rewrite Hq.
  destruct (length q <? capacity); by eexists.
Qed.

Lemma broadcast_ends x todo h :
  hub_ok h -> sending h = Some (x, todo) ->
  exists h', nsteps (fun h h' => hub_step Other h h') (length todo + 1) h h' /\ sending h' = None.
Proof.
  revert h. induction todo as [|c todo IH]; intros h Hok Hs.
  - exists (finish h). split; [|done]. eapply nsteps_l; [by eapply step_finish|constructor].
  - destruct (offer_possible x c todo h Hok Hs) as (h1 & Ho & Hs1).
    assert (hub_step Other h h1) by by eapply step_offer.
    destruct (IH h1) as (h' & Hn & Hd); [by eapply ok_step|done|].
    exists h'. split; [by eapply nsteps_l|done].
Qed.

(** ** A subscriber over time *)

(** Channel [c] is there, was made after [n] broadcasts, and its handler has
    forwarded [o] at least. *)
Definition subscriber (c n : nat) (o : list A) (h : hub) : Prop :=
  is_Some (channels h !! c) /\ since h !! c = Some n /\ exists o', out h !! c = Some o' /\ o `prefix_of` o'.

Lemma subscriber_new c h : subscriber c (length (sent h)) [] (subscribe c h).
Proof.
  unfold subscriber. cbn. rewrite !lookup_insert_eq. split; [by eexists|]. split; [done|].
  exists []. split; [done|]. apply prefix_nil.
Qed.

Lemma subscriber_step a c n o h h' : subscriber c n o h -> hub_step a h h' -> subscriber c n o h'.
Proof.
  intros (Hc & Hs & o' & Ho & Hp) Hstep.
  assert (Hkeep : forall d x (m : gmap nat channel), is_Some (m !! c) -> is_Some (<[d := x]> m !! c)).
  { intros d x m Hm. rewrite lookup_insert_is_Some'. by right. }
  destruct Hstep as [d h Hn Hd|d h Hn|d q h Hn Hd|x order h Hn Ho2|x d rest h h' Hx Hoff|x h Hx|d x q h Hd];
    unfold subscriber; cbn.
  - assert (d <> c) by (intros ->; destruct Hc; congruence). rewrite !lookup_insert_ne by done. eauto.
  - eauto.
  - eauto 6.
  - eauto.
  - unfold offer in Hoff. destruct (channels h !! d) as [[q []]|]; [done| |done].
    destruct (length q <? capacity); injection Hoff as <-; cbn; eauto 6.
  - eauto.
  - split; [by apply Hkeep|]. split; [done|]. destruct (decide (d = c)) as [->|Hne].
    + rewrite lookup_alter_eq, Ho. exists (o' ++ [x]). split; [done|]. by apply prefix_app_r.
    + rewrite lookup_alter_ne by done. eauto.
Qed.
End Hub.
