(* ===== verification/Dashboard.v ===== *)
(** * dashboard/main.go and the log stream of node/web.go

    The dashboard records every telemetry event in a history and broadcasts it
    to the open pages; the node's web interface broadcasts every line it prints.
    Both use the hub of file Hub. *)

From S2P Require Import Prelude GoStrings Hub.

(** ** The dashboard *)

Record Event := MkEvent {
  ev_From : string; ev_To : string; ev_Type : string;
  ev_Msg : string; ev_ExID : string; ev_Ts : Z }.

Definition stream_capacity : nat := 64.

(** [history] behind its own mutex; [recorded]: the events of the handlers
    that are between the two mutexes. *)
Record dash := Dash { history : list Event; recorded : list Event; clients : @hub Event }.

Definition empty_dash : dash := Dash [] [] empty_hub.

(** [append(history, ev)] once the request has been decoded and stamped. *)
Definition record_event (ev : Event) (d : dash) : dash :=
  Dash (history d ++ [ev]) (recorded d ++ [ev]) (clients d).

Inductive dash_step : dash -> dash -> Prop :=
| dash_record ev d : dash_step d (record_event ev d)
| dash_broadcast ev r1 r2 d h :
    recorded d = r1 ++ ev :: r2 -> hub_step stream_capacity (Publish ev) (clients d) h ->
    dash_step d (Dash (history d) (r1 ++ r2) h)
| dash_hub d h :
    hub_step stream_capacity Other (clients d) h -> dash_step d (Dash (history d) (recorded d) h).

Definition dash_reach : dash -> dash -> Prop := rtc dash_step.

Lemma hub_reach_step {A} cap a (h0 h h' : @hub A) :
  hub_reach cap h0 h -> hub_step cap a h h' -> hub_reach cap h0 h'.
Proof. intros Hr Hs. eapply rtc_r; [exact Hr|by exists a]. Qed.

Lemma other_sent {A} cap (h h' : @hub A) : hub_step cap Other h h' -> sent h' = sent h.
Proof.
  intros Hs. inversion Hs as [| | | |x c rest h1 h2 H1 Ho| |]; subst; try done.
  unfold offer in Ho. repeat case_match; simplify_eq/=; done.
Qed.

Lemma publish_sent {A} cap x (h h' : @hub A) : hub_step cap (Publish x) h h' -> sent h' = sent h ++ [x].
Proof. by inversion 1. Qed.

(** Every recorded event is in the history; it is broadcast once. *)
Lemma dash_invariant d :
  dash_reach empty_dash d ->
  hub_reach stream_capacity empty_hub (clients d) /\ sent (clients d) ++ recorded d ≡ₚ history d.
Proof.
  assert (H : forall d d', dash_reach d d' ->
    hub_reach stream_capacity empty_hub (clients d) -> sent (clients d) ++ recorded d ≡ₚ history d ->
    hub_reach stream_capacity empty_hub (clients d') /\ sent (clients d') ++ recorded d' ≡ₚ history d').
  { induction 1 as [|d1 d2 d3 Hs Hr IH]; [done|]. intros Hh Hp.
    apply IH; destruct Hs as [ev d0|ev r1 r2 d0 h Hr1 Hs|d0 h Hs]; cbn in *; try done.
    - by eapply hub_reach_step.
    - by eapply hub_reach_step.
    - by rewrite app_assoc, Hp.
    - rewrite (publish_sent _ _ _ _ Hs), <- Hp, Hr1. rewrite <- app_assoc. apply Permutation_app_head. exact (Permutation_middle r1 r2 ev).
    - by rewrite (other_sent _ _ _ Hs). }
  intros Hr. apply (H _ _ Hr); [apply rtc_refl|done].
Qed.

(** What a page has been sent is in the history. *)
Lemma shown_in_history d c o :
  dash_reach empty_dash d -> out (clients d) !! c = Some o -> is_Some (channels (clients d) !! c) ->
  o ⊆+ history d.
Proof.
  intros [Hr Hp]%dash_invariant Ho [[q b] Hc].
  destruct (ok_streams _ _ (ok_reach _ _ Hr) c q b Hc) as (o' & n & Ho' & _ & _ & _ & Hs & _).
  rewrite Ho in Ho'. injection Ho' as <-. rewrite <- Hp.
  transitivity (o ++ q); [by apply submseteq_inserts_r|]. transitivity (drop n (sent (clients d))).
  - apply sublist_submseteq. etrans; [exact Hs|]. by apply due_sublist.
  - transitivity (sent (clients d)); [apply sublist_submseteq, sublist_drop|by apply submseteq_inserts_r].
Qed.

(** ** The log stream of the node *)

Definition log_capacity : nat := 256.

(** [strings.ReplaceAll(s, old, new)] for a non-empty [old]; [skip] bytes belong
    to the match just replaced. *)
Fixpoint replace_from (skip : nat) (old new s : string) : string :=
  match s with
  | "" => ""
  | String a s' =>
      match skip with
      | S skip => replace_from skip old new s'
      | 0 =>
          if HasPrefix s old then new +:+ replace_from (String.length old - 1) old new s'
          else String a (replace_from 0 old new s')
      end
  end.
Definition ReplaceAll (s old new : string) : string := replace_from 0 old new s.

(** What [handleLogs] writes for a line. *)
Definition log_frame (line : string) : string :=
  "data: " +:+ ReplaceAll line (str1 nl) " " +:+ str1 nl +:+ str1 nl.

(** For one-byte strings. *)
Fixpoint replace_byte (from to : ascii) (s : string) : string :=
  match s with
  | "" => ""
  | String a s => String (if Ascii.eqb a from then to else a) (replace_byte from to s)
  end.

Lemma ReplaceAll_byte from to s : ReplaceAll s (str1 from) (str1 to) = replace_byte from to s.
Proof.
  unfold ReplaceAll. induction s as [|a s IH]; [done|]. cbn. rewrite andb_true_r, Ascii.eqb_sym.
  destruct (Ascii.eqb a from); cbn; by rewrite IH.
Qed.

(** ** What a client reads: the frames end at an empty line *)
Fixpoint frames (ls : list string) : string :=
  match ls with
  | [] => ""
  | l :: ls => log_frame l +:+ frames ls
  end.

Lemma replace_lacks from to s : to <> from -> lacks from (replace_byte from to s).
Proof.
  intros Hne. induction s as [|a s IH]; [apply lacks_nil|]. cbn. apply lacks_cons. split; [|done].
  destruct (Ascii.eqb_spec a from); congruence.
Qed.

Lemma replace_nothing from to s : lacks from s -> replace_byte from to s = s.
Proof.
  induction s as [|a s IH]; [done|]. rewrite lacks_cons. intros [Ha Hs]. cbn. rewrite IH by done.
  by destruct (Ascii.eqb_spec a from).
Qed.

Lemma lines_of_frames ls :
  Split (frames ls) nl = concat ((fun l => ["data: " +:+ replace_byte nl " " l; ""]) <$> ls) ++ [""].
Proof.
  induction ls as [|l ls IH]; [done|]. cbn [frames fmap list_fmap concat].
  unfold log_frame. change " " with (str1 " "). rewrite ReplaceAll_byte, !app_str_assoc.
  change (str1 nl +:+ str1 nl +:+ frames ls) with (String nl (String nl (frames ls))).
  rewrite <- app_str_assoc, Split_app.
  - change (String nl (frames ls)) with ("" +:+ String nl (frames ls)).
    rewrite Split_app by apply lacks_nil. by rewrite IH.
  - apply lacks_app. split; [done|]. by apply replace_lacks.
Qed.

(** The client takes the odd lines, and what follows ["data: "]. *)
Fixpoint read_frames (lines : list string) : list string :=
  match lines with
  | d :: _ :: rest => TrimPrefix d "data: " :: read_frames rest
  | _ => []
  end.

Lemma read_frames_of ls : read_frames (Split (frames ls) nl) = replace_byte nl " " <$> ls.
Proof.
  rewrite lines_of_frames. induction ls as [|l ls IH]; [done|].
  cbn [fmap list_fmap concat app read_frames]. by rewrite IH.
Qed.
