(* ===== verification/LogBridge.v ===== *)
(** * What the node prints and what its log page shows: [startStdoutBridge] and
    [handleLogs] of node/web.go

    Standard output is a pipe; one goroutine reads it line by line, writes the
    line to the terminal and broadcasts it.  [bufio.Scanner] gives up at a line
    of 64 KiB. *)

From S2P Require Import Prelude GoStrings Hub Dashboard.

(** [printed]: every line given to [fmt.Println] and the like; [pipe]: those
    not scanned yet; [current]: the line the goroutine has written to the
    terminal and not broadcast yet; [bridging]: whether its loop still runs. *)
Record logger := Logger {
  printed : list string;
  pipe : list string;
  terminal : list string;
  current : option string;
  bridging : bool;
  logs : @hub string }.

Definition empty_logger : logger := Logger [] [] [] None true empty_hub.

(** A text printed with a line break after it. *)
Definition print_text (text : string) (g : logger) : logger :=
  Logger (printed g ++ Split text nl) (pipe g ++ Split text nl) (terminal g) (current g) (bridging g) (logs g).

(** One turn of the loop of [startStdoutBridge], up to [broadcastLog]; the
    goroutine is there only when its last broadcast has returned. *)
Definition scan (g : logger) : option logger :=
  match bridging g, current g, sending (logs g), pipe g with
  | true, None, None, line :: rest =>
      if too_long line
      then Some (Logger (printed g) (pipe g) (terminal g) None false (logs g))
      else Some (Logger (printed g) rest (terminal g ++ [drop_cr line]) (Some (drop_cr line)) true (logs g))
  | _, _, _, _ => None
  end.

Inductive log_step : logger -> logger -> Prop :=
| log_print text g : log_step g (print_text text g)
| log_scan g g' : scan g = Some g' -> log_step g g'
| log_broadcast line g h :
    current g = Some line -> hub_step log_capacity (Publish line) (logs g) h ->
    log_step g (Logger (printed g) (pipe g) (terminal g) None (bridging g) h)
| log_hub g h :
    hub_step log_capacity Other (logs g) h ->
    log_step g (Logger (printed g) (pipe g) (terminal g) (current g) (bridging g) h).

Definition log_reach : logger -> logger -> Prop := rtc log_step.

(** What [handleLogs] has written to the client of channel [c]. *)
Definition handleLogs (c : nat) (g : logger) : option string := frames <$> out (logs g) !! c.

(** ** The invariant *)

Record log_ok (g : logger) : Prop := {
  lo_hub : hub_reach log_capacity empty_hub (logs g);
  lo_printed : drop_cr <$> printed g = terminal g ++ (drop_cr <$> pipe g);
  lo_terminal : terminal g = sent (logs g) ++ option_list (current g) }.

Lemma log_ok_step g g' : log_ok g -> log_step g g' -> log_ok g'.
Proof.
  intros [H1 H2 H3] Hs. destruct Hs as [text g|g g' Hs|line g h Hc Hs|g h Hs].
  - split; cbn; [done| |done]. by rewrite !fmap_app, H2, app_assoc.
  - unfold scan in Hs. destruct (bridging g); [|done]. destruct (current g) eqn:Ec; [done|].
    destruct (sending (logs g)); [done|]. destruct (pipe g) as [|line rest] eqn:Ep; [done|].
    destruct (too_long line); injection Hs as <-; split; cbn; try done.
    + rewrite H2, <- app_assoc. done.
    + by rewrite H3, app_nil_r.
  - split; cbn; [by eapply hub_reach_step|done|]. by rewrite H3, Hc, (publish_sent _ _ _ _ Hs), app_nil_r.
  - split; cbn; [by eapply hub_reach_step|done|]. by rewrite H3, (other_sent _ _ _ Hs).
Qed.

Lemma log_ok_reach g : log_reach empty_logger g -> log_ok g.
Proof.
  assert (H : log_ok empty_logger) by (split; [apply rtc_refl|done|done]).
  intros Hr. revert H. induction Hr as [|g1 g2 g3 Hs Hr IH]; [done|]. intros H. by eapply IH, log_ok_step.
Qed.

Lemma printed_lines g : log_reach empty_logger g -> Forall (lacks nl) (printed g).
Proof.
  assert (H : forall g g', log_reach g g' -> Forall (lacks nl) (printed g) -> Forall (lacks nl) (printed g')).
  { induction 1 as [|g1 g2 g3 Hs Hr IH]; [done|]. intros H1. apply IH.
    destruct Hs as [text l|l l' Hs|line l h Hl Hs|l h Hs]; cbn; try done.
    - apply Forall_app. split; [done|apply Split_pieces].
    - unfold scan in Hs. destruct (bridging l), (current l), (sending (logs l)), (pipe l) as [|x r]; try done.
      destruct (too_long x); by injection Hs as <-. }
  intros Hr. by apply (H _ _ Hr).
Qed.

(** What a page has been sent, and reads, against what was printed after the
    [n] broadcasts before its subscription. *)
Lemma page_lines g c n o q b :
  log_reach empty_logger g -> since (logs g) !! c = Some n -> out (logs g) !! c = Some o ->
  channels (logs g) !! c = Some (Channel q b) ->
  read_frames (Split (frames o) nl) = o /\ o `sublist_of` drop n (drop_cr <$> printed g) /\
  (pipe g = [] -> current g = None -> sending (logs g) = None -> c ∈ subs (logs g) ->
   c ∉ dropped (logs g) -> o ++ q = drop n (drop_cr <$> printed g)).
Proof.
  intros Hr Hsince Ho Hc. destruct (log_ok_reach g Hr) as [Hh Hp Ht].
  destruct (ok_streams _ _ (ok_reach _ _ Hh) c q b Hc) as (o' & n' & Ho' & Hn' & Hn & _ & Hs & Hl).
  rewrite Ho in Ho'. injection Ho' as <-. rewrite Hsince in Hn'. injection Hn' as <-.
  assert (Hsub : o `sublist_of` drop n (drop_cr <$> printed g)).
  { transitivity (o ++ q); [by apply sublist_inserts_r|]. transitivity (drop n (sent (logs g))).
    - etrans; [exact Hs|]. by apply due_sublist.
    - rewrite Hp, Ht, <- !app_assoc, drop_app. by apply sublist_inserts_r. }
  split.
  - rewrite read_frames_of. assert (Hlines : Forall (lacks nl) (drop_cr <$> printed g)).
    { apply Forall_fmap. eapply Forall_impl; [by apply printed_lines|]. intros l. apply lacks_drop_cr. }
    assert (Hol : Forall (lacks nl) o).
    { eapply Forall_sublist; [exact Hsub|]. by apply Forall_drop. }
    clear -Hol. induction Hol as [|x l Hx _ IH]; [done|]. cbn. by rewrite IH, replace_nothing.
  - split; [done|]. intros Hpipe Hcur Hsend Hin Hd.
    rewrite Hl by done. unfold due. by rewrite Hsend, Hp, Hpipe, Ht, Hcur, !app_nil_r.
Qed.

(** It was on the terminal before. *)
Lemma shown_terminal g c o q b :
  log_reach empty_logger g -> out (logs g) !! c = Some o -> channels (logs g) !! c = Some (Channel q b) ->
  o `sublist_of` terminal g.
Proof.
  intros Hr Ho Hc. destruct (log_ok_reach g Hr) as [Hh _ Ht].
  destruct (ok_streams _ _ (ok_reach _ _ Hh) c q b Hc) as (o' & n & Ho' & _ & _ & _ & Hs & _).
  rewrite Ho in Ho'. injection Ho' as <-. rewrite Ht.
  transitivity (o ++ q); [by apply sublist_inserts_r|]. etrans; [exact Hs|].
  etrans; [by apply due_sublist|]. etrans; [apply sublist_drop|]. by apply sublist_inserts_r.
Qed.

(** ** A page opens *)

(** [/logs] subscribes a new channel. *)
Definition open_log (c : nat) (g : logger) : logger :=
  Logger (printed g) (pipe g) (terminal g) (current g) (bridging g) (subscribe c (logs g)).

Lemma open_log_step c g :
  sending (logs g) = None -> channels (logs g) !! c = None -> log_step g (open_log c g).
Proof. intros Hs Hc. by apply log_hub, step_subscribe. Qed.

Lemma log_subscriber c n o g g' :
  log_reach g g' -> subscriber c n o (logs g) -> subscriber c n o (logs g').
Proof.
  induction 1 as [|g1 g2 g3 Hs Hr IH]; [done|]. intros H. apply IH.
  destruct Hs as [text k|k k' Hs|line k h Hl Hs|k h Hs]; [exact H| |exact (subscriber_step _ _ _ _ _ _ _ H Hs)..].
  unfold scan in Hs. destruct (bridging k), (current k), (sending (logs k)), (pipe k) as [|x r]; try done.
  destruct (too_long x); by injection Hs as <-.
Qed.

Lemma log_printed g g' : log_reach g g' -> printed g `prefix_of` printed g'.
Proof.
  induction 1 as [|g1 g2 g3 Hs Hr IH]; [done|]. etrans; [|exact IH].
  destruct Hs as [text k|k k' Hs|line k h Hl Hs|k h Hs]; [by apply prefix_app_r| |done|done].
  unfold scan in Hs. destruct (bridging k), (current k), (sending (logs k)), (pipe k) as [|x r]; try done.
  destruct (too_long x); by injection Hs as <-.
Qed.

(** What is left of the lines when those broadcast before are taken off. *)
Lemma printed_after g0 later :
  log_ok g0 -> drop (length (sent (logs g0))) (drop_cr <$> printed g0 ++ later) =
    option_list (current g0) ++ (drop_cr <$> pipe g0 ++ later).
Proof.
  intros [_ Hp Ht]. rewrite !fmap_app, Hp, Ht, <- !app_assoc. apply drop_app_length.
Qed.

(** ** The lines that the scanner takes *)

Lemma too_long_short line : too_long line = false -> String.length line < MaxScanTokenSize.
Proof. apply Nat.leb_gt. Qed.
#[local] Opaque too_long.

(** Those it has handed on are short. *)
Lemma scanned_reach g :
  log_reach empty_logger g -> exists taken, printed g = taken ++ pipe g /\ terminal g = drop_cr <$> taken /\
    Forall (fun l => too_long l = false) taken.
Proof.
  assert (H : forall g g', log_reach g g' ->
    (exists taken, printed g = taken ++ pipe g /\ terminal g = drop_cr <$> taken /\
      Forall (fun l => too_long l = false) taken) ->
    exists taken, printed g' = taken ++ pipe g' /\ terminal g' = drop_cr <$> taken /\
      Forall (fun l => too_long l = false) taken).
  { induction 1 as [|g1 g2 g3 Hs Hr IH]; [done|]. intros (taken & Hp & Ht & Hf). apply IH.
    destruct Hs as [text k|k k' Hs|line k h Hl Hs|k h Hs]; cbn [printed pipe terminal print_text];
      [| |by exists taken|by exists taken].
    - exists taken. by rewrite Hp, <- app_assoc.
    - unfold scan in Hs. destruct (bridging k), (current k), (sending (logs k)), (pipe k) as [|x r]; try done.
      destruct (too_long x) eqn:Ex; injection Hs as <-; cbn [printed pipe terminal]; [by exists taken|].
      exists (taken ++ [x]). rewrite Hp, fmap_app, Ht, <- app_assoc. do 2 (split; [done|]).
      apply Forall_app. split; [done|]. by apply Forall_singleton. }
  intros Hr. apply (H _ _ Hr). by exists [].
Qed.

(** A long line is a wall. *)
Lemma nothing_beyond g before line after :
  log_reach empty_logger g -> printed g = before ++ line :: after -> MaxScanTokenSize <= String.length line ->
  terminal g `prefix_of` drop_cr <$> before.
Proof.
  intros Hr Hp Hlong. destruct (scanned_reach g Hr) as (taken & Ht & -> & Hf).
  assert (Hpre : taken `prefix_of` before).
  { rewrite Ht in Hp. clear Ht. revert before Hp. induction Hf as [|x taken Hx Hf IH]; intros before Hp; [apply prefix_nil|].
    destruct before as [|y before]; cbn in Hp; injection Hp as -> Hp.
    - apply too_long_short in Hx. lia.
    - by apply prefix_cons, IH. }
  destruct Hpre as [k ->]. rewrite fmap_app. by apply prefix_app_r.
Qed.
