(* ===== verification/RoutesPage.v ===== *)
(** * The script of the dashboard's page: dashboard/main.go 193-638

    The page rebuilds exchanges, routes and counts from the telemetry events it
    reads from [/history] and [/stream].  The network drawn by vis-network is
    two maps, of nodes and of edges; a log line, a card, the panel of a node and
    the bar of counts are records instead of HTML text.  A date is its number of
    milliseconds. *)

From S2P Require Import Prelude GoStrings JavaScript Hub Dashboard.

(** ** Data *)

Definition COLOR (type : string) : string :=
  if String.eqb type "SSEND" then "#a371f7"
  else if String.eqb type "ACK" then "#1f6feb"
  else if String.eqb type "NACK" then "#da3633"
  else if String.eqb type "FINAL" then "#e3b341"
  else if String.eqb type "ACK_SIM" then "#1f6feb55"
  else "#238636".                                     (* RELAY, SEND, any other *)
Definition ACK_SIM : string := "#1f6feb55".

(** Events carry their place in [allEvents], which stands for their identity. *)
Record exchange := Exchange {
  rawEvents : list (nat * Event); fwdRoute : list string; retRoute : list string;
  fwdCount : Z; retCount : Z; startTs : option Z; endTs : option Z; ex_result : string; ex_msg : string }.
Definition new_exchange : exchange := Exchange [] [] [] 0 0 None None "pending" "".

Record stats := Stats { s_sent : Z; s_recv : Z; s_relay : Z; s_ack : Z; s_nack : Z; s_final : Z }.
Definition no_stats : stats := Stats 0 0 0 0 0 0.

(** Border and background of a node; an edge. *)
Definition color : Type := string * string.
Definition NODE_DEFAULT : color := ("#30363d", "#21262d").
Record edge := Edge { e_from : string; e_to : string; e_color : string; e_width : Z; e_label : string; e_dashes : bool }.

Record log_entry := LogEntry {
  l_type : string; l_from : string; l_to : string; l_msg : string; l_sim : bool; l_exid : string;
  l_hop : string; l_ts : Z }.
Record card := Card {
  k_id : string; k_active : bool; k_dur : option Z; k_start : option Z; k_msg : string;
  k_fwd : list (string * string); k_ret : list (string * bool); k_result : string }.
Record panel := Panel { n_addr : string; n_stats : stats; n_involved : list (string * string) }.
(** The rate is the pair its percentage is made of, the latency sum and number. *)
Record bar := Bar {
  b_total : Z; b_ack : Z; b_nack : Z; b_ex : nat; b_nodes : nat; b_rate : option (Z * Z); b_lat : option (Z * Z) }.

(** [persist], [reconstruct]: the two boxes; [exF], [tyF]: the filters. *)
Record routes := Routes {
  allEvents : list Event; exchanges : list (string * exchange); nodeStats : list (string * stats);
  physicsOn : bool; selectedEx : option string; selNode : option string;
  statTotal : Z; statAck : Z; statNack : Z; latencies : list Z;
  nodesDS : list (string * color); edgesDS : list (string * edge);
  persist : bool; reconstruct : bool; exF : string; tyF : string;
  logList : list log_entry; exchangeList : list card; nodeInfo : option panel; statsBar : bar; tab : string }.

(** Assignments. *)
Definition set_allEvents x (p : routes) : routes :=
  Routes x (exchanges p) (nodeStats p) (physicsOn p) (selectedEx p) (selNode p) (statTotal p)
    (statAck p) (statNack p) (latencies p) (nodesDS p) (edgesDS p) (persist p) (reconstruct p) (exF
    p) (tyF p) (logList p) (exchangeList p) (nodeInfo p) (statsBar p) (tab p).
Definition set_exchanges x (p : routes) : routes :=
  Routes (allEvents p) x (nodeStats p) (physicsOn p) (selectedEx p) (selNode p) (statTotal p)
    (statAck p) (statNack p) (latencies p) (nodesDS p) (edgesDS p) (persist p) (reconstruct p) (exF
    p) (tyF p) (logList p) (exchangeList p) (nodeInfo p) (statsBar p) (tab p).
Definition set_nodeStats x (p : routes) : routes :=
  Routes (allEvents p) (exchanges p) x (physicsOn p) (selectedEx p) (selNode p) (statTotal p)
    (statAck p) (statNack p) (latencies p) (nodesDS p) (edgesDS p) (persist p) (reconstruct p) (exF
    p) (tyF p) (logList p) (exchangeList p) (nodeInfo p) (statsBar p) (tab p).
Definition set_physicsOn x (p : routes) : routes :=
  Routes (allEvents p) (exchanges p) (nodeStats p) x (selectedEx p) (selNode p) (statTotal p)
    (statAck p) (statNack p) (latencies p) (nodesDS p) (edgesDS p) (persist p) (reconstruct p) (exF
    p) (tyF p) (logList p) (exchangeList p) (nodeInfo p) (statsBar p) (tab p).
Definition set_selectedEx x (p : routes) : routes :=
  Routes (allEvents p) (exchanges p) (nodeStats p) (physicsOn p) x (selNode p) (statTotal p)
    (statAck p) (statNack p) (latencies p) (nodesDS p) (edgesDS p) (persist p) (reconstruct p) (exF
    p) (tyF p) (logList p) (exchangeList p) (nodeInfo p) (statsBar p) (tab p).
Definition set_selNode x (p : routes) : routes :=
  Routes (allEvents p) (exchanges p) (nodeStats p) (physicsOn p) (selectedEx p) x (statTotal p)
    (statAck p) (statNack p) (latencies p) (nodesDS p) (edgesDS p) (persist p) (reconstruct p) (exF
    p) (tyF p) (logList p) (exchangeList p) (nodeInfo p) (statsBar p) (tab p).
Definition set_statTotal x (p : routes) : routes :=
  Routes (allEvents p) (exchanges p) (nodeStats p) (physicsOn p) (selectedEx p) (selNode p) x
    (statAck p) (statNack p) (latencies p) (nodesDS p) (edgesDS p) (persist p) (reconstruct p) (exF
    p) (tyF p) (logList p) (exchangeList p) (nodeInfo p) (statsBar p) (tab p).
Definition set_statAck x (p : routes) : routes :=
  Routes (allEvents p) (exchanges p) (nodeStats p) (physicsOn p) (selectedEx p) (selNode p)
    (statTotal p) x (statNack p) (latencies p) (nodesDS p) (edgesDS p) (persist p) (reconstruct p)
    (exF p) (tyF p) (logList p) (exchangeList p) (nodeInfo p) (statsBar p) (tab p).
Definition set_statNack x (p : routes) : routes :=
  Routes (allEvents p) (exchanges p) (nodeStats p) (physicsOn p) (selectedEx p) (selNode p)
    (statTotal p) (statAck p) x (latencies p) (nodesDS p) (edgesDS p) (persist p) (reconstruct p)
    (exF p) (tyF p) (logList p) (exchangeList p) (nodeInfo p) (statsBar p) (tab p).
Definition set_latencies x (p : routes) : routes :=
  Routes (allEvents p) (exchanges p) (nodeStats p) (physicsOn p) (selectedEx p) (selNode p)
    (statTotal p) (statAck p) (statNack p) x (nodesDS p) (edgesDS p) (persist p) (reconstruct p)
    (exF p) (tyF p) (logList p) (exchangeList p) (nodeInfo p) (statsBar p) (tab p).
Definition set_nodesDS x (p : routes) : routes :=
  Routes (allEvents p) (exchanges p) (nodeStats p) (physicsOn p) (selectedEx p) (selNode p)
    (statTotal p) (statAck p) (statNack p) (latencies p) x (edgesDS p) (persist p) (reconstruct p)
    (exF p) (tyF p) (logList p) (exchangeList p) (nodeInfo p) (statsBar p) (tab p).
Definition set_edgesDS x (p : routes) : routes :=
  Routes (allEvents p) (exchanges p) (nodeStats p) (physicsOn p) (selectedEx p) (selNode p)
    (statTotal p) (statAck p) (statNack p) (latencies p) (nodesDS p) x (persist p) (reconstruct p)
    (exF p) (tyF p) (logList p) (exchangeList p) (nodeInfo p) (statsBar p) (tab p).
Definition set_logList x (p : routes) : routes :=
  Routes (allEvents p) (exchanges p) (nodeStats p) (physicsOn p) (selectedEx p) (selNode p)
    (statTotal p) (statAck p) (statNack p) (latencies p) (nodesDS p) (edgesDS p) (persist p)
    (reconstruct p) (exF p) (tyF p) x (exchangeList p) (nodeInfo p) (statsBar p) (tab p).
Definition set_exchangeList x (p : routes) : routes :=
  Routes (allEvents p) (exchanges p) (nodeStats p) (physicsOn p) (selectedEx p) (selNode p)
    (statTotal p) (statAck p) (statNack p) (latencies p) (nodesDS p) (edgesDS p) (persist p)
    (reconstruct p) (exF p) (tyF p) (logList p) x (nodeInfo p) (statsBar p) (tab p).
Definition set_nodeInfo x (p : routes) : routes :=
  Routes (allEvents p) (exchanges p) (nodeStats p) (physicsOn p) (selectedEx p) (selNode p)
    (statTotal p) (statAck p) (statNack p) (latencies p) (nodesDS p) (edgesDS p) (persist p)
    (reconstruct p) (exF p) (tyF p) (logList p) (exchangeList p) x (statsBar p) (tab p).
Definition set_statsBar x (p : routes) : routes :=
  Routes (allEvents p) (exchanges p) (nodeStats p) (physicsOn p) (selectedEx p) (selNode p)
    (statTotal p) (statAck p) (statNack p) (latencies p) (nodesDS p) (edgesDS p) (persist p)
    (reconstruct p) (exF p) (tyF p) (logList p) (exchangeList p) (nodeInfo p) x (tab p).
Definition set_tab x (p : routes) : routes :=
  Routes (allEvents p) (exchanges p) (nodeStats p) (physicsOn p) (selectedEx p) (selNode p)
    (statTotal p) (statAck p) (statNack p) (latencies p) (nodesDS p) (edgesDS p) (persist p)
    (reconstruct p) (exF p) (tyF p) (logList p) (exchangeList p) (nodeInfo p) (statsBar p) x.

(** ** Nodes and edges *)

Definition ensureNode (id : string) (p : routes) : routes :=
  match obj_get id (nodesDS p) with
  | Some _ => p
  | None => set_nodeStats (obj_set id no_stats (nodeStats p)) (set_nodesDS (obj_set id NODE_DEFAULT (nodesDS p)) p)
  end.

Definition edgeKey (f t : string) : string := f +:+ "→" +:+ t.

Definition ensureEdge (f t : string) (p : routes) : routes :=
  match obj_get (edgeKey f t) (edgesDS p) with
  | Some _ => p
  | None => set_edgesDS (obj_set (edgeKey f t) (Edge f t "#30363d" 2 "" false) (edgesDS p)) p
  end.

(** [edgesDS.update], [nodesDS.update] of an element that is there. *)
Definition update_edge (id : string) (f : edge -> edge) (p : routes) : routes :=
  match obj_get id (edgesDS p) with
  | Some e => set_edgesDS (obj_set id (f e) (edgesDS p)) p
  | None => p
  end.
Definition update_node (id : string) (c : color) (p : routes) : routes := set_nodesDS (obj_set id c (nodesDS p)) p.

Definition flashEdge (from to col label : string) (simulated : bool) (p : routes) : routes :=
  let p := ensureEdge from to (ensureNode to (ensureNode from p)) in
  let c := if simulated then ACK_SIM else col in
  let p := update_edge (edgeKey from to)
             (fun e => Edge (e_from e) (e_to e) c (if simulated then 3 else 5) label simulated) p in
  update_node to (col, col +:+ "22") (update_node from (col, col +:+ "22") p).

(** What the time-out of [flashEdge] does, unless [persist]. *)
Definition fade (from to : string) (p : routes) : routes :=
  let p := update_edge (edgeKey from to) (fun e => Edge (e_from e) (e_to e) "#30363d" 2 "" false) p in
  let p := match obj_get from (nodesDS p) with Some _ => update_node from NODE_DEFAULT p | None => p end in
  match obj_get to (nodesDS p) with Some _ => update_node to NODE_DEFAULT p | None => p end.

(** ** Exchanges *)

Definition no_exid : string := "__noex__".
Definition exid_of (ev : Event) : string := or_else (ev_ExID ev) no_exid.

Definition getEx (exid : string) (p : routes) : exchange := default new_exchange (obj_get exid (exchanges p)).
Definition put_ex (exid : string) (ex : exchange) (p : routes) : routes :=
  set_exchanges (obj_set exid ex (exchanges p)) p.

Definition buildReturnRoute (p : routes) (ex : exchange) : list string :=
  if negb (reconstruct p) then []
  else if length (fwdRoute ex) <? 2 then [] else reverse (fwdRoute ex).

Definition isRet (type : string) : bool := String.eqb type "ACK" || String.eqb type "NACK".
Definition is_send (type : string) : bool := String.eqb type "SEND" || String.eqb type "SSEND".

Definition push_new (a : string) (l : list string) : list string := if decide (a ∈ l) then l else l ++ [a].

(** [fwdRoute] after one more event. *)
Definition extend_route (ev : Event) (r : list string) : list string :=
  let r := if is_send (ev_Type ev) then [ev_From ev] else r in
  let r := if String.eqb (ev_Type ev) "RELAY" && (0 <? length r) then push_new (ev_To ev) r else r in
  if String.eqb (ev_Type ev) "FINAL"
  then push_new (or_else (ev_To ev) (ev_From ev)) (match r with [] => [ev_From ev] | _ => r end)
  else r.

(** The first part of [processEvent]: what every event adds to its exchange. *)
Definition record_in (n : nat) (ev : Event) (ex : exchange) : exchange :=
  Exchange (rawEvents ex ++ [(n, ev)]) (extend_route ev (fwdRoute ex)) (retRoute ex) (fwdCount ex) (retCount ex)
    (match startTs ex with Some t => Some t | None => Some (ev_Ts ev) end) (endTs ex) (ex_result ex)
    (or_else (ev_Msg ev) (ex_msg ex)).

Definition set_ret (count : Z) (ex : exchange) : exchange :=
  Exchange (rawEvents ex) (fwdRoute ex) (retRoute ex) (fwdCount ex) count (startTs ex) (endTs ex)
    (ex_result ex) (ex_msg ex).
Definition set_fwd (count : Z) (ex : exchange) : exchange :=
  Exchange (rawEvents ex) (fwdRoute ex) (retRoute ex) count (retCount ex) (startTs ex) (endTs ex)
    (ex_result ex) (ex_msg ex).
Definition set_result (result : string) (ex : exchange) : exchange :=
  Exchange (rawEvents ex) (fwdRoute ex) (retRoute ex) (fwdCount ex) (retCount ex) (startTs ex) (endTs ex)
    result (ex_msg ex).
Definition acknowledge (ts : Z) (ret : list string) (ex : exchange) : exchange :=
  Exchange (rawEvents ex) (fwdRoute ex) ret (fwdCount ex) (retCount ex) (startTs ex) (Some ts) "ack" (ex_msg ex).

(** A loop over [r[i]] and [r[i+1]]; [i] is the index of the first. *)
Fixpoint each_hop (f : Z -> string -> string -> routes -> routes) (i : Z) (hops : list (string * string))
    (p : routes) : routes :=
  match hops with
  | [] => p
  | (a, b) :: hops => each_hop f (i + 1) hops (f i a b p)
  end.
Definition hops_of (r : list string) : list (string * string) := zip r (tail r).

(** ** What is shown *)

(** [sub] occurs in [s]. *)
Fixpoint includes (s sub : string) : bool :=
  HasPrefix s sub || match s with String _ s' => includes s' sub | "" => false end.

Definition addLogEntry (ev : Event) (hopNum : Z) (isReturn isSimulated : bool) (p : routes) : routes :=
  if negb (String.eqb (js_trim (exF p)) "") && negb (includes (ev_ExID ev) (js_trim (exF p))) then p
  else if negb (String.eqb (tyF p) "") && negb (String.eqb (ev_Type ev) (tyF p)) then p
  else
    let el := LogEntry (ev_Type ev) (ev_From ev) (ev_To ev) (ev_Msg ev) isSimulated (ev_ExID ev)
                ("#" +:+ (if isReturn then "R" else "F") +:+ Itoa hopNum) (ev_Ts ev) in
    set_logList (take 400 (el :: logList p)) p.

Definition updateStats (p : routes) : routes :=
  let tot := (statAck p + statNack p)%Z in
  set_statsBar (Bar (statTotal p) (statAck p) (statNack p)
    (length (filter (fun k => k <> no_exid) (keys (exchanges p)))) (length (nodesDS p))
    (if (0 <? tot)%Z then Some (statAck p, tot) else None)
    (match latencies p with
     | [] => b_lat (statsBar p)
     | l => Some (foldl Z.add 0 l, Z.of_nat (length l))%Z
     end)) p.

(** Colours of a route: the first, the last, the others. *)
Fixpoint hops_from (i n : nat) (r : list string) : list (string * string) :=
  match r with
  | [] => []
  | a :: r => (a, if i =? 0 then COLOR "SEND" else if i =? n - 1 then COLOR "FINAL" else COLOR "RELAY")
              :: hops_from (S i) n r
  end.
Fixpoint ret_hops (i n : nat) (r : list string) : list (string * bool) :=
  match r with
  | [] => []
  | a :: r => (a, (0 <? i) && (i <? n - 1)) :: ret_hops (S i) n r
  end.

Definition card_of (p : routes) (exid : string) (ex : exchange) : card :=
  let ret := match retRoute ex with
             | [] => if String.eqb (ex_result ex) "ack" && (2 <=? length (fwdRoute ex))
                     then reverse (fwdRoute ex) else []
             | r => r
             end in
  Card exid (bool_decide (selectedEx p = Some exid))
    (match startTs ex, endTs ex with Some s, Some e => Some (e - s)%Z | _, _ => None end)
    (startTs ex) (ex_msg ex) (hops_from 0 (length (fwdRoute ex)) (fwdRoute ex)) (ret_hops 0 (length ret) ret)
    (if String.eqb (ex_result ex) "ack" then "ack" else if String.eqb (ex_result ex) "nack" then "nack" else "pending").

(** The card of that id changes where it is; a new one goes to the top. *)
Definition place_card (k : card) (l : list card) : list card :=
  if decide (k_id k ∈ k_id <$> l)
  then (fun k' => if String.eqb (k_id k') (k_id k) then k else k') <$> l
  else k :: l.

Definition renderExchangeCard (exid : string) (p : routes) : routes :=
  if String.eqb exid "" || String.eqb exid no_exid then p
  else
    match obj_get exid (exchanges p) with
    | None => p
    | Some ex => set_exchangeList (place_card (card_of p exid ex) (exchangeList p)) p
    end.

Definition involved (addr : string) (ex : exchange) : bool :=
  existsb (fun e => String.eqb (ev_From e.2) addr || String.eqb (ev_To e.2) addr) (rawEvents ex).

Definition renderNodeInfo (addr : string) (p : routes) : routes :=
  match obj_get addr (nodeStats p) with
  | None => p
  | Some s =>
      set_nodeInfo (Some (Panel addr s
        ((fun e => (e.1, ex_result e.2)) <$> filter (fun e => involved addr e.2 = true) (exchanges p)))) p
  end.

(** ** The events *)

(** [nodeStats[id]] changed. *)
Definition count (id : string) (f : stats -> stats) (p : routes) : routes :=
  match obj_get id (nodeStats p) with
  | Some s => set_nodeStats (obj_set id (f s) (nodeStats p)) p
  | None => p
  end.
Definition sent_1 (s : stats) : stats := Stats (s_sent s + 1) (s_recv s) (s_relay s) (s_ack s) (s_nack s) (s_final s).
Definition recv_1 (s : stats) : stats := Stats (s_sent s) (s_recv s + 1) (s_relay s) (s_ack s) (s_nack s) (s_final s).
Definition relay_1 (s : stats) : stats := Stats (s_sent s) (s_recv s) (s_relay s + 1) (s_ack s) (s_nack s) (s_final s).
Definition final_1 (s : stats) : stats := Stats (s_sent s) (s_recv s) (s_relay s) (s_ack s) (s_nack s) (s_final s + 1).

(** One hop of the way back, [i] its index; all of them. *)
Definition show_hop (exid : string) (ts : Z) (i : Z) (a b : string) (p : routes) : routes :=
  let sim := (0 <? i)%Z in
  let n := (retCount (getEx exid p) + 1)%Z in
  let p := put_ex exid (set_ret n (getEx exid p)) p in
  let p := flashEdge a b (COLOR "ACK") ("#R" +:+ Itoa n) sim p in
  addLogEntry (MkEvent a b "ACK" "" exid ts) n true sim p.
Definition show_return (exid : string) (ts : Z) (r : list string) (p : routes) : routes :=
  each_hop (show_hop exid ts) 0 (hops_of r) p.

(** The three ends of [processEvent]. *)
Definition process_ack (exid : string) (ev : Event) (p : routes) : routes :=
  let ex := getEx exid p in
  let p := set_latencies (latencies p ++
             match startTs ex with Some s => [(ev_Ts ev - s)%Z] | None => [] end) (set_statAck (statAck p + 1)%Z p) in
  let ret := buildReturnRoute p ex in
  let p := put_ex exid (acknowledge (ev_Ts ev) ret ex) p in
  let p :=
    if 2 <=? length ret then show_return exid (ev_Ts ev) ret p
    else
      let n := (retCount (getEx exid p) + 1)%Z in
      let p := put_ex exid (set_ret n (getEx exid p)) p in
      addLogEntry ev n true false (flashEdge (ev_From ev) (ev_To ev) (COLOR (ev_Type ev)) "#R1" false p) in
  let p := renderExchangeCard exid (updateStats p) in
  match selNode p with Some a => renderNodeInfo a p | None => p end.

Definition process_nack (exid : string) (ev : Event) (p : routes) : routes :=
  let p := set_statNack (statNack p + 1)%Z p in
  let n := (retCount (getEx exid p) + 1)%Z in
  let p := put_ex exid (set_ret n (set_result "nack" (getEx exid p))) p in
  let p := flashEdge (ev_From ev) (ev_To ev) (COLOR (ev_Type ev)) ("#R" +:+ Itoa n) false p in
  renderExchangeCard exid (updateStats (addLogEntry ev n true false p)).

Definition count_event (ev : Event) (p : routes) : routes :=
  let p := ensureNode (ev_To ev) (ensureNode (ev_From ev) p) in
  let p := if is_send (ev_Type ev) then count (ev_To ev) recv_1 (count (ev_From ev) sent_1 p) else p in
  let p := if String.eqb (ev_Type ev) "RELAY" then count (ev_From ev) relay_1 p else p in
  if String.eqb (ev_Type ev) "FINAL" then count (ev_To ev) recv_1 (count (ev_From ev) final_1 p) else p.

Definition process_forward (exid : string) (ev : Event) (p : routes) : routes :=
  let n := (fwdCount (getEx exid p) + 1)%Z in
  let p := put_ex exid (set_fwd n (getEx exid p)) p in
  let p := count_event ev p in
  let p := flashEdge (ev_From ev) (ev_To ev) (COLOR (ev_Type ev)) ("#F" +:+ Itoa n) false p in
  let p := renderExchangeCard exid (updateStats (addLogEntry ev n false false p)) in
  match selNode p with
  | Some a => if String.eqb a (ev_From ev) || String.eqb a (ev_To ev) then renderNodeInfo a p else p
  | None => p
  end.

Definition processEvent (ev : Event) (p : routes) : routes :=
  let n := length (allEvents p) in
  let p := set_statTotal (statTotal p + 1)%Z (set_allEvents (allEvents p ++ [ev]) p) in
  let exid := exid_of ev in
  let p := put_ex exid (record_in n ev (getEx exid p)) p in
  if String.eqb (ev_Type ev) "ACK" then process_ack exid ev p
  else if String.eqb (ev_Type ev) "NACK" then process_nack exid ev p
  else process_forward exid ev p.

Definition processEvents (evs : list Event) (p : routes) : routes := foldl (fun p ev => processEvent ev p) p evs.

Definition no_bar : bar := Bar 0 0 0 0 0 None None.
Definition empty_routes : routes :=
  Routes [] [] [] true None None 0 0 0 [] [] [] true true "" "" [] [] None no_bar "log".

(** ** The controls *)

Definition clearAll (p : routes) : routes :=
  updateStats (Routes [] [] [] (physicsOn p) None None 0 0 0 [] [] [] (persist p) (reconstruct p) (exF p) (tyF p)
    [] [] (nodeInfo p) (statsBar p) (tab p)).

Definition switchTab (name : string) (p : routes) : routes := set_tab name p.
Definition togglePhysics (p : routes) : routes := set_physicsOn (negb (physicsOn p)) p.

(** A click on a node. *)
Definition click_node (addr : string) (p : routes) : routes :=
  renderNodeInfo addr (switchTab "nodeinfo" (set_selNode (Some addr) p)).

(** The number of an event among those of its exchange in its direction. *)
Fixpoint hop_number (n : nat) (ret : bool) (raw : list (nat * Event)) (fi ri : Z) : Z :=
  match raw with
  | [] => 1
  | (k, e) :: raw =>
      let '(fi, ri) := if isRet (ev_Type e) then (fi, (ri + 1)%Z) else ((fi + 1)%Z, ri) in
      if k =? n then (if ret then ri else fi) else hop_number n ret raw fi ri
  end.

(** [applyFilter] goes through the events from the newest to the oldest; each
    entry is put on top. *)
Definition refilter (p : routes) (n : nat) (ev : Event) (q : routes) : routes :=
  if negb (String.eqb (js_trim (exF p)) "") && negb (includes (ev_ExID ev) (js_trim (exF p))) then q
  else if negb (String.eqb (tyF p) "") && negb (String.eqb (ev_Type ev) (tyF p)) then q
  else
    let ret := isRet (ev_Type ev) in
    let hop := match obj_get (exid_of ev) (exchanges p) with
               | Some ex => hop_number n ret (rawEvents ex) 0 0
               | None => 1%Z
               end in
    addLogEntry ev hop ret false q.
Definition applyFilter (p : routes) : routes :=
  foldl (fun q e => refilter p e.1 e.2 q) (set_logList [] p)
    (reverse (zip (seq 0 (length (allEvents p))) (allEvents p))).

(** ** An exchange on the map *)

Fixpoint highlight_forward (fi : Z) (raw : list Event) (p : routes) : routes :=
  match raw with
  | [] => p
  | ev :: raw =>
      let fi := (fi + 1)%Z in
      let col := COLOR (ev_Type ev) in
      let p := ensureEdge (ev_From ev) (ev_To ev) (ensureNode (ev_To ev) (ensureNode (ev_From ev) p)) in
      let p := update_edge (edgeKey (ev_From ev) (ev_To ev))
                 (fun e => Edge (e_from e) (e_to e) col 6 ("#F" +:+ Itoa fi) false) p in
      highlight_forward fi raw
        (update_node (ev_To ev) (col, col +:+ "33") (update_node (ev_From ev) (col, col +:+ "33") p))
  end.

Definition highlight_hop (known : bool) (i : Z) (a b : string) (p : routes) : routes :=
  let sim := (0 <? i)%Z && negb known in
  let col := COLOR "ACK" in
  let p := update_edge (edgeKey a b)
             (fun e => Edge (e_from e) (e_to e) col (if sim then 3 else 6) ("#R" +:+ Itoa (i + 1)) sim)
             (ensureEdge a b p) in
  update_node b (col, col +:+ "33") (update_node a (col, col +:+ "33") p).

Definition highlightExchange (exid : string) (p : routes) : routes :=
  let p := set_selectedEx (Some exid) p in
  let p := set_edgesDS (prod_map id (fun e => Edge (e_from e) (e_to e) "#30363d" 2 "" false) <$> edgesDS p) p in
  let p := set_nodesDS (prod_map id (fun _ => NODE_DEFAULT) <$> nodesDS p) p in
  match obj_get exid (exchanges p) with
  | None => p
  | Some ex =>
      let p := highlight_forward 0 (filter (fun e => isRet (ev_Type e) = false) (snd <$> rawEvents ex)) p in
      let known := 0 <? length (retRoute ex) in
      let ret := if known then retRoute ex
                 else if 2 <=? length (fwdRoute ex) then reverse (fwdRoute ex) else [] in
      let p := each_hop (highlight_hop known) 0 (hops_of ret) p in
      set_exchangeList ((fun k => Card (k_id k) (String.eqb (k_id k) exid) (k_dur k) (k_start k) (k_msg k)
        (k_fwd k) (k_ret k) (k_result k)) <$> exchangeList p) p
  end.
