(* ===== verification/Crypto.v ===== *)
(** * Encryption of one layer

    [EncryptAES], [DecryptAES] (model/Node.go), [BroadcastEncrypt],
    [BroadcastDecrypt], the address lists (model/Broadcast.go) and
    [encryptForNode] (node/onion.go), over an interface to crypto/rsa,
    crypto/cipher and crypto/x509.  The interface [CryptoLib] only names the
    calls the program makes; [CryptoLaws] states the documented behaviour the
    theorems rely on.  Module Toy is a concrete instance of both. *)

From S2P Require Import Prelude GoStrings Base64 GoMonad.

(** ** The interface *)

Class CryptoLib := {
  PublicKey : Type;
  PrivateKey : Type;
  PublicKey_eq :: EqDecision PublicKey;           (* pub.Equal *)
  Public : PrivateKey -> PublicKey;               (* &priv.PublicKey *)
  GenerateKey : string -> PrivateKey;             (* from random bytes *)
  Size : PublicKey -> nat;                        (* pub.Size(), in bytes *)
  EncryptOAEP : string -> PublicKey -> string -> option string;
  DecryptOAEP : PrivateKey -> string -> option string;
  Seal : string -> string -> string -> string;    (* key, nonce, plaintext *)
  Open : string -> string -> string -> option string;
  MarshalPKIX : PublicKey -> string;
  ParsePKIX : string -> option (option PublicKey); (* Some None: not an RSA key *)
  lib_error : string                              (* err.Error(), of an error of the library *)
}.

(** Documented behaviour: decryption inverts encryption; a ciphertext made for
    another key is rejected; a message that fits the modulus (SHA-256 OAEP
    overhead 66 bytes, keys of 1024 bits at least) is encrypted, and its
    ciphertext is as long as the modulus. *)
Class CryptoLaws (C : CryptoLib) := {
  oaep_dec_enc seed sk m c :
    EncryptOAEP seed (Public sk) m = Some c -> DecryptOAEP sk c = Some m;
  oaep_wrong_key seed pk sk m c :
    EncryptOAEP seed pk m = Some c -> pk <> Public sk -> DecryptOAEP sk c = None;
  oaep_fits seed pk m :
    128 <= Size pk -> String.length m + 66 <= Size pk -> is_Some (EncryptOAEP seed pk m);
  oaep_length seed pk m c : EncryptOAEP seed pk m = Some c -> 128 <= String.length c;
  open_seal k n m : Open k n (Seal k n m) = Some m;
  parse_marshal pk : ParsePKIX (MarshalPKIX pk) = Some (Some pk)
}.

(** ** Address lists *)

Definition ParseAddresses (next : string) : list string :=
  if String.eqb next "" then [] else Split next comma.

Definition JoinAddresses (addrs : list string) : string := Join addrs comma.

(** ** AES-GCM with the nonce in front *)

Definition NonceSize : nat := 12.

(** [aes.NewCipher] accepts 16-, 24- and 32-byte keys. *)
Definition aes_key_ok (key : string) : bool :=
  let n := String.length key in (n =? 16) || (n =? 24) || (n =? 32).

Section Encryption.
Context {C : CryptoLib}.

Definition EncryptAES {S} (key plaintext : string) : prog S (string + string) :=
  if aes_key_ok key then
    nonce ← trigger (ERandBytes NonceSize);
    Ret (inl (nonce +:+ Seal key nonce plaintext))
  else Ret (inr lib_error).

(** [ciphertext[:nonceSize]] panics on a ciphertext shorter than a nonce. *)
Definition DecryptAES (key ciphertext : string) : gores string :=
  if aes_key_ok key then
    if String.length ciphertext <? NonceSize then GPanic "slice bounds out of range"
    else
      let nonce := str_take NonceSize ciphertext in
      let Ciphertext_real := str_drop NonceSize ciphertext in
      match Open key nonce Ciphertext_real with
      | Some plaintext => GOk plaintext
      | None => GErr "cipher: message authentication failed"
      end
  else GErr lib_error.

(** ** One recipient *)

(** A nil public key is dereferenced by [rsa.EncryptOAEP]. *)
Definition encryptForNode {S} (plaintext : string) (pubKey : option PublicKey)
    : prog S (string + string) :=
  aesKey ← trigger (ERandBytes 32);
  r ← EncryptAES aesKey plaintext;
  match r with
  | inr e => Ret (inr e)
  | inl encPlaintext =>
      seed ← trigger (ERandBytes 32);
      match pubKey with
      | None => Raise "nil pointer dereference"
      | Some pk =>
          match EncryptOAEP seed pk aesKey with
          | None => Ret (inr lib_error)
          | Some encKey =>
              Ret (inl (EncodeToString encKey +:+ ":" +:+ EncodeToString encPlaintext))
          end
      end
  end.

(** ** A group of recipients *)

Fixpoint encrypt_keys {S} (aesKey : string) (pubKeys : list PublicKey) (encKeys : list string)
    : prog S (list string + string) :=
  match pubKeys with
  | [] => Ret (inl encKeys)
  | pk :: rest =>
      seed ← trigger (ERandBytes 32);
      match EncryptOAEP seed pk aesKey with
      | None => Ret (inr lib_error)
      | Some encKey => encrypt_keys aesKey rest (encKeys ++ [EncodeToString encKey])
      end
  end.

Definition BroadcastEncrypt {S} (plaintext : string) (pubKeys : list PublicKey)
    : prog S (string + string) :=
  match pubKeys with
  | [] => Ret (inr "pas de clé publique")
  | _ =>
      aesKey ← trigger (ERandBytes 32);
      r ← EncryptAES aesKey plaintext;
      match r with
      | inr e => Ret (inr e)
      | inl encPayload =>
          ks ← encrypt_keys aesKey pubKeys [];
          match ks with
          | inr e => Ret (inr e)
          | inl encKeys =>
              Ret (inl (Join encKeys semi +:+ ":" +:+ EncodeToString encPayload))
          end
      end
  end.

(** The loop over the encrypted keys: the first one that decodes and decrypts. *)
Fixpoint find_key (privateKey : PrivateKey) (encKeyStrings : list string) : option string :=
  match encKeyStrings with
  | [] => None
  | encKeyB64 :: rest =>
      match DecodeString encKeyB64 with
      | None => find_key privateKey rest
      | Some encKey =>
          match DecryptOAEP privateKey encKey with
          | Some key => Some key
          | None => find_key privateKey rest
          end
      end
  end.

Definition BroadcastDecrypt (message : string) (privateKey : PrivateKey) : gores string :=
  match SplitN message colon 2 with
  | [keys; payload] =>
      match DecodeString payload with
      | None => GErr "illegal base64 data"
      | Some encPayload =>
          match find_key privateKey (Split keys semi) with
          | None => GErr "aucune clé correspondante"
          | Some aesKey => DecryptAES aesKey encPayload
          end
      end
  | _ => GErr "format invalide"
  end.

(** [parsePublicKey] of super_send.go. *)
Definition parsePublicKey (keyB64 : string) : option PublicKey :=
  match DecodeString keyB64 with
  | None => None
  | Some pubBytes =>
      match ParsePKIX pubBytes with
      | Some (Some rsaKey) => Some rsaKey
      | _ => None
      end
  end.
End Encryption.

(** ** Address list lemmas *)

Lemma ParseAddresses_Join addrs :
  Forall (lacks comma) addrs -> addrs <> [] -> addrs <> [""] ->
  ParseAddresses (JoinAddresses addrs) = addrs.
Proof.
  intros Hl Hne Hnot. unfold ParseAddresses, JoinAddresses.
  destruct (String.eqb_spec (Join addrs comma) "") as [He|].
  - exfalso. destruct addrs as [|x [|y l]]; [done| |].
    + cbn in He. congruence.
    + rewrite Join_cons in He by done. destruct x; done.
  - by apply Split_Join.
Qed.

Lemma ParseAddresses_single a : lacks comma a -> a <> "" -> ParseAddresses a = [a].
Proof.
  intros Hl Hne. unfold ParseAddresses. apply String.eqb_neq in Hne. rewrite Hne.
  by apply Split_lacks.
Qed.

(** ** What travels on the wire *)

Definition wire_char (a : ascii) : bool := is_b64 a || Ascii.eqb a colon || Ascii.eqb a semi.

(** An onion line cannot be taken for another message of the protocol: it is
    one graphic line, not empty, not [GET_PUBKEY] and not a [NACK:]. *)
Record onion_line (p : string) : Prop := {
  ol_wire : sforall wire_char p = true;
  ol_nonempty : p <> "";
  ol_getpub : p <> "GET_PUBKEY";
  ol_nack : HasPrefix p "NACK:" = false }.

Lemma wire_char_graphic a : wire_char a = true -> graphic a = true.
Proof.
  assert (H : implb (wire_char a) (graphic a) = true)
    by (revert a; apply forall_bytes_spec; by vm_compute).
  intros Ha. by rewrite Ha in H.
Qed.

Lemma onion_line_graphic p : onion_line p -> sforall graphic p = true.
Proof. intros [Hw _ _ _]. eapply sforall_impl; [apply wire_char_graphic|exact Hw]. Qed.

Lemma onion_line_lacks c p : wire_char c = false -> onion_line p -> lacks c p.
Proof. intros Hc [Hw _ _ _]. by eapply sforall_lacks. Qed.

Lemma b64_wire s : sforall wire_char (EncodeToString s) = true.
Proof.
  eapply sforall_impl; [|apply EncodeToString_b64]. intros a Ha. unfold wire_char. by rewrite Ha.
Qed.

Lemma length_EncodeToString_ge s : String.length s <= String.length (EncodeToString s).
Proof.
  induction s as [| | |a b c s IH] using string_ind3; cbn [EncodeToString str1 String.length]; lia.
Qed.

(** The line [k;k';...:payload], whose first key text is long. *)
Lemma onion_line_intro k rest payload :
  sforall wire_char rest = true -> 6 <= String.length (EncodeToString k) ->
  onion_line (EncodeToString k +:+ rest +:+ ":" +:+ EncodeToString payload).
Proof.
  intros Hr Hk. set (t := rest +:+ ":" +:+ EncodeToString payload).
  assert (Hw : sforall wire_char t = true).
  { unfold t. by rewrite !sforall_app, Hr, b64_wire. }
  pose proof (EncodeToString_b64 k) as Hb.
  destruct (EncodeToString k) as [|c1 [|c2 [|c3 [|c4 [|c5 [|c6 s]]]]]] eqn:E;
    cbn in Hk; try lia.
  cbn in Hb. b2p. split.
  - rewrite sforall_app, <- E, b64_wire. exact Hw.
  - done.
  - intros H'. rewrite !app_str_cons in H'. injection H'. intros; subst; done.
  - apply not_true_is_false. intros HP%HasPrefix_true.
    rewrite !app_str_cons in HP. injection HP. intros; subst; done.
Qed.

(** ** Correctness of the encryption of one layer *)
Section Correct.
Context {C : CryptoLib} {L : CryptoLaws C} {S : Type} (ev : env S).

Lemma DecryptAES_EncryptAES key plaintext (w : world S) Q :
  aes_key_ok key = true ->
  (forall c w', DecryptAES key c = GOk plaintext -> quiet w w' -> Q (inl c) w') ->
  wp ev (EncryptAES key plaintext) w Q.
Proof.
  intros Hk HQ. unfold EncryptAES. rewrite Hk. apply wp_bind, wp_rand_bytes.
  intros nonce w' Hn Hw. apply wp_ret, HQ; [|done].
  unfold DecryptAES. rewrite Hk, length_str_app, Hn.
  unfold NonceSize in *.
  assert ((12 + String.length (Seal key nonce plaintext) <? 12) = false) as ->
    by (apply Nat.ltb_ge; lia).
  rewrite <- Hn, str_take_app, str_drop_app. by rewrite open_seal.
Qed.

Definition key_cts (aesKey : string) (pks : list PublicKey) (cts : list string) : Prop :=
  Forall2 (fun pk c => exists seed, EncryptOAEP seed pk aesKey = Some c) pks cts.

Lemma wp_encrypt_keys aesKey pks acc (w : world S) Q :
  String.length aesKey = 32 -> Forall (fun pk => 128 <= Size pk) pks ->
  (forall cts w', key_cts aesKey pks cts -> quiet w w' ->
     Q (inl (acc ++ (EncodeToString <$> cts))) w') ->
  wp ev (encrypt_keys aesKey pks acc) w Q.
Proof.
  intros Hk. revert acc w Q. induction pks as [|pk pks IH]; intros acc w Q Hs HQ.
  - cbn [encrypt_keys]. apply wp_ret. specialize (HQ [] w). cbn in HQ. rewrite app_nil_r in HQ.
    apply HQ; [constructor|apply quiet_refl].
  - apply Forall_cons_1 in Hs as [Hpk Hs]. cbn [encrypt_keys].
    apply wp_bind, wp_rand_bytes. intros seed w1 _ H1.
    destruct (oaep_fits seed pk aesKey) as [c Hc]; [done|lia|]. rewrite Hc.
    apply IH; [done|]. intros cts w2 Hcts H2. rewrite <- app_assoc.
    apply (HQ (c :: cts)); [|by eapply quiet_trans]. constructor; [by exists seed|done].
Qed.

Lemma find_key_member aesKey pks cts sk :
  key_cts aesKey pks cts -> Public sk ∈ pks -> find_key sk (EncodeToString <$> cts) = Some aesKey.
Proof.
  intros H Hin. induction H as [|pk c pks cts [seed Hc] H IH]; [by apply not_elem_of_nil in Hin|].
  cbn [fmap list_fmap find_key]. rewrite DecodeString_EncodeToString.
  destruct (decide (pk = Public sk)) as [->|Hne].
  - by rewrite (oaep_dec_enc _ _ _ _ Hc).
  - rewrite (oaep_wrong_key _ _ _ _ _ Hc Hne). apply IH.
    apply elem_of_cons in Hin as [?|?]; [congruence|done].
Qed.

Lemma find_key_outsider aesKey pks cts sk :
  key_cts aesKey pks cts -> Public sk ∉ pks -> find_key sk (EncodeToString <$> cts) = None.
Proof.
  intros H Hin. induction H as [|pk c pks cts [seed Hc] H IH]; [done|].
  apply not_elem_of_cons in Hin as [Hne Hin].
  cbn [fmap list_fmap find_key]. rewrite DecodeString_EncodeToString.
  rewrite (oaep_wrong_key _ _ _ _ _ Hc) by congruence. by apply IH.
Qed.

(** The key list and the payload of a well-formed line are found again. *)
Lemma BroadcastDecrypt_line cts payload sk :
  cts <> [] ->
  BroadcastDecrypt (Join (EncodeToString <$> cts) semi +:+ ":" +:+ EncodeToString payload) sk =
  match find_key sk (EncodeToString <$> cts) with
  | None => GErr "aucune clé correspondante"
  | Some aesKey => DecryptAES aesKey payload
  end.
Proof.
  intros Hne. unfold BroadcastDecrypt.
  change (":" +:+ EncodeToString payload) with (String colon (EncodeToString payload)).
  assert (Hl : forall c, is_b64 c = false -> Forall (lacks c) (EncodeToString <$> cts)).
  { intros c Hc. apply Forall_fmap, Forall_forall. intros. by apply EncodeToString_lacks. }
  assert (Hc := Hl colon eq_refl). assert (Hs := Hl semi eq_refl).
  rewrite SplitN_app by (by apply lacks_Join). rewrite SplitN_1.
  rewrite DecodeString_EncodeToString, Split_Join; [done| |done].
  by destruct cts.
Qed.

Lemma onion_line_join cts payload :
  cts <> [] -> Forall (fun c => 128 <= String.length c) cts ->
  onion_line (Join (EncodeToString <$> cts) semi +:+ ":" +:+ EncodeToString payload).
Proof.
  intros Hne Hl. destruct cts as [|c cts]; [done|]. apply Forall_cons_1 in Hl as [Hc Hl].
  assert (Hc' : 6 <= String.length (EncodeToString c))
    by (pose proof (length_EncodeToString_ge c); lia).
  destruct cts as [|c' cts].
  - apply (onion_line_intro c "" payload); done.
  - cbn [fmap list_fmap]. rewrite Join_cons, app_str_assoc by done.
    change (String semi ?x +:+ ?y) with (String semi (x +:+ y)).
    pose proof (onion_line_intro c (String semi (Join (EncodeToString <$> (c' :: cts)) semi))
      payload) as H.
    rewrite app_str_cons in H. apply H; [|done]. cbn [sforall].
    rewrite sforall_Join; [done|done|].
    apply Forall_fmap, Forall_forall. intros. apply b64_wire.
Qed.

Lemma key_cts_length aesKey pks cts :
  key_cts aesKey pks cts -> Forall (fun c => 128 <= String.length c) cts.
Proof.
  induction 1 as [|pk c pks cts [seed Hc] H IH]; constructor; [|done].
  by eapply oaep_length.
Qed.

(** The ciphertext of a layer: members of the group read it, others do not. *)
Record layer_ct (pks : list PublicKey) (plaintext ct : string) : Prop := {
  lct_line : onion_line ct;
  lct_member sk : Public sk ∈ pks -> BroadcastDecrypt ct sk = GOk plaintext;
  lct_outsider sk : Public sk ∉ pks -> BroadcastDecrypt ct sk = GErr "aucune clé correspondante" }.

Lemma layer_ct_intro aesKey pks cts plaintext payload :
  pks <> [] -> key_cts aesKey pks cts -> DecryptAES aesKey payload = GOk plaintext ->
  layer_ct pks plaintext (Join (EncodeToString <$> cts) semi +:+ ":" +:+ EncodeToString payload).
Proof.
  intros Hne Hcts Hp. assert (Hc : cts <> []) by (intros ->; by inversion Hcts; subst).
  split.
  - apply onion_line_join; [done|by eapply key_cts_length].
  - intros sk Hin. rewrite BroadcastDecrypt_line by done. by erewrite find_key_member.
  - intros sk Hin. rewrite BroadcastDecrypt_line by done. by erewrite find_key_outsider.
Qed.

Lemma wp_BroadcastEncrypt plaintext pks (w : world S) Q :
  pks <> [] -> Forall (fun pk => 128 <= Size pk) pks ->
  (forall ct w', layer_ct pks plaintext ct -> quiet w w' -> Q (inl ct) w') ->
  wp ev (BroadcastEncrypt plaintext pks) w Q.
Proof.
  intros Hne Hs HQ. unfold BroadcastEncrypt. destruct pks as [|pk pks]; [done|].
  apply wp_bind, wp_rand_bytes. intros aesKey w1 Hk H1.
  apply wp_bind, DecryptAES_EncryptAES; [unfold aes_key_ok; by rewrite Hk|].
  intros payload w2 Hp H2. apply wp_bind, wp_encrypt_keys; [done..|].
  intros cts w3 Hcts H3. apply wp_ret, HQ; [by eapply layer_ct_intro|].
  do 2 (eapply quiet_trans; [|done]). done.
Qed.

Lemma wp_encryptForNode plaintext pk (w : world S) Q :
  128 <= Size pk ->
  (forall ct w', layer_ct [pk] plaintext ct -> quiet w w' -> Q (inl ct) w') ->
  wp ev (encryptForNode plaintext (Some pk)) w Q.
Proof.
  intros Hs HQ. unfold encryptForNode.
  apply wp_bind, wp_rand_bytes. intros aesKey w1 Hk H1.
  apply wp_bind, DecryptAES_EncryptAES; [unfold aes_key_ok; by rewrite Hk|].
  intros payload w2 Hp H2. apply wp_bind, wp_rand_bytes. intros seed w3 _ H3.
  destruct (oaep_fits seed pk aesKey) as [c Hc]; [done|lia|]. rewrite Hc.
  apply wp_ret, HQ.
  - apply (layer_ct_intro aesKey [pk] [c]); [done| |done].
    constructor; [by exists seed|constructor].
  - do 2 (eapply quiet_trans; [|done]). done.
Qed.
End Correct.
