(* ===== verification/ToyCrypto.v ===== *)
(** * A concrete instance of the cryptographic interface

    Not secret, but lawful: ciphertexts name their key, so decryption with
    another key fails.  The witnesses of the theorems that assume [CryptoLaws]
    compute with it. *)

From S2P Require Import Prelude GoStrings Base64 GoMonad Crypto.

Module Toy.

Definition pad : string := byte_str (replicate 128 112).

Definition encrypt (seed pk m : string) : option string :=
  if String.length m + 66 <=? 256
  then Some (pad +:+ (EncodeToString pk +:+ String colon m)) else None.

Definition decrypt (sk c : string) : option string :=
  if HasPrefix c pad then
    match SplitN (str_drop (String.length pad) c) colon 2 with
    | [t; m] => if String.eqb t (EncodeToString sk) then Some m else None
    | _ => None
    end
  else None.

Definition seal (k n m : string) : string :=
  EncodeToString k +:+ String colon (EncodeToString n +:+ String colon m).

Definition unseal (k n c : string) : option string :=
  match SplitN c colon 3 with
  | [a; b; m] =>
      if String.eqb a (EncodeToString k) && String.eqb b (EncodeToString n) then Some m else None
  | _ => None
  end.

#[export] Instance toy_lib : CryptoLib := {|
  PublicKey := string; PrivateKey := string; Public := id; GenerateKey := id;
  Size := fun _ => 256; EncryptOAEP := encrypt; DecryptOAEP := decrypt;
  Seal := seal; Open := unseal; MarshalPKIX := id; ParsePKIX := fun s => Some (Some s); lib_error := "failed" |}.

Lemma b64_lacks_colon s : lacks colon (EncodeToString s).
Proof. by apply EncodeToString_lacks. Qed.

Lemma decrypt_form sk pk m :
  decrypt sk (pad +:+ (EncodeToString pk +:+ String colon m)) =
  if String.eqb (EncodeToString pk) (EncodeToString sk) then Some m else None.
Proof.
  unfold decrypt. rewrite HasPrefix_app, str_drop_app.
  rewrite SplitN_app by apply b64_lacks_colon. by rewrite SplitN_1.
Qed.

#[export] Instance toy_laws : CryptoLaws toy_lib.
Proof.
  split; cbn.
  - intros seed sk m c. unfold encrypt. destruct (_ <=? _); [|done]. intros [= <-].
    rewrite decrypt_form. unfold id. by rewrite String.eqb_refl.
  - intros seed pk sk m c. unfold encrypt. destruct (_ <=? _); [|done]. intros [= <-] Hne.
    rewrite decrypt_form. destruct (String.eqb_spec (EncodeToString pk) (EncodeToString sk))
      as [He|]; [|done].
    apply (f_equal DecodeString) in He. rewrite !DecodeString_EncodeToString in He.
    unfold id in Hne. congruence.
  - intros seed pk m _ Hm. unfold encrypt. apply Nat.leb_le in Hm. rewrite Hm. eauto.
  - intros seed pk m c. unfold encrypt. destruct (_ <=? _); [|done]. intros [= <-].
    rewrite length_str_app. change (String.length pad) with 128. lia.
  - intros k n m. unfold seal, unseal.
    rewrite SplitN_app by apply b64_lacks_colon. rewrite SplitN_app by apply b64_lacks_colon.
    rewrite SplitN_1. by rewrite !String.eqb_refl.
  - done.
Qed.

(** An environment for concrete runs: zero randomness beyond the event counter,
    every dial succeeds, the directory answers nothing. *)
Definition toy_env {S} : env S := {|
  e_rand := fun n => Z.of_nat n; e_dial := fun _ _ => true; e_request := fun _ _ => None;
  e_now := fun _ => 0%Z; e_reply := fun _ => true; e_fault := fun _ => false; e_wait := fun _ s => (None, s);
  e_getenv := fun _ => ""; e_ask := fun _ _ _ => NoDial |}.

End Toy.
