(* ===== verification/OnionLayer.v ===== *)
(** * model/OnionLayer.go: the record of one layer and its text

    A decrypted layer is one line of seven fields separated by [|].  Only the
    last field, the user's message, may contain the separator. *)

From S2P Require Import Prelude GoStrings GoMonad.

Record OnionLayer := MkOnionLayer {
  Type_ : string;   (* RELAY, FINAL, ACK *)
  MsgID : string;
  Next : string;
  From : string;
  Data : string;
  Frag : string;    (* "fragID:i/n", empty for non-fragmented *)
  Message : string }.

#[export] Instance OnionLayer_eq_dec : EqDecision OnionLayer.
Proof. solve_decision. Defined.

Definition OnionlayerToString (layer : OnionLayer) : string :=
  Type_ layer +:+ "|" +:+ MsgID layer +:+ "|" +:+ Next layer +:+ "|" +:+ From layer
    +:+ "|" +:+ Data layer +:+ "|" +:+ Frag layer +:+ "|" +:+ Message layer.

Definition StringToOnionLayer (str : string) : gores OnionLayer :=
  match SplitN str pipe 7 with
  | [a; b; c; d; e; f; g] => GOk (MkOnionLayer a b c d e f g)
  | [a; b; c; d; e; f] => GOk (MkOnionLayer a b c d e "" f)
  | _ => GErr "OnionLayer StringToOnionLayer Error Split"
  end.

(** [GenerateMsgID(prefix)]: no argument and an empty argument give [msg-]. *)
Fixpoint gen_digits {S} (n : nat) (str : string) : prog S string :=
  match n with
  | 0 => Ret str
  | Datatypes.S n' =>
      d ← trigger (EIntn 10);
      gen_digits n' (str +:+ str1 (digit d))
  end.

Definition GenerateMsgID {S} (prefix : string) : prog S string :=
  gen_digits 10 (if String.eqb prefix "" then "msg-" else prefix +:+ "-").

(** ** Printing and parsing *)

Definition wf_layer (l : OnionLayer) : Prop :=
  lacks pipe (Type_ l) /\ lacks pipe (MsgID l) /\ lacks pipe (Next l) /\
  lacks pipe (From l) /\ lacks pipe (Data l) /\ lacks pipe (Frag l).

#[export] Instance wf_layer_dec l : Decision (wf_layer l).
Proof. unfold wf_layer. apply _. Defined.

Lemma pipe_app s : "|" +:+ s = String pipe s.
Proof. reflexivity. Qed.

Lemma parse_print l : wf_layer l -> StringToOnionLayer (OnionlayerToString l) = GOk l.
Proof.
  destruct l as [a b c d e f g]. intros (Ha & Hb & Hc & Hd & He & Hf). cbn in *.
  unfold StringToOnionLayer, OnionlayerToString. cbn [Type_ MsgID Next From Data Frag Message].
  rewrite !pipe_app. do 6 (rewrite SplitN_app by done). by rewrite SplitN_1.
Qed.

(** Pieces of a split at [|]: all but the last are free of it. *)
Lemma SplitN_pipe_7 s a b c d e f g :
  SplitN s pipe 7 = [a; b; c; d; e; f; g] ->
  Forall (lacks pipe) [a; b; c; d; e; f] /\ s = OnionlayerToString (MkOnionLayer a b c d e f g).
Proof.
  intros H. split.
  - by apply (SplitN_pieces s pipe 7 [a; b; c; d; e; f] g).
  - rewrite <- (Join_SplitN s pipe 6), H. reflexivity.
Qed.

Lemma SplitN_pipe_6 s a b c d e f :
  SplitN s pipe 7 = [a; b; c; d; e; f] ->
  Forall (lacks pipe) [a; b; c; d; e; f] /\
  s = a +:+ "|" +:+ b +:+ "|" +:+ c +:+ "|" +:+ d +:+ "|" +:+ e +:+ "|" +:+ f.
Proof.
  intros H. split.
  - destruct (SplitN_pieces s pipe 7 [a; b; c; d; e] f H) as [Hl Hf].
    apply (Forall_app_2 _ [a; b; c; d; e] [f]); [done|].
    constructor; [apply Hf; cbn; lia|constructor].
  - rewrite <- (Join_SplitN s pipe 6), H. reflexivity.
Qed.

Ltac forall_lacks :=
  repeat match goal with H : Forall _ (_ :: _) |- _ => apply Forall_cons_1 in H as [? H] end.

(** Every text the parser accepts, in the seven-field or in the older six-field
    form, comes from a well-formed layer. *)
Lemma parse_wf s l : StringToOnionLayer s = GOk l -> wf_layer l.
Proof.
  unfold StringToOnionLayer.
  destruct (SplitN s pipe 7) as [|a [|b [|c [|d [|e [|f [|g [|]]]]]]]] eqn:E; intros [= <-].
  - apply SplitN_pipe_6 in E as [E _]. forall_lacks.
    repeat split; cbn; done || apply lacks_nil.
  - apply SplitN_pipe_7 in E as [E _]. forall_lacks. repeat split; done.
Qed.

(** ** Identifiers *)

(** The text of an identifier: prefix, dash, ten digits. *)
Definition id_shape (prefix s : string) : Prop :=
  exists ds, s = prefix +:+ "-" +:+ ds /\ String.length ds = 10 /\ sforall is_digit ds = true.

Section WP.
Context {S : Type} (ev : env S).

Lemma wp_gen_digits n str w Q :
  (forall ds w', String.length ds = n -> sforall is_digit ds = true -> quiet w w' ->
     Q (str +:+ ds) w') ->
  wp ev (gen_digits n str) w Q.
Proof.
  revert str w Q. induction n as [|n IH]; intros str w Q HQ; cbn [gen_digits].
  - apply wp_ret. rewrite <- (app_str_nil_r str). apply HQ; [done..|apply quiet_refl].
  - apply wp_bind, wp_intn; [lia|]. intros d w1 Hd H1. apply IH. intros ds w2 Hl Hds H2.
    rewrite app_str_assoc. apply HQ.
    + rewrite length_str_app. cbn. lia.
    + rewrite sforall_app, Hds. cbn. by rewrite is_digit_digit.
    + by eapply quiet_trans.
Qed.

Lemma wp_GenerateMsgID prefix w Q :
  (forall s w', id_shape (if String.eqb prefix "" then "msg" else prefix) s -> quiet w w' -> Q s w') ->
  wp ev (GenerateMsgID prefix) w Q.
Proof.
  intros HQ. unfold GenerateMsgID. apply wp_gen_digits. intros ds w' Hl Hd Hw.
  apply HQ; [|done]. exists ds. split; [|done].
  destruct (String.eqb prefix ""); [done|]. by rewrite app_str_assoc.
Qed.
End WP.

Lemma id_shape_lacks c prefix s :
  id_shape prefix s -> lacks c prefix -> c <> "-"%char -> is_digit c = false -> lacks c s.
Proof.
  intros (ds & -> & _ & Hd) Hp Hc Hn. apply lacks_app_2; [done|].
  apply (lacks_cons_2 c "-" ds); [done|]. by eapply sforall_lacks.
Qed.
