(* ===== verification/KeyCache.v ===== *)
(** * node/keycache.go: the cache of public keys

    A map from address to key and expiry behind [KeyCache.mu].  The operations
    are written for any process state that holds such a cache (class
    [HasCache]); file Node gives the instance. *)

From S2P Require Import Prelude GoStrings Base64 GoMonad Crypto.

Section KeyCache.
Context {C : CryptoLib}.

Record CachedKey := MkCachedKey { Key : PublicKey; ExpiresAt : Z }.

(** A state with a cache in it. *)
Class HasCache (S : Type) := {
  get_cache : S -> gmap string CachedKey;
  set_cache : gmap string CachedKey -> S -> S;
  get_set_cache m s : get_cache (set_cache m s) = m }.

Context {S : Type} `{HC : HasCache S}.

(** A miss returns the zero [CachedKey], whose [Key] is nil: callers that look
    only at the key of [get] see [None]. *)
Definition cache_get (k : string) : prog S (option CachedKey) :=
  RLock CacheMu ;;
  v ← read CacheMu (fun s => get_cache s !! k);
  RUnlock CacheMu ;;
  Ret v.

Definition cache_set (k : string) (v : CachedKey) : prog S unit :=
  Lock CacheMu ;;
  write CacheMu (fun s => set_cache (<[k := v]> (get_cache s)) s) ;;
  Unlock CacheMu.

(** [now.After(v.ExpiresAt)]. *)
Definition expired (now : Z) (v : CachedKey) : bool := (ExpiresAt v <? now)%Z.

(** One pass of [cleanCache], every 60 s. *)
Definition clean (now : Z) (m : gmap string CachedKey) : gmap string CachedKey :=
  filter (fun kv => expired now kv.2 = false) m.

Definition cleanCache_pass : prog S unit :=
  now ← trigger ENow;
  Lock CacheMu ;;
  write CacheMu (fun s => set_cache (clean now (get_cache s)) s) ;;
  Unlock CacheMu.

(** What [FetchKeyFromServer] makes of the directory's answer. *)
Definition parse_key_response (response : string) : PublicKey + string :=
  let response := TrimSpace response in
  if HasPrefix response "ERROR:" then inr response
  else
    match SplitN response colon 2 with
    | [k; b64] =>
        if String.eqb k "KEY" then
          match DecodeString b64 with
          | None => inr ("base64 decode: " +:+ lib_error)
          | Some publicBytes =>
              match ParsePKIX publicBytes with
              | None => inr ("parse public key: " +:+ lib_error)
              | Some None => inr "key is not RSA"
              | Some (Some rsaKey) => inl rsaKey
              end
          end
        else inr "invalid response"
    | _ => inr "invalid response"
    end.

Definition FetchKeyFromServer (addr : string) : prog S (PublicKey + string) :=
  r ← trigger (ERequest ("GET_KEY:" +:+ addr +:+ str1 nl));
  match r with
  | None => Ret (inr lib_error)
  | Some response => Ret (parse_key_response response)
  end.

Definition second : Z := 1000000000.

(** The refresh loop of [Encapsulator_func]: every node of the route whose key
    is absent or expired is asked for, and cached for 30 s. *)
Fixpoint refresh_keys (allNodes : list string) : prog S (unit + string) :=
  match allNodes with
  | [] => Ret (inl tt)
  | port :: rest =>
      cached ← cache_get port;
      now ← trigger ENow;
      if match cached with None => true | Some v => expired now v end then
        key ← FetchKeyFromServer port;
        match key with
        | inr err => Ret (inr ("error fetching public key for " +:+ port +:+ ": " +:+ err))
        | inl key =>
            now ← trigger ENow;
            cache_set port (MkCachedKey key (now + 30 * second)) ;;
            refresh_keys rest
        end
      else refresh_keys rest
  end.

(** ** Properties *)

Lemma clean_lookup now m k v :
  clean now m !! k = Some v <-> m !! k = Some v /\ expired now v = false.
Proof. unfold clean. by rewrite map_lookup_filter_Some. Qed.

Lemma clean_lookup_None now m k :
  clean now m !! k = None <-> forall v, m !! k = Some v -> expired now v = true.
Proof.
  unfold clean. rewrite map_lookup_filter_None. split.
  - intros [Hn|Hn] v Hv; [congruence|]. specialize (Hn v Hv). cbn in Hn.
    by destruct (expired now v).
  - intros Hv. destruct (m !! k) as [v|] eqn:E; [right|by left].
    intros x [= <-]. cbn. rewrite (Hv v); done.
Qed.
End KeyCache.
