(* ===== verification/Node.v ===== *)
(** * model/Node.go: the node process and its connection handler

    [Node] is the struct without its mutexes (constructors of [mutex]) and its
    listener; [Proc] adds the key cache that the sending side of the same
    process uses.  [handlerroutine] is the goroutine run for every accepted
    connection, split along the cases of the switch. *)

From S2P Require Import Prelude GoStrings Base64 GoMonad Crypto OnionLayer KeyCache.

Section Node.
Context {C : CryptoLib}.

Record Nackstruct := MkNack { PrevNackID : string; PrevNodeAddr : string }.

Record Node := MkNode {
  ID : string;
  Port : Z;
  NPrivateKey : PrivateKey;
  NPublicKey : PublicKey;
  NodeIP : string;
  PendingACKs : gmap string nat;                      (* msgID to channel *)
  PendingRelays : gmap string Nackstruct;
  FragBuf : option (gmap string (gmap Z string));     (* None: nil map *)
  FragTotal : option (gmap string Z);
  SeenMsgs : option (gmap string Z);
  ReceivedMsgs : list string }.

Record Proc := MkProc { node : Node; cache : gmap string CachedKey }.

#[export] Instance proc_has_cache : HasCache Proc := {|
  get_cache := cache; set_cache := fun m p => MkProc (node p) m; get_set_cache := fun _ _ => eq_refl |}.

Definition on_node (f : Node -> Node) (p : Proc) : Proc := MkProc (f (node p)) (cache p).

Definition set_NodeIP (v : string) (n : Node) : Node :=
  MkNode (ID n) (Port n) (NPrivateKey n) (NPublicKey n) v (PendingACKs n) (PendingRelays n)
    (FragBuf n) (FragTotal n) (SeenMsgs n) (ReceivedMsgs n).
Definition set_keys (sk : PrivateKey) (pk : PublicKey) (n : Node) : Node :=
  MkNode (ID n) (Port n) sk pk (NodeIP n) (PendingACKs n) (PendingRelays n)
    (FragBuf n) (FragTotal n) (SeenMsgs n) (ReceivedMsgs n).
Definition upd_PendingACKs (f : gmap string nat -> gmap string nat) (n : Node) : Node :=
  MkNode (ID n) (Port n) (NPrivateKey n) (NPublicKey n) (NodeIP n) (f (PendingACKs n))
    (PendingRelays n) (FragBuf n) (FragTotal n) (SeenMsgs n) (ReceivedMsgs n).
Definition upd_PendingRelays (f : gmap string Nackstruct -> gmap string Nackstruct) (n : Node)
    : Node :=
  MkNode (ID n) (Port n) (NPrivateKey n) (NPublicKey n) (NodeIP n) (PendingACKs n)
    (f (PendingRelays n)) (FragBuf n) (FragTotal n) (SeenMsgs n) (ReceivedMsgs n).
Definition set_Frag (b : option (gmap string (gmap Z string))) (t : option (gmap string Z))
    (n : Node) : Node :=
  MkNode (ID n) (Port n) (NPrivateKey n) (NPublicKey n) (NodeIP n) (PendingACKs n)
    (PendingRelays n) b t (SeenMsgs n) (ReceivedMsgs n).
Definition set_SeenMsgs (m : option (gmap string Z)) (n : Node) : Node :=
  MkNode (ID n) (Port n) (NPrivateKey n) (NPublicKey n) (NodeIP n) (PendingACKs n)
    (PendingRelays n) (FragBuf n) (FragTotal n) m (ReceivedMsgs n).
Definition add_received (m : string) (n : Node) : Node :=
  MkNode (ID n) (Port n) (NPrivateKey n) (NPublicKey n) (NodeIP n) (PendingACKs n)
    (PendingRelays n) (FragBuf n) (FragTotal n) (SeenMsgs n) (ReceivedMsgs n ++ [m]).

(** Reading a nil map gives the empty one. *)
Definition mget {K V} `{Countable K} (m : option (gmap K V)) : gmap K V :=
  match m with Some m => m | None => ∅ end.

(** ** Duplicate detection *)

Definition seenMsg (msgID : string) : prog Proc bool :=
  Lock SeenMu ;;
  write SeenMu (on_node (fun n =>
    match SeenMsgs n with None => set_SeenMsgs (Some ∅) n | Some _ => n end)) ;;
  seen ← read SeenMu (fun p => mget (SeenMsgs (node p)) !! msgID);
  match seen with
  | Some _ => Unlock SeenMu ;; Ret true
  | None =>
      now ← trigger ENow;
      write SeenMu (on_node (fun n => set_SeenMsgs (Some (<[msgID := now]> (mget (SeenMsgs n)))) n)) ;;
      Unlock SeenMu ;;
      Ret false
  end.

(** The eviction pass of [StartNode], every 30 s. *)
Definition seen_ttl : Z := 30 * second.
Definition evict (now : Z) (m : gmap string Z) : gmap string Z :=
  filter (fun kv => (now - kv.2 <=? seen_ttl)%Z = true) m.
Definition evict_pass : prog Proc unit :=
  Lock SeenMu ;;
  now ← trigger ENow;
  write SeenMu (on_node (fun n => set_SeenMsgs (evict now <$> SeenMsgs n) n)) ;;
  Unlock SeenMu.

(** The first rounds of that goroutine. *)
Fixpoint evict_loop (rounds : nat) : prog Proc unit :=
  match rounds with
  | 0 => Ret tt
  | Datatypes.S rounds => trigger (ESleep seen_ttl) ;; evict_pass ;; evict_loop rounds
  end.

(** ** Sending *)

Definition millisecond : Z := 1000000.

Definition SendTo (targetAddr message : string) : prog Proc bool :=
  simLatency ← trigger (EGetenv "SIM_LATENCY");
  (if String.eqb simLatency "" then Ret tt
   else
     let maxMs := atoi_val simLatency in
     if (0 <? maxMs)%Z then
       r ← trigger (EIntn maxMs);
       trigger (ESleep ((10 + r) * millisecond))
     else Ret tt) ;;
  trigger (EDial targetAddr (message +:+ str1 nl)).

(** [for _, a := range addrs { if n.SendTo(a, m) == nil { break } }]: whether
    one of them took the message. *)
Fixpoint send_first (addrs : list string) (m : string) : prog Proc bool :=
  match addrs with
  | [] => Ret false
  | a :: rest =>
      ok ← SendTo a m;
      if (ok : bool) then Ret true else send_first rest m
  end.

(** ** The cases of [handlerroutine] *)

Definition handle_getpubkey : prog Proc unit :=
  RLock KeyMu ;;
  pk ← read KeyMu (fun p => NPublicKey (node p));
  RUnlock KeyMu ;;
  trigger (EReply (EncodeToString (MarshalPKIX pk) +:+ str1 nl)) ;;
  Ret tt.

Definition handle_nack (msgId : string) : prog Proc unit :=
  Lock Mu ;;
  ch ← read Mu (fun p => PendingACKs (node p) !! msgId);
  match ch with
  | Some c =>
      trigger (EChanSend c false) ;;
      write Mu (on_node (upd_PendingACKs (delete msgId))) ;;
      Unlock Mu
  | None =>
      Nack ← read Mu (fun p => PendingRelays (node p) !! msgId);
      write Mu (on_node (upd_PendingRelays (delete msgId))) ;;
      Unlock Mu ;;
      match Nack with
      | Some nk =>
          send_first (ParseAddresses (PrevNodeAddr nk)) ("NACK:" +:+ PrevNackID nk) ;;
          Ret tt
      | None => Ret tt
      end
  end.

Definition handle_relay (layer : OnionLayer) : prog Proc unit :=
  if negb (Contains (Next layer) colon) then Ret tt
  else
    match SplitN (MsgID layer) colon 2 with
    | [tosend; toreceive] =>
        Lock Mu ;;
        write Mu (on_node (upd_PendingRelays
          (<[toreceive := MkNack tosend (From layer)]>))) ;;
        Unlock Mu ;;
        nextAddrs ← Shuffle (ParseAddresses (Next layer));
        sent ← send_first nextAddrs (Data layer);
        if (sent : bool) then Ret tt
        else
          Lock Mu ;;
          write Mu (on_node (upd_PendingRelays (delete toreceive))) ;;
          Unlock Mu ;;
          send_first (ParseAddresses (From layer)) ("NACK:" +:+ tosend) ;;
          Ret tt
    | _ =>
        id ← trigger (EGet (fun p => ID (node p)));
        trigger (EPrint ("[" +:+ id +:+ "] Erreur: MsgID format invalide: " +:+ MsgID layer))
    end.

(** Fragments.  The four assignments under [FragMu] ... *)
Definition frag_init (n : Node) : Node :=
  match FragBuf n with
  | None => set_Frag (Some ∅) (Some ∅) n
  | Some _ => n
  end.
Definition frag_open (fragID : string) (total : Z) (n : Node) : Node :=
  match mget (FragBuf n) !! fragID with
  | None => set_Frag (Some (<[fragID := ∅]> (mget (FragBuf n))))
                     (Some (<[fragID := total]> (mget (FragTotal n)))) n
  | Some _ => n
  end.
Definition frag_chunks (fragID : string) (n : Node) : gmap Z string :=
  mget (mget (FragBuf n) !! fragID).
Definition frag_store (fragID : string) (idx : Z) (m : string) (n : Node) : Node :=
  set_Frag (Some (<[fragID := <[idx := m]> (frag_chunks fragID n)]> (mget (FragBuf n))))
           (FragTotal n) n.
Definition frag_drop (fragID : string) (n : Node) : Node :=
  set_Frag (delete fragID <$> FragBuf n) (delete fragID <$> FragTotal n) n.

(** ... the completeness test, and the chunks in order, missing ones empty. *)
Definition frag_complete (fragID : string) (n : Node) : bool :=
  (Z.of_nat (size (frag_chunks fragID n)) =? default 0 (mget (FragTotal n) !! fragID))%Z.
Definition str_concat (l : list string) : string := foldr String.append "" l.
Definition assemble (total : Z) (m : gmap Z string) : string :=
  str_concat ((fun i => default "" (m !! i)) <$> seqZ 1 total).

Definition receive (m : string) : prog Proc unit :=
  Lock ReceivedMu ;;
  write ReceivedMu (on_node (add_received m)) ;;
  Unlock ReceivedMu.

Definition handle_frag (layer : OnionLayer) : prog Proc unit :=
  let fp := SplitN (Frag layer) colon 2 in
  fragID ← get_index fp 0;
  fp1 ← get_index fp 1;
  let inn := Split fp1 slash in
  in0 ← get_index inn 0;
  let idx := atoi_val in0 in
  in1 ← get_index inn 1;
  let total := atoi_val in1 in
  Lock FragMu ;;
  write FragMu (on_node frag_init) ;;
  write FragMu (on_node (frag_open fragID total)) ;;
  write FragMu (on_node (frag_store fragID idx (Message layer))) ;;
  complete ← read FragMu (fun p => frag_complete fragID (node p));
  if (complete : bool) then
    assembled ← read FragMu (fun p => assemble total (frag_chunks fragID (node p)));
    write FragMu (on_node (frag_drop fragID)) ;;
    Unlock FragMu ;;
    receive assembled
  else Unlock FragMu.

(** The acknowledgement of a FINAL layer. *)
Definition send_ack (layer : OnionLayer) : prog Proc unit :=
  if negb (String.eqb (Next layer) "") && negb (String.eqb (Data layer) "") then
    nextAddrs ← Shuffle (ParseAddresses (Next layer));
    sent ← send_first nextAddrs (Data layer);
    if (sent : bool) then Ret tt
    else
      send_first (ParseAddresses (From layer)) ("NACK:" +:+ MsgID layer) ;;
      Ret tt
  else Ret tt.

Definition handle_final (layer : OnionLayer) : prog Proc unit :=
  (if negb (String.eqb (Frag layer) "") then handle_frag layer else receive (Message layer)) ;;
  send_ack layer.

Definition handle_ack (layer : OnionLayer) : prog Proc unit :=
  Lock Mu ;;
  ch ← read Mu (fun p => PendingACKs (node p) !! MsgID layer);
  match ch with
  | Some c =>
      trigger (EChanSend c true) ;;
      write Mu (on_node (upd_PendingACKs (delete (MsgID layer)))) ;;
      Unlock Mu
  | None => Unlock Mu
  end.

Definition dispatch (layer : OnionLayer) : prog Proc unit :=
  if String.eqb (Type_ layer) "RELAY" then handle_relay layer
  else if String.eqb (Type_ layer) "FINAL" then handle_final layer
  else if String.eqb (Type_ layer) "ACK" then handle_ack layer
  else Ret tt.

Definition handle_layer (layer : OnionLayer) : prog Proc unit :=
  if String.eqb (Type_ layer) "RELAY" || String.eqb (Type_ layer) "FINAL" then
    dup ← seenMsg (MsgID layer);
    if (dup : bool) then Ret tt else dispatch layer
  else dispatch layer.

Definition handle_onion (line : string) : prog Proc unit :=
  RLock KeyMu ;;
  sk ← read KeyMu (fun p => NPrivateKey (node p));
  decrypted ← of_gores (BroadcastDecrypt line sk);
  RUnlock KeyMu ;;
  match decrypted with
  | inr _ => Ret tt
  | inl decrypted =>
      match StringToOnionLayer decrypted with
      | GOk layer => handle_layer layer
      | GErr _ => Ret tt
      | GPanic why => Raise why
      end
  end.

(** The connection: the bytes a peer sends before it closes. *)
Definition handlerroutine (conn : string) : prog Proc unit :=
  match ReadString conn with
  | None => Ret tt
  | Some line =>
      let line := TrimSpace line in
      if String.eqb line "" then Ret tt
      else if String.eqb line "GET_PUBKEY" then handle_getpubkey
      else if HasPrefix line "NACK:" then handle_nack (str_drop (String.length "NACK:") line)
      else handle_onion line
  end.

(** ** The directory as the node sees it *)

Definition GetNodesList : prog Proc (string + string) :=
  r ← trigger (ERequest ("GET_LIST" +:+ str1 nl));
  match r with
  | None => Ret (inr lib_error)
  | Some response => Ret (inl (TrimSpace response))
  end.

Definition JoinServerList (sa sn : Z) : prog Proc (unit + string) :=
  id ← trigger (EGet (fun p => (ID (node p), Port (node p))));
  RLock KeyMu ;;
  pk ← read KeyMu (fun p => NPublicKey (node p));
  RUnlock KeyMu ;;
  let pubBase64 := EncodeToString (MarshalPKIX pk) in
  r ← trigger (ERequest ("INIT:" +:+ id.1 +:+ ":" +:+ Itoa id.2 +:+ ":" +:+ pubBase64
        +:+ ":" +:+ Itoa sa +:+ ":" +:+ Itoa sn +:+ str1 nl));
  match r with
  | None => Ret (inr lib_error)
  | Some response =>
      let response := TrimSpace response in
      if HasPrefix response "INIT_ACK" then
        match SplitN response colon 3 with
        | [_; _; ip] => trigger (ESet (on_node (set_NodeIP ip))) ;; Ret (inl tt)
        | _ => Ret (inl tt)
        end
      else Ret (inr ("registration failed: " +:+ response))
  end.

(** The exchange with the directory fails on connecting or on writing. *)
Definition regen_error (connected : bool) : string :=
  (if connected then "erreur d'envoi à l'annuaire: " else "erreur de connexion à l'annuaire: ")
    +:+ lib_error.

Definition RegenerateKeys : prog Proc (unit + string) :=
  seed ← trigger (ERandBytes 256);
  let newPriv := GenerateKey seed in
  let newPub := Public newPriv in
  let pubBase64 := EncodeToString (MarshalPKIX newPub) in
  Lock KeyMu ;;
  write KeyMu (on_node (set_keys newPriv newPub)) ;;
  Unlock KeyMu ;;
  id ← trigger (EGet (fun p => ID (node p)));
  r ← trigger (ERequest ("UPDATE_KEY:" +:+ id +:+ ":" +:+ pubBase64 +:+ str1 nl));
  match r with
  | None =>
      connected ← trigger EFault;
      Ret (inr (regen_error connected))
  | Some _ => Ret (inl tt)
  end.

Definition Stop : prog Proc unit :=
  id ← trigger (EGet (fun p => ID (node p)));
  trigger (ERequest ("QUIT:" +:+ id +:+ str1 nl)) ;;
  Ret tt.

End Node.
