(* ===== verification/NodeSpec.v ===== *)
(** * What the connection handler does, case by case

    Rules in weakest-precondition form for the pieces of [handlerroutine] run
    alone, used by the theorems on the node and on the network. *)

From S2P Require Import Prelude GoStrings Base64 GoMonad Crypto OnionLayer KeyCache Node.

(** A trace that put exactly [ms] on the network and told nothing else. *)
Definition emits (u : list event) (ms : list (string * string)) : Prop :=
  sends u = ms /\ replies u = [] /\ prints u = [].

Lemma internal_replies u : Forall internal u -> replies u = [].
Proof. induction 1 as [|[] u He Hu IH]; cbn in *; done. Qed.

Lemma emits_internal u : Forall internal u -> emits u [].
Proof. intros. repeat split; auto using internal_sends, internal_replies, internal_prints. Qed.

Lemma emits_app u v ms ns : emits u ms -> emits v ns -> emits (u ++ v) (ms ++ ns).
Proof.
  intros (Hu & Hru & Hpu) (Hv & Hrv & Hpv). unfold emits. autorewrite with dor_trace.
  by rewrite Hu, Hv, Hru, Hrv, Hpu, Hpv.
Qed.

#[export] Hint Resolve emits_internal emits_app : dor.

(** The first reachable address of a list. *)
Fixpoint first_up (up : string -> bool) (addrs : list string) : option string :=
  match addrs with
  | [] => None
  | a :: rest => if up a then Some a else first_up up rest
  end.

Lemma first_up_Some up l a : first_up up l = Some a -> a ∈ l /\ up a = true.
Proof.
  induction l as [|b l IH]; [done|]. cbn. destruct (up b) eqn:E.
  - intros [= ->]. split; [by left|done].
  - intros [? ?]%IH. split; [by right|done].
Qed.

Lemma first_up_None up l : first_up up l = None -> forall a, a ∈ l -> up a = false.
Proof.
  induction l as [|b l IH]; cbn; [intros _ a Ha; by apply not_elem_of_nil in Ha|].
  destruct (up b) eqn:E; [done|]. intros H a [->|Ha]%elem_of_cons; auto.
Qed.

Lemma first_up_exists up l : (exists a, a ∈ l /\ up a = true) -> is_Some (first_up up l).
Proof.
  intros (a & Ha & Hu). destruct (first_up up l) eqn:E; [eauto|].
  pose proof (first_up_None _ _ E a Ha). congruence.
Qed.

(** The line [m] sent to the first reachable address. *)
Definition sent_to (up : string -> bool) (addrs : list string) (m : string) : list (string * string) :=
  match first_up up addrs with Some a => [(a, m +:+ str1 nl)] | None => [] end.

Section Spec.
Context {C : CryptoLib} (ev : env Proc).

(** Reachability does not change while the handler runs. *)
Variable up : string -> bool.
Hypothesis Hup : forall n a, e_dial ev n a = up a.

Lemma wp_SendTo a m p h c t Q :
  (forall u, emits u (if up a then [(a, m +:+ str1 nl)] else []) -> Q (up a) (World p h c (t ++ u))) ->
  wp ev (SendTo a m) (World p h c t) Q.
Proof.
  intros HQ. unfold SendTo. wp_steps.
  assert (Hd : forall t' u0, t' = t ++ u0 -> Forall internal u0 ->
    Q (e_dial ev (length t') a)
      (World p h c (t' ++ [EvDial a (m +:+ str1 nl) (e_dial ev (length t') a)]))).
  { intros t' u0 -> Hu. rewrite !Hup, <- app_assoc. apply HQ.
    change (if up a then _ else _) with ([] ++ (if up a then [(a, m +:+ str1 nl)] else [])).
    apply emits_app; [by apply emits_internal|]. destruct (up a); repeat split. }
  destruct (String.eqb _ ""); [wp_steps; apply (Hd t []); [by rewrite app_nil_r|constructor]|].
  destruct (0 <? _)%Z eqn:Hms; [|wp_steps; apply (Hd t []); [by rewrite app_nil_r|constructor]].
  wp_steps. apply wp_intn; [by apply Z.ltb_lt|]. intros r w' _ (u & -> & Hu)%quiet_inv.
  wp_steps. apply (Hd _ (u ++ [EvSleep ((10 + r) * millisecond)])); [by rewrite app_assoc|].
  apply Forall_app. split; [done|]. by constructor.
Qed.

Lemma wp_send_first addrs m p h c t Q :
  (forall u, emits u (sent_to up addrs m) ->
     Q (if first_up up addrs is Some _ then true else false) (World p h c (t ++ u))) ->
  wp ev (send_first addrs m) (World p h c t) Q.
Proof.
  revert t Q. induction addrs as [|a rest IH]; intros t Q HQ; cbn [send_first].
  - wp_steps. specialize (HQ []). rewrite app_nil_r in HQ. apply HQ. done.
  - wp_steps. apply wp_SendTo. intros u Hu. unfold sent_to in *. cbn [first_up] in HQ.
    destruct (up a) eqn:E.
    + wp_steps. by apply HQ.
    + apply IH. intros v Hv. rewrite <- app_assoc. apply HQ.
      change (match first_up up rest with Some a0 => _ | None => _ end)
        with ([] ++ match first_up up rest with Some a0 => [(a0, m +:+ str1 nl)] | None => [] end).
      by apply emits_app.
Qed.

(** ** Duplicates *)

Definition mark_seen (id : string) (now : Z) (n : Node) : Node :=
  set_SeenMsgs (Some (<[id := now]> (mget (SeenMsgs n)))) n.

Lemma wp_seenMsg_fresh id p c t Q :
  mget (SeenMsgs (node p)) !! id = None ->
  (forall now u, (exists n, now = e_now ev n) -> Forall internal u ->
     Q false (World (on_node (mark_seen id now) p) [] c (t ++ u))) ->
  wp ev (seenMsg id) (World p [] c t) Q.
Proof.
  intros Hf HQ. unfold seenMsg. wp_steps.
  destruct p as [n k]; unfold on_node; cbn [node cache] in *.
  destruct n as [? ? ? ? ? ? ? ? ? [m|] ?]; cbn [SeenMsgs] in *; unfold mget in *;
    cbn [set_SeenMsgs SeenMsgs] in *; rewrite ?Hf, ?lookup_empty; wp_steps;
    apply HQ; [by eexists|by constructor|by eexists|by constructor].
Qed.

Lemma wp_seenMsg_dup id p c t Q :
  is_Some (mget (SeenMsgs (node p)) !! id) ->
  Q true (World p [] c t) -> wp ev (seenMsg id) (World p [] c t) Q.
Proof.
  intros [v Hv] HQ. unfold seenMsg. wp_steps.
  destruct p as [n k]; unfold on_node; cbn [node cache] in *.
  destruct (SeenMsgs n) as [m|] eqn:E; cbn [mget node] in *; [|by rewrite lookup_empty in Hv].
  rewrite E. cbn. rewrite Hv. by wp_steps.
Qed.

Definition deduplicated (layer : OnionLayer) : Prop := Type_ layer = "RELAY" \/ Type_ layer = "FINAL".

Lemma wp_handle_fresh_at layer p c t Q :
  deduplicated layer -> mget (SeenMsgs (node p)) !! MsgID layer = None ->
  (forall now u, (exists n, now = e_now ev n) -> Forall internal u ->
     wp ev (dispatch layer) (World (on_node (mark_seen (MsgID layer) now) p) [] c (t ++ u)) Q) ->
  wp ev (handle_layer layer) (World p [] c t) Q.
Proof.
  intros Hg Hf HQ. unfold handle_layer.
  assert (String.eqb (Type_ layer) "RELAY" || String.eqb (Type_ layer) "FINAL" = true) as ->
    by (by destruct Hg as [-> | ->]).
  wp_steps. by apply wp_seenMsg_fresh.
Qed.

Lemma wp_handle_fresh layer p c t Q :
  deduplicated layer -> mget (SeenMsgs (node p)) !! MsgID layer = None ->
  (forall now u, Forall internal u ->
     wp ev (dispatch layer) (World (on_node (mark_seen (MsgID layer) now) p) [] c (t ++ u)) Q) ->
  wp ev (handle_layer layer) (World p [] c t) Q.
Proof. intros Hg Hf HQ. by apply wp_handle_fresh_at; [..|intros now u _; apply HQ]. Qed.

Lemma wp_handle_dup layer p c t Q :
  deduplicated layer -> is_Some (mget (SeenMsgs (node p)) !! MsgID layer) ->
  Q tt (World p [] c t) -> wp ev (handle_layer layer) (World p [] c t) Q.
Proof.
  intros Hg Hf HQ. unfold handle_layer.
  assert (String.eqb (Type_ layer) "RELAY" || String.eqb (Type_ layer) "FINAL" = true) as ->
    by (by destruct Hg as [-> | ->]).
  wp_steps. apply wp_seenMsg_dup; [done|]. by wp_steps.
Qed.

(** Eviction: the mark of an identifier lasts as long as every pass finds it
    young enough. *)
Definition evict_all (clocks : list Z) (m : gmap string Z) : gmap string Z :=
  fold_left (fun m now => evict now m) clocks m.

Definition young (t0 now : Z) : bool := (now - t0 <=? seen_ttl)%Z.

Lemma evict_lookup now m id t0 :
  m !! id = Some t0 -> evict now m !! id = if young t0 now then Some t0 else None.
Proof.
  intros Hm. unfold evict, young. destruct (now - t0 <=? seen_ttl)%Z eqn:E.
  - by apply map_lookup_filter_Some.
  - apply map_lookup_filter_None. right. intros x Hx. cbn. rewrite Hm in Hx. injection Hx as <-. by rewrite E.
Qed.

Lemma evict_none now m id : m !! id = None -> evict now m !! id = None.
Proof. intros Hm. apply map_lookup_filter_None. by left. Qed.

Lemma evict_all_none clocks m id : m !! id = None -> evict_all clocks m !! id = None.
Proof. revert m. induction clocks as [|now l IH]; intros m Hm; [done|]. by apply IH, evict_none. Qed.

Lemma evict_all_lookup clocks m id t0 :
  m !! id = Some t0 -> evict_all clocks m !! id = if forallb (young t0) clocks then Some t0 else None.
Proof.
  revert m. induction clocks as [|now l IH]; intros m Hm; [done|]. cbn [evict_all fold_left forallb].
  assert (He := evict_lookup now m id t0 Hm). destruct (young t0 now); [by apply IH|by apply evict_all_none].
Qed.

Lemma wp_evict_loop rounds p c t Q :
  (forall clocks u, length clocks = rounds -> Forall (fun now => exists n, now = e_now ev n) clocks ->
     Q tt (World (on_node (fun n => set_SeenMsgs (evict_all clocks <$> SeenMsgs n) n) p) [] c (t ++ u))) ->
  wp ev (evict_loop rounds) (World p [] c t) Q.
Proof.
  revert p t. induction rounds as [|rounds IH]; intros p t HQ; cbn [evict_loop].
  - apply wp_ret. specialize (HQ [] [] eq_refl ltac:(done)). rewrite app_nil_r in HQ.
    destruct p as [[? ? ? ? ? ? ? ? ? [m|] ?] k]; exact HQ.
  - wp_steps. unfold evict_pass. wp_steps. apply IH. intros clocks u Hl Hc. rewrite <- !app_assoc.
    cbn [app].
    match goal with
    | |- context [EvSleep seen_ttl :: EvNow ?now :: u] =>
        specialize (HQ (now :: clocks) (EvSleep seen_ttl :: EvNow now :: u))
    end.
    destruct p as [[? ? ? ? ? ? ? ? ? [m|] ?] k]; apply HQ;
      first [by cbn; rewrite Hl|constructor; [by eexists|done]].
Qed.

(** ** From the wire to the layer *)

Lemma handlerroutine_line line :
  sforall graphic line = true -> line <> "" -> line <> "GET_PUBKEY" ->
  handlerroutine (line +:+ str1 nl) =
  if HasPrefix line "NACK:" then handle_nack (str_drop 5 line) else handle_onion line.
Proof.
  intros Hg Hne Hgp. unfold handlerroutine.
  assert (ReadString (line +:+ str1 nl) = Some (line +:+ str1 nl)) as ->
    by (apply ReadString_line; by eapply sforall_lacks).
  rewrite TrimSpace_line by done.
  apply String.eqb_neq in Hne, Hgp. by rewrite Hne, Hgp.
Qed.

Lemma handlerroutine_onion line :
  onion_line line -> handlerroutine (line +:+ str1 nl) = handle_onion line.
Proof.
  intros Hl. rewrite handlerroutine_line; [|by apply onion_line_graphic|apply Hl..].
  by rewrite (ol_nack _ Hl).
Qed.

Lemma handlerroutine_nack id :
  sforall graphic id = true -> handlerroutine ("NACK:" +:+ id +:+ str1 nl) = handle_nack id.
Proof.
  intros Hg. rewrite <- (app_str_assoc "NACK:" id).
  rewrite handlerroutine_line; [|by rewrite sforall_app, Hg|done|done].
  by rewrite HasPrefix_app, (str_drop_app "NACK:").
Qed.

Lemma wp_handle_onion line p c t Q :
  match BroadcastDecrypt line (NPrivateKey (node p)) with
  | GOk pt =>
      match StringToOnionLayer pt with
      | GOk layer => wp ev (handle_layer layer) (World p [] c t) Q
      | _ => Q tt (World p [] c t)
      end
  | GErr _ => Q tt (World p [] c t)
  | GPanic _ => False
  end -> wp ev (handle_onion line) (World p [] c t) Q.
Proof.
  intros HQ. unfold handle_onion. wp_steps.
  destruct (BroadcastDecrypt _ _) as [pt|e|w]; cbn [of_gores]; [|by wp_steps|done].
  wp_steps. unfold StringToOnionLayer in *.
  repeat case_match; by wp_steps || done.
Qed.

(** ** The layer types *)

Lemma dispatch_relay layer : Type_ layer = "RELAY" -> dispatch layer = handle_relay layer.
Proof. intros H. unfold dispatch. by rewrite H. Qed.
Lemma dispatch_final layer : Type_ layer = "FINAL" -> dispatch layer = handle_final layer.
Proof. intros H. unfold dispatch. by rewrite H. Qed.
Lemma handle_layer_ack layer : Type_ layer = "ACK" -> handle_layer layer = handle_ack layer.
Proof. intros H. unfold handle_layer, dispatch. by rewrite H. Qed.

Lemma wp_handle_relay layer tosend toreceive p c t Q :
  Contains (Next layer) colon = true -> SplitN (MsgID layer) colon 2 = [tosend; toreceive] ->
  (forall order u, order ≡ₚ ParseAddresses (Next layer) ->
    match first_up up order with
    | Some a =>
        emits u [(a, Data layer +:+ str1 nl)] ->
        Q tt (World (on_node (upd_PendingRelays
          (<[toreceive := MkNack tosend (From layer)]>)) p) [] c (t ++ u))
    | None =>
        emits u (sent_to up (ParseAddresses (From layer)) ("NACK:" +:+ tosend)) ->
        Q tt (World (on_node (upd_PendingRelays (delete toreceive)) p) [] c (t ++ u))
    end) ->
  wp ev (handle_relay layer) (World p [] c t) Q.
Proof.
  intros Hn Hid HQ. unfold handle_relay. rewrite Hn, Hid. cbn [negb]. wp_steps.
  apply wp_shuffle. intros order w' Hp (u & -> & Hu)%quiet_inv.
  wp_steps. apply wp_send_first. intros v Hv. specialize (HQ order).
  unfold sent_to in Hv.
  destruct (first_up up order) as [a|] eqn:E; cbn iota; wp_steps.
  - rewrite <- app_assoc. apply HQ; [done|]. change [?x] with ([] ++ [x]).
    apply emits_app; [by apply emits_internal|done].
  - apply wp_send_first. intros x Hx. wp_steps.
    assert (Hst : on_node (upd_PendingRelays (delete toreceive))
       (on_node (upd_PendingRelays (<[toreceive:=MkNack tosend (From layer)]>)) p)
       = on_node (upd_PendingRelays (delete toreceive)) p).
    { unfold on_node, upd_PendingRelays. cbn. by rewrite delete_insert_eq. }
    rewrite Hst, <- !app_assoc. apply HQ; [done|].
    apply (emits_app _ _ [] _); [by apply emits_internal|].
    by apply (emits_app _ _ [] _).
Qed.

Lemma wp_receive m p c t Q :
  Q tt (World (on_node (add_received m) p) [] c t) -> wp ev (receive m) (World p [] c t) Q.
Proof. intros HQ. unfold receive. by wp_steps. Qed.

Lemma wp_send_ack layer p c t Q :
  (forall order u, order ≡ₚ ParseAddresses (Next layer) ->
    emits u (if String.eqb (Next layer) "" || String.eqb (Data layer) "" then []
             else match first_up up order with
                  | Some a => [(a, Data layer +:+ str1 nl)]
                  | None => sent_to up (ParseAddresses (From layer)) ("NACK:" +:+ MsgID layer)
                  end) ->
    Q tt (World p [] c (t ++ u))) ->
  wp ev (send_ack layer) (World p [] c t) Q.
Proof.
  intros HQ. unfold send_ack.
  destruct (String.eqb (Next layer) "") eqn:E1; cbn [negb andb orb] in *.
  { wp_steps. specialize (HQ _ [] (Permutation_refl _)). rewrite app_nil_r in HQ. by apply HQ. }
  destruct (String.eqb (Data layer) "") eqn:E2; cbn [negb andb orb] in *.
  { wp_steps. specialize (HQ _ [] (Permutation_refl _)). rewrite app_nil_r in HQ. by apply HQ. }
  wp_steps. apply wp_shuffle. intros order w' Hp (u & -> & Hu)%quiet_inv.
  wp_steps. apply wp_send_first. intros v Hv. specialize (HQ order).
  unfold sent_to in Hv.
  destruct (first_up up order) as [a|] eqn:E; cbn iota; wp_steps.
  - rewrite <- app_assoc. apply HQ; [done|].
    apply (emits_app _ _ [] _); [by apply emits_internal|done].
  - apply wp_send_first. intros x Hx. wp_steps. rewrite <- !app_assoc. apply HQ; [done|].
    apply (emits_app _ _ [] _); [by apply emits_internal|].
    by apply (emits_app _ _ [] _).
Qed.

Definition push (i : nat) (b : bool) (c : list chan) : list chan :=
  match c !! i with
  | Some ch => <[i := Chan (buf ch ++ [b]) (cap ch)]> c
  | None => c
  end.

(** The channel has room for one more value. *)
Definition has_room (i : nat) (c : list chan) : Prop :=
  exists ch, c !! i = Some ch /\ length (buf ch) < cap ch.

Lemma wp_chan_push i b p h c t Q :
  has_room i c -> Q tt (World p h (push i b c) t) ->
  wp ev (trigger (EChanSend i b)) (World p h c t) Q.
Proof.
  intros (ch & Hc & Hl) HQ. rewrite wp_chan_send by done.
  unfold push in HQ. by rewrite Hc in HQ.
Qed.

(** ** Acknowledgements and failures *)

Lemma wp_handle_ack layer p c t Q :
  match PendingACKs (node p) !! MsgID layer with
  | Some i => has_room i c /\
      Q tt (World (on_node (upd_PendingACKs (delete (MsgID layer))) p) [] (push i true c) t)
  | None => Q tt (World p [] c t)
  end -> wp ev (handle_ack layer) (World p [] c t) Q.
Proof.
  intros HQ. unfold handle_ack. wp_steps.
  destruct (PendingACKs (node p) !! MsgID layer) as [i|]; [|by wp_steps].
  destruct HQ as [Hr HQ]. wp_steps. apply wp_chan_push; [done|]. by wp_steps.
Qed.

Lemma wp_handle_nack_sender id i p c t Q :
  PendingACKs (node p) !! id = Some i -> has_room i c ->
  Q tt (World (on_node (upd_PendingACKs (delete id)) p) [] (push i false c) t) ->
  wp ev (handle_nack id) (World p [] c t) Q.
Proof.
  intros Hi Hr HQ. unfold handle_nack. wp_steps. rewrite Hi. wp_steps.
  apply wp_chan_push; [done|]. by wp_steps.
Qed.

Lemma wp_handle_nack_relay id p c t Q :
  PendingACKs (node p) !! id = None ->
  (forall u,
    emits u (match PendingRelays (node p) !! id with
             | Some nk => sent_to up (ParseAddresses (PrevNodeAddr nk)) ("NACK:" +:+ PrevNackID nk)
             | None => []
             end) ->
    Q tt (World (on_node (upd_PendingRelays (delete id)) p) [] c (t ++ u))) ->
  wp ev (handle_nack id) (World p [] c t) Q.
Proof.
  intros Hi HQ. unfold handle_nack. wp_steps. rewrite Hi. wp_steps.
  destruct (PendingRelays (node p) !! id) as [nk|]; wp_steps.
  - apply wp_send_first. intros u Hu. wp_steps. by apply HQ.
  - specialize (HQ []). rewrite app_nil_r in HQ. by apply HQ.
Qed.

(** ** Fragments *)

(** A FINAL layer with a whole message. *)
Lemma wp_whole layer p c t Q :
  Type_ layer = "FINAL" -> Frag layer = "" ->
  (forall u, prints u = [] -> Q tt (World (on_node (add_received (Message layer)) p) [] c (t ++ u))) ->
  wp ev (dispatch layer) (World p [] c t) Q.
Proof.
  intros Ht Hf HQ. rewrite dispatch_final by done. unfold handle_final. rewrite Hf. cbn [String.eqb negb].
  apply wp_bind, wp_receive, wp_send_ack. intros order u _ (_ & _ & Hu). by apply HQ.
Qed.

(** The effect of one fragment on the node, as a function. *)
Definition frag_put (fragID : string) (idx total : Z) (m : string) (n : Node) : Node :=
  frag_store fragID idx m (frag_open fragID total (frag_init n)).
Definition frag_step (fragID : string) (idx total : Z) (m : string) (n : Node) : Node :=
  let n' := frag_put fragID idx total m n in
  if frag_complete fragID n'
  then add_received (assemble total (frag_chunks fragID n')) (frag_drop fragID n')
  else n'.

Lemma wp_handle_frag layer fragID a b rest p c t Q :
  SplitN (Frag layer) colon 2 = [fragID; rest] -> Split rest slash = [a; b] ->
  Q tt (World (on_node (frag_step fragID (atoi_val a) (atoi_val b) (Message layer)) p) [] c t) ->
  wp ev (handle_frag layer) (World p [] c t) Q.
Proof.
  intros Hf Hr HQ. unfold handle_frag. rewrite Hf.
  change (get_index [fragID; rest] 0) with (@Ret Proc _ fragID).
  change (get_index [fragID; rest] 1) with (@Ret Proc _ rest). wp_steps. rewrite Hr.
  change (get_index [a; b] 0) with (@Ret Proc _ a).
  change (get_index [a; b] 1) with (@Ret Proc _ b). wp_steps.
  revert HQ. unfold frag_step, frag_put, on_node. cbn [node cache].
  destruct (frag_complete _ _); intros HQ; wp_steps; [|done].
  by apply wp_receive.
Qed.
End Spec.

(** ** Lines that open under the node's key *)
Section Opens.
Context {C : CryptoLib}.

(** A line that opens to a layer under the node's key. *)
Definition opens (p : Proc) (line : string) (layer : OnionLayer) : Prop :=
  onion_line line /\ exists pt,
    BroadcastDecrypt line (NPrivateKey (node p)) = GOk pt /\ StringToOnionLayer pt = GOk layer.

Lemma wp_opens ev p line layer c t Q :
  opens p line layer -> wp ev (handle_layer layer) (World p [] c t) Q ->
  wp ev (handlerroutine (line +:+ str1 nl)) (World p [] c t) Q.
Proof.
  intros (Hl & pt & Hd & Hp) HQ. rewrite handlerroutine_onion by done.
  apply wp_handle_onion. by rewrite Hd, Hp.
Qed.
End Opens.
