(* ===== verification/Fragments.v ===== *)
(** * Fragmentation: [splitMessage] (node/cli.go) against the reassembly of FINAL layers

    The sender cuts a message into chunks labelled [fragID:i/n]; the recipient
    buffers them per [fragID] and delivers the message when the last one comes,
    in whatever order they arrive and whatever other fragments come between. *)

From S2P Require Import Prelude GoStrings Base64 GoMonad Crypto OnionLayer KeyCache Node NodeSpec.

Definition fragChunkSize : nat := 4096.

(** The loop of [splitMessage]; [None] when the fuel runs out, which for
    [size = 0] is the loop that never ends. *)
Fixpoint split_loop (fuel : nat) (msg : string) (size : nat) (chunks : list string)
    : option (list string) :=
  match fuel with
  | 0 => None
  | S f =>
      if 0 <? String.length msg then
        if String.length msg <=? size then Some (chunks ++ [msg])
        else split_loop f (str_drop size msg) size (chunks ++ [str_take size msg])
      else Some chunks
  end.

Definition splitMessage (msg : string) (size : nat) : option (list string) :=
  split_loop (S (String.length msg)) msg size [].

(** [fmt.Sprintf("%s:%d/%d", fragID, i+1, len(chunks))]. *)
Definition frag_label (fragID : string) (i n : Z) : string :=
  fragID +:+ ":" +:+ Itoa i +:+ "/" +:+ Itoa n.

Example split_msg_ex : splitMessage "abcdefg" 3 = Some ["abc"; "def"; "g"]. Proof. reflexivity. Qed.
Example split_msg_exact : splitMessage "abcdef" 3 = Some ["abc"; "def"]. Proof. reflexivity. Qed.
Example split_msg_zero : splitMessage "abcdef" 0 = None. Proof. reflexivity. Qed.

(** ** The chunks *)

(** What a list of chunks of [msg] of size [size] must satisfy. *)
Definition chunks_of (msg : string) (size : nat) (chunks : list string) : Prop :=
  str_concat chunks = msg /\
  (forall i c, chunks !! i = Some c -> 0 < String.length c <= size /\
     (S i < length chunks -> String.length c = size)).

Lemma str_concat_app l k : str_concat (l ++ k) = str_concat l +:+ str_concat k.
Proof.
  induction l as [|x l IH]; [done|]. cbn [app str_concat foldr].
  fold (str_concat (l ++ k)) (str_concat l). by rewrite IH, app_str_assoc.
Qed.

Lemma split_loop_spec fuel msg size pre :
  0 < size -> String.length msg < fuel ->
  exists chunks, split_loop fuel msg size pre = Some (pre ++ chunks) /\ chunks_of msg size chunks.
Proof.
  intros Hs. revert msg pre. induction fuel as [|f IH]; intros msg pre Hf; [lia|].
  cbn [split_loop]. destruct (Nat.ltb_spec 0 (String.length msg)) as [Hm|Hm].
  - destruct (Nat.leb_spec (String.length msg) size) as [Hle|Hgt].
    + exists [msg]. split; [done|]. split; [apply app_str_nil_r|].
      intros [|i] c Hc; [|done]. injection Hc as <-. cbn. lia.
    + destruct (IH (str_drop size msg) (pre ++ [str_take size msg])) as (ch & He & Hc & Hl).
      { rewrite length_str_drop. lia. }
      exists (str_take size msg :: ch). rewrite He, <- app_assoc. split; [done|]. split.
      * cbn [str_concat foldr]. fold (str_concat ch). by rewrite Hc, str_take_drop.
      * intros [|i] c Hi.
        -- injection Hi as <-. rewrite length_str_take. lia.
        -- cbn in Hi. destruct (Hl i c Hi) as [? Hnl]. split; [done|]. cbn. intros. apply Hnl. lia.
  - exists []. rewrite app_nil_r. split; [done|]. split; [|by intros].
    by destruct msg; cbn in *; [|lia].
Qed.

Lemma split_chunks msg size chunks : splitMessage msg size = Some chunks -> 0 < size -> chunks_of msg size chunks.
Proof.
  intros Hsp Hs. destruct (split_loop_spec (S (String.length msg)) msg size [] Hs) as (ch & Hch & Hof); [lia|].
  unfold splitMessage in Hsp. rewrite Hch in Hsp. by injection Hsp as <-.
Qed.

(** ** The recipient: one step per fragment *)
Section Reassembly.
Context {C : CryptoLib}.

Record fragment := MkFragment { f_id : string; f_idx : Z; f_total : Z; f_msg : string }.

Definition f_step (f : fragment) (n : Node) : Node :=
  frag_step (f_id f) (f_idx f) (f_total f) (f_msg f) n.

(** What the step delivers. *)
Definition f_out (f : fragment) (n : Node) : list (string * string) :=
  let n' := frag_put (f_id f) (f_idx f) (f_total f) (f_msg f) n in
  if frag_complete (f_id f) n'
  then [(f_id f, assemble (f_total f) (frag_chunks (f_id f) n'))] else [].

Fixpoint f_steps (fs : list fragment) (n : Node) : Node :=
  match fs with [] => n | f :: fs' => f_steps fs' (f_step f n) end.
Fixpoint f_outs (fs : list fragment) (n : Node) : list (string * string) :=
  match fs with [] => [] | f :: fs' => f_out f n ++ f_outs fs' (f_step f n) end.

Lemma frag_put_received fid idx total m n :
  ReceivedMsgs (frag_put fid idx total m n) = ReceivedMsgs n.
Proof.
  unfold frag_put, frag_store, frag_open, frag_init.
  destruct n as [? ? ? ? ? ? ? [b|] tt_ ? ?]; cbn; by repeat case_match.
Qed.

Lemma f_step_received f n : ReceivedMsgs (f_step f n) = ReceivedMsgs n ++ (f_out f n).*2.
Proof.
  unfold f_step, frag_step, f_out.
  set (n' := frag_put _ _ _ _ _). assert (Hr : ReceivedMsgs n' = ReceivedMsgs n)
    by apply frag_put_received.
  destruct (frag_complete (f_id f) n'); [|by rewrite app_nil_r].
  cbn [add_received frag_drop set_Frag ReceivedMsgs]. by rewrite Hr.
Qed.

(** Everything delivered is appended to [ReceivedMsgs], in order. *)
Lemma f_steps_received fs n : ReceivedMsgs (f_steps fs n) = ReceivedMsgs n ++ (f_outs fs n).*2.
Proof.
  revert n. induction fs as [|f fs IH]; intros n; cbn; [by rewrite app_nil_r|].
  by rewrite IH, f_step_received, fmap_app, app_assoc.
Qed.

(** The part of the state that belongs to one [fragID]. *)
Definition view (fid : string) (n : Node) : option (gmap Z string) * option Z :=
  (mget (FragBuf n) !! fid, mget (FragTotal n) !! fid).

Definition wf_frag (n : Node) : Prop := FragBuf n = None -> FragTotal n = None.

Lemma mget_delete {V} fid (o : option (gmap string V)) :
  mget (delete fid <$> o) = delete fid (mget o).
Proof. destruct o; cbn; [done|]. by rewrite delete_empty. Qed.

Lemma frag_put_FragBuf fid idx total m n :
  FragBuf (frag_put fid idx total m n) =
  Some (<[fid := <[idx := m]> (mget (mget (FragBuf n) !! fid))]> (mget (FragBuf n))).
Proof.
  unfold frag_put, frag_store, frag_chunks, frag_open, frag_init.
  destruct n as [? ? ? ? ? ? ? [b|] t ? ?]; cbn.
  - destruct (b !! fid) eqn:E; cbn; rewrite ?E; [done|].
    rewrite lookup_insert_eq. cbn. by rewrite insert_insert_eq.
  - rewrite lookup_empty. cbn. rewrite lookup_insert_eq. cbn. by rewrite insert_insert_eq.
Qed.

Lemma frag_put_FragTotal fid idx total m n :
  wf_frag n ->
  mget (FragTotal (frag_put fid idx total m n)) =
  match mget (FragBuf n) !! fid with
  | None => <[fid := total]> (mget (FragTotal n))
  | Some _ => mget (FragTotal n)
  end.
Proof.
  unfold wf_frag, frag_put, frag_store, frag_chunks, frag_open, frag_init.
  destruct n as [? ? ? ? ? ? ? [b|] t ? ?]; cbn.
  - intros _. by destruct (b !! fid).
  - intros ->; [|done]. by rewrite lookup_empty.
Qed.

Lemma wf_frag_step f n : wf_frag n -> wf_frag (f_step f n).
Proof.
  intros _. unfold wf_frag, f_step, frag_step. pose proof (frag_put_FragBuf (f_id f) (f_idx f)
    (f_total f) (f_msg f) n) as H. destruct (frag_complete _ _);
    cbn [add_received frag_drop set_Frag FragBuf FragTotal]; by rewrite H.
Qed.

Lemma view_drop fid fid' n :
  view fid (frag_drop fid' n) = if decide (fid' = fid) then (None, None) else view fid n.
Proof.
  unfold view, frag_drop. cbn [set_Frag FragBuf FragTotal]. rewrite !mget_delete.
  case_decide; [subst; by rewrite !lookup_delete_eq|by rewrite !lookup_delete_ne].
Qed.

Lemma view_put fid fid' idx total m n :
  wf_frag n ->
  view fid (frag_put fid' idx total m n) =
  if decide (fid' = fid) then
    (Some (<[idx := m]> (mget (view fid n).1)),
     match (view fid n).1 with None => Some total | Some _ => (view fid n).2 end)
  else view fid n.
Proof.
  intros Hw. unfold view. rewrite frag_put_FragBuf, frag_put_FragTotal by done. cbn [mget fst snd].
  case_decide; [subst fid'|].
  - rewrite lookup_insert_eq. f_equal. destruct (mget (FragBuf n) !! fid); [done|].
    by rewrite lookup_insert_eq.
  - rewrite lookup_insert_ne by done. f_equal.
    destruct (mget (FragBuf n) !! fid'); [done|]. by rewrite lookup_insert_ne.
Qed.

Lemma view_received fid m n : view fid (add_received m n) = view fid n.
Proof. done. Qed.

(** Fragments of other messages do not interfere. *)
Lemma view_step_other fid f n : wf_frag n -> f_id f <> fid -> view fid (f_step f n) = view fid n.
Proof.
  intros Hw Hne. unfold f_step, frag_step.
  destruct (frag_complete _ _); rewrite ?view_received, ?view_drop, ?view_put by done;
    by rewrite ?decide_False by done.
Qed.

Lemma frag_complete_view fid n :
  frag_complete fid n =
  (Z.of_nat (size (mget (view fid n).1)) =? default 0 (view fid n).2)%Z.
Proof. done. Qed.

Lemma frag_chunks_view fid n : frag_chunks fid n = mget (view fid n).1.
Proof. done. Qed.

(** ** The buffer while chunks are missing *)
Section Message.
Variables (fid : string) (chunks : list string).
Hypothesis Hsome : chunks <> [].
Abbreviation N := (length chunks).

Definition chunk_pairs (D : list nat) : list (Z * string) :=
  (fun i => (Z.of_nat i + 1, chunks !!! i)%Z) <$> D.
Definition chunk_map (D : list nat) : gmap Z string := list_to_map (chunk_pairs D).

(** Chunks [D] have arrived, not all of them. *)
Definition pending (D : list nat) (n : Node) : Prop :=
  view fid n = match D with
               | [] => (None, None)
               | _ => (Some (chunk_map D), Some (Z.of_nat N))
               end.

Definition chunk_fragment (i : nat) : fragment :=
  MkFragment fid (Z.of_nat i + 1) (Z.of_nat N) (chunks !!! i).

Lemma chunk_keys_NoDup D : NoDup D -> NoDup (chunk_pairs D).*1.
Proof.
  intros H. unfold chunk_pairs. rewrite <- list_fmap_compose.
  apply NoDup_fmap_2; [|done]. intros x y Hxy. cbn in Hxy. lia.
Qed.

Lemma size_chunk_map D : NoDup D -> size (chunk_map D) = length D.
Proof.
  intros H. unfold chunk_map. rewrite map_size_list_to_map by by apply chunk_keys_NoDup.
  unfold chunk_pairs. by rewrite length_fmap.
Qed.

Lemma chunk_map_lookup D i :
  NoDup D -> i ∈ D -> chunk_map D !! (Z.of_nat i + 1)%Z = Some (chunks !!! i).
Proof.
  intros Hn Hi. apply elem_of_list_to_map_1; [by apply chunk_keys_NoDup|].
  apply (list_elem_of_fmap_2 (fun i => (Z.of_nat i + 1, chunks !!! i)%Z)). done.
Qed.

Lemma pending_put D i n :
  wf_frag n -> pending D n ->
  view fid (frag_put fid (Z.of_nat i + 1) (Z.of_nat N) (chunks !!! i) n) =
  (Some (chunk_map (i :: D)), Some (Z.of_nat N)).
Proof.
  intros Hw Hp. rewrite view_put, decide_True by done. unfold pending in Hp. rewrite Hp.
  by destruct D.
Qed.

Lemma assemble_all D :
  D ≡ₚ seq 0 N -> assemble (Z.of_nat N) (chunk_map D) = str_concat chunks.
Proof.
  intros HD. assert (Hn : NoDup D) by (rewrite HD; apply NoDup_seq).
  unfold assemble. f_equal.
  apply list_eq. intros i. rewrite list_lookup_fmap.
  destruct (decide (i < N)) as [Hi|Hi].
  - rewrite lookup_seqZ_lt by lia. cbn.
    rewrite (Z.add_comm 1), chunk_map_lookup by (done || rewrite HD; apply elem_of_seq; lia).
    cbn. symmetry. apply list_lookup_lookup_total_lt. lia.
  - rewrite lookup_seqZ_ge by lia. cbn. symmetry. apply lookup_ge_None_2. lia.
Qed.

(** One more chunk: nothing is delivered until the last. *)
Lemma pending_step D i n :
  wf_frag n -> pending D n -> NoDup (i :: D) ->
  (length (i :: D) < N ->
     f_out (chunk_fragment i) n = [] /\ pending (i :: D) (f_step (chunk_fragment i) n)) /\
  (i :: D ≡ₚ seq 0 N ->
     f_out (chunk_fragment i) n = [(fid, str_concat chunks)] /\
     pending [] (f_step (chunk_fragment i) n)).
Proof.
  intros Hw Hp Hn. pose proof (pending_put D i n Hw Hp) as Hv.
  unfold f_out, f_step, frag_step, chunk_fragment. cbn [f_id f_idx f_total f_msg].
  set (n' := frag_put _ _ _ _ n) in *.
  assert (Hc : frag_complete fid n' = (Z.of_nat (length (i :: D)) =? Z.of_nat N)%Z).
  { rewrite frag_complete_view, Hv. cbn [fst snd mget from_option].
    by rewrite size_chunk_map by done. }
  rewrite Hc. split; intros Hl.
  - destruct (Z.eqb_spec (Z.of_nat (length (i :: D))) (Z.of_nat N)); [lia|]. done.
  - assert (Hlen : length (i :: D) = N) by (by rewrite Hl, length_seq).
    rewrite Hlen, Z.eqb_refl. split.
    + rewrite frag_chunks_view, Hv. cbn [fst mget]. by rewrite assemble_all.
    + unfold pending. by rewrite view_received, view_drop, decide_True.
Qed.
(** The fragments of [fid] in a list of arrivals, the others left out. *)
Definition of_id (fs : list fragment) : list fragment := filter (fun f => f_id f = fid) fs.

Lemma f_out_id f n : Forall (fun o => o.1 = f_id f) (f_out f n).
Proof. unfold f_out. destruct (frag_complete _ _); repeat constructor. Qed.

(** The messages delivered for [fid]. *)
Definition outs_of (os : list (string * string)) : list (string * string) :=
  filter (fun o => o.1 = fid) os.

Lemma outs_of_other f n : f_id f <> fid -> outs_of (f_out f n) = [].
Proof.
  intros Hne. unfold outs_of. pose proof (f_out_id f n) as H.
  induction H as [|o os Ho H IH]; [done|]. rewrite filter_cons_False; [done|]. congruence.
Qed.

Lemma outs_of_same f n : f_id f = fid -> outs_of (f_out f n) = f_out f n.
Proof.
  intros He. unfold outs_of. pose proof (f_out_id f n) as H.
  induction H as [|o os Ho H IH]; [done|]. rewrite filter_cons_True by congruence. by f_equal.
Qed.

Lemma others_only fs n D :
  wf_frag n -> pending D n -> of_id fs = [] ->
  outs_of (f_outs fs n) = [] /\ pending D (f_steps fs n).
Proof.
  revert n. induction fs as [|f fs IH]; intros n Hw Hp Hf; [done|].
  unfold of_id in Hf. destruct (decide (f_id f = fid)) as [He|He].
  - by rewrite filter_cons_True in Hf.
  - rewrite filter_cons_False in Hf by done. cbn [f_outs f_steps].
    unfold outs_of. rewrite list.filter_app. fold (outs_of (f_out f n)). rewrite outs_of_other by done.
    apply IH; [by apply wf_frag_step| |done].
    unfold pending. by rewrite view_step_other.
Qed.

(** Arrivals in any order, other messages' fragments in between. *)
Lemma reassembly fs D R n :
  wf_frag n -> pending D n -> R <> [] -> NoDup (rev R ++ D) -> rev R ++ D ≡ₚ seq 0 N ->
  of_id fs = chunk_fragment <$> R ->
  outs_of (f_outs fs n) = [(fid, str_concat chunks)] /\ pending [] (f_steps fs n).
Proof.
  revert D R n. induction fs as [|f fs IH]; intros D R n Hw Hp HR Hn HD Hf.
  { by destruct R. }
  cbn [f_outs f_steps]. unfold outs_of. rewrite list.filter_app. fold (outs_of (f_out f n)).
  fold (outs_of (f_outs fs (f_step f n))).
  unfold of_id in Hf. destruct (decide (f_id f = fid)) as [He|He].
  - rewrite filter_cons_True in Hf by done.
    destruct R as [|i R]; [done|]. injection Hf as -> Hf. cbn [rev] in Hn, HD.
    rewrite <- app_assoc in Hn, HD. cbn [app] in Hn, HD.
    assert (HnD : NoDup (i :: D)) by (by apply NoDup_app in Hn as (_ & _ & ?)).
    pose proof (pending_step D i n Hw Hp HnD) as [Hlt Heq].
    rewrite outs_of_same by done.
    destruct R as [|j R].
    + cbn in HD. destruct (Heq HD) as [-> Hp'].
      destruct (others_only fs (f_step (chunk_fragment i) n) []) as [-> ?];
        [by apply wf_frag_step|done..].
    + destruct Hlt as [-> Hp'].
      { apply Permutation_length in HD. rewrite length_app, length_seq in HD.
        rewrite length_rev in HD. cbn in *. lia. }
      apply (IH (i :: D) (j :: R)); [by apply wf_frag_step|done..].
  - rewrite filter_cons_False in Hf by done. rewrite outs_of_other by done.
    apply (IH D R); [by apply wf_frag_step| |done..].
    unfold pending. by rewrite view_step_other.
Qed.
End Message.

(** ** Through the handler *)

Fixpoint handle_frags (ls : list OnionLayer) : prog Proc unit :=
  match ls with
  | [] => Ret tt
  | l :: rest => handle_frag l ;; handle_frags rest
  end.

(** A FINAL layer that carries fragment [f]. *)
Definition carries (l : OnionLayer) (f : fragment) : Prop :=
  Frag l = frag_label (f_id f) (f_idx f) (f_total f) /\ Message l = f_msg f /\
  lacks colon (f_id f) /\ is_int64 (f_idx f) /\ is_int64 (f_total f).

Lemma frag_label_parse fid i n :
  lacks colon fid ->
  SplitN (frag_label fid i n) colon 2 = [fid; Itoa i +:+ "/" +:+ Itoa n] /\
  Split (Itoa i +:+ "/" +:+ Itoa n) slash = [Itoa i; Itoa n].
Proof.
  intros Hf. unfold frag_label. split.
  - change (":" +:+ Itoa i +:+ "/" +:+ Itoa n) with (String colon (Itoa i +:+ "/" +:+ Itoa n)).
    rewrite SplitN_app by done. by rewrite SplitN_1.
  - change ("/" +:+ Itoa n) with (String slash (Itoa n)).
    rewrite Split_app by (by apply Itoa_lacks). by rewrite Split_lacks by (by apply Itoa_lacks).
Qed.

Lemma wp_handle_frags (ev : env Proc) ls fs p c t Q :
  Forall2 carries ls fs ->
  Q tt (World (on_node (f_steps fs) p) [] c t) ->
  wp ev (handle_frags ls) (World p [] c t) Q.
Proof.
  intros H. revert p. induction H as [|l f ls fs (Hl & Hm & Hc & Hi & Ht) H IH]; intros p HQ.
  - cbn [handle_frags]. wp_steps. by destruct p.
  - cbn [handle_frags]. wp_steps.
    destruct (frag_label_parse (f_id f) (f_idx f) (f_total f) Hc) as [H1 H2].
    rewrite <- Hl in H1. eapply wp_handle_frag; [exact H1|exact H2|].
    rewrite !atoi_val_Itoa, Hm by done. by apply IH.
Qed.
(** All the chunks of one message, whatever comes in between. *)
Lemma wp_reassembled (ev : env Proc) fid msg size chunks R fs ls p c t :
  splitMessage msg size = Some chunks -> 0 < size -> msg <> "" ->
  R ≡ₚ seq 0 (length chunks) -> of_id fid fs = chunk_fragment fid chunks <$> R ->
  Forall2 carries ls fs ->
  wf_frag (node p) -> view fid (node p) = (None, None) ->
  wp ev (handle_frags ls) (World p [] c t) (fun _ w => exists outs,
    ReceivedMsgs (node (w_st w)) = ReceivedMsgs (node p) ++ outs.*2 /\
    filter (fun o => o.1 = fid) outs = [(fid, msg)] /\
    view fid (node (w_st w)) = (None, None) /\ w_chans w = c /\ w_trace w = t).
Proof.
  intros Hsp Hs Hne HR Hfs Hls Hwf Hv.
  destruct (split_chunks _ _ _ Hsp Hs) as [Hcat _].
  assert (HRne : R <> []).
  { intros ->. apply Permutation_length in HR. rewrite length_seq in HR. rewrite <- Hcat in Hne. by destruct chunks. }
  destruct (reassembly fid chunks fs [] R (node p)) as [Hout Hpend]; [done|exact Hv|done|..].
  { rewrite app_nil_r, <- Permutation_rev, HR. apply NoDup_seq. }
  { by rewrite app_nil_r, <- Permutation_rev. } { exact Hfs. }
  eapply wp_handle_frags; [exact Hls|]. exists (f_outs fs (node p)). cbn [w_st node on_node].
  split; [apply f_steps_received|]. split; [by rewrite <- Hcat|]. done.
Qed.
Lemma filter_all {A} (P : A -> Prop) `{!forall x, Decision (P x)} l : Forall P l -> filter P l = l.
Proof. induction 1 as [|x l Hx _ IH]; [done|]. by rewrite filter_cons_True, IH. Qed.

Lemma f_outs_same fid fs n :
  Forall (fun f => f_id f = fid) fs -> filter (fun o => o.1 = fid) (f_outs fs n) = f_outs fs n.
Proof.
  intros H. revert n. induction H as [|f fs Hf H IH]; intros n; [done|]. cbn [f_outs].
  rewrite list.filter_app, IH. f_equal. by apply (outs_of_same fid).
Qed.

(** All the chunks of one message and nothing else. *)
Lemma all_chunks fid msg size chunks R n :
  splitMessage msg size = Some chunks -> 0 < size -> msg <> "" -> R ≡ₚ seq 0 (length chunks) ->
  wf_frag n -> view fid n = (None, None) ->
  ReceivedMsgs (f_steps (chunk_fragment fid chunks <$> R) n) = ReceivedMsgs n ++ [msg] /\
  view fid (f_steps (chunk_fragment fid chunks <$> R) n) = (None, None).
Proof.
  intros Hsp Hs Hne HR Hwf Hv.
  destruct (split_chunks _ _ _ Hsp Hs) as [Hcat _].
  set (fs := chunk_fragment fid chunks <$> R) in *.
  assert (Hids : Forall (fun f => f_id f = fid) fs) by (by apply Forall_fmap, Forall_forall).
  assert (HRne : R <> []).
  { intros ->. apply Permutation_length in HR. rewrite length_seq in HR. rewrite <- Hcat in Hne. by destruct chunks. }
  destruct (reassembly fid chunks fs [] R n) as [Hout Hpend]; [done|exact Hv|done|..].
  { rewrite app_nil_r, <- Permutation_rev, HR. apply NoDup_seq. }
  { by rewrite app_nil_r, <- Permutation_rev. }
  { exact (filter_all _ _ Hids). }
  split; [|done]. rewrite f_steps_received. unfold outs_of in Hout. rewrite f_outs_same in Hout by done.
  by rewrite Hout, <- Hcat.
Qed.

Lemma wp_all_chunks (ev : env Proc) fid msg size chunks R ls p c t :
  splitMessage msg size = Some chunks -> 0 < size -> msg <> "" -> R ≡ₚ seq 0 (length chunks) ->
  Forall2 carries ls (chunk_fragment fid chunks <$> R) ->
  wf_frag (node p) -> view fid (node p) = (None, None) ->
  wp ev (handle_frags ls) (World p [] c t) (fun _ w =>
    ReceivedMsgs (node (w_st w)) = ReceivedMsgs (node p) ++ [msg] /\
    view fid (node (w_st w)) = (None, None)).
Proof. intros Hsp Hs Hne HR Hls Hwf Hv. eapply wp_handle_frags; [exact Hls|]. by eapply all_chunks. Qed.
End Reassembly.
