(* ===== verification/OnionBuild.v ===== *)
(** * Building onions: node/onion.go and the builders of node/super_send.go

    [encryptOnionLayers] and [Encapsulator_func] wrap a message for a route of
    single relays, [encryptOnionLayersGroup] and [Encapsulator_func_super] for
    a route of groups.  Both kinds satisfy one specification, the predicate
    [onion]: what each hop finds when it decrypts its layer. *)

From S2P Require Import Prelude GoStrings Base64 GoMonad Crypto OnionLayer KeyCache Node NodeSpec.

Definition GetScoresFromProfile (profile : string) : Z * Z :=
  if String.eqb profile "server" then (100, 100)%Z
  else if String.eqb profile "laptop_WIFI7" then (60, 85)%Z
  else if String.eqb profile "smartphone_4G" then (30, 75)%Z
  else if String.eqb profile "smartphone_2G" then (20, 10)%Z
  else (15, 15)%Z.

Section Build.
Context {C : CryptoLib}.

Record LayerGroup := MkGroup { Addrs : list string; PubKeys : list PublicKey }.

(** ** Routes of single relays *)

(** The loop [for i := len(route)-2; i >= 0; i--], counting down from [i]. *)
Fixpoint layers_loop (route : list string) (senderAddr : string) (nackArray : list string)
    (i : nat) (currentPayload : string) : prog Proc (string + string) :=
  match i with
  | 0 => Ret (inl currentPayload)
  | S i =>
      prevNode ← (match i with 0 => Ret senderAddr | S j => get_index route j end);
      n0 ← get_index nackArray i;
      n1 ← get_index nackArray (i + 1);
      next ← get_index route (i + 1);
      let relayLayer := MkOnionLayer "RELAY" (n0 +:+ ":" +:+ n1) next prevNode currentPayload "" "" in
      here ← get_index route i;
      nodeCached ← cache_get here;
      r ← encryptForNode (OnionlayerToString relayLayer) (Key <$> nodeCached);
      match r with
      | inr e => Ret (inr e)
      | inl payload => layers_loop route senderAddr nackArray i payload
      end
  end.

Definition encryptOnionLayers (innerLayer : OnionLayer) (route : list string)
    (senderAddr : string) (nackArray : list string) : prog Proc (string + string) :=
  match length route with
  | 0 => Raise "index out of range"
  | S k =>
      lst ← get_index route k;
      lastCached ← cache_get lst;
      r ← encryptForNode (OnionlayerToString innerLayer) (Key <$> lastCached);
      match r with
      | inr e => Ret (inr e)
      | inl currentPayload => layers_loop route senderAddr nackArray k currentPayload
      end
  end.

(** [for range len(route)]: one fresh identifier per hop. *)
Fixpoint gen_nacks {S} (n : nat) (acc : list string) : prog S (list string) :=
  match n with
  | 0 => Ret acc
  | Datatypes.S n' => id ← GenerateMsgID "nack"; gen_nacks n' (acc ++ [id])
  end.

Definition ack_layer (msgID : string) : OnionLayer := MkOnionLayer "ACK" msgID "" "" "" "" "".

(** A nil return route and an empty one give the same layers. *)
Definition Encapsulator_func (message frag : string) (route returnRoute : list string)
    (senderAddr : string) : prog Proc ((string * string * string) + string) :=
  ok ← refresh_keys (route ++ returnRoute);
  match ok with
  | inr err => Ret (inr err)
  | inl _ =>
      msgID ← GenerateMsgID "";
      nackArray ← gen_nacks (length route) [];
      ret ← (match returnRoute with
             | [] => Ret (inl ("", ""))
             | firstReturnHop :: _ =>
                 let invNackArray := reverse nackArray in
                 r ← encryptOnionLayers (ack_layer msgID) returnRoute
                       (List.last returnRoute "") invNackArray;
                 match r with
                 | inr err => Ret (inr ("error building return onion: " +:+ err))
                 | inl returnPayload => Ret (inl (firstReturnHop, returnPayload))
                 end
             end);
      match ret with
      | inr err => Ret (inr err)
      | inl (firstReturnHop, returnOnion) =>
          let innerLayer := MkOnionLayer "FINAL" msgID firstReturnHop "" returnOnion frag message in
          r ← encryptOnionLayers innerLayer route senderAddr nackArray;
          match r with
          | inr err => Ret (inr ("error building forward onion: " +:+ err))
          | inl forwardPayload =>
              nack0 ← get_index nackArray 0;
              Ret (inl (forwardPayload, msgID, nack0))
          end
      end
  end.

(** ** Routes of groups *)

Fixpoint group_loop (route : list LayerGroup) (senderAddr : string) (nackArray : list string)
    (i : nat) (payload : string) : prog Proc (string + string) :=
  match i with
  | 0 => Ret (inl payload)
  | S i =>
      prev ← (match i with
              | 0 => Ret senderAddr
              | S j => g ← get_index route j; Ret (JoinAddresses (Addrs g))
              end);
      n0 ← get_index nackArray i;
      n1 ← get_index nackArray (i + 1);
      next ← get_index route (i + 1);
      let layer := MkOnionLayer "RELAY" (n0 +:+ ":" +:+ n1) (JoinAddresses (Addrs next)) prev
                     payload "" "" in
      here ← get_index route i;
      r ← BroadcastEncrypt (OnionlayerToString layer) (PubKeys here);
      match r with
      | inr e => Ret (inr e)
      | inl payload => group_loop route senderAddr nackArray i payload
      end
  end.

Definition encryptOnionLayersGroup (innerLayer : OnionLayer) (route : list LayerGroup)
    (senderAddr : string) (nackArray : list string) : prog Proc (string + string) :=
  match length route with
  | 0 => Raise "index out of range"
  | S k =>
      lst ← get_index route k;
      r ← BroadcastEncrypt (OnionlayerToString innerLayer) (PubKeys lst);
      match r with
      | inr e => Ret (inr e)
      | inl payload => group_loop route senderAddr nackArray k payload
      end
  end.

Definition Encapsulator_func_super (message : string) (route returnRoute : list LayerGroup)
    (senderAddr : string) : prog Proc ((string * string * string) + string) :=
  msgID ← GenerateMsgID "";
  nackArray ← gen_nacks (length route) [];
  ret ← (match returnRoute with
         | [] => Ret (inl ("", ""))
         | first :: _ =>
             let firstReturnHop := JoinAddresses (Addrs first) in
             let invNack := reverse nackArray in
             r ← encryptOnionLayersGroup (ack_layer msgID) returnRoute
                   (JoinAddresses (Addrs (List.last returnRoute first))) invNack;
             match r with
             | inr err => Ret (inr err)
             | inl returnOnion => Ret (inl (firstReturnHop, returnOnion))
             end
         end);
  match ret with
  | inr err => Ret (inr err)
  | inl (firstReturnHop, returnOnion) =>
      let innerLayer := MkOnionLayer "FINAL" msgID firstReturnHop "" returnOnion "" message in
      r ← encryptOnionLayersGroup innerLayer route senderAddr nackArray;
      match r with
      | inr err => Ret (inr err)
      | inl forwardPayload =>
          nack0 ← get_index nackArray 0;
          Ret (inl (forwardPayload, msgID, nack0))
      end
  end.

(** ** The onion a route of hops unwraps

    A hop is the text of its address list and the keys of its members.
    [onion hops prev nacks inner ct]: member of the first hop, decrypting [ct],
    find a RELAY layer naming the second hop, [prev] and the first two
    identifiers, whose data is in turn an onion for the rest; the last hop
    finds [inner]. *)
Definition hop : Type := string * list PublicKey.

Definition relay_layer (n0 n1 next prev data : string) : OnionLayer :=
  MkOnionLayer "RELAY" (n0 +:+ ":" +:+ n1) next prev data "" "".

Inductive onion : list hop -> string -> list string -> string -> string -> Prop :=
| onion_last a pks prev nacks inner ct :
    layer_ct pks inner ct -> onion [(a, pks)] prev nacks inner ct
| onion_relay a1 pks1 a2 pks2 rest prev n1 n2 ns inner ct2 ct1 :
    onion ((a2, pks2) :: rest) a1 (n2 :: ns) inner ct2 ->
    layer_ct pks1 (OnionlayerToString (relay_layer n1 n2 a2 prev ct2)) ct1 ->
    onion ((a1, pks1) :: (a2, pks2) :: rest) prev (n1 :: n2 :: ns) inner ct1.

Lemma onion_is_line hops prev nacks inner ct : onion hops prev nacks inner ct -> onion_line ct.
Proof. by destruct 1 as [? ? ? ? ? ? []|? ? ? ? ? ? ? ? ? ? ? ? ? []]. Qed.

(** ** The builders produce onions *)

Context {L : CryptoLaws C} (ev : env Proc).

Definition key_fits (pk : PublicKey) : Prop := 128 <= Size pk.

Lemma wp_get_index {S A} (ev' : env S) (l : list A) i x w Q :
  l !! i = Some x -> Q x w -> wp ev' (get_index l i) w Q.
Proof. intros Hi HQ. unfold get_index. by rewrite Hi. Qed.

Lemma wp_cache_get k p c t Q :
  Q (cache p !! k) (World p [] c t) -> wp ev (cache_get k) (World p [] c t) Q.
Proof. intros HQ. unfold cache_get. by wp_steps. Qed.

(** The predecessor named in layer [i]. *)
Definition prev_of (hops : list hop) (sender : string) (i : nat) : string :=
  match i with 0 => sender | S j => match hops !! j with Some h => h.1 | None => "" end end.

Lemma onion_extend hops sender nacks inner i h h' n0 n1 ct ct' :
  hops !! i = Some h -> hops !! (S i) = Some h' ->
  nacks !! i = Some n0 -> nacks !! (S i) = Some n1 ->
  onion (drop (S i) hops) (prev_of hops sender (S i)) (drop (S i) nacks) inner ct ->
  layer_ct h.2 (OnionlayerToString (relay_layer n0 n1 h'.1 (prev_of hops sender i) ct)) ct' ->
  onion (drop i hops) (prev_of hops sender i) (drop i nacks) inner ct'.
Proof.
  intros Hh Hh' Hn0 Hn1 Ho Hl.
  rewrite (drop_S hops h i Hh), (drop_S hops h' (S i) Hh') in *.
  rewrite (drop_S nacks n0 i Hn0), (drop_S nacks n1 (S i) Hn1) in *.
  cbn [prev_of] in Ho. rewrite Hh in Ho. destruct h as [a pks], h' as [a' pks'].
  by apply (onion_relay a pks a' pks' _ _ n0 n1 _ _ ct).
Qed.

Section Single.
Variables (p : Proc) (pk_of : string -> PublicKey).

(** The cache holds a usable key for [a]. *)
Definition cached (a : string) : Prop :=
  exists e, cache p !! a = Some (MkCachedKey (pk_of a) e) /\ key_fits (pk_of a).

Definition single (a : string) : hop := (a, [pk_of a]).

Lemma prev_of_single route sender i :
  prev_of (single <$> route) sender i =
  match i with 0 => sender | S j => default "" (route !! j) end.
Proof. destruct i as [|j]; [done|]. cbn. rewrite list_lookup_fmap. by destruct (route !! j). Qed.

Lemma wp_layers_loop route sender nacks inner i ct c t Q :
  i < length route -> length nacks = length route -> Forall cached route ->
  onion (drop i (single <$> route)) (prev_of (single <$> route) sender i) (drop i nacks) inner ct ->
  (forall ct' u, onion (single <$> route) sender nacks inner ct' -> Forall internal u ->
     Q (inl ct') (World p [] c (t ++ u))) ->
  wp ev (layers_loop route sender nacks i ct) (World p [] c t) Q.
Proof.
  intros Hi Hn Hc. revert ct t Q. induction i as [|i IH]; intros ct t Q Ho HQ.
  - cbn [layers_loop]. apply wp_ret. specialize (HQ ct []). rewrite app_nil_r in HQ. by apply HQ.
  - cbn [layers_loop].
    destruct (lookup_lt_is_Some_2 route (S i)) as [nx Hnx]; [lia|].
    destruct (lookup_lt_is_Some_2 route i) as [hr Hhr]; [lia|].
    destruct (lookup_lt_is_Some_2 nacks i) as [n0 Hn0]; [lia|].
    destruct (lookup_lt_is_Some_2 nacks (S i)) as [n1 Hn1]; [lia|].
    apply wp_bind.
    assert (Hprev : forall Q', Q' (prev_of (single <$> route) sender i) (World p [] c t) ->
      wp ev (match i with 0 => Ret sender | S j => get_index route j end) (World p [] c t) Q').
    { rewrite prev_of_single. intros Q' HQ'. destruct i as [|j]; [done|].
      destruct (lookup_lt_is_Some_2 route j) as [q Hq]; [lia|].
      eapply wp_get_index; [done|]. by rewrite Hq in HQ'. }
    apply Hprev. rewrite Nat.add_1_r.
    apply wp_bind, (wp_get_index ev _ _ _ _ _ Hn0). apply wp_bind, (wp_get_index ev _ _ _ _ _ Hn1).
    apply wp_bind, (wp_get_index ev _ _ _ _ _ Hnx). apply wp_bind, (wp_get_index ev _ _ _ _ _ Hhr).
    assert (Hch : cached hr) by (rewrite Forall_lookup in Hc; by eapply Hc).
    destruct Hch as (e & Hce & Hf). apply wp_bind, wp_cache_get. rewrite Hce. cbn [fmap option_fmap option_map Key].
    apply wp_bind, wp_encryptForNode; [done|]. intros ct' w' Hct (u & -> & Hu)%quiet_inv.
    apply IH; [lia| |].
    + eapply (onion_extend _ _ _ _ _ (single hr) (single nx)); try done;
        by rewrite list_lookup_fmap, ?Hhr, ?Hnx.
    + intros ct'' v Ho' Hv. rewrite <- app_assoc. apply HQ; [done|]. by apply Forall_app.
Qed.

Lemma wp_encryptOnionLayers innerLayer route sender nacks c t Q :
  route <> [] -> length nacks = length route -> Forall cached route ->
  (forall ct u, onion (single <$> route) sender nacks (OnionlayerToString innerLayer) ct ->
     Forall internal u -> Q (inl ct) (World p [] c (t ++ u))) ->
  wp ev (encryptOnionLayers innerLayer route sender nacks) (World p [] c t) Q.
Proof.
  intros Hne Hn Hc HQ. unfold encryptOnionLayers.
  destruct (length route) as [|k] eqn:Hk; [by destruct route|].
  destruct (lookup_lt_is_Some_2 route k) as [lst Hlst]; [lia|].
  assert (Hch : cached lst) by (rewrite Forall_lookup in Hc; by eapply Hc).
  destruct Hch as (e & Hce & Hf).
  apply wp_bind, (wp_get_index ev _ _ _ _ _ Hlst). apply wp_bind, wp_cache_get. rewrite Hce.
  cbn [fmap option_fmap option_map Key].
  apply wp_bind, wp_encryptForNode; [done|]. intros ct w' Hct (u & -> & Hu)%quiet_inv.
  apply wp_layers_loop with (inner := OnionlayerToString innerLayer); [lia|lia|done| |].
  - rewrite (drop_S _ (single lst)) by (by rewrite list_lookup_fmap, Hlst).
    rewrite (drop_ge (single <$> route)) by (rewrite length_fmap; lia). by apply onion_last.
  - intros ct' v Ho Hv. rewrite <- app_assoc. apply HQ; [done|]. by apply Forall_app.
Qed.
End Single.

(** A group as a hop; it can be encrypted for when it has members, all of
    whose keys are long enough. *)
Definition ghop (g : LayerGroup) : hop := (JoinAddresses (Addrs g), PubKeys g).
Definition usable (g : LayerGroup) : Prop := PubKeys g <> [] /\ Forall key_fits (PubKeys g).

Lemma wp_group_loop p route sender nacks inner i ct c t Q :
  i < length route -> length nacks = length route -> Forall usable route ->
  onion (drop i (ghop <$> route)) (prev_of (ghop <$> route) sender i) (drop i nacks) inner ct ->
  (forall ct' u, onion (ghop <$> route) sender nacks inner ct' -> Forall internal u ->
     Q (inl ct') (World p [] c (t ++ u))) ->
  wp ev (group_loop route sender nacks i ct) (World p [] c t) Q.
Proof.
  intros Hi Hn Hc. revert ct t Q. induction i as [|i IH]; intros ct t Q Ho HQ.
  - cbn [group_loop]. apply wp_ret. specialize (HQ ct []). rewrite app_nil_r in HQ. by apply HQ.
  - cbn [group_loop].
    destruct (lookup_lt_is_Some_2 route (S i)) as [nx Hnx]; [lia|].
    destruct (lookup_lt_is_Some_2 route i) as [hr Hhr]; [lia|].
    destruct (lookup_lt_is_Some_2 nacks i) as [n0 Hn0]; [lia|].
    destruct (lookup_lt_is_Some_2 nacks (S i)) as [n1 Hn1]; [lia|].
    apply wp_bind.
    assert (Hprev : forall Q', Q' (prev_of (ghop <$> route) sender i) (World p [] c t) ->
      wp ev (match i with 0 => Ret sender
             | S j => g ← get_index route j; Ret (JoinAddresses (Addrs g)) end) (World p [] c t) Q').
    { intros Q' HQ'. destruct i as [|j]; [done|].
      destruct (lookup_lt_is_Some_2 route j) as [q Hq]; [lia|].
      apply wp_bind, (wp_get_index ev _ _ _ _ _ Hq). apply wp_ret.
      cbn in HQ'. by rewrite list_lookup_fmap, Hq in HQ'. }
    apply Hprev. rewrite Nat.add_1_r.
    apply wp_bind, (wp_get_index ev _ _ _ _ _ Hn0). apply wp_bind, (wp_get_index ev _ _ _ _ _ Hn1).
    apply wp_bind, (wp_get_index ev _ _ _ _ _ Hnx). apply wp_bind, (wp_get_index ev _ _ _ _ _ Hhr).
    assert (Hch : usable hr) by (rewrite Forall_lookup in Hc; by eapply Hc).
    destruct Hch as [Hne Hf].
    apply wp_bind, wp_BroadcastEncrypt; [done|done|]. intros ct' w' Hct (u & -> & Hu)%quiet_inv.
    apply IH; [lia| |].
    + eapply (onion_extend _ _ _ _ _ (ghop hr) (ghop nx)); try done;
        by rewrite list_lookup_fmap, ?Hhr, ?Hnx.
    + intros ct'' v Ho' Hv. rewrite <- app_assoc. apply HQ; [done|]. by apply Forall_app.
Qed.

Lemma wp_encryptOnionLayersGroup p innerLayer route sender nacks c t Q :
  route <> [] -> length nacks = length route -> Forall usable route ->
  (forall ct u, onion (ghop <$> route) sender nacks (OnionlayerToString innerLayer) ct ->
     Forall internal u -> Q (inl ct) (World p [] c (t ++ u))) ->
  wp ev (encryptOnionLayersGroup innerLayer route sender nacks) (World p [] c t) Q.
Proof.
  intros Hne Hn Hc HQ. unfold encryptOnionLayersGroup.
  destruct (length route) as [|k] eqn:Hk; [by destruct route|].
  destruct (lookup_lt_is_Some_2 route k) as [lst Hlst]; [lia|].
  assert (Hch : usable lst) by (rewrite Forall_lookup in Hc; by eapply Hc).
  destruct Hch as [Hk1 Hf].
  apply wp_bind, (wp_get_index ev _ _ _ _ _ Hlst).
  apply wp_bind, wp_BroadcastEncrypt; [done|done|]. intros ct w' Hct (u & -> & Hu)%quiet_inv.
  apply wp_group_loop with (inner := OnionlayerToString innerLayer); [lia|lia|done| |].
  - rewrite (drop_S _ (ghop lst)) by (by rewrite list_lookup_fmap, Hlst).
    rewrite (drop_ge (ghop <$> route)) by (rewrite length_fmap; lia). by apply onion_last.
  - intros ct' v Ho Hv. rewrite <- app_assoc. apply HQ; [done|]. by apply Forall_app.
Qed.

(** ** The two encapsulators *)

Lemma wp_gen_nacks n acc p c t Q :
  (forall ids u, length ids = n -> Forall (id_shape "nack") ids -> Forall internal u ->
     Q (acc ++ ids) (World p [] c (t ++ u))) ->
  wp ev (gen_nacks n acc) (World p [] c t) Q.
Proof.
  revert acc t Q. induction n as [|n IH]; intros acc t Q HQ; cbn [gen_nacks].
  - apply wp_ret. specialize (HQ [] []). rewrite !app_nil_r in HQ. by apply HQ.
  - apply wp_bind, wp_GenerateMsgID. intros id w' Hid (u & -> & Hu)%quiet_inv.
    apply IH. intros ids v Hl Hs Hv. rewrite <- !app_assoc.
    apply (HQ (id :: ids)); [by f_equal/=|by constructor|by apply Forall_app].
Qed.

(** What an encapsulation for [hops], with the return hops [rhops], made:
    the identifiers and the two nested onions. *)
Record encapsulated (hops rhops : list hop) (sender rsender frag message : string)
    (nacks : list string) (msgID payload : string) : Prop := {
  enc_msgID : id_shape "msg" msgID;
  enc_nacks : Forall (id_shape "nack") nacks;
  enc_len : length nacks = length hops;
  enc_onion : exists ret,
    (match rhops with
     | [] => ret = ""
     | _ => onion rhops rsender (reverse nacks) (OnionlayerToString (ack_layer msgID)) ret
     end) /\
    onion hops sender nacks
      (OnionlayerToString (MkOnionLayer "FINAL" msgID
         (match rhops with [] => "" | h :: _ => h.1 end) "" ret frag message)) payload }.

Lemma wp_Encapsulator_func_super p message route returnRoute sender c t Q :
  route <> [] -> Forall usable route -> Forall usable returnRoute ->
  (returnRoute <> [] -> length returnRoute = length route) ->
  (forall nacks msgID payload n0 u,
     encapsulated (ghop <$> route) (ghop <$> returnRoute) sender
       (match returnRoute with [] => "" | g :: _ => JoinAddresses (Addrs (List.last returnRoute g)) end)
       "" message nacks msgID payload ->
     nacks !! 0 = Some n0 -> Forall internal u ->
     Q (inl (payload, msgID, n0)) (World p [] c (t ++ u))) ->
  wp ev (Encapsulator_func_super message route returnRoute sender) (World p [] c t) Q.
Proof.
  intros Hne Hr Hrr Hlen HQ. unfold Encapsulator_func_super.
  apply wp_bind, wp_GenerateMsgID. intros msgID w' Hid (u1 & -> & Hu1)%quiet_inv.
  apply wp_bind, wp_gen_nacks. intros nacks u2 Hnl Hns Hu2. cbn [app].
  assert (Hfinish : forall first ret t' u, t' = t ++ u -> Forall internal u ->
    (match ghop <$> returnRoute with [] => first = "" | h :: _ => first = h.1 end) ->
    (match ghop <$> returnRoute with
     | [] => ret = ""
     | _ => onion (ghop <$> returnRoute)
              (match returnRoute with [] => "" | g :: _ => JoinAddresses (Addrs (List.last returnRoute g)) end)
              (reverse nacks) (OnionlayerToString (ack_layer msgID)) ret end) ->
    wp ev (r ← encryptOnionLayersGroup (MkOnionLayer "FINAL" msgID first "" ret "" message)
                route sender nacks;
           match r with
           | inr err => Ret (inr err)
           | inl forwardPayload =>
               nack0 ← get_index nacks 0; Ret (inl (forwardPayload, msgID, nack0))
           end) (World p [] c t') Q).
  { intros first ret t' u -> Hu Hf Hret. apply wp_bind, wp_encryptOnionLayersGroup; [done..|].
    intros payload v Ho Hv.
    destruct (lookup_lt_is_Some_2 nacks 0) as [n0 Hn0]; [destruct route; cbn in *; [done|lia]|].
    apply wp_bind, (wp_get_index ev _ _ _ _ _ Hn0). apply wp_ret. rewrite <- app_assoc.
    apply (HQ nacks); [|done|by apply Forall_app]. split; [done|done|by rewrite length_fmap|].
    exists ret. split; [done|]. replace (match ghop <$> returnRoute with
      | [] => "" | h :: _ => h.1 end) with first; [done|]. by destruct (ghop <$> returnRoute). }
  destruct returnRoute as [|g gs] eqn:Erv; apply wp_bind.
  - apply wp_ret. eapply Hfinish; [by rewrite <- app_assoc|by apply Forall_app|done..].
  - apply wp_bind, wp_encryptOnionLayersGroup; [done| |done|].
    + rewrite length_reverse, Hnl. symmetry. by apply Hlen.
    + intros ret v Ho Hv. apply wp_ret.
      eapply Hfinish; [by rewrite <- !app_assoc|repeat apply Forall_app_2; done|done|].
      exact Ho.
Qed.

(** ** Keys for the route

    The directory answers a key request for each address of the route, and what
    is cached already agrees with it. *)
Definition dir_knows (pk_of : string -> PublicKey) (nodes : list string) : Prop :=
  forall a n, a ∈ nodes -> exists resp,
    e_request ev n ("GET_KEY:" +:+ a +:+ str1 nl) = Some resp /\
    parse_key_response resp = inl (pk_of a).

Definition agrees (pk_of : string -> PublicKey) (nodes : list string) (m : gmap string CachedKey)
    : Prop := forall a v, a ∈ nodes -> m !! a = Some v -> Key v = pk_of a.

Definition with_cache (m : gmap string CachedKey) (p : Proc) : Proc := MkProc (node p) m.

Lemma wp_cache_set k v p c t Q :
  Q tt (World (with_cache (<[k := v]> (cache p)) p) [] c t) ->
  wp ev (cache_set k v) (World p [] c t) Q.
Proof. intros HQ. unfold cache_set. by wp_steps. Qed.

Lemma wp_FetchKeyFromServer a p c t Q :
  (forall u, emits u [] ->
     Q (match e_request ev (length t) ("GET_KEY:" +:+ a +:+ str1 nl) with
        | None => inr lib_error | Some r => parse_key_response r end)
       (World p [] c (t ++ u))) ->
  wp ev (FetchKeyFromServer a) (World p [] c t) Q.
Proof.
  intros HQ. unfold FetchKeyFromServer. wp_steps.
  destruct (e_request _ _ _) eqn:E; wp_steps; by apply HQ.
Qed.

(** After the refresh loop every address of the route has the directory's key;
    keys are only added, or replaced by the directory's. *)
Lemma wp_refresh_keys pk_of route nodes p c t Q :
  dir_knows pk_of route -> agrees pk_of route (cache p) -> nodes ⊆ route ->
  (forall m u, emits u [] -> agrees pk_of route m ->
     (forall a, a ∈ nodes \/ is_Some (cache p !! a) -> is_Some (m !! a)) ->
     Q (inl tt) (World (with_cache m p) [] c (t ++ u))) ->
  wp ev (refresh_keys nodes) (World p [] c t) Q.
Proof.
  intros Hd. revert p t Q. induction nodes as [|a nodes IH]; intros p t Q Ha Hsub HQ;
    cbn [refresh_keys].
  - apply wp_ret. specialize (HQ (cache p) []). rewrite app_nil_r in HQ. destruct p.
    apply HQ; [done..|]. intros a [Hin|?]; [by apply not_elem_of_nil in Hin|done].
  - assert (Hin : a ∈ route) by (apply Hsub; by left).
    assert (Hrest : forall m u, emits u [] -> agrees pk_of route m -> is_Some (m !! a) ->
      (forall b, is_Some (cache p !! b) -> is_Some (m !! b)) ->
      wp ev (refresh_keys nodes) (World (with_cache m p) [] c (t ++ u)) Q).
    { intros m u Hu Hm Hma Hmono. apply IH; [done|set_solver|].
      intros m' v Hv Hag Hall. rewrite <- app_assoc. apply HQ; [by apply (emits_app u v [] [])|done|].
      cbn [cache with_cache] in Hall. intros b [[->|Hb]%elem_of_cons|Hb]; auto. }
    apply wp_bind, wp_cache_get. wp_steps.
    assert (Hfetch : wp ev (key ← FetchKeyFromServer a;
      match key with
      | inl k => now ← trigger ENow; cache_set a (MkCachedKey k (now + 30 * second)) ;; refresh_keys nodes
      | inr err => Ret (inr ("error fetching public key for " +:+ a +:+ ": " +:+ err))
      end) (World p [] c (t ++ [EvNow (e_now ev (length t))])) Q).
    { apply wp_bind, wp_FetchKeyFromServer. intros u Hu.
      destruct (Hd a (length (t ++ [EvNow (e_now ev (length t))])) Hin) as (resp & -> & ->).
      wp_steps. apply wp_cache_set. rewrite <- !app_assoc. apply Hrest.
      - change (@nil (string * string)) with (@nil (string * string) ++ ([] ++ [])).
        apply emits_app; [done|]. apply emits_app; [done|]. by repeat split.
      - intros b v Hb. destruct (decide (a = b)) as [->|Hne].
        + rewrite lookup_insert_eq. by intros [= <-].
        + rewrite lookup_insert_ne by done. by apply Ha.
      - rewrite lookup_insert_eq. eauto.
      - intros b Hb. rewrite lookup_insert_is_Some'. auto. }
    destruct (cache p !! a) as [v|] eqn:Hca; [|done].
    destruct (expired _ v); [done|].
    specialize (Hrest (cache p) [EvNow (e_now ev (length t))]). destruct p as [nd m].
    apply Hrest; [done|done|by rewrite Hca|done].
Qed.

Lemma refreshed_cached pk_of route m p :
  agrees pk_of route m -> (forall a, a ∈ route -> is_Some (m !! a)) ->
  Forall (fun a => key_fits (pk_of a)) route -> Forall (cached (with_cache m p) pk_of) route.
Proof.
  intros Hag Hall Hf. rewrite Forall_forall in *. intros a Ha.
  destruct (Hall a Ha) as [v Hv]. exists (ExpiresAt v). split; [|by apply Hf].
  cbn [cache with_cache]. rewrite Hv, <- (Hag a v Ha Hv). by destruct v.
Qed.

Lemma wp_Encapsulator_func pk_of known message frag route returnRoute sender p c t Q :
  route <> [] -> Forall (fun a => key_fits (pk_of a)) (route ++ returnRoute) ->
  (returnRoute <> [] -> length returnRoute = length route) ->
  route ++ returnRoute ⊆ known -> dir_knows pk_of known -> agrees pk_of known (cache p) ->
  (forall nacks msgID payload n0 m u,
     encapsulated (single pk_of <$> route) (single pk_of <$> returnRoute) sender
       (List.last returnRoute "") frag message nacks msgID payload ->
     nacks !! 0 = Some n0 -> emits u [] -> agrees pk_of known m ->
     (forall a, a ∈ route ++ returnRoute -> is_Some (m !! a)) ->
     Q (inl (payload, msgID, n0)) (World (with_cache m p) [] c (t ++ u))) ->
  wp ev (Encapsulator_func message frag route returnRoute sender) (World p [] c t) Q.
Proof.
  intros Hne Hf Hlen Hsub Hd Hag HQ. unfold Encapsulator_func.
  apply wp_bind, (wp_refresh_keys pk_of known); [done..|].
  intros m u0 Hu0 Hagm Hall.
  assert (Hc : Forall (cached (with_cache m p) pk_of) (route ++ returnRoute))
    by (apply refreshed_cached; [intros a v Ha; by apply Hagm, Hsub|auto|done]).
  apply Forall_app in Hc as [Hcf Hcr]. set (p' := with_cache m p) in *.
  apply wp_bind, wp_GenerateMsgID. intros msgID w' Hid (u1 & -> & Hu1)%quiet_inv.
  apply wp_bind, wp_gen_nacks. intros nacks u2 Hnl Hns Hu2. cbn [app].
  assert (Hfinish : forall first ret t' u, t' = t ++ u -> emits u [] ->
    (match single pk_of <$> returnRoute with [] => first = "" | h :: _ => first = h.1 end) ->
    (match single pk_of <$> returnRoute with
     | [] => ret = ""
     | _ => onion (single pk_of <$> returnRoute) (List.last returnRoute "")
              (reverse nacks) (OnionlayerToString (ack_layer msgID)) ret end) ->
    wp ev (r ← encryptOnionLayers (MkOnionLayer "FINAL" msgID first "" ret frag message)
                route sender nacks;
           match r with
           | inr err => Ret (inr ("error building forward onion: " +:+ err))
           | inl forwardPayload =>
               nack0 ← get_index nacks 0; Ret (inl (forwardPayload, msgID, nack0))
           end) (World p' [] c t') Q).
  { intros first ret t' u -> Hu Hfi Hret.
    apply wp_bind, (wp_encryptOnionLayers p' pk_of); [done..|].
    intros payload v Ho Hv.
    destruct (lookup_lt_is_Some_2 nacks 0) as [n0 Hn0]; [destruct route; cbn in *; [done|lia]|].
    apply wp_bind, (wp_get_index ev _ _ _ _ _ Hn0). apply wp_ret. rewrite <- app_assoc.
    apply (HQ nacks); [|done|by apply (emits_app u v [] []); [|apply emits_internal]|done|by auto].
    split; [done|done|by rewrite length_fmap|].
    exists ret. split; [done|]. replace (match single pk_of <$> returnRoute with
      | [] => "" | h :: _ => h.1 end) with first; [done|]. by destruct (single pk_of <$> returnRoute). }
  assert (Hu12 : emits (u0 ++ u1 ++ u2) []).
  { apply (emits_app u0 _ [] []); [done|]. by apply emits_internal, Forall_app. }
  destruct returnRoute as [|g gs] eqn:Erv; apply wp_bind.
  - apply wp_ret. eapply Hfinish; [by rewrite <- !app_assoc|done..].
  - apply wp_bind, (wp_encryptOnionLayers p' pk_of); [done| |done|].
    + rewrite length_reverse, Hnl. symmetry. by apply Hlen.
    + intros ret v Ho Hv. apply wp_ret.
      eapply Hfinish; [by rewrite <- !app_assoc| |done|exact Ho].
      rewrite !app_assoc. apply (emits_app _ v [] []); [|by apply emits_internal].
      by rewrite <- app_assoc.
Qed.
End Build.
