(* ===== verification/Network.v ===== *)
(** * The network of nodes

    Every process of the network runs the handler of file Node on the
    connections it accepts.  A network state is the map from listening address
    to process and the lines in flight; [deliver] hands the oldest line to its
    process and runs the handler to the end.  A dial succeeds exactly when a
    process listens at the address, every other answer of the environment is
    arbitrary.  The theorems follow an onion from the sender to the destination
    and back. *)

From S2P Require Import Prelude GoStrings Base64 GoMonad Crypto OnionLayer KeyCache Node NodeSpec.
From S2P Require Import Fragments OnionBuild.

Section Network.
Context {C : CryptoLib}.

Record net := Net {
  procs : gmap string (Proc * list chan);
  wire : list (string * string) }.

Definition up (N : net) (a : string) : bool := bool_decide (is_Some (procs N !! a)).

(** The environment of a handler in this network. *)
Definition with_dial (f : string -> bool) (ev : env Proc) : env Proc :=
  Env (e_rand ev) (fun _ a => f a) (e_request ev) (e_now ev) (e_reply ev) (e_fault ev) (e_wait ev)
    (e_getenv ev) (e_ask ev).

(** A panic in a handler takes its process down, with what it had sent already
    on the way; a handler that blocks forever stops the run. *)
Definition deliver (ev : env Proc) (N : net) : option net :=
  match wire N with
  | [] => Some N
  | (a, line) :: rest =>
      match procs N !! a with
      | None => Some (Net (procs N) rest)
      | Some (p, c) =>
          match run (with_dial (up N) ev) (handlerroutine line) (World p [] c []) with
          | (Done _, w) =>
              Some (Net (<[a := (w_st w, w_chans w)]> (procs N)) (rest ++ sends (w_trace w)))
          | (Panicked _, w) => Some (Net (delete a (procs N)) (rest ++ sends (w_trace w)))
          | (Blocked, _) => None
          end
      end
  end.

Fixpoint deliver_all (evs : list (env Proc)) (N : net) : option net :=
  match evs with
  | [] => Some N
  | ev :: rest => N' ← deliver ev N; deliver_all rest N'
  end.

Lemma deliver_all_app evs evs' N :
  deliver_all (evs ++ evs') N = deliver_all evs N ≫= deliver_all evs'.
Proof.
  revert N. induction evs as [|ev evs IH]; intros N; [done|].
  cbn [deliver_all app]. destruct (deliver ev N) as [N'|]; [|done]. apply IH.
Qed.

Lemma deliver_wp ev N a line rest p c (Q : net -> Prop) :
  wire N = (a, line) :: rest -> procs N !! a = Some (p, c) ->
  wp (with_dial (up N) ev) (handlerroutine line) (World p [] c [])
    (fun _ w => Q (Net (<[a := (w_st w, w_chans w)]> (procs N)) (rest ++ sends (w_trace w)))) ->
  exists N', deliver ev N = Some N' /\ Q N'.
Proof.
  intros Hw Ha Hwp. unfold deliver. rewrite Hw, Ha. unfold wp in Hwp.
  destruct (run _ _ _) as [[[]| |why] w]; [|done..]. eauto.
Qed.

(** ** Changes of state that matter to no message

    [book ids p p']: [p'] is [p] up to pending relay entries and to the marks
    of [ids] in the set of identifiers seen. *)
Definition seen_ext (ids : list string) (p p' : Proc) : Prop :=
  exists s, p' = on_node (set_SeenMsgs s) p /\
    forall id, is_Some (mget s !! id) -> is_Some (mget (SeenMsgs (node p)) !! id) \/ id ∈ ids.

Definition book (ids : list string) (p p' : Proc) : Prop :=
  exists r, seen_ext ids (on_node (upd_PendingRelays (fun _ => r)) p) p'.

Definition net_rel (R : Proc -> Proc -> Prop) (N N' : net) : Prop :=
  forall a, option_Forall2 (fun x y => y.2 = x.2 /\ R x.1 y.1) (procs N !! a) (procs N' !! a).

Lemma seen_ext_refl ids p : seen_ext ids p p.
Proof. exists (SeenMsgs (node p)). split; [by destruct p as [[] ?]|by left]. Qed.

Lemma seen_ext_trans l1 l2 p1 p2 p3 :
  seen_ext l1 p1 p2 -> seen_ext l2 p2 p3 -> seen_ext (l1 ++ l2) p1 p3.
Proof.
  intros (s1 & -> & H1) (s2 & -> & H2). exists s2. split; [done|].
  intros id Hid. apply H2 in Hid as [Hid|Hid]; [|right; set_solver].
  cbn in Hid. apply H1 in Hid as [Hid|Hid]; [by left|right; set_solver].
Qed.

Lemma book_refl ids p : book ids p p.
Proof. exists (PendingRelays (node p)). destruct p as [[] ?]. apply seen_ext_refl. Qed.

Lemma seen_ext_book ids p p' : seen_ext ids p p' -> book ids p p'.
Proof. intros H. exists (PendingRelays (node p)). by destruct p as [[] ?]. Qed.

Lemma book_trans l1 l2 p1 p2 p3 : book l1 p1 p2 -> book l2 p2 p3 -> book (l1 ++ l2) p1 p3.
Proof.
  intros (r1 & s1 & -> & H1) (r2 & s2 & -> & H2). exists r2, s2. split; [done|].
  intros id Hid. apply H2 in Hid as [Hid|Hid]; [|right; set_solver].
  cbn in Hid. apply H1 in Hid as [Hid|Hid]; [by left|right; set_solver].
Qed.

Section Rel.
Variable R : list string -> Proc -> Proc -> Prop.
Hypothesis R_refl : forall l p, R l p p.
Hypothesis R_trans : forall l1 l2 p1 p2 p3, R l1 p1 p2 -> R l2 p2 p3 -> R (l1 ++ l2) p1 p3.

Lemma net_rel_trans l1 l2 N1 N2 N3 :
  net_rel (R l1) N1 N2 -> net_rel (R l2) N2 N3 -> net_rel (R (l1 ++ l2)) N1 N3.
Proof.
  intros H1 H2 a. specialize (H1 a). specialize (H2 a).
  inversion H1 as [x y [Hc Hr] E1 E2|E1 E2]; rewrite <- E2 in H2; inversion H2; subst; constructor.
  destruct_and!. split; [congruence|]. eauto.
Qed.

Lemma net_rel_insert l N a p p' c w :
  procs N !! a = Some (p, c) -> R l p p' ->
  net_rel (R l) N (Net (<[a := (p', c)]> (procs N)) w).
Proof.
  intros Ha Hr b. cbn [procs]. destruct (decide (a = b)) as [<-|Hne].
  - rewrite lookup_insert_eq, Ha. by constructor.
  - rewrite lookup_insert_ne by done. destruct (procs N !! b); constructor. auto.
Qed.

Lemma net_rel_refl l N w : net_rel (R l) N (Net (procs N) w).
Proof. intros b. cbn. destruct (procs N !! b); constructor; auto. Qed.
End Rel.

Lemma net_rel_mono (R R' : Proc -> Proc -> Prop) N N' :
  (forall p p', R p p' -> R' p p') -> net_rel R N N' -> net_rel R' N N'.
Proof. intros H HN a. destruct (HN a) as [x y [? ?]|]; constructor; auto. Qed.

Lemma net_rel_lookup R N N' a p c :
  net_rel R N N' -> procs N !! a = Some (p, c) ->
  exists p', procs N' !! a = Some (p', c) /\ R p p'.
Proof.
  intros H Ha. specialize (H a). rewrite Ha in H. inversion H as [x [p' c'] [Hc Hr] E1 E2|]; subst.
  cbn in *. subst. eauto.
Qed.

Lemma net_rel_lookup_inv R N N' a p' c :
  net_rel R N N' -> procs N' !! a = Some (p', c) ->
  exists p, procs N !! a = Some (p, c) /\ R p p'.
Proof.
  intros H Ha. specialize (H a). rewrite Ha in H. inversion H as [[p cc] y [Hc Hr] E1 E2|]; subst.
  cbn in *. subst. eauto.
Qed.

Lemma net_rel_up R N N' a : net_rel R N N' -> up N' a = up N a.
Proof.
  intros H. specialize (H a). unfold up. apply bool_decide_ext.
  inversion H; split; intros [? ?]; eauto; congruence.
Qed.

(** ** What the theorems ask of a network *)

Definition unseen (N : net) (id : string) : Prop :=
  forall a p c, procs N !! a = Some (p, c) -> mget (SeenMsgs (node p)) !! id = None.

Definition up_hop (N : net) (h : hop) : Prop :=
  exists b, b ∈ ParseAddresses h.1 /\ up N b = true.

(** The hop is named by a well-formed text, and the processes at its addresses
    hold the keys the onion was made for. *)
Definition hop_ok (N : net) (h : hop) : Prop :=
  lacks pipe h.1 /\ Contains h.1 colon = true /\
  forall b p c, b ∈ ParseAddresses h.1 -> procs N !! b = Some (p, c) ->
    Public (NPrivateKey (node p)) ∈ h.2.

Definition nack_ok (n : string) : Prop := lacks colon n /\ lacks pipe n /\ sforall graphic n = true.

(** The identifier of relay layer [i] pairs nack [i] with nack [i+1]. *)
Fixpoint pair_ids (nacks : list string) : list string :=
  match nacks with
  | n1 :: ((n2 :: _) as ns) => (n1 +:+ ":" +:+ n2) :: pair_ids ns
  | _ => []
  end.

(** All these conditions survive steps that keep the keys and mark only other
    identifiers. *)
Definition keeps (ids : list string) (p p' : Proc) : Prop :=
  NPrivateKey (node p') = NPrivateKey (node p) /\
  forall id, is_Some (mget (SeenMsgs (node p')) !! id) ->
    is_Some (mget (SeenMsgs (node p)) !! id) \/ id ∈ ids.

Lemma book_keeps ids p p' : book ids p p' -> keeps ids p p'.
Proof. by intros (r & s & -> & Hs). Qed.

Lemma unseen_keeps l N N' id :
  net_rel (keeps l) N N' -> unseen N id -> id ∉ l -> unseen N' id.
Proof.
  intros H Hu Hn a p' c Ha. destruct (net_rel_lookup_inv _ _ _ _ _ _ H Ha) as (p & Hp & _ & Hs).
  destruct (mget _ !! id) as [z|] eqn:E; [|done].
  destruct (Hs id) as [[y Hy]|?]; [by rewrite E| |done].
  by rewrite (Hu _ _ _ Hp) in Hy.
Qed.

Lemma up_hop_rel R N N' h : net_rel R N N' -> up_hop N h -> up_hop N' h.
Proof. intros H (b & Hb & Hu). exists b. by rewrite (net_rel_up _ _ _ _ H). Qed.

Lemma hop_ok_keeps l N N' h : net_rel (keeps l) N N' -> hop_ok N h -> hop_ok N' h.
Proof.
  intros H (Hl & Hc & Hk). split; [done|]. split; [done|]. intros b p' c Hb Hp.
  destruct (net_rel_lookup_inv _ _ _ _ _ _ H Hp) as (p & Hp' & -> & _). eauto.
Qed.

Lemma net_rel_keeps l N N' : net_rel (book l) N N' -> net_rel (keeps l) N N'.
Proof. apply net_rel_mono, book_keeps. Qed.

Lemma pair_inj x y x' y' :
  lacks colon x -> lacks colon x' -> x +:+ ":" +:+ y = x' +:+ ":" +:+ y' -> x = x' /\ y = y'.
Proof.
  intros Hx Hx' H. change (":" +:+ ?z) with (String colon z) in H.
  apply (f_equal (fun s => SplitN s colon 2)) in H.
  rewrite !SplitN_app, !SplitN_1 in H by done. by injection H.
Qed.

Lemma wf_relay_layer n0 n1 next prev data :
  nack_ok n0 -> nack_ok n1 -> lacks pipe next -> lacks pipe prev -> onion_line data ->
  wf_layer (relay_layer n0 n1 next prev data).
Proof.
  intros (_ & H0 & _) (_ & H1 & _) Hn Hp Hd. repeat split; cbn; try done.
  - by apply lacks_app_2, (lacks_app_2 _ ":" n1).
  - by apply onion_line_lacks.
Qed.

Lemma first_up_cons up1 l : first_up up1 l = None \/ exists b, first_up up1 l = Some b /\ b ∈ l /\ up1 b = true.
Proof.
  destruct (first_up up1 l) as [b|] eqn:E; [right|by left]. exists b. split; [done|].
  by apply first_up_Some.
Qed.

(** A process whose key opens the layer reads it: the rest of the handler runs
    on the layer. *)
Lemma wp_open_layer ev pks inner ct layer p c t Q :
  layer_ct pks inner ct -> Public (NPrivateKey (node p)) ∈ pks ->
  inner = OnionlayerToString layer -> wf_layer layer ->
  wp ev (handle_layer layer) (World p [] c t) Q ->
  wp ev (handlerroutine (ct +:+ str1 nl)) (World p [] c t) Q.
Proof.
  intros Hl Hk -> Hwf HQ. rewrite handlerroutine_onion by apply Hl.
  apply wp_handle_onion. by rewrite (lct_member _ _ _ Hl), parse_print.
Qed.

(** The process once it has seen relay layer [n1:n2]. *)
Definition marked (n1 n2 : string) (p : Proc) (now : Z) : Proc :=
  on_node (mark_seen (n1 +:+ ":" +:+ n2) now) p.

Lemma marked_seen_ext n1 n2 p now : seen_ext [n1 +:+ ":" +:+ n2] p (marked n1 n2 p now).
Proof.
  unfold marked, mark_seen. eexists. split; [reflexivity|]. intros id. cbn [mget].
  rewrite lookup_insert_is_Some'. intros [->|?]; [right; set_solver|by left].
Qed.

Lemma marked_book n1 n2 p g now :
  book [n1 +:+ ":" +:+ n2] p (on_node (upd_PendingRelays g) (marked n1 n2 p now)).
Proof.
  destruct (marked_seen_ext n1 n2 p now) as (s & Hs & Hid). rewrite Hs.
  exists (g (PendingRelays (node p))), s. by split.
Qed.
(** One relay hop. *)
Section RelayHop.
Variables (ev : env Proc) (f : string -> bool).
Hypothesis Hf : forall n a, e_dial ev n a = f a.
Variables (pks : list PublicKey) (n1 n2 next prev data ct : string) (p : Proc).
Hypothesis Hct : layer_ct pks (OnionlayerToString (relay_layer n1 n2 next prev data)) ct.
Hypothesis Hkey : Public (NPrivateKey (node p)) ∈ pks.
Hypothesis Hn1 : nack_ok n1.
Hypothesis Hwf : wf_layer (relay_layer n1 n2 next prev data).
Hypothesis Hnext : Contains next colon = true.
Hypothesis Hseen : mget (SeenMsgs (node p)) !! (n1 +:+ ":" +:+ n2) = None.

Lemma wp_relay_hop c Q :
  (forall now u order, order ≡ₚ ParseAddresses next ->
    match first_up f order with
    | Some b => emits u [(b, data +:+ str1 nl)] ->
        Q tt (World (on_node (upd_PendingRelays (<[n2 := MkNack n1 prev]>)) (marked n1 n2 p now)) [] c u)
    | None => emits u (sent_to f (ParseAddresses prev) ("NACK:" +:+ n1)) ->
        Q tt (World (on_node (upd_PendingRelays (delete n2)) (marked n1 n2 p now)) [] c u)
    end) ->
  wp ev (handlerroutine (ct +:+ str1 nl)) (World p [] c []) Q.
Proof.
  intros HQ. eapply wp_open_layer; [exact Hct|done|reflexivity|done|].
  apply wp_handle_fresh; [by left|done|]. intros now u Hu. cbn [app].
  rewrite dispatch_relay by done.
  assert (Hid : SplitN (n1 +:+ ":" +:+ n2) colon 2 = [n1; n2]).
  { change (":" +:+ n2) with (String colon n2). rewrite SplitN_app by apply Hn1. by rewrite SplitN_1. }
  eapply wp_handle_relay; [done..|]. intros order v Ho. specialize (HQ now (u ++ v) order Ho).
  destruct (first_up f order); intros Hv; apply HQ;
    (apply (emits_app u v []); [by apply emits_internal|done]).
Qed.

(** Some address of the next hop listens: one of them gets the inner onion. *)
Lemma wp_relay_up c Q :
  (exists b, b ∈ ParseAddresses next /\ f b = true) ->
  (forall now u b, b ∈ ParseAddresses next -> f b = true -> emits u [(b, data +:+ str1 nl)] ->
     Q tt (World (on_node (upd_PendingRelays (<[n2 := MkNack n1 prev]>)) (marked n1 n2 p now)) [] c u)) ->
  wp ev (handlerroutine (ct +:+ str1 nl)) (World p [] c []) Q.
Proof.
  intros (b0 & Hb0 & Hf0) HQ. apply wp_relay_hop. intros now u order Ho.
  destruct (first_up f order) as [b|] eqn:E; intros Hu.
  - apply first_up_Some in E as [Hb ?]. rewrite Ho in Hb. by eapply HQ.
  - exfalso. rewrite (first_up_None _ _ E b0) in Hf0; [done|by rewrite Ho].
Qed.

(** None listens: the failure goes back to the previous hop. *)
Lemma wp_relay_down c Q :
  (forall b, b ∈ ParseAddresses next -> f b = false) ->
  (forall now u, emits u (sent_to f (ParseAddresses prev) ("NACK:" +:+ n1)) ->
     Q tt (World (on_node (upd_PendingRelays (delete n2)) (marked n1 n2 p now)) [] c u)) ->
  wp ev (handlerroutine (ct +:+ str1 nl)) (World p [] c []) Q.
Proof.
  intros Hdown HQ. apply wp_relay_hop. intros now u order Ho.
  destruct (first_up f order) as [b|] eqn:E; [|apply HQ].
  apply first_up_Some in E as [Hb Hup]. rewrite Ho in Hb. by rewrite Hdown in Hup.
Qed.

End RelayHop.

(** ** Following an onion to its last hop *)

Lemma up_true N b : up N b = true <-> exists p c, procs N !! b = Some (p, c).
Proof.
  unfold up. rewrite bool_decide_eq_true. split; [intros [[p c] ?]; eauto|intros (p & c & ?); eauto].
Qed.

(** The line for a hop has reached one of its members. *)
Definition at_hop (N : net) (h : hop) (ct : string) : Prop :=
  exists b, wire N = [(b, ct +:+ str1 nl)] /\ b ∈ ParseAddresses h.1 /\ up N b = true.

Lemma traverse hops prev nacks inner ct :
  onion hops prev nacks inner ct ->
  forall N evs,
  at_hop N (List.hd ("", []) hops) ct ->
  Forall (hop_ok N) hops -> Forall (up_hop N) hops -> lacks pipe prev ->
  Forall nack_ok nacks -> length nacks = length hops ->
  NoDup (pair_ids nacks) -> Forall (unseen N) (pair_ids nacks) ->
  length evs = length hops - 1 ->
  exists N' ct', deliver_all evs N = Some N' /\
    at_hop N' (List.last hops ("", [])) ct' /\
    layer_ct (List.last hops ("", [])).2 inner ct' /\
    net_rel (book (pair_ids nacks)) N N'.
Proof.
  induction 1 as [a pks prev nacks inner ct Hl
                 |a1 pks1 a2 pks2 rest prev n1 n2 ns inner ct2 ct1 Ho IH Hl];
    intros N evs Hat Hok Hup Hprev Hnacks Hlen Hnd Huns Hevs.
  - destruct evs; [|done]. exists N, ct. repeat split; [done|apply Hl..|].
    destruct N as [m w]. by apply (net_rel_refl book book_refl _ (Net m w)).
  - destruct evs as [|ev evs]; [done|].
    apply Forall_cons_1 in Hok as [Hok1 Hok2]. apply Forall_cons_1 in Hup as [_ Hup].
    apply Forall_cons_1 in Hnacks as [Hn1 Hnacks]. cbn [pair_ids] in Hnd, Huns.
    apply NoDup_cons in Hnd as [Hnid Hnd]. apply Forall_cons_1 in Huns as [Hid Huns].
    destruct Hat as (b & Hw & Hb & Hbu). cbn [List.hd fst] in Hb. apply up_true in Hbu as (p & c & Hp).
    assert (Hok2' := Hok2). apply Forall_cons_1 in Hok2' as [(Ha2 & Hc2 & _) _].
    assert (Hup' := Hup). apply Forall_cons_1 in Hup' as [Hup2 _].
    assert (Hwf : wf_layer (relay_layer n1 n2 a2 prev ct2)).
    { apply wf_relay_layer; [done|by inversion Hnacks|done..|by eapply onion_is_line]. }
    destruct (deliver_wp ev N b _ [] p c (fun N1 =>
        at_hop N1 (a2, pks2) ct2 /\ net_rel (book [n1 +:+ ":" +:+ n2]) N N1) Hw Hp)
      as (N1 & HN1 & Hat1 & Hrel1).
    { eapply (wp_relay_up _ (up N)); [done|exact Hl| |done..|by eapply Hid|done|].
      - by eapply Hok1.
      - intros now u b' Hb' Hbu' Hu. split.
        + exists b'. cbn [w_trace app wire]. split; [apply Hu|]. split; [done|].
          apply up_true in Hbu' as (p' & c' & Hp'). unfold up. cbn.
          apply bool_decide_eq_true_2. rewrite lookup_insert_is_Some'. right; eauto.
        + cbn [w_st w_chans w_trace app]. eapply net_rel_insert; [apply book_refl|done|].
          apply marked_book. }
    cbn [deliver_all]. rewrite HN1. cbn [mbind option_bind].
    destruct (IH N1 evs) as (N' & ct' & HN' & Hat' & Hl' & Hrel'); try done.
    + eapply Forall_impl; [exact Hok2|]. intros h. by apply (hop_ok_keeps _ _ _ _ (net_rel_keeps _ _ _ Hrel1)).
    + eapply Forall_impl; [exact Hup|]. intros h. by apply (up_hop_rel _ _ _ _ Hrel1).
    + apply Hok1.
    + cbn in *; lia.
    + rewrite Forall_forall in *. intros id Hi. apply (unseen_keeps _ _ _ _ (net_rel_keeps _ _ _ Hrel1)); [auto|].
      intros ->%list_elem_of_singleton. done.
    + cbn in *; lia.
    + exists N', ct'. split; [done|]. split; [done|]. split; [done|].
      cbn [pair_ids]. change (?x :: ?l) with ([x] ++ l).
      eapply (net_rel_trans book book_trans); done.
Qed.

(** ** Destination and sender *)

(** A process but for what it keeps of the messages under way: identifiers
    seen, entries for relays, acknowledgements it waits for. *)
Definition settle (n : Node) : Node :=
  MkNode (ID n) (Port n) (NPrivateKey n) (NPublicKey n) (NodeIP n) ∅ ∅ (FragBuf n) (FragTotal n) None
    (ReceivedMsgs n).
Definition standing (N : net) (a : string) : option Proc :=
  (fun x => on_node settle x.1) <$> procs N !! a.

(** The acknowledgements the process at [a] waits for. *)
Definition awaiting (N : net) (a : string) : option (gmap string nat * list chan) :=
  (fun x => (PendingACKs (node x.1), x.2)) <$> procs N !! a.

Lemma net_rel_standing l N N' a : net_rel (book l) N N' -> standing N' a = standing N a.
Proof.
  intros H. specialize (H a). unfold standing.
  inversion H as [x y (_ & r & s & Hy & _)|]; [|done]. cbn. by rewrite Hy.
Qed.

Lemma net_rel_awaiting l N N' a : net_rel (book l) N N' -> awaiting N' a = awaiting N a.
Proof.
  intros H. specialize (H a). unfold awaiting.
  inversion H as [x y (Hc & r & s & Hy & _)|]; [|done]. cbn. by rewrite Hy, Hc.
Qed.

(** What a FINAL layer carries: a whole message, or one chunk of one. *)
Inductive parcel := Whole | Chunk (fragID : string) (i n : Z).

Definition parcel_text (k : parcel) : string :=
  match k with Whole => "" | Chunk fragID i n => frag_label fragID i n end.
Definition parcel_ok (k : parcel) : Prop :=
  match k with
  | Whole => True
  | Chunk fragID i n => lacks colon fragID /\ lacks pipe fragID /\ is_int64 i /\ is_int64 n
  end.

(** Its effect on the destination. *)
Definition arrive (k : parcel) (message : string) (n : Node) : Node :=
  match k with
  | Whole => add_received message n
  | Chunk fragID i total => frag_step fragID i total message n
  end.

Lemma parcel_text_lacks k : parcel_ok k -> lacks pipe (parcel_text k).
Proof.
  destruct k as [|fid i n]; [done|]. intros (_ & Hp & _). cbn [parcel_text]. unfold frag_label.
  by repeat (apply lacks_app_2; [first [done|by apply Itoa_lacks]|]); apply Itoa_lacks.
Qed.

Lemma frag_put_settle fid i total m n :
  frag_put fid i total m (settle n) = settle (frag_put fid i total m n).
Proof.
  unfold frag_put, frag_init. destruct n as [? ? ? ? ? ? ? [b|] tt_ ? ?]; cbn;
    unfold frag_open; cbn; by case_match.
Qed.

Lemma arrive_settle k message n : arrive k message (settle n) = settle (arrive k message n).
Proof.
  destruct k as [|fid i total]; [done|]. cbn [arrive]. unfold frag_step. rewrite frag_put_settle.
  change (frag_complete fid (settle ?x)) with (frag_complete fid x). by destruct (frag_complete _ _).
Qed.

(** An arrival leaves the rest of the process alone. *)
Lemma arrive_rest k message n :
  Port (arrive k message n) = Port n /\ NodeIP (arrive k message n) = NodeIP n /\
  NPrivateKey (arrive k message n) = NPrivateKey n /\
  PendingACKs (arrive k message n) = PendingACKs n /\ SeenMsgs (arrive k message n) = SeenMsgs n.
Proof.
  destruct k as [|fid i total]; [done|]. cbn [arrive].
  unfold frag_step, frag_put, frag_init. destruct n as [? ? ? ? ? ? ? [b|] tt_ ? ?]; cbn;
    destruct (frag_complete _ _); cbn; unfold frag_open; cbn; by case_match.
Qed.

Lemma wp_parcel ev k layer p c t Q :
  parcel_ok k -> Frag layer = parcel_text k ->
  Q tt (World (on_node (arrive k (Message layer)) p) [] c t) ->
  wp ev (if negb (String.eqb (Frag layer) "") then handle_frag layer else receive (Message layer))
    (World p [] c t) Q.
Proof.
  intros Hk Hfrag HQ. destruct k as [|fid i n]; cbn [parcel_text] in Hfrag.
  - rewrite Hfrag. by apply wp_receive.
  - destruct Hk as (Hf & _ & Hi & Hn). destruct (frag_label_parse fid i n Hf) as [H1 H2].
    assert (Hne : String.eqb (Frag layer) "" = false).
    { apply String.eqb_neq. intros E. rewrite <- Hfrag, E in H1. done. }
    rewrite Hne. rewrite <- Hfrag in H1. eapply wp_handle_frag; [exact H1|exact H2|].
    by rewrite !atoi_val_Itoa.
Qed.

Lemma wp_final_hop ev (f : string -> bool) pks msgID next data k message ct p c Q :
  (forall n a, e_dial ev n a = f a) -> parcel_ok k ->
  layer_ct pks (OnionlayerToString (MkOnionLayer "FINAL" msgID next "" data (parcel_text k) message)) ct ->
  Public (NPrivateKey (node p)) ∈ pks ->
  lacks pipe msgID -> lacks pipe next -> onion_line data -> next <> "" ->
  mget (SeenMsgs (node p)) !! msgID = None ->
  (exists b, b ∈ ParseAddresses next /\ f b = true) ->
  (forall now u b, b ∈ ParseAddresses next -> f b = true -> emits u [(b, data +:+ str1 nl)] ->
     Q tt (World (on_node (arrive k message) (on_node (mark_seen msgID now) p)) [] c u)) ->
  wp ev (handlerroutine (ct +:+ str1 nl)) (World p [] c []) Q.
Proof.
  intros Hf Hk Hct Hkey Hid Hnext Hdata Hne Hs (b0 & Hb0 & Hf0) HQ.
  eapply wp_open_layer; [exact Hct|done|reflexivity| |].
  { repeat split; cbn; try done; [by apply onion_line_lacks|by apply parcel_text_lacks]. }
  apply wp_handle_fresh; [by right|done|]. intros now u Hu. cbn [app].
  rewrite dispatch_final by done. unfold handle_final.
  apply wp_bind, (wp_parcel _ k); [done|done|]. cbn [Message]. apply (wp_send_ack ev f Hf). cbn [Next Data From].
  intros order v Ho. apply String.eqb_neq in Hne. rewrite Hne.
  destruct (String.eqb_spec data "") as [->|_]; [by destruct (ol_nonempty _ Hdata)|].
  cbn [orb]. destruct (first_up f order) as [b|] eqn:E.
  - intros Hv. apply first_up_Some in E as [Hb ?]. rewrite Ho in Hb.
    eapply HQ; [done..|]. apply (emits_app u v []); [by apply emits_internal|done].
  - exfalso. rewrite (first_up_None _ _ E b0) in Hf0; [done|by rewrite Ho].
Qed.

Lemma wp_ack_hop ev pks msgID ct i p c Q :
  layer_ct pks (OnionlayerToString (ack_layer msgID)) ct ->
  Public (NPrivateKey (node p)) ∈ pks -> lacks pipe msgID ->
  PendingACKs (node p) !! msgID = Some i -> has_room i c ->
  Q tt (World (on_node (upd_PendingACKs (delete msgID)) p) [] (push i true c) []) ->
  wp ev (handlerroutine (ct +:+ str1 nl)) (World p [] c []) Q.
Proof.
  intros Hct Hk Hid Hp Hr HQ. eapply wp_open_layer; [exact Hct|done|reflexivity| |].
  { repeat split; cbn; done || apply lacks_nil. }
  rewrite handle_layer_ack by done. apply wp_handle_ack. cbn [MsgID ack_layer]. by rewrite Hp.
Qed.

(** ** The round trip *)

(** The identifiers of one message are new to the network. *)
Record fresh (N : net) (nacks : list string) (msgID : string) : Prop := {
  fresh_nodup : NoDup nacks;
  fresh_pairs x y : x ∈ nacks -> y ∈ nacks -> unseen N (x +:+ ":" +:+ y);
  fresh_msg : unseen N msgID }.

(** The sender waits for [msgID] on a channel with room. *)
Definition waits (N : net) (sender msgID : string) (i : nat) : Prop :=
  exists p c, procs N !! sender = Some (p, c) /\ PendingACKs (node p) !! msgID = Some i /\
    has_room i c.

(** Both routes stand: every hop is well named and keyed, and has a listening
    member; they end in [dest] and [sender]. *)
Record routed (N : net) (hops rhops : list hop) (dest sender : string) : Prop := {
  rt_ok : Forall (hop_ok N) (hops ++ rhops);
  rt_up : Forall (up_hop N) (hops ++ rhops);
  rt_hops : hops <> [] /\ rhops <> [] /\ length rhops = length hops;
  rt_dest : ParseAddresses (List.last hops ("", [])).1 = [dest];
  rt_sender : ParseAddresses (List.last rhops ("", [])).1 = [sender] }.

(** [message] arrived at [dest] once and nowhere else, the acknowledgement
    reached the channel [sender] waits on, nobody else's pending
    acknowledgements changed, and nothing of any process did but its
    bookkeeping. *)
Definition delivered (N N' : net) (dest sender : string) (k : parcel) (message msgID : string) (i : nat)
    : Prop :=
  wire N' = [] /\
  (forall a, standing N' a = if decide (a = dest) then on_node (arrive k message) <$> standing N a
                             else standing N a) /\
  (forall a, awaiting N' a =
     if decide (a = sender) then (fun x => (delete msgID x.1, push i true x.2)) <$> awaiting N a
     else awaiting N a).

Lemma pair_ids_lookup nacks id :
  id ∈ pair_ids nacks -> exists i x y, nacks !! i = Some x /\ nacks !! S i = Some y /\
    id = x +:+ ":" +:+ y.
Proof.
  induction nacks as [|x [|y l] IH]; cbn [pair_ids]; [by intros ?%not_elem_of_nil..|].
  intros [->|Hin]%elem_of_cons; [by exists 0, x, y|].
  destruct (IH Hin) as (i & ?). by exists (S i).
Qed.

Lemma pair_ids_in nacks id :
  id ∈ pair_ids nacks -> exists x y, x ∈ nacks /\ y ∈ nacks /\ id = x +:+ ":" +:+ y.
Proof.
  intros (i & x & y & Hx & Hy & ->)%pair_ids_lookup. exists x, y.
  eauto using list_elem_of_lookup_2.
Qed.

Lemma pair_ids_NoDup nacks :
  NoDup nacks -> Forall (lacks colon) nacks -> NoDup (pair_ids nacks).
Proof.
  intros Hnd Hl. induction nacks as [|x [|y l] IH]; cbn [pair_ids]; [constructor..|].
  apply NoDup_cons in Hnd as [Hx Hnd]. apply Forall_cons_1 in Hl as [Hlx Hl].
  apply NoDup_cons. split; [|by apply IH]. change (x +:+ ":" +:+ y ∉ pair_ids (y :: l)).
  intros (a & b & Ha & _ & He)%pair_ids_in.
  assert (Hla : lacks colon a) by (rewrite Forall_forall in Hl; auto).
  apply pair_inj in He as [-> _]; done.
Qed.

(** The relay layers of the way back have other identifiers than those of the
    way out. *)
Lemma pair_ids_reverse nacks id :
  NoDup nacks -> Forall (lacks colon) nacks -> id ∈ pair_ids nacks -> id ∉ pair_ids (reverse nacks).
Proof.
  intros Hnd Hl (i & x & y & Hx & Hy & ->)%pair_ids_lookup (j & y' & x' & Hy' & Hx' & He)%pair_ids_lookup.
  rewrite Forall_lookup in Hl.
  assert (Hin : y' ∈ nacks) by (apply elem_of_reverse; by eapply list_elem_of_lookup_2).
  apply pair_inj in He as [<- <-]; [|by eapply Hl|apply list_elem_of_lookup_1 in Hin as [k Hk]; by eapply Hl].
  apply reverse_lookup_Some in Hy' as [Hy' ?], Hx' as [Hx' ?].
  assert (i = length nacks - S j) by (by eapply NoDup_lookup).
  assert (S i = length nacks - S (S j)) by (by eapply NoDup_lookup). lia.
Qed.

Lemma nack_id_ok n : id_shape "nack" n -> nack_ok n.
Proof.
  intros Hn. split; [|split]; [by eapply id_shape_lacks..|].
  destruct Hn as (ds & -> & _ & Hd). rewrite !sforall_app.
  assert (Hg : sforall graphic ds = true); [|by rewrite Hg].
  eapply sforall_impl; [|exact Hd]. intros a.
  assert (H : implb (is_digit a) (graphic a) = true)
    by (revert a; apply forall_bytes_spec; by vm_compute).
  intros Ha. by rewrite Ha in H.
Qed.

Lemma hop_named N h : hop_ok N h -> h.1 <> "".
Proof. intros (_ & Hc & _) He. by rewrite He in Hc. Qed.

Lemma at_hop_single N h ct a :
  at_hop N h ct -> ParseAddresses h.1 = [a] ->
  wire N = [(a, ct +:+ str1 nl)] /\ exists p c, procs N !! a = Some (p, c).
Proof.
  intros (b & Hw & Hb & Hu) Ha. rewrite Ha in Hb. apply list_elem_of_singleton in Hb as ->.
  by apply up_true in Hu.
Qed.

Lemma net_rel_set (R : Proc -> Proc -> Prop) N a p p' c w :
  (forall q, R q q) -> procs N !! a = Some (p, c) -> R p p' ->
  net_rel R N (Net (<[a := (p', c)]> (procs N)) w).
Proof.
  intros Hr Ha HR b. cbn [procs]. destruct (decide (a = b)) as [<-|Hne].
  - rewrite lookup_insert_eq, Ha. by constructor.
  - rewrite lookup_insert_ne by done. destruct (procs N !! b); constructor. auto.
Qed.

Lemma at_hop_sent N h ct a x u b :
  b ∈ ParseAddresses h.1 -> up N b = true -> sends u = [(b, ct +:+ str1 nl)] ->
  at_hop (Net (<[a := x]> (procs N)) ([] ++ sends u)) h ct.
Proof.
  intros Hb Hu ->. exists b. split; [done|]. split; [done|].
  apply up_true in Hu as (p & c & Hp). apply bool_decide_eq_true_2. cbn.
  rewrite lookup_insert_is_Some'. right; eauto.
Qed.

Lemma arrive_keeps k message msgID now p :
  keeps [msgID] p (on_node (arrive k message) (on_node (mark_seen msgID now) p)).
Proof.
  unfold keeps, on_node. cbn [node].
  destruct (arrive_rest k message (mark_seen msgID now (node p))) as (_ & _ & -> & _ & ->).
  split; [done|]. intros id. cbn. rewrite lookup_insert_is_Some'. intros [->|?]; [right; by left|by left].
Qed.

(** The destination takes the message and starts the acknowledgement. *)
Lemma deliver_final ev N h rh dest ct ret msgID k message :
  at_hop N h ct -> ParseAddresses h.1 = [dest] -> hop_ok N h -> hop_ok N rh -> up_hop N rh ->
  layer_ct h.2 (OnionlayerToString (MkOnionLayer "FINAL" msgID rh.1 "" ret (parcel_text k) message)) ct ->
  parcel_ok k -> onion_line ret -> lacks pipe msgID -> unseen N msgID ->
  exists N', deliver ev N = Some N' /\ at_hop N' rh ret /\ net_rel (keeps [msgID]) N N' /\
    (forall a, standing N' a = if decide (a = dest) then on_node (arrive k message) <$> standing N a
                               else standing N a) /\
    (forall a, awaiting N' a = awaiting N a).
Proof.
  intros Hat Hd Hok Hrok Hrup Hl Hk Hret Hid Hun.
  destruct (at_hop_single _ _ _ _ Hat Hd) as (Hw & p & c & Hp).
  eapply deliver_wp; [exact Hw|exact Hp|].
  eapply (wp_final_hop _ (up N)); try done.
  - apply Hok with (b := dest) (c := c); [rewrite Hd; by left|done].
  - apply Hrok.
  - by eapply hop_named.
  - by eapply Hun.
  - intros now u b Hb Hbu (Hu & _). cbn [w_st w_chans w_trace].
    split; [by eapply at_hop_sent|]. split; [|split].
    + apply (net_rel_set _ _ _ p); [by split; [|left]|done|]. apply arrive_keeps.
    + intros a. unfold standing. cbn [procs]. case_decide as Ha.
      * subst a. rewrite lookup_insert_eq, Hp. cbn [fmap option_fmap option_map fst]. f_equal.
        unfold on_node. cbn [node cache]. by rewrite <- arrive_settle.
      * by rewrite lookup_insert_ne by done.
    + intros a. unfold awaiting. cbn [procs]. destruct (decide (dest = a)) as [<-|Hne].
      * rewrite lookup_insert_eq, Hp. cbn [fmap option_fmap option_map fst snd].
        destruct (arrive_rest k message (mark_seen msgID now (node p))) as (_ & _ & _ & Ha & _).
        unfold on_node. cbn [node]. by rewrite Ha.
      * by rewrite lookup_insert_ne by done.
Qed.

(** The acknowledgement reaches the sender's channel. *)
Lemma deliver_ack ev N h sender ct msgID i :
  at_hop N h ct -> ParseAddresses h.1 = [sender] -> hop_ok N h ->
  layer_ct h.2 (OnionlayerToString (ack_layer msgID)) ct -> lacks pipe msgID ->
  waits N sender msgID i ->
  exists N', deliver ev N = Some N' /\ wire N' = [] /\
    (forall a, standing N' a = standing N a) /\
    (forall a, awaiting N' a =
      if decide (a = sender) then (fun x => (delete msgID x.1, push i true x.2)) <$> awaiting N a
      else awaiting N a).
Proof.
  intros Hat Hs Hok Hl Hid (p & c & Hp & Hi & Hr).
  destruct (at_hop_single _ _ _ _ Hat Hs) as (Hw & _).
  eapply deliver_wp; [exact Hw|exact Hp|].
  eapply wp_ack_hop; [exact Hl| |done..|].
  - apply Hok with (b := sender) (c := c); [rewrite Hs; by left|done].
  - cbn [w_st w_chans w_trace app]. split; [done|]. split.
    + intros a. unfold standing. cbn [procs]. destruct (decide (sender = a)) as [<-|Hne].
      * by rewrite lookup_insert_eq, Hp.
      * by rewrite lookup_insert_ne by done.
    + intros a. unfold awaiting. cbn [procs]. case_decide as Ha.
      * subst a. by rewrite lookup_insert_eq, Hp.
      * by rewrite lookup_insert_ne by done.
Qed.

Lemma waits_keep N N' sender msgID i :
  awaiting N' sender = awaiting N sender -> waits N sender msgID i -> waits N' sender msgID i.
Proof.
  intros He (p & c & Hp & Hi & Hr). unfold awaiting in He. rewrite Hp in He.
  destruct (procs N' !! sender) as [[p' c']|] eqn:Hp'; [|done]. cbn in He.
  injection He as He1 He2. exists p', c'. subst. by rewrite He1.
Qed.

Lemma routed_split N hops rhops dest sender :
  routed N hops rhops dest sender ->
  (Forall (hop_ok N) hops /\ Forall (up_hop N) hops) /\
  (Forall (hop_ok N) rhops /\ Forall (up_hop N) rhops).
Proof. intros [Hok Hup _ _ _]. rewrite Forall_app in Hok, Hup. tauto. Qed.

Lemma Forall_hops_rel l N N' hops :
  net_rel (keeps l) N N' -> Forall (hop_ok N) hops /\ Forall (up_hop N) hops ->
  Forall (hop_ok N') hops /\ Forall (up_hop N') hops.
Proof.
  intros H [Hok Hup]. split.
  - eapply Forall_impl; [exact Hok|]. intros h. by apply (hop_ok_keeps _ _ _ _ H).
  - eapply Forall_impl; [exact Hup|]. intros h. by apply (up_hop_rel _ _ _ _ H).
Qed.

Lemma Forall_last {A} (P : A -> Prop) l d : l <> [] -> Forall P l -> P (List.last l d).
Proof.
  intros Hne H. induction H as [|x l Hx H IH]; [done|]. destruct l; [done|]. by apply IH.
Qed.

Lemma deliver_all_chain e1 ev e2 N1 N2 N3 N4 :
  deliver_all e1 N1 = Some N2 -> deliver ev N2 = Some N3 -> deliver_all e2 N3 = Some N4 ->
  deliver_all (e1 ++ ev :: e2) N1 = Some N4.
Proof.
  intros H1 H2 H3. rewrite deliver_all_app, H1. cbn [mbind option_bind deliver_all].
  rewrite H2. exact H3.
Qed.

Lemma split_evs {A} (l : list A) n m :
  length l = S n + S m -> exists l1 x l2 y, l = l1 ++ x :: (l2 ++ [y]) /\ length l1 = n /\ length l2 = m.
Proof.
  intros Hl. pose proof (length_take l n) as Ht. pose proof (length_drop l n) as Hd.
  rewrite <- (take_drop n l). destruct (drop n l) as [|x r]; [cbn in Hd; lia|].
  destruct r as [|y r _] using rev_ind; [cbn in Hd; lia|].
  rewrite length_cons, length_app in Hd. cbn in Hd.
  exists (take n l), x, r, y. split; [done|]. lia.
Qed.

Lemma msg_not_pair msgID l : lacks colon msgID -> msgID ∉ pair_ids l.
Proof.
  intros Hc (x & y & _ & _ & ->)%pair_ids_in. apply lacks_app in Hc as [_ Hc].
  change (":" +:+ y) with (String colon y) in Hc. by apply lacks_cons in Hc as [? _].
Qed.

Lemma fresh_pair_ids N nacks msgID l :
  fresh N nacks msgID -> l ≡ₚ nacks -> Forall (unseen N) (pair_ids l).
Proof.
  intros [_ Hp _] Hl. apply Forall_forall. intros id (x & y & Hx & Hy & ->)%pair_ids_in.
  rewrite Hl in Hx, Hy. by apply Hp.
Qed.

Lemma Forall_unseen_rel l N N' ids :
  net_rel (keeps l) N N' -> Forall (unseen N) ids -> (forall id, id ∈ ids -> id ∉ l) ->
  Forall (unseen N') ids.
Proof.
  intros H Hu Hd. rewrite Forall_forall in *. intros id Hi. eapply unseen_keeps; eauto.
Qed.

Lemma round_trip hops rhops rsender k message nacks msgID payload N dest sender i evs :
  encapsulated hops rhops sender rsender (parcel_text k) message nacks msgID payload -> parcel_ok k ->
  routed N hops rhops dest sender -> fresh N nacks msgID -> waits N sender msgID i ->
  lacks pipe sender -> lacks pipe rsender -> at_hop N (List.hd ("", []) hops) payload ->
  length evs = length hops + length rhops ->
  exists N', deliver_all evs N = Some N' /\ delivered N N' dest sender k message msgID i.
Proof.
  intros [Hid Hnacks Hlen (ret & Hret & Ho)] Hk Hrt Hfr Hw Hs Hrs Hat Hevs.
  destruct (routed_split _ _ _ _ _ Hrt) as [Hf Hr]. destruct Hrt as [_ _ (Hne & Hrne & Hl) Hd Hse].
  destruct rhops as [|rh rhops]; [done|]. set (rs := rh :: rhops) in *.
  assert (Hnk : Forall nack_ok nacks) by (eapply Forall_impl; [exact Hnacks|apply nack_id_ok]).
  assert (Hlc : Forall (lacks colon) nacks) by (eapply Forall_impl; [exact Hnk|by intros ? []]).
  assert (Hidp : lacks pipe msgID) by (by eapply id_shape_lacks).
  assert (Hidc : lacks colon msgID) by (by eapply id_shape_lacks).
  assert (Hnd := fresh_nodup _ _ _ Hfr).
  destruct (split_evs evs (length hops - 1) (length rs - 1)) as (e1 & ev2 & e3 & ev4 & -> & He1 & He3).
  { destruct hops; [done|]. cbn in *. lia. }
  destruct (traverse _ _ _ _ _ Ho N e1) as (N1 & ct1 & HN1 & Hat1 & Hct1 & Hrel1);
    [done|apply Hf..|done|done|done|by apply pair_ids_NoDup|by eapply fresh_pair_ids|done|].
  assert (Hk1 := net_rel_keeps _ _ _ Hrel1).
  pose proof (Forall_hops_rel _ _ _ _ Hk1 Hf) as Hf1. pose proof (Forall_hops_rel _ _ _ _ Hk1 Hr) as Hr1.
  destruct (deliver_final ev2 N1 (List.last hops ("", [])) rh dest ct1 ret msgID k message)
    as (N2 & HN2 & Hat2 & Hk2 & Hin2 & Haw2); [done|done| | | |done|done| |done| |].
  { apply Forall_last; [done|apply Hf1]. } { destruct Hr1 as [Hx _]. by inversion Hx. }
  { destruct Hr1 as [_ Hx]. by inversion Hx. } { by eapply onion_is_line. }
  { eapply unseen_keeps; [exact Hk1|apply Hfr|by apply msg_not_pair]. }
  pose proof (Forall_hops_rel _ _ _ _ Hk2 Hr1) as Hr2.
  destruct (traverse _ _ _ _ _ Hret N2 e3) as (N3 & ct3 & HN3 & Hat3 & Hct3 & Hrel3); try done.
  { apply Hr2. } { apply Hr2. } { by apply Forall_reverse. }
  { rewrite length_reverse. lia. }
  { apply pair_ids_NoDup; [by rewrite reverse_Permutation|by apply Forall_reverse]. }
  { apply (Forall_unseen_rel _ _ _ _ Hk2).
    - apply (Forall_unseen_rel _ _ _ _ Hk1).
      + eapply fresh_pair_ids; [done|apply reverse_Permutation].
      + intros id Hi Hi'. by apply (pair_ids_reverse nacks id).
    - intros id Hi ->%list_elem_of_singleton. by apply (msg_not_pair msgID (reverse nacks)). }
  pose proof (Forall_hops_rel _ _ _ _ (net_rel_keeps _ _ _ Hrel3) Hr2) as Hr3.
  assert (Haw : forall a, awaiting N3 a = awaiting N a).
  { intros a. by rewrite (net_rel_awaiting _ _ _ a Hrel3), Haw2, (net_rel_awaiting _ _ _ a Hrel1). }
  destruct (deliver_ack ev4 N3 (List.last rs ("", [])) sender ct3 msgID i)
    as (N4 & HN4 & Hw4 & Hin4 & Haw4); try done.
  { apply Forall_last; [done|apply Hr3]. } { by apply (waits_keep N). }
  exists N4. split.
  { eapply deliver_all_chain; [done..|]. rewrite deliver_all_app, HN3.
    cbn [mbind option_bind deliver_all]. by rewrite HN4. }
  split; [done|]. split; intros a.
  - rewrite Hin4, (net_rel_standing _ _ _ a Hrel3), Hin2, (net_rel_standing _ _ _ a Hrel1). done.
  - by rewrite Haw4, Haw.
Qed.

(** ** The way back of a failure

    On a route of single relays, the relay before the first hop that does not
    listen sends its nack back; each relay forgets its entry and passes the
    previous nack on. *)

(** No process waits for, or relays, anything under the identifier [n]. *)
Definition idle (N : net) (n : string) : Prop :=
  forall a p c, procs N !! a = Some (p, c) ->
    PendingRelays (node p) !! n = None /\ PendingACKs (node p) !! n = None.

Definition up_single (N : net) (h : hop) : Prop :=
  exists b, ParseAddresses h.1 = [b] /\ up N b = true.

Definition down_hop (N : net) (h : hop) : Prop :=
  forall b, b ∈ ParseAddresses h.1 -> up N b = false.

Lemma seen_ext_keeps ids p p' : seen_ext ids p p' -> keeps ids p p'.
Proof. by intros (s & -> & Hs). Qed.

Lemma idle_seen_ext l N N' n : net_rel (seen_ext l) N N' -> idle N n -> idle N' n.
Proof.
  intros H Hi a p' c Hp. destruct (net_rel_lookup_inv _ _ _ _ _ _ H Hp) as (p & Hp' & s & -> & _).
  exact (Hi _ _ _ Hp').
Qed.

Lemma up_single_rel R N N' h : net_rel R N N' -> up_single N h -> up_single N' h.
Proof. intros H (b & Hb & Hu). exists b. by rewrite (net_rel_up _ _ _ _ H). Qed.

Lemma down_hop_rel R N N' h : net_rel R N N' -> down_hop N h -> down_hop N' h.
Proof. intros H Hd b Hb. rewrite (net_rel_up _ _ _ _ H). by apply Hd. Qed.

(** A relay that has relayed gets the nack back. *)
Lemma wp_nack_back ev (f : string -> bool) n1 n2 prev p c Q :
  (forall n a, e_dial ev n a = f a) -> nack_ok n2 ->
  PendingACKs (node p) !! n2 = None -> PendingRelays (node p) !! n2 = Some (MkNack n1 prev) ->
  (forall u, emits u (sent_to f (ParseAddresses prev) ("NACK:" +:+ n1)) ->
     Q tt (World (on_node (upd_PendingRelays (delete n2)) p) [] c u)) ->
  wp ev (handlerroutine (("NACK:" +:+ n2) +:+ str1 nl)) (World p [] c []) Q.
Proof.
  intros Hf (_ & _ & Hg) Ha Hp HQ. rewrite app_str_assoc, handlerroutine_nack by done.
  apply (wp_handle_nack_relay ev f Hf); [done|]. rewrite Hp. exact HQ.
Qed.

(** Insertion and removal of the pending entry cancel out. *)
Lemma relay_undo l n1 n2 prev p now p2 :
  PendingRelays (node p) !! n2 = None ->
  seen_ext l (on_node (upd_PendingRelays (<[n2 := MkNack n1 prev]>)) (marked n1 n2 p now)) p2 ->
  seen_ext ((n1 +:+ ":" +:+ n2) :: l) p (on_node (upd_PendingRelays (delete n2)) p2).
Proof.
  intros Hn (s & -> & Hs). exists s. split.
  - destruct p as [nd m]. unfold on_node, marked, mark_seen, set_SeenMsgs, upd_PendingRelays.
    cbn in *. by rewrite delete_insert_id.
  - intros id [Hid|Hid]%Hs; [|right; by right]. cbn in Hid.
    rewrite lookup_insert_is_Some' in Hid. destruct Hid as [->|Hid]; [right; by left|by left].
Qed.

Lemma sent_to_single f b m : f b = true -> sent_to f [b] m = [(b, m +:+ str1 nl)].
Proof. intros H. unfold sent_to. cbn. by rewrite H. Qed.

Lemma sent_to_rel R N N' l m : net_rel R N N' -> sent_to (up N') l m = sent_to (up N) l m.
Proof.
  intros H. unfold sent_to. assert (first_up (up N') l = first_up (up N) l) as ->; [|done].
  induction l as [|a l IH]; cbn; [done|]. by rewrite (net_rel_up _ _ _ a H), IH.
Qed.

Section NackSteps.
Variables (ev : env Proc) (N : net) (b : string) (p : Proc) (c : list chan).
Variables (pks : list PublicKey) (n1 n2 next prev data ct : string).
Hypothesis Hp : procs N !! b = Some (p, c).

(** A relay before a hop that listens. *)
Lemma relay_up_step :
  wire N = [(b, ct +:+ str1 nl)] ->
  layer_ct pks (OnionlayerToString (relay_layer n1 n2 next prev data)) ct ->
  Public (NPrivateKey (node p)) ∈ pks -> nack_ok n1 ->
  wf_layer (relay_layer n1 n2 next prev data) -> Contains next colon = true ->
  unseen N (n1 +:+ ":" +:+ n2) -> up_hop N (next, pks) ->
  exists N' now b', deliver ev N = Some N' /\ wire N' = [(b', data +:+ str1 nl)] /\
    b' ∈ ParseAddresses next /\ up N b' = true /\
    procs N' = <[b := (on_node (upd_PendingRelays (<[n2 := MkNack n1 prev]>)) (marked n1 n2 p now), c)]>
                 (procs N).
Proof.
  intros Hw Hl Hk Hn Hwf Hnext Hun Hup.
  edestruct (deliver_wp ev N b) as (N1 & HN1 & HQ); [exact Hw|exact Hp| |].
  2: { exists N1. exact (match HQ with ex_intro _ now (ex_intro _ b' H) =>
         ex_intro _ now (ex_intro _ b' (conj HN1 H)) end). }
  eapply (wp_relay_up _ (up N)); [done|exact Hl|done..|by eapply Hun|exact Hup|].
  intros now u b' Hb' Hbu' (Hu & _). exists now, b'. cbn [w_st w_chans w_trace app wire procs].
  by rewrite Hu.
Qed.

(** A relay before a hop that does not. *)
Lemma relay_down_step :
  wire N = [(b, ct +:+ str1 nl)] ->
  layer_ct pks (OnionlayerToString (relay_layer n1 n2 next prev data)) ct ->
  Public (NPrivateKey (node p)) ∈ pks -> nack_ok n1 ->
  wf_layer (relay_layer n1 n2 next prev data) -> Contains next colon = true ->
  unseen N (n1 +:+ ":" +:+ n2) -> idle N n2 -> down_hop N (next, pks) ->
  exists N', deliver ev N = Some N' /\
    wire N' = sent_to (up N) (ParseAddresses prev) ("NACK:" +:+ n1) /\
    net_rel (seen_ext [n1 +:+ ":" +:+ n2]) N N'.
Proof.
  intros Hw Hl Hk Hn Hwf Hnext Hun Hid Hdown.
  eapply deliver_wp; [exact Hw|exact Hp|].
  eapply (wp_relay_down _ (up N)); [done|exact Hl|done..|by eapply Hun|exact Hdown|].
  intros now u (Hu & _). cbn [w_st w_chans w_trace app wire]. split; [exact Hu|].
  apply (net_rel_set _ _ _ p); [apply seen_ext_refl|done|].
  destruct (marked_seen_ext n1 n2 p now) as (s & Hs & Hgrow).
  assert (on_node (upd_PendingRelays (delete n2)) (marked n1 n2 p now) = marked n1 n2 p now) as ->.
  { destruct (Hid _ _ _ Hp) as [Hn2 _]. destruct p as [nd m].
    unfold on_node, marked, mark_seen, upd_PendingRelays, set_SeenMsgs. cbn in *.
    by rewrite delete_id. }
  by exists s.
Qed.

(** The nack on its way back. *)
Lemma nack_step :
  wire N = [(b, ("NACK:" +:+ n2) +:+ str1 nl)] -> nack_ok n2 ->
  PendingACKs (node p) !! n2 = None -> PendingRelays (node p) !! n2 = Some (MkNack n1 prev) ->
  exists N', deliver ev N = Some N' /\
    wire N' = sent_to (up N) (ParseAddresses prev) ("NACK:" +:+ n1) /\
    procs N' = <[b := (on_node (upd_PendingRelays (delete n2)) p, c)]> (procs N).
Proof.
  intros Hw Hn Ha Hr. eapply deliver_wp; [exact Hw|exact Hp|].
  eapply (wp_nack_back _ (up N)); [done..|]. intros u (Hu & _).
  cbn [w_st w_chans w_trace app wire procs]. by rewrite Hu.
Qed.
End NackSteps.

(** One relay is entered and left: what happened in between, from [N1] to
    [N2], only marked identifiers. *)
Lemma nack_wrap l N N1 N2 N3 b p c n1 n2 prev now p2 :
  procs N !! b = Some (p, c) -> PendingRelays (node p) !! n2 = None ->
  procs N1 = <[b := (on_node (upd_PendingRelays (<[n2 := MkNack n1 prev]>)) (marked n1 n2 p now), c)]>
               (procs N) ->
  net_rel (seen_ext l) N1 N2 -> procs N2 !! b = Some (p2, c) ->
  procs N3 = <[b := (on_node (upd_PendingRelays (delete n2)) p2, c)]> (procs N2) ->
  net_rel (seen_ext ((n1 +:+ ":" +:+ n2) :: l)) N N3.
Proof.
  intros Hp Hn H1 H12 Hp2 H3 a. rewrite H3. specialize (H12 a). rewrite H1 in H12.
  destruct (decide (b = a)) as [<-|Hne].
  - rewrite lookup_insert_eq, Hp. constructor. split; [done|]. cbn [fst].
    rewrite lookup_insert_eq, Hp2 in H12. inversion H12 as [? ? [_ H]|]; subst.
    by eapply relay_undo.
  - rewrite lookup_insert_ne by done. rewrite lookup_insert_ne in H12 by done.
    inversion H12 as [x y [Hc (s & Hs & Hg)]|]; constructor. split; [done|]. exists s.
    split; [done|]. intros id Hid. destruct (Hg id Hid); [by left|right; by right].
Qed.

(** The way back through that relay. *)
Lemma nack_return ev l N N1 N2 b p c n1 n2 prev now :
  procs N !! b = Some (p, c) -> idle N n2 -> nack_ok n2 ->
  procs N1 = <[b := (on_node (upd_PendingRelays (<[n2 := MkNack n1 prev]>)) (marked n1 n2 p now), c)]>
               (procs N) ->
  net_rel (seen_ext l) N1 N2 -> wire N2 = [(b, ("NACK:" +:+ n2) +:+ str1 nl)] ->
  exists N3, deliver ev N2 = Some N3 /\
    wire N3 = sent_to (up N2) (ParseAddresses prev) ("NACK:" +:+ n1) /\
    net_rel (seen_ext ((n1 +:+ ":" +:+ n2) :: l)) N N3.
Proof.
  intros Hp Hidle Hn2 Hp1 Hrel2 Hw2.
  pose proof (f_equal (lookup b) Hp1) as HpN1. rewrite lookup_insert_eq in HpN1.
  destruct (net_rel_lookup _ _ _ _ _ _ Hrel2 HpN1) as (p2 & Hp2 & s2 & Ep2 & _).
  destruct (Hidle _ _ _ Hp) as [Hnr Hna].
  destruct (nack_step ev N2 b p2 c n1 n2 prev Hp2) as (N3 & HN3 & Hw3 & Hp3); try done.
  - by rewrite Ep2.
  - rewrite Ep2. cbn. by rewrite lookup_insert_eq.
  - exists N3. do 2 (split; [done|]). by eapply (nack_wrap _ N N1 N2 N3 b p c n1 n2 prev now p2).
Qed.

Lemma net_rel_from_insert R N N1 b p q c :
  (forall p, R p p) -> procs N !! b = Some (p, c) -> R p q -> procs N1 = <[b := (q, c)]> (procs N) ->
  net_rel R N N1.
Proof.
  intros Hr Hp HR H1. destruct N1 as [m w]. cbn in H1. rewrite H1. by apply (net_rel_set _ _ _ p).
Qed.

Lemma idle_insert N N1 b p c n1 n2 n prev now :
  procs N !! b = Some (p, c) ->
  procs N1 = <[b := (on_node (upd_PendingRelays (<[n2 := MkNack n1 prev]>)) (marked n1 n2 p now), c)]>
               (procs N) ->
  n2 <> n -> idle N n -> idle N1 n.
Proof.
  intros Hp H1 Hne Hi a q d Hq. rewrite H1 in Hq. destruct (decide (b = a)) as [<-|Hab].
  - rewrite lookup_insert_eq in Hq. injection Hq as <- <-. destruct (Hi _ _ _ Hp).
    split; [|done]. cbn. by rewrite lookup_insert_ne.
  - rewrite lookup_insert_ne in Hq by done. by eapply Hi.
Qed.

Lemma seen_ext_mono l l' p p' : l ⊆ l' -> seen_ext l p p' -> seen_ext l' p p'.
Proof.
  intros Hsub (s & -> & Hs). exists s. split; [done|]. intros id [?|?]%Hs; [by left|right; auto].
Qed.

Lemma pair_head_new n1 y l :
  lacks colon n1 -> Forall nack_ok l -> n1 ∉ l -> n1 +:+ ":" +:+ y ∉ pair_ids l.
Proof.
  intros Hn1 Hnk Hn (a & b & Ha & _ & He)%pair_ids_in.
  assert (Hla : nack_ok a) by (rewrite Forall_forall in Hnk; auto).
  apply pair_inj in He as [-> _]; [done|done|apply Hla].
Qed.

(** The state in which a line climbs to a hop that does not answer: the hops
    before it are single live relays, and nobody has the identifiers yet. *)
Definition climbing (N : net) (ups : list hop) (down : hop) (nacks : list string) : Prop :=
  Forall (hop_ok N) (ups ++ [down]) /\ Forall (up_single N) ups /\ down_hop N down /\
  Forall nack_ok nacks /\ NoDup nacks /\
  Forall (idle N) (tail nacks) /\ Forall (unseen N) (pair_ids nacks).

Lemma climbing_next N h1 ups down n1 n2 ns N1 b p c prev now :
  climbing N (h1 :: ups) down (n1 :: n2 :: ns) ->
  procs N !! b = Some (p, c) ->
  procs N1 = <[b := (on_node (upd_PendingRelays (<[n2 := MkNack n1 prev]>)) (marked n1 n2 p now), c)]>
               (procs N) ->
  net_rel (book [n1 +:+ ":" +:+ n2]) N N1 ->
  climbing N1 ups down (n2 :: ns).
Proof.
  intros (Hok & Hup & Hdown & Hnk & Hnd & Hidle & Hun) Hp Hp1 Hrel.
  assert (Hkp := net_rel_keeps _ _ _ Hrel).
  apply Forall_cons_1 in Hok as [_ Hok]. apply Forall_cons_1 in Hup as [_ Hup].
  apply Forall_cons_1 in Hnk as [Hn1 Hnk]. apply NoDup_cons in Hnd as [Hn1n Hnd].
  apply Forall_cons_1 in Hidle as [_ Hidle]. apply Forall_cons_1 in Hun as [_ Hun].
  split; [|split; [|split; [by apply (down_hop_rel _ _ _ _ Hrel)|split; [done|split; [done|split]]]]].
  - eapply Forall_impl; [exact Hok|]. intros h. by apply (hop_ok_keeps _ _ _ _ Hkp).
  - eapply Forall_impl; [exact Hup|]. intros h. by apply (up_single_rel _ _ _ _ Hrel).
  - cbn [tail]. apply NoDup_cons in Hnd as [Hn2n _]. rewrite Forall_forall in *. intros n Hn.
    eapply idle_insert; [exact Hp|exact Hp1| |by apply Hidle]. by intros ->.
  - apply (Forall_unseen_rel _ _ _ _ Hkp); [done|]. intros id Hi ->%list_elem_of_singleton.
    by apply (pair_head_new n1 n2 (n2 :: ns)); [apply Hn1|..].
Qed.

(** The hop after the first. *)
Lemma climbing_head N h1 ups down nacks rest :
  climbing N (h1 :: ups) down nacks ->
  exists (h2 : hop) (r2 : list hop), ups ++ down :: rest = h2 :: r2 /\ hop_ok N h2 /\
    (ups = [] -> h2 = down) /\ (ups <> [] -> h2 = List.hd ("", []) ups /\ up_single N h2).
Proof.
  intros (Hok & Hup & _). apply Forall_cons_1 in Hok as [_ Hok]. apply Forall_cons_1 in Hup as [_ Hup].
  destruct ups as [|h2 ups]; eexists _, _; (split; [reflexivity|]); apply Forall_cons_1 in Hok as [? _]; [done|].
  by apply Forall_cons_1 in Hup as [? _].
Qed.

Lemma nack_back ups : forall prev nacks inner ct N down rest evs,
  onion (ups ++ down :: rest) prev nacks inner ct -> ups <> [] ->
  at_hop N (List.hd ("", []) ups) ct -> climbing N ups down nacks -> lacks pipe prev ->
  S (length evs) = 2 * length ups ->
  exists N', deliver_all evs N = Some N' /\
    wire N' = sent_to (up N) (ParseAddresses prev) ("NACK:" +:+ List.hd "" nacks) /\
    net_rel (seen_ext (pair_ids nacks)) N N'.
Proof.
  induction ups as [|h1 ups IH]; intros prev nacks inner ct N down rest evs Ho Hne Hat Hcl Hprev Hevs; [done|].
  destruct (climbing_head _ _ _ _ _ rest Hcl) as ([a2 pks2] & r2 & Er & Hok2 & Hdown2 & Hup2).
  rewrite <- app_comm_cons, Er in Ho.
  inversion Ho as [|a1 pks1 x1 x2 x3 x4 n1 n2 ns x5 ct2 x6 Ho2 Hl E1 E2 E3 E4 E5]; subst.
  assert (Hcl' := Hcl). destruct Hcl' as (Hok & Hup & Hdown & Hnk & Hnd & Hidle & Hun).
  apply Forall_cons_1 in Hok as [Hok1 Hok]. apply Forall_cons_1 in Hup as [(b & Hb & Hbu) Hup].
  destruct (at_hop_single _ _ _ _ Hat Hb) as (Hw & p & c & Hp).
  destruct evs as [|ev evs]; [cbn in *; lia|]. cbn [deliver_all].
  apply Forall_cons_1 in Hnk as [Hn1 Hnk]. assert (Hn2 : nack_ok n2) by (by inversion Hnk).
  cbn [tail] in Hidle. change (pair_ids (n1 :: n2 :: ns))
    with ((n1 +:+ ":" +:+ n2) :: pair_ids (n2 :: ns)) in *.
  apply Forall_cons_1 in Hidle as [Hidle2 _]. apply Forall_cons_1 in Hun as [Hun1 Hun].
  assert (Hwf : wf_layer (relay_layer n1 n2 a2 prev ct2)).
  { apply wf_relay_layer; [done..|apply Hok2|done|by eapply onion_is_line]. }
  assert (Hkey : Public (NPrivateKey (node p)) ∈ pks1).
  { eapply Hok1; [|exact Hp]. cbn in Hb |- *. rewrite Hb. by left. }
  destruct (decide (ups = [])) as [->|Hups].
  - destruct evs; [|cbn in *; lia]. rewrite <- (Hdown2 eq_refl) in Hdown. cbn [List.hd].
    destruct (relay_down_step ev N b p c pks1 n1 n2 a2 prev ct2 ct Hp) as (N' & HN' & Hw' & Hrel);
      try done; [apply Hok2|].
    exists N'. rewrite HN'. split; [done|]. split; [done|].
    eapply net_rel_mono; [|exact Hrel]. intros q q'. apply seen_ext_mono.
    intros ? ->%list_elem_of_singleton. by left.
  - destruct (Hup2 Hups) as [Ehd (b2 & Hb2 & Hbu2)]. cbn [fst] in Hb2.
    destruct (relay_up_step ev N b p c pks1 n1 n2 a2 prev ct2 ct Hp)
      as (N1 & now & b' & HN1 & Hw1 & Hb' & Hbu' & Hp1); try done; [apply Hok2|exists b2; cbn [fst]; rewrite Hb2; split; [by left|done]|].
    assert (Hrel1 : net_rel (book [n1 +:+ ":" +:+ n2]) N N1).
    { eapply (net_rel_from_insert _ N N1 b p); [apply book_refl|done| |done]. apply marked_book. }
    rewrite HN1. cbn [mbind option_bind].
    destruct evs as [|ev2 evs _] using rev_ind; [cbn in Hevs; destruct ups; cbn in *; [done|lia]|].
    destruct (IH a1 (n2 :: ns) inner ct2 N1 down rest evs) as (N2 & HN2 & Hw2 & Hrel2); try done.
    + by rewrite Er.
    + exists b'. rewrite <- Ehd, (net_rel_up _ _ _ _ Hrel1). done.
    + exact (climbing_next _ _ _ _ _ _ _ _ _ _ _ _ _ Hcl Hp Hp1 Hrel1).
    + apply Hok1.
    + rewrite !length_cons, length_app in Hevs. cbn in Hevs. lia.
    + rewrite deliver_all_app, HN2. cbn [mbind option_bind deliver_all].
      destruct (nack_return ev2 (pair_ids (n2 :: ns)) N N1 N2 b p c n1 n2 prev now)
        as (N3 & HN3 & Hw3 & Hrel3); try done.
      { cbn in Hb. rewrite Hw2, Hb. cbn [List.hd]. apply sent_to_single.
        by rewrite (net_rel_up _ _ _ _ Hrel1). }
      exists N3. rewrite HN3. split; [done|]. split; [|done].
      by rewrite Hw3, (sent_to_rel _ _ _ _ _ Hrel2), (sent_to_rel _ _ _ _ _ Hrel1).
Qed.

(** A nack at the sender wakes it up with [false]. *)
Lemma deliver_nack_sender ev N sender n i :
  wire N = [(sender, ("NACK:" +:+ n) +:+ str1 nl)] -> nack_ok n -> waits N sender n i ->
  exists N', deliver ev N = Some N' /\ wire N' = [] /\
    exists p c, procs N !! sender = Some (p, c) /\
      procs N' = <[sender := (on_node (upd_PendingACKs (delete n)) p, push i false c)]> (procs N).
Proof.
  intros Hw (_ & _ & Hg) (p & c & Hp & Hi & Hr). eapply deliver_wp; [exact Hw|exact Hp|].
  rewrite app_str_assoc, handlerroutine_nack by done. eapply wp_handle_nack_sender; [done..|].
  split; [done|]. by exists p, c.
Qed.

(** What pends at the relay [a]. *)
Definition relaying (N : net) (a : string) : option (gmap string Nackstruct) :=
  (fun x => PendingRelays (node x.1)) <$> procs N !! a.

(** The message failed: [sender] got [false] on the channel it waits on, every
    relay forgot it, nobody received anything. *)
Definition refused (N N' : net) (sender n : string) (i : nat) : Prop :=
  wire N' = [] /\
  (forall a, standing N' a = standing N a) /\ (forall a, relaying N' a = relaying N a) /\
  (forall a, awaiting N' a =
     if decide (a = sender) then (fun x => (delete n x.1, push i false x.2)) <$> awaiting N a
     else awaiting N a).

Lemma seen_ext_book_net l N N' : net_rel (seen_ext l) N N' -> net_rel (book l) N N'.
Proof. apply net_rel_mono, seen_ext_book. Qed.

Lemma net_rel_relaying l N N' a : net_rel (seen_ext l) N N' -> relaying N' a = relaying N a.
Proof.
  intros H. specialize (H a). unfold relaying.
  inversion H as [x y (_ & s & Hy & _)|]; [|done]. cbn. by rewrite Hy.
Qed.

Lemma nack_round ups down rest sender nacks inner payload N i evs :
  onion (ups ++ down :: rest) sender nacks inner payload -> ups <> [] ->
  at_hop N (List.hd ("", []) ups) payload ->
  Forall (hop_ok N) (ups ++ [down]) -> Forall (up_single N) ups -> down_hop N down ->
  lacks pipe sender -> ParseAddresses sender = [sender] ->
  Forall nack_ok nacks -> NoDup nacks ->
  Forall (idle N) (tail nacks) -> Forall (unseen N) (pair_ids nacks) ->
  waits N sender (List.hd "" nacks) i -> length evs = 2 * length ups ->
  exists N', deliver_all evs N = Some N' /\ refused N N' sender (List.hd "" nacks) i.
Proof.
  intros Ho Hne Hat Hok Hup Hdown Hs Hss Hnk Hnd Hid Hun Hw Hevs.
  destruct evs as [|ev evs _] using rev_ind; [destruct ups; done|]. rewrite length_app in Hevs. cbn in Hevs.
  destruct (nack_back ups sender nacks inner payload N down rest evs) as (N1 & HN1 & Hw1 & Hrel);
    try done; [lia|].
  destruct Hw as (ps & cs & Hps & Hpi & Hroom).
  rewrite Hss, sent_to_single in Hw1 by (apply up_true; eauto).
  assert (Hnk0 : nack_ok (List.hd "" nacks)).
  { destruct Ho as [? ? ? [|] ? ? ?|]; [by repeat split|by inversion Hnk|by inversion Hnk]. }
  assert (Haw := fun a => net_rel_awaiting _ _ _ a (seen_ext_book_net _ _ _ Hrel)).
  destruct (deliver_nack_sender ev N1 sender (List.hd "" nacks) i) as (N2 & HN2 & Hw2 & p & c & Hp & HpN2);
    try done.
  { eapply waits_keep; [apply Haw|]. by exists ps, cs. }
  exists N2. split.
  { rewrite deliver_all_app, HN1. cbn [mbind option_bind deliver_all]. by rewrite HN2. }
  assert (Hrest : forall B (g : Proc * list chan -> B) a,
    g <$> procs N2 !! a = if decide (a = sender)
      then Some (g (on_node (upd_PendingACKs (delete (List.hd "" nacks))) p, push i false c))
      else g <$> procs N1 !! a).
  { intros B g a. rewrite HpN2. case_decide as Ha; [subst a; by rewrite lookup_insert_eq|].
    by rewrite lookup_insert_ne. }
  split; [done|]. split; [|split]; intros a.
  - rewrite <- (net_rel_standing _ _ _ a (seen_ext_book_net _ _ _ Hrel)). unfold standing. rewrite Hrest.
    case_decide; [subst a; by rewrite Hp|done].
  - rewrite <- (net_rel_relaying _ _ _ a Hrel). unfold relaying. rewrite Hrest.
    case_decide; [subst a; by rewrite Hp|done].
  - rewrite <- !Haw. unfold awaiting. rewrite Hrest. case_decide; [subst a; by rewrite Hp|done].
Qed.
End Network.
