(* ===== verification/Views.v ===== *)
(** * What each hop of a route can read

    [peel] is what the holder of a key reads of a line, [reach] the line that
    arrives after the members of the first hops have each removed one layer.
    The lemmas say which line reaches a hop, and what its layer names. *)

From S2P Require Import Prelude GoStrings Base64 GoMonad Crypto OnionLayer KeyCache Node NodeSpec.
From S2P Require Import OnionBuild Network.

Section Views.
Context {C : CryptoLib} {L : CryptoLaws C}.

Definition peel (sk : PrivateKey) (ct : string) : option OnionLayer :=
  match BroadcastDecrypt ct sk with
  | GOk s => match StringToOnionLayer s with GOk l => Some l | _ => None end
  | _ => None
  end.

Fixpoint reach (sks : list PrivateKey) (ct : string) : option string :=
  match sks with
  | [] => Some ct
  | sk :: rest => l ← peel sk ct; reach rest (Data l)
  end.

Lemma reach_snoc sks sk ct ct' l :
  reach sks ct = Some ct' -> peel sk ct' = Some l -> reach (sks ++ [sk]) ct = Some (Data l).
Proof.
  revert ct. induction sks as [|sk' sks IH]; intros ct; cbn [reach app].
  - intros [= ->] ->. done.
  - destruct (peel sk' ct) as [l'|]; [|done]. cbn. apply IH.
Qed.

(** One key of each of the first hops. *)
Definition keys_of (sks : list PrivateKey) (hops : list hop) : Prop :=
  Forall2 (fun sk (h : hop) => Public sk ∈ h.2) sks hops.

Lemma peel_member pks l ct sk :
  layer_ct pks (OnionlayerToString l) ct -> wf_layer l -> Public sk ∈ pks -> peel sk ct = Some l.
Proof. intros Hl Hwf Hk. unfold peel. by rewrite (lct_member _ _ _ Hl), parse_print. Qed.

Lemma peel_outsider pks s ct sk : layer_ct pks s ct -> Public sk ∉ pks -> peel sk ct = None.
Proof. intros Hl Hk. unfold peel. by rewrite (lct_outsider _ _ _ Hl). Qed.

(** The layer of hop [i]: the inner layer at the end, before it a RELAY layer
    that names the two neighbours. *)
Definition layer_at (hops : list hop) (prev : string) (inner : OnionLayer) (i : nat)
    (l : OnionLayer) : Prop :=
  match hops !! (S i) with
  | None => l = inner
  | Some next => exists n1 n2 data, l = relay_layer n1 n2 next.1 (prev_of hops prev i) data
  end.

Lemma layer_at_next hops prev inner i l h' :
  layer_at hops prev inner i l -> hops !! (S i) = Some h' ->
  exists n1 n2 data, l = relay_layer n1 n2 h'.1 (prev_of hops prev i) data.
Proof. unfold layer_at. intros H E. by rewrite E in H. Qed.

Lemma layer_at_end hops prev inner i l :
  layer_at hops prev inner i l -> hops !! (S i) = @None (string * list PublicKey) -> l = inner.
Proof. unfold layer_at. intros H E. by rewrite E in H. Qed.

Lemma layer_at_cons (h : hop) hops prev inner i l :
  layer_at hops h.1 inner i l -> layer_at (h :: hops) prev inner (S i) l.
Proof.
  unfold layer_at. change ((h :: hops) !! S (S i)) with (hops !! S i).
  destruct (hops !! S i); [|done]. intros (m1 & m2 & data & ->). exists m1, m2, data. by destruct i.
Qed.

Lemma onion_view hops prev nacks inner ct i h :
  onion hops prev nacks (OnionlayerToString inner) ct -> wf_layer inner ->
  Forall (fun h : hop => lacks pipe h.1) hops -> lacks pipe prev -> Forall nack_ok nacks ->
  hops !! i = Some h ->
  exists ct_i l, (forall sks, keys_of sks (take i hops) -> reach sks ct = Some ct_i) /\
    layer_ct h.2 (OnionlayerToString l) ct_i /\ wf_layer l /\ layer_at hops prev inner i l.
Proof.
  intros Ho. remember (OnionlayerToString inner) as s eqn:Es. revert Es i h.
  induction Ho as [a pks prev nacks inner' ct Hl
                  |a1 pks1 a2 pks2 rest prev n1 n2 ns inner' ct2 ct1 Ho IH Hl];
    intros -> i h Hwf Hp Hprev Hn Hi.
  - destruct i as [|i]; [|done]. injection Hi as <-. exists ct, inner. split; [|done].
    intros sks Hs. by inversion Hs.
  - apply Forall_cons_1 in Hp as [Hp1 Hp]. apply Forall_cons_1 in Hn as [Hn1 Hn].
    assert (Hn2 := Hn). apply Forall_cons_1 in Hn2 as [Hn2 _].
    assert (Hp2 := Hp). apply Forall_cons_1 in Hp2 as [Hp2 _].
    assert (Hwf1 : wf_layer (relay_layer n1 n2 a2 prev ct2))
      by (apply wf_relay_layer; [done..|by eapply onion_is_line]).
    destruct i as [|i].
    + injection Hi as <-. exists ct1, (relay_layer n1 n2 a2 prev ct2).
      split; [intros sks Hs; by inversion Hs|]. split; [done|]. split; [done|]. by exists n1, n2, ct2.
    + destruct (IH eq_refl i h Hwf Hp Hp1 Hn Hi) as (ct_i & l & Hr & Hl' & Hwf' & Hat).
      exists ct_i, l. split; [|split_and!; [done|done|]].
      * intros sks Hs. cbn [take] in Hs. apply Forall2_cons_inv_r in Hs as (sk & sks' & Hk & Hs & ->).
        cbn [reach]. rewrite (peel_member _ _ _ _ Hl Hwf1 Hk). cbn. by apply Hr.
      * exact (layer_at_cons (a1, pks1) ((a2, pks2) :: rest) prev inner i l Hat).
Qed.

(** The two innermost layers are well formed. *)
Lemma wf_ack_layer msgID : id_shape "msg" msgID -> wf_layer (ack_layer msgID).
Proof.
  intros Hid. repeat split; cbn; try apply lacks_nil; try done.
  eapply id_shape_lacks; [exact Hid|done..].
Qed.

Lemma wf_final_layer msgID next ret frag message :
  id_shape "msg" msgID -> lacks pipe next -> ret = "" \/ onion_line ret -> lacks pipe frag ->
  wf_layer (MkOnionLayer "FINAL" msgID next "" ret frag message).
Proof.
  intros Hid Hn Hret Hf. repeat split; cbn; try done.
  - eapply id_shape_lacks; [exact Hid|done..].
  - destruct Hret as [->|Hret]; [apply lacks_nil|by apply onion_line_lacks].
Qed.

(** The line and the layer of hop [i]: who can read it, and what it names. *)
Definition readable (hops : list hop) (prev : string) (inner : OnionLayer) (ct : string) : Prop :=
  forall i h, hops !! i = Some h -> exists line l,
    (forall sks, keys_of sks (take i hops) -> reach sks ct = Some line) /\
    (forall sk, peel sk line = if decide (Public sk ∈ h.2) then Some l else None) /\
    layer_at hops prev inner i l.

Lemma onion_readable hops prev nacks inner ct :
  onion hops prev nacks (OnionlayerToString inner) ct -> wf_layer inner ->
  Forall (fun h : hop => lacks pipe h.1) hops -> lacks pipe prev -> Forall nack_ok nacks ->
  readable hops prev inner ct.
Proof.
  intros Ho Hwf Hp Hprev Hn i h Hi.
  destruct (onion_view _ _ _ _ _ i h Ho Hwf Hp Hprev Hn Hi) as (line & l & Hr & Hl & Hwl & Hat).
  exists line, l. split; [done|]. split; [|done].
  intros sk. case_decide as Hk; [by eapply peel_member|by eapply peel_outsider].
Qed.

(** Everything an onion lets anybody read, layer by layer: the line opens with
    the keys of its hop and with no other; a RELAY layer holds the two
    identifiers, the addresses of the next hop and of the previous one, the line
    for the next hop, and nothing more. *)
Definition opens_only (pks : list PublicKey) (line : string) (l : OnionLayer) : Prop :=
  forall sk, peel sk line = if decide (Public sk ∈ pks) then Some l else None.

Fixpoint shows (hops : list hop) (prev : string) (nacks : list string) (inner : OnionLayer)
    (line : string) : Prop :=
  match hops with
  | [] => False
  | h :: rest =>
      match rest, nacks with
      | [], _ => opens_only h.2 line inner
      | next :: _, n1 :: ((n2 :: _) as ns) =>
          exists data, opens_only h.2 line (relay_layer n1 n2 next.1 prev data) /\
            shows rest h.1 ns inner data
      | _, _ => False
      end
  end.

Lemma onion_shows hops prev nacks inner ct :
  onion hops prev nacks (OnionlayerToString inner) ct -> wf_layer inner ->
  Forall (fun h : hop => lacks pipe h.1) hops -> lacks pipe prev -> Forall nack_ok nacks ->
  shows hops prev nacks inner ct.
Proof.
  intros Ho Hwf. remember (OnionlayerToString inner) as s eqn:Es. revert Es.
  induction Ho as [a pks prev nacks inner' ct Hl
                  |a1 pks1 a2 pks2 rest prev n1 n2 ns inner' ct2 ct1 Ho IH Hl]; intros -> Hp Hprev Hn.
  - intros sk. case_decide; [by eapply peel_member|by eapply peel_outsider].
  - apply Forall_cons_1 in Hp as [Hp1 Hp]. apply Forall_cons_1 in Hn as [Hn1 Hn].
    assert (Hn2 := Hn). apply Forall_cons_1 in Hn2 as [Hn2 _].
    assert (Hp2 := Hp). apply Forall_cons_1 in Hp2 as [Hp2 _].
    assert (Hwf1 : wf_layer (relay_layer n1 n2 a2 prev ct2))
      by (apply wf_relay_layer; [done..|by eapply onion_is_line]).
    exists ct2. split; [|by apply IH].
    intros sk. case_decide; [by eapply peel_member|by eapply peel_outsider].
Qed.

(** What the members of hop [i] and then of hop [i+1] read. *)
Lemma readable_step hops prev inner ct i h h' sks sk :
  readable hops prev inner ct -> hops !! i = Some h -> hops !! (S i) = Some h' ->
  keys_of sks (take i hops) -> Public sk ∈ h.2 ->
  exists line l l', reach sks ct = Some line /\ peel sk line = Some l /\ layer_at hops prev inner i l /\
    (forall sk', Public sk' ∈ h'.2 -> peel sk' (Data l) = Some l') /\ layer_at hops prev inner (S i) l'.
Proof.
  intros Hr Hi Hi' Hks Hk.
  destruct (Hr i h Hi) as (line & l & Hl & Hp & Hat).
  destruct (Hr (S i) h' Hi') as (line' & l' & Hl' & Hp' & Hat').
  specialize (Hp sk). rewrite decide_True in Hp by done.
  exists line, l, l'. split; [by apply Hl|]. split; [done|]. split; [done|]. split; [|done].
  assert (H := reach_snoc _ _ _ _ _ (Hl _ Hks) Hp). rewrite Hl' in H.
  - injection H as <-. intros sk' Hk'. by rewrite Hp', decide_True.
  - rewrite (take_S_r _ _ h) by done. apply Forall2_app; [done|]. by repeat constructor.
Qed.

(** What an encapsulation lets each hop of the route and of the return route
    read. *)
Definition final_of (rhops : list hop) (msgID ret frag message : string) : OnionLayer :=
  MkOnionLayer "FINAL" msgID (match rhops with [] => "" | h :: _ => h.1 end) "" ret frag message.

Lemma encapsulated_view hops rhops sender rsender frag message nacks msgID payload :
  encapsulated hops rhops sender rsender frag message nacks msgID payload ->
  Forall (fun h : hop => lacks pipe h.1) (hops ++ rhops) -> lacks pipe sender -> lacks pipe rsender ->
  lacks pipe frag ->
  exists ret, readable hops sender (final_of rhops msgID ret frag message) payload /\
    (rhops <> [] -> readable rhops rsender (ack_layer msgID) ret).
Proof.
  intros [Hid Hnk _ (ret & Hret & Ho)] [Hp Hrp]%Forall_app Hs Hrs Hf.
  assert (Hok : Forall nack_ok nacks) by (eapply Forall_impl; [exact Hnk|apply nack_id_ok]).
  exists ret. split; [|intros Hne].
  - eapply onion_readable; [exact Ho| |done..]. apply wf_final_layer; [done| | |done].
    + destruct rhops; [apply lacks_nil|by apply Forall_cons_1 in Hrp as [? _]].
    + destruct rhops; [by left|right; by eapply onion_is_line].
  - destruct rhops as [|r rs]; [done|].
    eapply onion_readable; [exact Hret|by apply wf_ack_layer|done..|]. by apply Forall_reverse.
Qed.

(** The same, everything at once. *)
Lemma encapsulated_shows hops rhops sender rsender frag message nacks msgID payload :
  encapsulated hops rhops sender rsender frag message nacks msgID payload ->
  Forall (fun h : hop => lacks pipe h.1) (hops ++ rhops) -> lacks pipe sender -> lacks pipe rsender ->
  lacks pipe frag ->
  exists ret, shows hops sender nacks (final_of rhops msgID ret frag message) payload /\
    (rhops <> [] -> shows rhops rsender (reverse nacks) (ack_layer msgID) ret) /\
    (rhops = [] -> ret = "").
Proof.
  intros [Hid Hnk _ (ret & Hret & Ho)] [Hp Hrp]%Forall_app Hs Hrs Hf.
  assert (Hok : Forall nack_ok nacks) by (eapply Forall_impl; [exact Hnk|apply nack_id_ok]).
  exists ret. split; [|split].
  - eapply onion_shows; [exact Ho| |done..]. apply wf_final_layer; [done| | |done].
    + destruct rhops; [apply lacks_nil|by apply Forall_cons_1 in Hrp as [? _]].
    + destruct rhops; [by left|right; by eapply onion_is_line].
  - intros Hne. destruct rhops as [|r rs]; [done|].
    eapply onion_shows; [exact Hret|by apply wf_ack_layer|done..|]. by apply Forall_reverse.
  - intros ->. done.
Qed.
End Views.
