(* ===== verification/Directory.v ===== *)
(** * The directory server: List_Serveur/serveur.go and data/SQLManager.go

    The table of registered nodes, one definition per SQL statement, and the
    handlers that run them: one connection, the console, one pass of the
    reachability test. *)

From stdpp Require Import sorting.
From S2P Require Import Prelude GoStrings Base64 GoMonad.

(** ** The table *)

(** [model.NodeInfo]; a row is one with its rowid. *)
Record NodeInfo := MkInfo {
  Uuid : string;
  Name : string;
  Ip : string;
  IPort : Z;
  PublicKeyText : string;
  AvailabilityScore : Z;
  NetworkScore : Z }.

Record Table := MkTable { rows : list (Z * NodeInfo); sequence : Z }.

Definition set_avail (v : Z) (n : NodeInfo) : NodeInfo :=
  MkInfo (Uuid n) (Name n) (Ip n) (IPort n) (PublicKeyText n) v (NetworkScore n).
Definition set_keytext (k : string) (n : NodeInfo) : NodeInfo :=
  MkInfo (Uuid n) (Name n) (Ip n) (IPort n) k (AvailabilityScore n) (NetworkScore n).

(** The effect of each statement on the table. *)
Definition insert_row (n : NodeInfo) (t : Table) : Table :=
  MkTable (rows t ++ [(sequence t + 1, n)%Z]) (sequence t + 1)%Z.
Definition update_where (name : string) (f : NodeInfo -> NodeInfo) (t : Table) : Table :=
  MkTable ((fun r => if String.eqb (Name r.2) name then (r.1, f r.2) else r) <$> rows t) (sequence t).
Definition delete_where (name : string) (t : Table) : Table :=
  MkTable (filter (fun r => Name r.2 <> name) (rows t)) (sequence t).
Definition infos (t : Table) : list NodeInfo := snd <$> rows t.

(** A statement that may fail without effect. *)
Definition exec_sql (f : Table -> Table) : prog Table (option string) :=
  failed ← trigger EFault;
  if (failed : bool) then Ret (Some "sql error")
  else acc Db (fun t => (None, f t)).

Definition AddNode (n : NodeInfo) : prog Table (option string) := exec_sql (insert_row n).
Definition UpdateNodeKey (name newKey : string) : prog Table (option string) :=
  exec_sql (update_where name (set_keytext newKey)).
Definition RemoveNode (nodeID : string) : prog Table (option string) :=
  exec_sql (delete_where nodeID).
Definition UpdateAvailabilityScore (name : string) (score : Z) : prog Table (option string) :=
  exec_sql (update_where name (set_avail score)).
Definition ClearTable : prog Table (option string) :=
  e ← exec_sql (fun t => MkTable [] (sequence t));
  match e with
  | Some err => Ret (Some err)
  | None => exec_sql (fun t => MkTable (rows t) 0)
  end.

(** [sql.Open]; the errors of the two pragmas are dropped. *)
Definition Connect : prog Table (option string) :=
  failed ← trigger EFault;
  Ret (if (failed : bool) then Some "sql error" else None).

(** [CREATE TABLE IF NOT EXISTS] leaves the rows of an earlier run; so do the
    two [ALTER TABLE], whose errors are dropped. *)
Definition InitTable : prog Table (option string) :=
  e ← exec_sql (fun t => t);
  match e with
  | Some err => Ret (Some err)
  | None => exec_sql (fun t => t) ;; exec_sql (fun t => t) ;; Ret None
  end.

(** [ORDER BY RANDOM() * (availability_score + network_score + 1) DESC]: one
    signed 64-bit draw per row.  SQLite rounds products beyond 64 bits to a
    double and leaves the order of equal keys open; the model compares the exact
    products and keeps equal keys in the order of the table. *)
Definition weight (n : NodeInfo) : Z := (AvailabilityScore n + NetworkScore n + 1)%Z.

Fixpoint draw_order (l : list NodeInfo) : prog Table (list (Z * NodeInfo)) :=
  match l with
  | [] => Ret []
  | n :: rest =>
      r ← trigger (EIntn (2 ^ 64));
      tl ← draw_order rest;
      Ret (((r - 2 ^ 63) * weight n, n)%Z :: tl)
  end.

Definition key_ge (x y : Z * NodeInfo) : Prop := (y.1 <= x.1)%Z.
#[export] Instance key_ge_dec : RelDecision key_ge.
Proof. intros x y. unfold key_ge. apply _. Defined.

(** The query reads one snapshot of the table. *)
Definition GetNodesList (limit : nat) : prog Table (list NodeInfo + string) :=
  failed ← trigger EFault;
  if (failed : bool) then Ret (inr "sql error")
  else
    l ← read Db infos;
    keyed ← draw_order l;
    Ret (inl (take limit (snd <$> merge_sort key_ge keyed))).

Definition MaxSampleNodes : nat := 500.

(** ** Answers *)

Definition list_entry (info : NodeInfo) : string :=
  Name info +:+ "|" +:+ Ip info +:+ "|" +:+ Itoa (IPort info) +:+ "|" +:+ PublicKeyText info
    +:+ "|" +:+ Itoa (AvailabilityScore info) +:+ "|" +:+ Itoa (NetworkScore info).

Definition list_answer (nodes : list NodeInfo) : string :=
  match nodes with
  | [] => "LIST:empty" +:+ str1 nl
  | _ => "LIST:" +:+ Join (list_entry <$> nodes) comma +:+ str1 nl
  end.

Definition getNodesList : prog Table string :=
  nodes ← GetNodesList MaxSampleNodes;
  Ret (match nodes with inr _ => list_answer [] | inl l => list_answer l end).

(** The host of [net.SplitHostPort], empty on an error. *)
Definition SplitHostPort_host (s : string) : string :=
  match s with
  | String "["%char t =>
      match SplitN t "]"%char 2 with
      | [h; String ":"%char p] =>
          if Contains p colon || Contains p "["%char || Contains p "]"%char || Contains h "["%char
          then "" else h
      | _ => ""
      end
  | _ =>
      match Split s colon with
      | [h; p] => if Contains s "["%char || Contains s "]"%char then "" else h
      | _ => ""
      end
  end.

Fixpoint find_key_of (ip : string) (port : Z) (nodes : list NodeInfo) : option string :=
  match nodes with
  | [] => None
  | n :: rest =>
      if String.eqb (Ip n) ip && (IPort n =? port)%Z then Some (PublicKeyText n)
      else find_key_of ip port rest
  end.

(** ** One connection *)

Section Serve.
(** [uuid.New().String()] from the random bytes it draws. *)
Variable uuid_text : string -> string.

Definition reply (s : string) : prog Table unit := trigger (EReply s) ;; Ret tt.

Definition handle_INIT (remoteAddr : string) (parts : list string) : prog Table unit :=
  if length parts <? 6 then reply ("ERROR:Invalid format" +:+ str1 nl)
  else
    name ← get_index parts 1;
    p2 ← get_index parts 2;
    key ← get_index parts 3;
    p4 ← get_index parts 4;
    p5 ← get_index parts 5;
    addr ← trigger (EGetenv "NODE_ADDR");
    let host := if String.eqb addr "" then SplitHostPort_host remoteAddr else addr in
    u ← trigger (ERandBytes 16);
    let info := MkInfo (uuid_text u) name host (atoi_val p2) key (atoi_val p4) (atoi_val p5) in
    err ← AddNode info;
    match err with
    | Some _ => Ret tt
    | None => reply ("INIT_ACK:" +:+ name +:+ ":" +:+ host +:+ str1 nl)
    end.

Definition handle_UPDATE_KEY (parts : list string) : prog Table unit :=
  if length parts <? 3 then reply ("ERROR:Invalid format" +:+ str1 nl)
  else
    id ← get_index parts 1;
    key ← get_index parts 2;
    UpdateNodeKey id key ;;
    Ret tt.

Definition handle_GET_KEY (parts : list string) : prog Table unit :=
  if length parts <? 3 then reply ("ERROR:Invalid format" +:+ str1 nl)
  else
    ip ← get_index parts 1;
    p2 ← get_index parts 2;
    match Atoi p2 with
    | (_, Some _) => reply ("ERROR:Invalid port" +:+ str1 nl)
    | (port, None) =>
        r ← GetNodesList MaxSampleNodes;
        match find_key_of ip port (match r with inl nodes => nodes | inr _ => [] end) with
        | Some k => reply ("KEY:" +:+ k +:+ str1 nl)
        | None => reply ("ERROR:Node not found" +:+ str1 nl)
        end
    end.

Definition handle_QUIT (parts : list string) : prog Table unit :=
  if length parts <? 2 then Ret tt
  else
    id ← get_index parts 1;
    RemoveNode id ;;
    Ret tt.

Definition handleConnection (remoteAddr conn : string) : prog Table unit :=
  match ReadString conn with
  | None => Ret tt
  | Some line =>
      let parts := Split (TrimSpace line) colon in
      match parts with
      | [] => Ret tt
      | cmd :: _ =>
          if String.eqb cmd "INIT" then handle_INIT remoteAddr parts
          else if String.eqb cmd "UPDATE_KEY" then handle_UPDATE_KEY parts
          else if String.eqb cmd "GET_LIST" then l ← getNodesList; reply l
          else if String.eqb cmd "GET_KEY" then handle_GET_KEY parts
          else if String.eqb cmd "QUIT" then handle_QUIT parts
          else reply ("ERROR:Unknown command" +:+ str1 nl)
      end
  end.

(** ** The console and the reachability test *)

Definition show_line (info : NodeInfo) : string :=
  "  . " +:+ Name info +:+ " - Addr: " +:+ Ip info +:+ ":" +:+ Itoa (IPort info) +:+ ", Key: "
    +:+ PublicKeyText info +:+ ", [Sa:" +:+ Itoa (AvailabilityScore info) +:+ " Sn:"
    +:+ Itoa (NetworkScore info) +:+ "]".

Fixpoint print_all {S} (lines : list string) : prog S unit :=
  match lines with
  | [] => Ret tt
  | l :: rest => trigger (EPrint l) ;; print_all rest
  end.

Definition showNodes : prog Table unit :=
  r ← GetNodesList MaxSampleNodes;
  match r with
  | inr err => trigger (EPrint ("Error: " +:+ err))
  | inl nodes =>
      print_all ([str1 nl +:+ "=== Noeuds connectés ==="]
        ++ (match nodes with [] => ["  (aucun)"] | _ => show_line <$> nodes end)
        ++ ["Total: " +:+ Itoa (Z.of_nat (length nodes)) +:+ str1 nl])
  end.

(** One line typed at the console; [false] ends the server. *)
Definition console (input : string) : prog Table bool :=
  let cmd := ToUpper (TrimSpace input) in
  if String.eqb cmd "LIST" then showNodes ;; Ret true
  else if String.eqb cmd "QUIT" then trigger (EPrint "Shutting down server...") ;; Ret false
  else trigger (EPrint "Commande inconnue. Utilise LIST ou QUIT") ;; Ret true.

(** The lines typed until the end of the input or QUIT. *)
Fixpoint console_loop (inputs : list string) : prog Table unit :=
  match inputs with
  | [] => Ret tt
  | input :: rest =>
      go_on ← console input;
      if (go_on : bool) then console_loop rest else Ret tt
  end.

(** [main] up to [go acceptConnections(listener)]; [false]: it returned. *)
Definition start_server : prog Table bool :=
  no_cert ← trigger EFault;
  if (no_cert : bool) then Ret false
  else
    no_listener ← trigger EFault;
    if (no_listener : bool) then Ret false
    else
      e1 ← Connect;
      match e1 with
      | Some _ => Ret false
      | None =>
          e2 ← InitTable;
          match e2 with
          | Some _ => Ret false
          | None =>
              e3 ← ClearTable;
              match e3 with
              | Some _ => Ret false
              | None =>
                  print_all [str1 nl +:+ "Commandes disponibles:"; "  LIST - Afficher les noeuds connectés";
                    "  QUIT - Arrêter le serveur"; ""] ;;
                  Ret true
              end
          end
      end.

(** [net.JoinHostPort]. *)
Definition JoinHostPort (host port : string) : string :=
  if Contains host colon then "[" +:+ host +:+ "]:" +:+ port else host +:+ ":" +:+ port.

(** [net.DialTimeout] of one node, and what follows. *)
Definition ping (n : NodeInfo) : prog Table unit :=
  ok ← trigger (EDial (JoinHostPort (Ip n) (Itoa (IPort n))) "");
  if negb ok then
    let newScore := Z.quot (AvailabilityScore n) 2 in
    if (newScore <? 5)%Z then RemoveNode (Name n) ;; Ret tt
    else UpdateAvailabilityScore (Name n) newScore ;; Ret tt
  else if (AvailabilityScore n <? 100)%Z then
    UpdateAvailabilityScore (Name n) (Z.min (AvailabilityScore n + 5) 100) ;; Ret tt
  else Ret tt.

Fixpoint ping_all (nodes : list NodeInfo) : prog Table unit :=
  match nodes with
  | [] => Ret tt
  | n :: rest => ping n ;; ping_all rest
  end.

(** One tick of [TestPing]. *)
Definition TestPing_tick : prog Table unit :=
  r ← GetNodesList MaxSampleNodes;
  match r with
  | inr _ => Ret tt
  | inl nodes => ping_all nodes
  end.

(** The first ticks of [TestPing], one every 10 s. *)
Fixpoint TestPing (ticks : nat) : prog Table unit :=
  match ticks with
  | 0 => Ret tt
  | Datatypes.S k => TestPing_tick ;; TestPing k
  end.
End Serve.
