(* ===== verification/DirectorySpec.v ===== *)
(** * What the directory server promises

    The requests the nodes send are understood, a registered key is found
    again, and the reachability test halves, raises and evicts as one function
    of the table. *)

From stdpp Require Import sorting.
From S2P Require Import Prelude GoStrings Base64 GoMonad Crypto OnionLayer KeyCache Node NodeSpec.
From S2P Require Import Directory.

(** ** Statements *)

Section Statements.
Variable ev : env Table.
Hypothesis Hok : forall n, e_fault ev n = false.

Lemma wp_exec_sql f t c tr Q :
  (forall u, Forall internal u -> Q None (World (f t) [] c (tr ++ u))) ->
  wp ev (exec_sql f) (World t [] c tr) Q.
Proof. intros HQ. unfold exec_sql. wp_steps. rewrite Hok. wp_steps. apply HQ. by constructor. Qed.

Lemma wp_draw_order l t c tr Q :
  (forall keyed u, keyed.*2 = l -> Forall internal u -> Q keyed (World t [] c (tr ++ u))) ->
  wp ev (draw_order l) (World t [] c tr) Q.
Proof.
  revert tr Q. induction l as [|n l IH]; intros tr Q HQ; cbn [draw_order].
  - wp_steps. specialize (HQ [] []). rewrite app_nil_r in HQ. by apply HQ.
  - wp_steps. apply wp_intn; [lia|]. intros r w' _ (u & -> & Hu)%quiet_inv.
    wp_steps. apply IH. intros keyed v Hk Hv. wp_steps. rewrite <- app_assoc.
    apply HQ; [by rewrite fmap_cons, Hk|by apply Forall_app].
Qed.

(** The listing is a sample of the table: all of it, in some order, up to the
    limit. *)
Lemma wp_GetNodesList limit t c tr Q :
  (forall l u, l ≡ₚ infos t -> Forall internal u ->
     Q (inl (take limit l)) (World t [] c (tr ++ u))) ->
  wp ev (GetNodesList limit) (World t [] c tr) Q.
Proof.
  intros HQ. unfold GetNodesList. wp_steps. rewrite Hok. wp_steps.
  apply wp_draw_order. intros keyed u Hk Hu. wp_steps. rewrite <- app_assoc. apply HQ.
  - rewrite <- Hk. apply fmap_Permutation, merge_sort_Permutation.
  - by constructor.
Qed.
End Statements.

(** ** Requests *)

Definition field_ok (f : string) : Prop := lacks colon f /\ sforall graphic f = true.

#[export] Instance field_ok_dec f : Decision (field_ok f).
Proof. unfold field_ok. apply _. Defined.

Lemma Itoa_field z : field_ok (Itoa z).
Proof. split; [by apply Itoa_lacks|apply Itoa_graphic]. Qed.

Lemma b64_field s : field_ok (EncodeToString s).
Proof. split; [by apply EncodeToString_lacks|apply EncodeToString_graphic]. Qed.

Lemma fields_graphic fs : Forall field_ok fs -> sforall graphic (Join fs colon) = true.
Proof.
  intros H. apply sforall_Join; [done|]. eapply Forall_impl; [exact H|by intros ? []].
Qed.

(** A request made of fields is read back as these fields. *)
Lemma request_fields fs :
  Forall field_ok fs -> fs <> [] ->
  exists line, ReadString (Join fs colon +:+ str1 nl) = Some line /\
    Split (TrimSpace line) colon = fs.
Proof.
  intros Hf Hne. assert (Hg := fields_graphic _ Hf).
  exists (Join fs colon +:+ str1 nl). split.
  - apply ReadString_line. by eapply sforall_lacks.
  - rewrite TrimSpace_line by done. apply Split_Join; [done|].
    eapply Forall_impl; [exact Hf|by intros ? []].
Qed.

Definition init_line (name : string) (port : Z) (key : string) (sa sn : Z) : string :=
  "INIT:" +:+ name +:+ ":" +:+ Itoa port +:+ ":" +:+ key +:+ ":" +:+ Itoa sa +:+ ":" +:+ Itoa sn
    +:+ str1 nl.
Definition get_key_line (ip : string) (port : Z) : string :=
  "GET_KEY:" +:+ ip +:+ ":" +:+ Itoa port +:+ str1 nl.

Lemma init_line_fields name port key sa sn :
  init_line name port key sa sn =
  Join ["INIT"; name; Itoa port; key; Itoa sa; Itoa sn] colon +:+ str1 nl.
Proof.
  unfold init_line. cbn [Join]. rewrite !app_str_assoc, !app_str_cons.
  repeat (rewrite !app_str_assoc || rewrite !app_str_cons || rewrite !app_str_nil_l). done.
Qed.

Lemma get_key_line_fields ip port :
  get_key_line ip port = Join ["GET_KEY"; ip; Itoa port] colon +:+ str1 nl.
Proof.
  unfold get_key_line. cbn [Join].
  repeat (rewrite !app_str_assoc || rewrite !app_str_cons || rewrite !app_str_nil_l). done.
Qed.

Definition update_key_line (name key : string) : string :=
  "UPDATE_KEY:" +:+ name +:+ ":" +:+ key +:+ str1 nl.
Definition quit_line (name : string) : string := "QUIT:" +:+ name +:+ str1 nl.

Lemma update_key_line_fields name key :
  update_key_line name key = Join ["UPDATE_KEY"; name; key] colon +:+ str1 nl.
Proof.
  unfold update_key_line. cbn [Join].
  repeat (rewrite !app_str_assoc || rewrite !app_str_cons || rewrite !app_str_nil_l). done.
Qed.

Lemma quit_line_fields name : quit_line name = Join ["QUIT"; name] colon +:+ str1 nl.
Proof.
  unfold quit_line. cbn [Join].
  repeat (rewrite !app_str_assoc || rewrite !app_str_cons || rewrite !app_str_nil_l). done.
Qed.

Section Serve.
Variable uuid_text : string -> string.
Variable ev : env Table.
Hypothesis Hok : forall n, e_fault ev n = false.

Definition host_of (remote : string) : string :=
  if String.eqb (e_getenv ev "NODE_ADDR") "" then SplitHostPort_host remote
  else e_getenv ev "NODE_ADDR".

Lemma handleConnection_fields remote fs cmd rest w Q :
  Forall field_ok fs -> fs = cmd :: rest ->
  wp ev (if String.eqb cmd "INIT" then handle_INIT uuid_text remote fs
          else if String.eqb cmd "UPDATE_KEY" then handle_UPDATE_KEY fs
          else if String.eqb cmd "GET_LIST" then l ← getNodesList; reply l
          else if String.eqb cmd "GET_KEY" then handle_GET_KEY fs
          else if String.eqb cmd "QUIT" then handle_QUIT fs
          else reply ("ERROR:Unknown command" +:+ str1 nl)) w Q ->
  wp ev (handleConnection uuid_text remote (Join fs colon +:+ str1 nl)) w Q.
Proof.
  intros Hf -> HQ. unfold handleConnection.
  destruct (request_fields _ Hf) as (line & -> & Hs); [done|]. by rewrite Hs.
Qed.

Lemma wp_reply_dir s t c tr Q :
  (forall ok, Q tt (World t [] c (tr ++ [EvReply s ok]))) ->
  wp ev (reply s) (World t [] c tr) Q.
Proof. intros HQ. unfold reply. wp_steps. apply HQ. Qed.

Lemma wp_INIT remote name port key sa sn t c tr Q :
  field_ok name -> field_ok key -> is_int64 port -> is_int64 sa -> is_int64 sn ->
  (forall u tr' ok, Forall internal tr' ->
     Q tt (World (insert_row (MkInfo u name (host_of remote) port key sa sn) t) [] c
       (tr ++ tr' ++ [EvReply ("INIT_ACK:" +:+ name +:+ ":" +:+ host_of remote +:+ str1 nl) ok]))) ->
  wp ev (handleConnection uuid_text remote (init_line name port key sa sn)) (World t [] c tr) Q.
Proof.
  intros Hn Hk Hp Hsa Hsn HQ. rewrite init_line_fields.
  eapply handleConnection_fields; [|reflexivity|].
  { repeat constructor; try apply Hn; try apply Hk; apply Itoa_field. }
  cbn [String.eqb Ascii.eqb Bool.eqb]. unfold handle_INIT. cbn [length Nat.ltb Nat.leb].
  unfold get_index. cbn [lookup list_lookup]. wp_steps.
  apply wp_rand_bytes. intros u w' _ (tr1 & -> & H1)%quiet_inv. wp_steps.
  unfold AddNode. apply wp_exec_sql; [done|]. intros tr2 H2. apply wp_reply_dir. intros ok.
  rewrite !atoi_val_Itoa by done. rewrite <- !app_assoc.
  specialize (HQ (uuid_text u) (tr1 ++ tr2) ok). rewrite <- app_assoc in HQ. apply HQ.
  by apply Forall_app.
Qed.

Lemma wp_UPDATE_KEY remote name key t c tr Q :
  field_ok name -> field_ok key ->
  (forall u, Forall internal u -> Q tt (World (update_where name (set_keytext key) t) [] c (tr ++ u))) ->
  wp ev (handleConnection uuid_text remote (update_key_line name key)) (World t [] c tr) Q.
Proof.
  intros Hn Hk HQ. rewrite update_key_line_fields.
  eapply handleConnection_fields; [|reflexivity|].
  { repeat constructor; try apply Hn; try apply Hk. }
  cbn [String.eqb Ascii.eqb Bool.eqb]. unfold handle_UPDATE_KEY. cbn [length Nat.ltb Nat.leb].
  unfold get_index. cbn [lookup list_lookup]. wp_steps.
  unfold UpdateNodeKey. apply wp_exec_sql; [done|]. intros u Hu. wp_steps. by apply HQ.
Qed.

Lemma wp_QUIT remote name t c tr Q :
  field_ok name ->
  (forall u, Forall internal u -> Q tt (World (delete_where name t) [] c (tr ++ u))) ->
  wp ev (handleConnection uuid_text remote (quit_line name)) (World t [] c tr) Q.
Proof.
  intros Hn HQ. rewrite quit_line_fields.
  eapply handleConnection_fields; [|reflexivity|].
  { repeat constructor; try apply Hn. }
  cbn [String.eqb Ascii.eqb Bool.eqb]. unfold handle_QUIT. cbn [length Nat.ltb Nat.leb].
  unfold get_index. cbn [lookup list_lookup]. wp_steps.
  unfold RemoveNode. apply wp_exec_sql; [done|]. intros u Hu. wp_steps. by apply HQ.
Qed.

Lemma find_key_of_Some ip port l k :
  find_key_of ip port l = Some k -> exists n, n ∈ l /\ Ip n = ip /\ IPort n = port /\ PublicKeyText n = k.
Proof.
  induction l as [|n l IH]; [done|]. cbn. destruct (String.eqb_spec (Ip n) ip) as [Hi|]; cbn.
  - destruct (Z.eqb_spec (IPort n) port) as [Hp|].
    + intros [= <-]. exists n. split; [by left|done].
    + intros (m & Hm & ?)%IH. exists m. split; [by right|done].
  - intros (m & Hm & ?)%IH. exists m. split; [by right|done].
Qed.

Lemma find_key_of_None ip port l :
  find_key_of ip port l = None -> forall n, n ∈ l -> Ip n = ip -> IPort n = port -> False.
Proof.
  induction l as [|n l IH]; [by intros _ n ?%not_elem_of_nil|]. cbn.
  destruct (String.eqb_spec (Ip n) ip) as [Hi|]; cbn;
    [destruct (Z.eqb_spec (IPort n) port) as [Hp|]; [done|]|];
    intros H m [->|Hm]%elem_of_cons ??; try done; by eapply IH.
Qed.

(** [k] is the only key registered for the address. *)
Definition key_of (t : Table) (ip : string) (port : Z) (k : string) : Prop :=
  (exists n, n ∈ infos t /\ Ip n = ip /\ IPort n = port) /\
  forall n, n ∈ infos t -> Ip n = ip -> IPort n = port -> PublicKeyText n = k.

Lemma wp_GET_KEY remote ip port k t c tr Q :
  field_ok ip -> is_int64 port -> key_of t ip port k -> length (rows t) <= MaxSampleNodes ->
  (forall tr' ok, Forall internal tr' ->
     Q tt (World t [] c (tr ++ tr' ++ [EvReply ("KEY:" +:+ k +:+ str1 nl) ok]))) ->
  wp ev (handleConnection uuid_text remote (get_key_line ip port)) (World t [] c tr) Q.
Proof.
  intros Hi Hp [(n & Hn & Hip & Hpo) Huniq] Hlen HQ. rewrite get_key_line_fields.
  eapply handleConnection_fields; [|reflexivity|].
  { repeat constructor; try apply Hi; apply Itoa_field. }
  cbn [String.eqb Ascii.eqb Bool.eqb]. unfold handle_GET_KEY. cbn [length Nat.ltb Nat.leb].
  unfold get_index. cbn [lookup list_lookup]. wp_steps. rewrite Atoi_Itoa by done. cbn iota. wp_steps.
  apply wp_GetNodesList; [done|]. intros l u Hl Hu. cbn iota.
  rewrite take_ge by (rewrite Hl; unfold infos; by rewrite length_fmap).
  destruct (find_key_of ip port l) as [k'|] eqn:E.
  - apply find_key_of_Some in E as (m & Hm & Hmi & Hmp & <-). rewrite Hl in Hm.
    rewrite (Huniq m) by done. apply wp_reply_dir. intros ok. rewrite <- app_assoc. by apply HQ.
  - exfalso. rewrite <- Hl in Hn. by eapply find_key_of_None.
Qed.
End Serve.

(** ** The reachability test as one function of the table *)

(** What one tick makes of a node: nothing left of it, or its new entry. *)
Definition ping_row (up : string -> bool) (n : NodeInfo) : option NodeInfo :=
  if up (JoinHostPort (Ip n) (Itoa (IPort n))) then
    Some (if (AvailabilityScore n <? 100)%Z
          then set_avail (Z.min (AvailabilityScore n + 5) 100) n else n)
  else if (Z.quot (AvailabilityScore n) 2 <? 5)%Z then None
  else Some (set_avail (Z.quot (AvailabilityScore n) 2) n).

Definition ping_some (up : string -> bool) (done : list string) (r : Z * NodeInfo)
    : option (Z * NodeInfo) :=
  if decide (Name r.2 ∈ done) then (fun n => (r.1, n)) <$> ping_row up r.2 else Some r.

Definition partial_tick (up : string -> bool) (done : list string) (t : Table) : Table :=
  MkTable (omap (ping_some up done) (rows t)) (sequence t).

Definition tick_table (up : string -> bool) (t : Table) : Table :=
  MkTable (omap (fun r => (fun n => (r.1, n)) <$> ping_row up r.2) (rows t)) (sequence t).

Definition names (t : Table) : list string := Name <$> infos t.

Section Ping.
Variables (ev : env Table) (up : string -> bool).
Hypothesis Hok : forall n, e_fault ev n = false.
Hypothesis Hup : forall n a, e_dial ev n a = up a.

Lemma ping_row_name n n' : ping_row up n = Some n' -> Name n' = Name n.
Proof. unfold ping_row. repeat case_match; intros; by simplify_eq. Qed.

Lemma ping_some_in don r :
  Name r.2 ∈ don -> ping_some up don r = (fun n => (r.1, n)) <$> ping_row up r.2.
Proof. intros H. unfold ping_some. by rewrite decide_True. Qed.

Lemma ping_some_out don r : Name r.2 ∉ don -> ping_some up don r = Some r.
Proof. intros H. unfold ping_some. by rewrite decide_False. Qed.

Lemma ping_some_other n don r :
  Name r.2 <> Name n -> ping_some up (Name n :: don) r = ping_some up don r.
Proof.
  intros Hne. unfold ping_some. destruct (decide (Name r.2 ∈ don)).
  - by rewrite decide_True by (by right).
  - by rewrite decide_False by (by intros [?|?]%elem_of_cons).
Qed.

Lemma ping_some_name don r r' : ping_some up don r = Some r' -> Name r'.2 = Name r.2.
Proof.
  unfold ping_some. case_decide; [|by intros [= ->]].
  destruct (ping_row up r.2) as [m|] eqn:E; intros [= <-]. by apply ping_row_name.
Qed.

(** The statement of [ping] for [n], applied to rows where [n] alone bears its
    name. *)
Lemma delete_partial n don (rs : list (Z * NodeInfo)) :
  Name n ∉ don -> (forall r, r ∈ rs -> Name r.2 = Name n -> r.2 = n) -> ping_row up n = None ->
  filter (fun r => Name r.2 <> Name n) (omap (ping_some up don) rs) =
  omap (ping_some up (Name n :: don)) rs.
Proof.
  intros Hd Hu Hn. induction rs as [|r rs IH]; [done|]. cbn [omap list_omap].
  assert (Hr := Hu r ltac:(by left)). rewrite <- IH by (intros; apply Hu; [by right|done]).
  destruct (decide (Name r.2 = Name n)) as [He|Hne].
  - rewrite ping_some_out, ping_some_in by (rewrite He; done || by left).
    rewrite (Hr He), Hn. cbn [fmap option_fmap option_map].
    rewrite filter_cons_False; [done|]. rewrite He. by intros [].
  - rewrite ping_some_other by done. destruct (ping_some up don r) as [m|] eqn:E; [|done].
    rewrite filter_cons_True; [done|]. by rewrite (ping_some_name _ _ _ E).
Qed.

Lemma update_partial n n' f don (rs : list (Z * NodeInfo)) :
  Name n ∉ don -> (forall r, r ∈ rs -> Name r.2 = Name n -> r.2 = n) ->
  ping_row up n = Some n' -> f n = n' ->
  (fun r => if String.eqb (Name r.2) (Name n) then (r.1, f r.2) else r) <$>
    omap (ping_some up don) rs = omap (ping_some up (Name n :: don)) rs.
Proof.
  intros Hd Hu Hn Hf. induction rs as [|r rs IH]; [done|]. cbn [omap list_omap].
  assert (Hr := Hu r ltac:(by left)). rewrite <- IH by (intros; apply Hu; [by right|done]).
  destruct (decide (Name r.2 = Name n)) as [He|Hne].
  - rewrite ping_some_out, ping_some_in by (rewrite He; done || by left).
    rewrite fmap_cons, (Hr He), Hn, String.eqb_refl, Hf. done.
  - rewrite ping_some_other by done. destruct (ping_some up don r) as [m|] eqn:E; [|done].
    apply String.eqb_neq in Hne. by rewrite fmap_cons, (ping_some_name _ _ _ E), Hne.
Qed.

Lemma partial_keep n done t :
  Name n ∉ done -> (forall r, r ∈ rows t -> Name r.2 = Name n -> r.2 = n) ->
  ping_row up n = Some n -> partial_tick up (Name n :: done) t = partial_tick up done t.
Proof.
  intros Hd Hu Hn. unfold partial_tick. f_equal.
  rewrite <- (update_partial n n id done); [|done..].
  etrans; [apply (list_fmap_ext _ id)|apply list_fmap_id].
  intros _ [z m] _. cbn. by destruct (String.eqb _ _).
Qed.

Lemma wp_ping n done t c tr Q :
  Name n ∉ done -> (forall r, r ∈ rows t -> Name r.2 = Name n -> r.2 = n) ->
  (forall u, replies u = [] -> Q tt (World (partial_tick up (Name n :: done) t) [] c (tr ++ u))) ->
  wp ev (ping n) (World (partial_tick up done t) [] c tr) Q.
Proof.
  intros Hd Hu HQ. unfold ping. wp_steps. rewrite Hup.
  destruct (up _) eqn:E; cbn [negb].
  - destruct (AvailabilityScore n <? 100)%Z eqn:Es.
    + wp_steps. apply wp_exec_sql; [done|]. intros u Hi. wp_steps. rewrite <- app_assoc.
      replace (update_where _ _ _) with (partial_tick up (Name n :: done) t).
      { apply HQ. by rewrite replies_app, (NodeSpec.internal_replies u). }
      unfold update_where, partial_tick. cbn [rows sequence]. f_equal. symmetry.
      eapply update_partial; [done..| |done]. unfold ping_row. by rewrite E, Es.
    + wp_steps. rewrite <- (partial_keep n done t); [by apply HQ|done..|].
      unfold ping_row. by rewrite E, Es.
  - destruct (Z.quot (AvailabilityScore n) 2 <? 5)%Z eqn:Es.
    + wp_steps. apply wp_exec_sql; [done|]. intros u Hi. wp_steps. rewrite <- app_assoc.
      replace (delete_where _ _) with (partial_tick up (Name n :: done) t).
      { apply HQ. by rewrite replies_app, (NodeSpec.internal_replies u). }
      unfold delete_where, partial_tick. cbn [rows sequence]. f_equal. symmetry.
      apply delete_partial; [done..|]. unfold ping_row. by rewrite E, Es.
    + wp_steps. apply wp_exec_sql; [done|]. intros u Hi. wp_steps. rewrite <- app_assoc.
      replace (update_where _ _ _) with (partial_tick up (Name n :: done) t).
      { apply HQ. by rewrite replies_app, (NodeSpec.internal_replies u). }
      unfold update_where, partial_tick. cbn [rows sequence]. f_equal. symmetry.
      eapply update_partial; [done..| |done]. unfold ping_row. by rewrite E, Es.
Qed.

Lemma unique_row t n r :
  NoDup (names t) -> n ∈ infos t -> r ∈ rows t -> Name r.2 = Name n -> r.2 = n.
Proof.
  intros Hnd Hn Hr He. unfold names, infos in *.
  apply list_elem_of_lookup_1 in Hn as [i Hi].
  assert (Hr2 : r.2 ∈ (rows t).*2) by (apply list_elem_of_fmap; eauto).
  apply list_elem_of_lookup_1 in Hr2 as [j Hj].
  assert (i = j) as ->; [|congruence].
  eapply NoDup_lookup; [exact Hnd|by rewrite list_lookup_fmap, Hi|].
  rewrite list_lookup_fmap, Hj. cbn. by rewrite He.
Qed.

Lemma wp_ping_all l done t c tr Q :
  NoDup (names t) -> NoDup (Name <$> l) -> l ⊆ infos t ->
  (forall n, n ∈ l -> Name n ∉ done) ->
  (forall u, replies u = [] ->
     Q tt (World (partial_tick up (reverse (Name <$> l) ++ done) t) [] c (tr ++ u))) ->
  wp ev (ping_all l) (World (partial_tick up done t) [] c tr) Q.
Proof.
  intros Hnt. revert done tr Q. induction l as [|n l IH]; intros don tr Q Hl Hsub Hd HQ;
    cbn [ping_all].
  - wp_steps. specialize (HQ [] eq_refl). by rewrite app_nil_r in HQ.
  - apply NoDup_cons in Hl as [Hnl Hl]. wp_steps. apply wp_ping.
    + apply Hd. by left.
    + intros r Hr. apply (unique_row t); [done| |done]. apply Hsub. by left.
    + intros u Hu. apply IH; [done|intros ??; apply Hsub; by right| |].
      * intros m Hm [He|Hin]%elem_of_cons; [|by apply (Hd m); [right|]].
        apply Hnl. rewrite <- He. by apply list_elem_of_fmap_2.
      * intros v Hv. rewrite fmap_cons, reverse_cons, <- app_assoc in HQ. rewrite <- app_assoc.
        apply HQ. by rewrite replies_app, Hu.
Qed.

Lemma partial_none t : partial_tick up [] t = t.
Proof.
  destruct t as [rs sq]. unfold partial_tick. f_equal. cbn. induction rs as [|r rs IH]; [done|].
  cbn. unfold ping_some at 1. rewrite decide_False by apply not_elem_of_nil. by rewrite IH.
Qed.

Lemma partial_all l t : (forall n, n ∈ infos t -> Name n ∈ l) -> partial_tick up l t = tick_table up t.
Proof.
  intros H. unfold partial_tick, tick_table. f_equal. unfold infos in H.
  destruct t as [rs sq]. cbn in *. induction rs as [|r rs IH]; [done|]. cbn.
  rewrite IH by (intros; apply H; by right). unfold ping_some at 1.
  by rewrite decide_True by (apply H; by left).
Qed.

Lemma wp_TestPing_tick t c tr Q :
  NoDup (names t) -> length (rows t) <= MaxSampleNodes ->
  (forall u, replies u = [] -> Q tt (World (tick_table up t) [] c (tr ++ u))) ->
  wp ev TestPing_tick (World t [] c tr) Q.
Proof.
  intros Hnd Hlen HQ. unfold TestPing_tick. wp_steps. apply wp_GetNodesList; [done|].
  intros l u Hl Hu. cbn iota.
  rewrite take_ge by (rewrite Hl; unfold infos; by rewrite length_fmap).
  rewrite <- (partial_none t) at 1. apply wp_ping_all; [done| | | |].
  - rewrite Hl. exact Hnd.
  - intros n Hn. by rewrite <- Hl.
  - intros n _. apply not_elem_of_nil.
  - intros v Hv. rewrite app_nil_r, <- app_assoc, (partial_all _ t).
    + apply HQ. by rewrite replies_app, (NodeSpec.internal_replies u).
    + intros n Hn. rewrite reverse_Permutation. apply list_elem_of_fmap_2. by rewrite Hl.
Qed.

(** ** Rows of one name

    Without the names being distinct: a tick adds no name, and removes every row
    of the name of a row that is down and out of score. *)
Definition spent (n : NodeInfo) : Prop :=
  up (JoinHostPort (Ip n) (Itoa (IPort n))) = false /\ (Z.quot (AvailabilityScore n) 2 < 5)%Z.

Lemma names_delete name t x : x ∈ names (delete_where name t) <-> x ∈ names t /\ x <> name.
Proof.
  unfold names, infos, delete_where. cbn [rows]. rewrite <- !list_fmap_compose, !list_elem_of_fmap.
  setoid_rewrite list_elem_of_filter. split; [|naive_solver].
  intros (r & -> & Hne & Hr). split; [by exists r|done].
Qed.

Lemma names_update name v t : names (update_where name (set_avail v) t) = names t.
Proof.
  unfold names, infos, update_where. cbn [rows]. rewrite <- !list_fmap_compose. apply list_fmap_ext.
  intros i r _. cbn. by destruct (String.eqb _ _).
Qed.

Lemma wp_ping_names n t c tr Q :
  (forall t' u, replies u = [] -> names t' ⊆ names t -> (spent n -> Name n ∉ names t') ->
     Q tt (World t' [] c (tr ++ u))) ->
  wp ev (ping n) (World t [] c tr) Q.
Proof.
  intros HQ.
  assert (Hd : forall u, replies u = [] -> Q tt (World (delete_where (Name n) t) [] c (tr ++ u))).
  { intros u Hu. apply HQ; [done|by intros x [? _]%names_delete|by intros _ [_ ?]%names_delete]. }
  assert (Hk : forall v u, replies u = [] -> ~ spent n ->
    Q tt (World (update_where (Name n) (set_avail v) t) [] c (tr ++ u))).
  { intros v u Hu Hn. apply HQ; [done|by rewrite names_update|done]. }
  unfold ping. wp_steps. rewrite Hup. destruct (up _) eqn:E; cbn [negb].
  - assert (Hn : ~ spent n) by (intros [? _]; congruence).
    destruct (_ <? 100)%Z; wp_steps; [|by apply HQ].
    apply wp_exec_sql; [done|]. intros u Hi. wp_steps. rewrite <- app_assoc. apply Hk; [|done].
    by rewrite replies_app, (NodeSpec.internal_replies u).
  - destruct (Z.ltb_spec (Z.quot (AvailabilityScore n) 2) 5); wp_steps;
      (apply wp_exec_sql; [done|]; intros u Hi; wp_steps; rewrite <- app_assoc).
    + apply Hd. by rewrite replies_app, (NodeSpec.internal_replies u).
    + apply Hk; [by rewrite replies_app, (NodeSpec.internal_replies u)|]. intros [_ ?]. lia.
Qed.

Lemma wp_ping_all_names l t c tr Q :
  (forall t' u, replies u = [] -> names t' ⊆ names t ->
     (forall n, n ∈ l -> spent n -> Name n ∉ names t') -> Q tt (World t' [] c (tr ++ u))) ->
  wp ev (ping_all l) (World t [] c tr) Q.
Proof.
  revert t tr Q. induction l as [|n l IH]; intros t tr Q HQ; cbn [ping_all].
  - wp_steps. specialize (HQ t [] eq_refl). rewrite app_nil_r in HQ. apply HQ; [done|].
    by intros n ?%not_elem_of_nil.
  - apply wp_bind, wp_ping_names. intros t1 u Hu H1 Hs1. apply IH. intros t2 v Hv H2 Hs2.
    rewrite <- app_assoc. apply HQ; [by rewrite replies_app, Hu|by etrans|].
    intros m [->|Hm]%elem_of_cons Hs; [|by apply Hs2]. intros Hin. by apply Hs1, H2.
Qed.

Lemma wp_TestPing_tick_names t c tr Q :
  length (rows t) <= MaxSampleNodes ->
  (forall t' u, replies u = [] -> names t' ⊆ names t ->
     (forall n, n ∈ infos t -> spent n -> Name n ∉ names t') -> Q tt (World t' [] c (tr ++ u))) ->
  wp ev TestPing_tick (World t [] c tr) Q.
Proof.
  intros Hlen HQ. unfold TestPing_tick. wp_steps. apply wp_GetNodesList; [done|].
  intros l u Hl Hu. cbn iota.
  rewrite take_ge by (rewrite Hl; unfold infos; by rewrite length_fmap).
  apply wp_ping_all_names. intros t' v Hv Hsub Hs. rewrite <- app_assoc. apply HQ; [|done|].
  - by rewrite replies_app, (NodeSpec.internal_replies u).
  - intros n Hn. apply Hs. by rewrite Hl.
Qed.
End Ping.

(** ** Many ticks *)

Fixpoint ticks (up : string -> bool) (k : nat) (t : Table) : Table :=
  match k with 0 => t | S k => ticks up k (tick_table up t) end.

Definition is_up (up : string -> bool) (n : NodeInfo) : bool := up (JoinHostPort (Ip n) (Itoa (IPort n))).

(** What a tick never changes. *)
Definition ident (n : NodeInfo) : string * string * string * Z * string :=
  (Uuid n, Name n, Ip n, IPort n, PublicKeyText n).

Section Ticks.
Variable up : string -> bool.

Fixpoint row_ticks (k : nat) (n : NodeInfo) : option NodeInfo :=
  match k with 0 => Some n | S k => ping_row up n ≫= row_ticks k end.

Lemma infos_tick t : infos (tick_table up t) = omap (ping_row up) (infos t).
Proof.
  destruct t as [rs sq]. unfold infos, tick_table. cbn [rows].
  induction rs as [|r rs IH]; [done|]. cbn. destruct (ping_row up r.2); cbn; by rewrite <- IH.
Qed.

Lemma omap_omap {A B D} (f : A -> option B) (g : B -> option D) (l : list A) :
  omap g (omap f l) = omap (fun x => f x ≫= g) l.
Proof.
  induction l as [|x l IH]; [done|]. cbn. destruct (f x) as [y|]; cbn; [|done].
  destruct (g y); cbn; by rewrite <- IH.
Qed.

Lemma omap_some {A} (l : list A) : omap Some l = l.
Proof. induction l as [|x l IH]; [done|]. cbn. by rewrite <- IH at 2. Qed.

Lemma infos_ticks k t : infos (ticks up k t) = omap (row_ticks k) (infos t).
Proof.
  revert t. induction k as [|k IH]; intros t; cbn [ticks].
  - symmetry. apply omap_some.
  - by rewrite IH, infos_tick, omap_omap.
Qed.

Lemma ping_row_ident n n' : ping_row up n = Some n' -> ident n' = ident n.
Proof. unfold ping_row. repeat case_match; intros; by simplify_eq. Qed.

Lemma ident_is_up n n' : ident n' = ident n -> is_up up n' = is_up up n.
Proof. unfold ident, is_up. intros [= _ _ -> -> _]. done. Qed.

Lemma row_ticks_up k n : is_up up n = true -> exists n', row_ticks k n = Some n' /\ ident n' = ident n.
Proof.
  revert n. induction k as [|k IH]; intros n Hn; cbn [row_ticks]; [by exists n|].
  destruct (ping_row up n) as [m|] eqn:E.
  - cbn. assert (Hm := ping_row_ident _ _ E). destruct (IH m) as (n' & ? & ?).
    + by rewrite (ident_is_up _ _ Hm).
    + exists n'. split; [done|congruence].
  - unfold ping_row, is_up in *. by rewrite Hn in E.
Qed.

Lemma quot_2_lt x y : (x < 2 * y -> 0 < y -> Z.quot x 2 < y)%Z.
Proof. intros. Z.to_euclidean_division_equations. lia. Qed.

(** An unreachable node halves until it is below 5. *)
Lemma row_ticks_down k n :
  is_up up n = false -> (AvailabilityScore n < 10 * 2 ^ Z.of_nat k)%Z -> row_ticks (S k) n = None.
Proof.
  revert n. induction k as [|k IH]; intros n Hn Hs; cbn [row_ticks]; unfold ping_row;
    unfold is_up in Hn; rewrite Hn.
  - assert ((Z.quot (AvailabilityScore n) 2 <? 5)%Z = true) as ->; [|done].
    apply Z.ltb_lt, quot_2_lt; [|lia]. change (10 * 2 ^ Z.of_nat 0)%Z with 10%Z in Hs. lia.
  - destruct (_ <? 5)%Z; [done|]. cbn [mbind option_bind]. apply IH; [done|].
    rewrite Nat2Z.inj_succ, Z.pow_succ_r in Hs by lia. cbn [AvailabilityScore set_avail].
    apply quot_2_lt; lia.
Qed.

Lemma row_ticks_add j k n : row_ticks (j + k) n = row_ticks j n ≫= row_ticks k.
Proof.
  revert n. induction j as [|j IH]; intros n; [done|]. cbn [row_ticks Nat.add].
  destruct (ping_row up n) as [m|]; [|done]. cbn. apply IH.
Qed.

(** After five ticks the table holds the reachable nodes and no other. *)
Lemma ticks_evict k t :
  5 <= k -> Forall (fun n => AvailabilityScore n <= 100)%Z (infos t) ->
  ident <$> infos (ticks up k t) = ident <$> filter (fun n => is_up up n = true) (infos t).
Proof.
  intros Hk Hs. rewrite infos_ticks. induction Hs as [|n l Hn Hs IH]; [done|].
  rewrite filter_cons. cbn [omap list_omap]. case_decide as Hu.
  - destruct (row_ticks_up k n Hu) as (n' & -> & Hi). by rewrite !fmap_cons, IH, Hi.
  - apply not_true_is_false in Hu. assert (row_ticks k n = None) as ->; [|exact IH].
    replace k with (5 + (k - 5)) by lia. rewrite row_ticks_add, (row_ticks_down 4); [done..|].
    cbn; lia.
Qed.

Lemma names_tick t : NoDup (names t) -> NoDup (names (tick_table up t)).
Proof.
  unfold names. rewrite infos_tick. induction (infos t) as [|n l IH]; [done|].
  intros [Hn Hl]%NoDup_cons. cbn [omap list_omap].
  destruct (ping_row up n) as [m|] eqn:E; [|by apply IH]. rewrite fmap_cons. apply NoDup_cons.
  split; [|by apply IH]. rewrite (ping_row_name up _ _ E). intros (x & Hx & Hin)%list_elem_of_fmap.
  apply list_elem_of_omap in Hin as (y & Hy & Hyx). apply Hn.
  rewrite Hx, (ping_row_name up _ _ Hyx). by apply list_elem_of_fmap_2.
Qed.

Lemma rows_tick t : length (rows (tick_table up t)) <= length (rows t).
Proof.
  destruct t as [rs sq]. unfold tick_table. cbn [rows]. induction rs as [|r rs IH]; [done|].
  cbn. destruct (ping_row up r.2); cbn; lia.
Qed.

Lemma wp_TestPing (ev : env Table) k t c tr Q :
  (forall n, e_fault ev n = false) -> (forall n a, e_dial ev n a = up a) ->
  NoDup (names t) -> length (rows t) <= MaxSampleNodes ->
  (forall u, replies u = [] -> Q tt (World (ticks up k t) [] c (tr ++ u))) ->
  wp ev (TestPing k) (World t [] c tr) Q.
Proof.
  intros Hok Hup. revert t tr. induction k as [|k IH]; intros t tr Hnd Hl HQ; cbn [TestPing ticks].
  - apply wp_ret. specialize (HQ [] eq_refl). by rewrite app_nil_r in HQ.
  - apply wp_bind, (wp_TestPing_tick ev up Hok Hup); [done..|]. intros u Hu. apply IH.
    + by apply names_tick.
    + etrans; [apply rows_tick|done].
    + intros v Hv. rewrite <- app_assoc. apply HQ. by rewrite replies_app, Hu.
Qed.
End Ticks.

(** ** Registration, and the key found again *)

(** The answer of the directory to one line, and the table after it. *)
Definition answer (uuid_text : string -> string) (ev : env Table) (remote line : string) (t : Table)
    : option string * Table :=
  let w := (run ev (handleConnection uuid_text remote line) (World t [] [] [])).2 in
  (head (replies (w_trace w)), w_st w).

Section Registration.
Context {C : CryptoLib} {L : CryptoLaws C}.
Variable uuid_text : string -> string.

Lemma answer_wp ev remote line t r t' :
  wp ev (handleConnection uuid_text remote line) (World t [] [] [])
    (fun _ w => head (replies (w_trace w)) = r /\ w_st w = t') ->
  answer uuid_text ev remote line t = (r, t').
Proof.
  unfold answer, wp. destruct (run _ _ _) as [[[]| |] w]; [|done..]. cbn. by intros [<- <-].
Qed.

Lemma internal_head_reply tr s ok : Forall internal tr -> head (replies (tr ++ [EvReply s ok])) = Some s.
Proof. intros H. by rewrite replies_app, (NodeSpec.internal_replies tr). Qed.

Lemma key_of_insert t u name host port key sa sn :
  (forall n, n ∈ infos t -> Ip n = host -> IPort n <> port) ->
  key_of (insert_row (MkInfo u name host port key sa sn) t) host port key.
Proof.
  intros Hnew. unfold key_of, infos, insert_row in *. cbn [rows]. rewrite fmap_app. cbn. split.
  - eexists. split; [apply elem_of_app; right; by left|done].
  - intros n [Hn|Hn]%elem_of_app Hi Hp; [by destruct (Hnew n Hn Hi)|].
    by apply list_elem_of_singleton in Hn as ->.
Qed.

(** A node whose registration is the only one at its address has the key it
    last sent. *)
Definition registered_at (t : Table) (name host : string) (port : Z) : Prop :=
  (exists n, n ∈ infos t /\ Ip n = host /\ IPort n = port) /\
  forall n, n ∈ infos t -> Ip n = host -> IPort n = port -> Name n = name.

Lemma infos_update name f t n :
  n ∈ infos (update_where name f t) <->
  exists m, m ∈ infos t /\ n = if String.eqb (Name m) name then f m else m.
Proof.
  unfold infos, update_where. cbn [rows]. rewrite <- list_fmap_compose.
  setoid_rewrite list_elem_of_fmap. split.
  - intros ([z m] & -> & Hm). exists m. split; [by exists (z, m)|]. cbn. by destruct (String.eqb _ _).
  - intros (m & ([z m'] & -> & Hm) & ->). exists (z, m'). split; [|done]. cbn. by destruct (String.eqb _ _).
Qed.

Lemma key_of_update t name host port key :
  registered_at t name host port ->
  key_of (update_where name (set_keytext key) t) host port key.
Proof.
  intros [(n & Hn & Hi & Hp) Hu]. split.
  - exists (set_keytext key n). split; [|done]. apply infos_update. exists n. split; [done|].
    by rewrite (Hu n), String.eqb_refl.
  - intros m (m' & Hm' & ->)%infos_update. destruct (String.eqb_spec (Name m') name) as [|Hne]; [done|].
    intros Him Hpm. by destruct Hne; apply Hu.
Qed.

(** The answer to [INIT] sets the client's address. *)
Lemma wp_JoinServerList (ev : env Proc) sa sn host p c tr Q :
  let key := EncodeToString (MarshalPKIX (NPublicKey (node p))) in
  field_ok (ID (node p)) -> field_ok host ->
  (forall n, e_request ev n (init_line (ID (node p)) (Port (node p)) key sa sn)
             = Some ("INIT_ACK:" +:+ ID (node p) +:+ ":" +:+ host +:+ str1 nl)) ->
  (forall u, Q (inl tt) (World (on_node (set_NodeIP host) p) [] c (tr ++ u))) ->
  wp ev (JoinServerList sa sn) (World p [] c tr) Q.
Proof.
  intros key Hid Hh He HQ. unfold JoinServerList. wp_steps. cbn [fst snd].
  fold (init_line (ID (node p)) (Port (node p)) key sa sn). rewrite He. cbn iota.
  set (fs := ["INIT_ACK"; ID (node p); host]).
  assert (Hline : "INIT_ACK:" +:+ ID (node p) +:+ ":" +:+ host +:+ str1 nl = Join fs colon +:+ str1 nl).
  { unfold fs. cbn [Join].
    repeat (rewrite !app_str_assoc || rewrite !app_str_cons || rewrite !app_str_nil_l). done. }
  assert (Hfs : Forall field_ok fs).
  { apply Forall_cons_2; [done|]. apply Forall_cons_2; [done|]. apply Forall_cons_2; [done|].
    by apply Forall_nil_2. }
  rewrite Hline, TrimSpace_line by (by apply fields_graphic).
  assert (HasPrefix (Join fs colon) "INIT_ACK" = true) as -> by apply (HasPrefix_app "INIT_ACK").
  unfold fs. cbn [Join]. change (String colon ?x) with (String colon x).
  rewrite SplitN_app by done. rewrite SplitN_app by apply Hid. rewrite SplitN_1.
  wp_steps. apply HQ.
Qed.

Lemma wp_FetchKey (ev : env Proc) host port pk p c tr Q :
  field_ok host ->
  (forall n, e_request ev n (get_key_line host port)
             = Some ("KEY:" +:+ EncodeToString (MarshalPKIX pk) +:+ str1 nl)) ->
  (forall u, Q (inl pk) (World p [] c (tr ++ u))) ->
  wp ev (FetchKeyFromServer (host +:+ ":" +:+ Itoa port)) (World p [] c tr) Q.
Proof.
  intros Hh He HQ. unfold FetchKeyFromServer.
  assert (Hl : "GET_KEY:" +:+ (host +:+ ":" +:+ Itoa port) +:+ str1 nl = get_key_line host port).
  { unfold get_key_line. by rewrite !app_str_assoc. }
  rewrite Hl. wp_steps. rewrite He. wp_steps.
  set (k := EncodeToString (MarshalPKIX pk)).
  assert (Hp : parse_key_response ("KEY:" +:+ k +:+ str1 nl) = inl pk); [|rewrite Hp; apply HQ].
  unfold parse_key_response. rewrite <- (app_str_assoc "KEY:" k).
  assert (Hg : sforall graphic k = true) by apply EncodeToString_graphic.
  rewrite TrimSpace_line by (by rewrite sforall_app, Hg).
  assert (HasPrefix ("KEY:" +:+ k) "ERROR:" = false) as -> by reflexivity. change ("KEY:" +:+ k) with ("KEY" +:+ String colon k).
  rewrite SplitN_app by done. rewrite SplitN_1. cbn [String.eqb Ascii.eqb Bool.eqb].
  unfold k. by rewrite DecodeString_EncodeToString, parse_marshal.
Qed.
End Registration.
