(* ===== verification/DirectoryConcurrency.v ===== *)
(** * The directory server, connections and reachability test side by side

    Every goroutine of the server keeps any invariant of the table that the
    single SQL statements keep; so two facts hold in every interleaving: row
    identifiers grow and are never used twice, and a row keeps its identity
    from its insertion to its removal. *)

From stdpp Require Import sorting.
From S2P Require Import Prelude GoStrings Base64 GoMonad Concurrency Crypto OnionLayer KeyCache Node NodeSpec.
From S2P Require Import Directory DirectorySpec.

(** ** What the server runs *)

(** The goroutines once [main] has started: a connection, the console, the
    reachability test up to any of its ticks. *)
Inductive server_starts (uuid_text : string -> string) : prog Table unit -> Prop :=
| starts_connection remote conn : server_starts uuid_text (handleConnection uuid_text remote conn)
| starts_TestPing k : server_starts uuid_text (TestPing k)
| starts_console inputs : server_starts uuid_text (console_loop inputs).

(** The handlers start no goroutine of their own. *)
Definition no_body (g : goroutine) : prog Table unit := Ret tt.

Definition server_reach (uuid_text : string -> string) : @config Table -> @config Table -> Prop :=
  reach no_body (server_starts uuid_text).

(** ** The updates of the table *)

Record table_stable (I : Table -> Prop) : Prop := {
  st_insert n t : I t -> I (insert_row n t);
  st_delete name t : I t -> I (delete_where name t);
  st_avail name v t : I t -> I (update_where name (set_avail v) t);
  st_keytext name k t : I t -> I (update_where name (set_keytext k) t) }.

Section Balanced.
Variable I : Table -> Prop.
Variable uuid_text : string -> string.
Hypothesis HI : table_stable I.

Abbreviation bal := (balanced I (fun _ => True)).

Lemma bal_exec_sql f : (forall t, I t -> I (f t)) -> bal (exec_sql f).
Proof.
  intros Hf. unfold exec_sql. bal_steps. apply bal_trigger; [|done]. split; [by left|].
  cbn. by apply Hf.
Qed.

Lemma bal_AddNode n : bal (AddNode n).
Proof. apply bal_exec_sql, (st_insert I HI). Qed.
Lemma bal_UpdateNodeKey name k : bal (UpdateNodeKey name k).
Proof. apply bal_exec_sql, (st_keytext I HI). Qed.
Lemma bal_RemoveNode name : bal (RemoveNode name).
Proof. apply bal_exec_sql, (st_delete I HI). Qed.
Lemma bal_UpdateAvailabilityScore name v : bal (UpdateAvailabilityScore name v).
Proof. apply bal_exec_sql, (st_avail I HI). Qed.
Hint Resolve bal_AddNode bal_UpdateNodeKey bal_RemoveNode bal_UpdateAvailabilityScore : dor_bal.

Lemma bal_draw_order l : bal (draw_order l).
Proof.
  induction l as [|n l IH]; cbn [draw_order]; [bal_steps|].
  apply bal_bind; [|intros; bal_steps]. apply bal_trigger; [|done]. by split.
Qed.
Hint Resolve bal_draw_order : dor_bal.

Lemma bal_read_rows {A} (f : Table -> A) : bal (read Db f).
Proof. apply bal_trigger; [|done]. split; [by left|by intros ? ?]. Qed.
Hint Resolve bal_read_rows : dor_bal.

Lemma bal_Directory_list limit : bal (GetNodesList limit).
Proof. unfold GetNodesList. bal_steps. Qed.
Hint Resolve bal_Directory_list : dor_bal.

Lemma bal_getNodesList : bal getNodesList.
Proof. unfold getNodesList. bal_steps. Qed.
Lemma bal_reply s : bal (reply s).
Proof. unfold reply. bal_steps. Qed.
Hint Resolve bal_getNodesList bal_reply : dor_bal.

Lemma bal_INIT remote parts : bal (handle_INIT uuid_text remote parts).
Proof. unfold handle_INIT. cbn zeta. bal_steps. Qed.
Lemma bal_UPDATE_KEY parts : bal (handle_UPDATE_KEY parts).
Proof. unfold handle_UPDATE_KEY. bal_steps. Qed.
Lemma bal_GET_KEY parts : bal (handle_GET_KEY parts).
Proof. unfold handle_GET_KEY. bal_steps. Qed.
Lemma bal_QUIT parts : bal (handle_QUIT parts).
Proof. unfold handle_QUIT. bal_steps. Qed.
Hint Resolve bal_INIT bal_UPDATE_KEY bal_GET_KEY bal_QUIT : dor_bal.

Lemma bal_handleConnection remote conn : bal (handleConnection uuid_text remote conn).
Proof. unfold handleConnection. cbn zeta. bal_steps. Qed.

Lemma bal_print_all lines : bal (print_all lines).
Proof. induction lines as [|l lines IH]; cbn [print_all]; bal_steps. Qed.
Hint Resolve bal_print_all : dor_bal.

Lemma bal_showNodes : bal showNodes.
Proof. unfold showNodes. bal_steps. Qed.
Hint Resolve bal_showNodes : dor_bal.

Lemma bal_console input : bal (console input).
Proof. unfold console. cbn zeta. bal_steps. Qed.
Hint Resolve bal_console : dor_bal.

Lemma bal_console_loop inputs : bal (console_loop inputs).
Proof. induction inputs as [|l inputs IH]; cbn [console_loop]; bal_steps. Qed.

Lemma bal_ping n : bal (ping n).
Proof. unfold ping. cbn zeta. bal_steps. Qed.
Hint Resolve bal_ping : dor_bal.

Lemma bal_ping_all l : bal (ping_all l).
Proof. induction l as [|n l IH]; cbn [ping_all]; bal_steps. Qed.
Hint Resolve bal_ping_all : dor_bal.

Lemma bal_TestPing_tick : bal TestPing_tick.
Proof. unfold TestPing_tick. bal_steps. Qed.
Hint Resolve bal_TestPing_tick : dor_bal.

Lemma bal_TestPing k : bal (TestPing k).
Proof. induction k as [|k IH]; cbn [TestPing]; bal_steps. Qed.

Lemma server_starts_fine p : server_starts uuid_text p -> bal p.
Proof.
  intros [remote conn|k|inputs]; [apply bal_handleConnection|apply bal_TestPing|apply bal_console_loop].
Qed.

(** An invariant of the single statements is one of the server. *)
Lemma server_keeps t c c' :
  server_reach uuid_text (Cfg t [] []) c -> server_reach uuid_text c c' -> I (c_st c) -> I (c_st c').
Proof.
  intros Hr Hr' Hc.
  assert (Hbody : forall g, bal (no_body g)) by done.
  assert (Hfr : fresh_from (fun _ => True) (c_chans (Cfg t [] []))) by done.
  destruct (fine_reach no_body _ _ (fun _ => True) server_starts_fine Hbody _ _ Hfr (Forall_nil_2 _) Hr) as [Hf Hfr'].
  exact (proj2 (inv_reach no_body _ I _ c c' server_starts_fine Hbody Hfr' Hf Hc Hr')).
Qed.
End Balanced.

(** ** Row identifiers *)

(** They increase along the table, and [AUTOINCREMENT] is past them all. *)
Definition rows_ok (t : Table) : Prop :=
  StronglySorted Z.lt (rows t).*1 /\ Forall (fun i => 0 < i <= sequence t)%Z (rows t).*1.

Lemma rows_ok_sub t rs :
  rs `sublist_of` rows t -> rows_ok t -> rows_ok (MkTable rs (sequence t)).
Proof.
  intros Hs [H1 H2]. apply (fmap_sublist fst) in Hs. split; cbn [rows sequence].
  - by eapply StronglySorted_sublist.
  - by eapply Forall_sublist.
Qed.

Lemma update_ids name f t : (rows (update_where name f t)).*1 = (rows t).*1.
Proof.
  unfold update_where. cbn [rows]. rewrite <- list_fmap_compose. apply list_fmap_ext.
  intros i [z n] _. cbn. by destruct (String.eqb _ _).
Qed.

Lemma rows_ok_insert n t : (0 <= sequence t)%Z -> rows_ok t -> rows_ok (insert_row n t).
Proof.
  intros Hs [H1 H2]. unfold rows_ok, insert_row. cbn [rows sequence]. rewrite fmap_app. cbn. split.
  - apply StronglySorted_app_2; [|done|by repeat constructor].
    intros x y Hx ->%list_elem_of_singleton. rewrite Forall_forall in H2. apply H2 in Hx. lia.
  - apply Forall_app. split; [|apply Forall_singleton; lia].
    eapply Forall_impl; [exact H2|]. cbn. lia.
Qed.

(** ** A row from its insertion to its removal *)

(** What no statement changes of a row. *)
Definition fixed (n : NodeInfo) : string * string * string * Z * Z :=
  (Uuid n, Name n, Ip n, IPort n, NetworkScore n).

(** From [t] to [t']: identifiers are not given twice, what was removed does
    not come back, and every row is what it was but for its key and its
    availability. *)
Definition evolves (t t' : Table) : Prop :=
  (sequence t <= sequence t')%Z /\
  forall i n', (i, n') ∈ rows t' -> (i <= sequence t)%Z ->
    exists n, (i, n) ∈ rows t /\ fixed n' = fixed n.

Lemma evolves_refl t : evolves t t.
Proof. split; [done|]. intros i n Hn _. by exists n. Qed.

(** A statement that inserts nothing. *)
Lemma evolves_sub t0 t t' :
  sequence t' = sequence t ->
  (forall i n', (i, n') ∈ rows t' -> exists n, (i, n) ∈ rows t /\ fixed n' = fixed n) ->
  evolves t0 t -> evolves t0 t'.
Proof.
  intros Hs Hr [H1 H2]. split; [by rewrite Hs|]. intros i n' Hn' Hi.
  destruct (Hr i n' Hn') as (m & Hm & Em). destruct (H2 i m Hm Hi) as (n & Hn & En).
  exists n. split; [done|congruence].
Qed.

Lemma update_rows name f t i n' :
  (forall n, fixed (f n) = fixed n) -> (i, n') ∈ rows (update_where name f t) ->
  exists n, (i, n) ∈ rows t /\ fixed n' = fixed n.
Proof.
  intros Hf ([j m] & Heq & Hm)%list_elem_of_fmap. cbn in Heq.
  destruct (String.eqb _ _); injection Heq as -> ->; by exists m.
Qed.

(** What holds of the table at every point, [t0] being an earlier table. *)
Definition table_inv (t0 t : Table) : Prop := (0 <= sequence t)%Z /\ rows_ok t /\ evolves t0 t.

Lemma table_inv_stable t0 : (0 <= sequence t0)%Z -> table_stable (table_inv t0).
Proof.
  intros H0. split.
  - intros n t (Hs & Hr & [H1 H2]). split; [cbn; lia|]. split; [by apply rows_ok_insert|].
    split; [cbn; lia|]. cbn [rows insert_row]. intros i n' [Hi|Hi]%elem_of_app Hle; [by apply H2|].
    apply list_elem_of_singleton in Hi. injection Hi as -> ->. lia.
  - intros name t (Hs & Hr & He). split; [done|].
    assert (Hsub : rows (delete_where name t) `sublist_of` rows t) by apply sublist_filter.
    split; [by apply rows_ok_sub|]. eapply evolves_sub; [|..|exact He]; [done|].
    intros i n' Hn'. exists n'. split; [|done]. by apply (sublist_subseteq _ _ Hsub).
  - intros name v t (Hs & Hr & He). split; [done|]. split.
    + unfold rows_ok. rewrite update_ids. exact Hr.
    + eapply evolves_sub; [|..|exact He]; [done|]. intros i n'. by apply update_rows.
  - intros name k t (Hs & Hr & He). split; [done|]. split.
    + unfold rows_ok. rewrite update_ids. exact Hr.
    + eapply evolves_sub; [|..|exact He]; [done|]. intros i n'. by apply update_rows.
Qed.

(** Whatever the connections and the test do side by side from an empty table
    on. *)
Lemma server_table uuid_text c c' :
  server_reach uuid_text (Cfg (MkTable [] 0) [] []) c -> server_reach uuid_text c c' ->
  rows_ok (c_st c') /\ evolves (c_st c) (c_st c').
Proof.
  intros Hr Hr'. set (t0 := MkTable [] 0).
  assert (Hinit : table_inv t0 t0) by (split_and!; [done|by split; constructor|apply evolves_refl]).
  assert (Hc : table_inv t0 (c_st c)).
  { by apply (server_keeps (table_inv t0) uuid_text (table_inv_stable t0 (Z.le_refl 0)) t0 (Cfg t0 [] []) c); [apply rtc_refl|..]. }
  destruct Hc as (H0 & Hok & _).
  destruct (server_keeps (table_inv (c_st c)) uuid_text (table_inv_stable _ H0) t0 c c' Hr Hr') as (_ & ? & ?).
  - by split_and!; [..|apply evolves_refl].
  - done.
Qed.

(** ** The start *)

Lemma wp_start_server (ev : env Table) t c tr :
  wp ev start_server (World t [] c tr) (fun ok w =>
    ok = true -> w_st w = MkTable [] 0 /\ w_chans w = c).
Proof.
  unfold start_server, Connect, InitTable, ClearTable, exec_sql.
  repeat (wp_steps || case_match); try done.
Qed.
