(* ===== verification/Cluster.v ===== *)
(** * node/cluster.go: grouping the relays of an SSEND

    [BuildSmartClusters] deals the usable relays into [numHops] groups, best
    scores first.  Scores are IEEE doubles, computed with the Standard
    Library's SpecFloat.  [sort.Slice] is not stable, so it enters as an
    interface: some permutation, in decreasing order of score. *)

From Stdlib Require Import SpecFloat Sorting.Sorted.
From S2P Require Import Prelude GoStrings Base64 GoMonad Crypto OnionLayer KeyCache Node.
From S2P Require Import OnionBuild Directory.

(** ** float64 *)

Definition f64 : Type := spec_float.
Definition f64_of_Z (z : Z) : f64 := binary_normalize 53 1024 z 0 false.
Definition f64_add (x y : f64) : f64 := SFadd 53 1024 x y.
Definition f64_mul (x y : f64) : f64 := SFmul 53 1024 x y.
Definition f64_div (x y : f64) : f64 := SFdiv 53 1024 x y.
Definition f64_zero : f64 := S754_zero false.
Definition f64_max : f64 := S754_finite false (2 ^ 53 - 1) 971.

Definition WeightAvailability : f64 := S754_finite false (2 ^ 52) (-53).
Definition WeightNetwork : f64 := S754_finite false (2 ^ 52) (-53).
Definition TargetClusterScore : Z := 150.
Definition MaxNodesPerCluster : Z := 5.
Definition MinClusters : Z := 3.

Definition calculateNodeScore (n : NodeInfo) : f64 :=
  f64_add (f64_mul (f64_of_Z (AvailabilityScore n)) WeightAvailability)
          (f64_mul (f64_of_Z (NetworkScore n)) WeightNetwork).

(** ** sort.Slice *)

Class GoSort := SortSlice : forall {A}, (A -> A -> bool) -> list A -> list A.

Class GoSortLaws (G : GoSort) := {
  sort_perm {A} (less : A -> A -> bool) l : SortSlice less l ≡ₚ l;
  sort_sorted {A} (less : A -> A -> bool) l :
    (forall x y, less x y = true -> less y x = false) ->
    (forall x y z, less x y = true -> less y z = true -> less x z = true) ->
    (forall x y z, less x y = false -> less y z = false -> less x z = false) ->
    StronglySorted (fun x y => less y x = false) (SortSlice less l) }.

Section Clusters.
Context {C : CryptoLib} {G : GoSort}.

Definition score_less (x y : NodeInfo) : bool := SFltb (calculateNodeScore y) (calculateNodeScore x).
Definition sortNodesByScore (nodes : list NodeInfo) : list NodeInfo := SortSlice score_less nodes.

Definition node_addr (n : NodeInfo) : string := Ip n +:+ ":" +:+ Itoa (IPort n).

Definition not_blacklisted (blacklist : list string) (n : NodeInfo) : bool :=
  negb (existsb (fun b => String.eqb b (node_addr n)) blacklist).

Definition add_member (n : NodeInfo) (pubKey : PublicKey) (g : LayerGroup) : LayerGroup :=
  MkGroup (Addrs g ++ [node_addr n]) (PubKeys g ++ [pubKey]).

(** The groups being built and their scores. *)
Definition dealt : Type := list LayerGroup * list f64.

Definition deal (i : nat) (n : NodeInfo) (pubKey : PublicKey) (d : dealt) : dealt :=
  (alter (add_member n pubKey) i d.1, alter (fun s => f64_add s (calculateNodeScore n)) i d.2).

Definition pick_offset (r : Z) (remaining : nat) : nat :=
  if (70 <=? r)%Z && (r <? 85)%Z then 1
  else if (85 <=? r)%Z && (r <? 95)%Z && (3 <=? remaining) then 2
  else if (95 <=? r)%Z && (4 <=? remaining) then 3
  else 0.

(** The first loop: one relay per group.  [sorted] is [sortedNodes[nodeIdx:]];
    every iteration drops its head, so its length bounds the iterations. *)
Fixpoint deal_heads (fuel numHops i : nat) (sorted : list NodeInfo) (d : dealt)
    : prog Proc (list NodeInfo * dealt) :=
  match fuel with
  | 0 => Ret (sorted, d)
  | Datatypes.S fuel =>
      let remaining := length sorted in
      if (i <? numHops) && (0 <? remaining) then
        pickOffset ← (if 2 <=? remaining
                      then r ← trigger (EIntn 100); Ret (pick_offset r remaining)
                      else Ret 0);
        let sorted := if 0 <? pickOffset then swap 0 pickOffset sorted else sorted in
        match sorted with
        | [] => Ret (sorted, d)
        | n :: rest =>
            match parsePublicKey (PublicKeyText n) with
            | None => deal_heads fuel numHops i rest d
            | Some pubKey => deal_heads fuel numHops (i + 1) rest (deal i n pubKey d)
            end
        end
      else Ret (sorted, d)
  end.

(** The group with the lowest score, the first of them. *)
Fixpoint min_index (scores : list f64) (i : nat) (minScore : f64) (targetIdx : nat) : nat :=
  match scores with
  | [] => targetIdx
  | s :: rest =>
      if SFltb s minScore then min_index rest (i + 1) s i else min_index rest (i + 1) minScore targetIdx
  end.

(** The second loop: the rest, each to the weakest group. *)
Fixpoint deal_rest (sorted : list NodeInfo) (d : dealt) : prog Proc dealt :=
  match sorted with
  | [] => Ret d
  | n :: rest =>
      let targetIdx := min_index d.2 0 f64_max 0 in
      match parsePublicKey (PublicKeyText n) with
      | None => deal_rest rest d
      | Some pubKey =>
          get_index d.1 targetIdx ;;
          deal_rest rest (deal targetIdx n pubKey d)
      end
  end.

(** [rand.Shuffle], whose swap exchanges addresses and keys alike. *)
Fixpoint shuffle_group (i : nat) (g : LayerGroup) : prog Proc LayerGroup :=
  match i with
  | 0 => Ret g
  | Datatypes.S i' =>
      j ← trigger (EIntn (Z.of_nat i + 1));
      let k := Z.to_nat j in
      get_index (PubKeys g) i ;;
      get_index (PubKeys g) k ;;
      shuffle_group i' (MkGroup (swap i k (Addrs g)) (swap i k (PubKeys g)))
  end.

Fixpoint shuffle_groups (gs : list LayerGroup) : prog Proc (list LayerGroup) :=
  match gs with
  | [] => Ret []
  | g :: rest =>
      g ← (if 1 <? length (Addrs g) then shuffle_group (length (Addrs g) - 1) g else Ret g);
      rest ← shuffle_groups rest;
      Ret (g :: rest)
  end.

Definition BuildSmartClusters (nodes : list NodeInfo) (numHops : nat) (blacklist : list string)
    : prog Proc (list LayerGroup * f64) :=
  let availableNodes := filter (fun n => not_blacklisted blacklist n = true) nodes in
  let sortedNodes := sortNodesByScore availableNodes in
  let d := (replicate numHops (MkGroup [] []), replicate numHops f64_zero) in
  r ← deal_heads (length sortedNodes) numHops 0 sortedNodes d;
  d ← deal_rest r.1 r.2;
  clusters ← shuffle_groups d.1;
  let totalScore := fold_left f64_add d.2 f64_zero in
  Ret (clusters, f64_div totalScore (f64_of_Z (Z.of_nat numHops))).

(** A negative size is out of range.  So are too few keys, whatever their
    capacity: [keys[groupSize:]] ends at [len(keys)], and a slice may not start
    after its end. *)
Definition PickLayer (addrs : list string) (keys : list PublicKey) (groupSize : Z)
    : gores (LayerGroup * list string * list PublicKey) :=
  let groupSize := Z.min groupSize (Z.of_nat (length addrs)) in
  if (groupSize <? 0)%Z || (Z.of_nat (length keys) <? groupSize)%Z
  then GPanic "slice bounds out of range"
  else
    let k := Z.to_nat groupSize in
    GOk (MkGroup (take k addrs) (take k keys), drop k addrs, drop k keys).
End Clusters.
