(* ===== verification/ClusterSpec.v ===== *)
(** * What [BuildSmartClusters] guarantees

    Whatever the draws and the scores: as many groups as asked for, addresses
    and keys aligned, every usable relay that is not blacklisted in exactly one
    group, and no group empty when there are relays enough. *)

From S2P Require Import Prelude GoStrings Base64 GoMonad Crypto OnionLayer KeyCache Node NodeSpec.
From S2P Require Import OnionBuild Directory Cluster.

Section Clusters.
Context {C : CryptoLib} {G : GoSort} {GL : GoSortLaws G}.
Variable ev : env Proc.

(** The relays whose key can be read, with address and key. *)
Definition member (n : NodeInfo) : option (string * PublicKey) :=
  (fun k => (node_addr n, k)) <$> parsePublicKey (PublicKeyText n).
Definition members_of (nodes : list NodeInfo) : list (string * PublicKey) := omap member nodes.

Definition aligned (g : LayerGroup) : Prop := length (Addrs g) = length (PubKeys g).
Definition group_pairs (g : LayerGroup) : list (string * PublicKey) := zip (Addrs g) (PubKeys g).
Definition pairs (gs : list LayerGroup) : list (string * PublicKey) := concat (group_pairs <$> gs).
Definition filled (g : LayerGroup) : Prop := Addrs g <> [].

(** The groups [d] hold exactly the members [P]. *)
Record holds (numHops : nat) (P : list (string * PublicKey)) (d : dealt) : Prop := {
  h_len : length d.1 = numHops;
  h_scores : length d.2 = numHops;
  h_aligned : Forall aligned d.1;
  h_pairs : pairs d.1 ≡ₚ P }.

Lemma group_pairs_add n pk g :
  aligned g -> group_pairs (add_member n pk g) = group_pairs g ++ [(node_addr n, pk)].
Proof. intros H. unfold group_pairs. cbn. by rewrite zip_with_app. Qed.

Lemma pairs_alter n pk i gs :
  i < length gs -> Forall aligned gs ->
  pairs (alter (add_member n pk) i gs) ≡ₚ pairs gs ++ [(node_addr n, pk)].
Proof.
  unfold pairs. revert i. induction gs as [|g gs IH]; intros i Hi Ha; [cbn in Hi; lia|].
  apply Forall_cons_1 in Ha as [Hg Ha]. destruct i as [|i]; cbn [alter list_alter fmap list_fmap concat].
  - rewrite group_pairs_add by done. rewrite <- !app_assoc. f_equiv. apply Permutation_app_comm.
  - rewrite (IH i) by (done || cbn in Hi; lia). by rewrite app_assoc.
Qed.

Lemma aligned_add n pk g : aligned g -> aligned (add_member n pk g).
Proof. unfold aligned. cbn. rewrite !length_app. cbn. lia. Qed.

Lemma holds_deal numHops P d i n pk :
  holds numHops P d -> i < numHops -> member n = Some (node_addr n, pk) ->
  holds numHops (P ++ [(node_addr n, pk)]) (deal i n pk d).
Proof.
  intros [Hl Hs Ha Hp] Hi Hm. split; unfold deal; cbn [fst snd]; [by rewrite length_alter..| |].
  - apply Forall_alter; [done|]. intros g _ Hg. by apply aligned_add.
  - rewrite pairs_alter by (done || lia). by rewrite Hp.
Qed.

Lemma filled_alter n pk i (gs : list LayerGroup) k :
  (exists g, gs !! k = Some g /\ filled g) ->
  exists g, alter (add_member n pk) i gs !! k = Some g /\ filled g.
Proof.
  intros (g & Hg & Hf). destruct (decide (i = k)) as [->|Hne].
  - exists (add_member n pk g). rewrite list_lookup_alter_eq, Hg. split; [done|].
    unfold filled. cbn. by destruct (Addrs g).
  - exists g. by rewrite list_lookup_alter_ne.
Qed.

Lemma filled_here n pk i gs :
  i < length gs -> exists g, alter (add_member n pk) i gs !! i = Some g /\ filled g.
Proof.
  intros Hi. destruct (lookup_lt_is_Some_2 gs i Hi) as [g Hg]. exists (add_member n pk g).
  rewrite list_lookup_alter_eq, Hg. split; [done|]. unfold filled. cbn. by destruct (Addrs g).
Qed.

Lemma members_of_perm l l' : l ≡ₚ l' -> members_of l ≡ₚ members_of l'.
Proof. intros H. unfold members_of. by rewrite H. Qed.

Lemma members_of_cons n l :
  members_of (n :: l) = match member n with Some x => x :: members_of l | None => members_of l end.
Proof. reflexivity. Qed.

Lemma wp_deal_heads fuel numHops i sorted d P p c t Q :
  length sorted <= fuel -> i <= numHops -> holds numHops P d -> length P = i ->
  (forall k, k < i -> exists g, d.1 !! k = Some g /\ filled g) ->
  (forall rest d' P' u,
     holds numHops P' d' -> P' ++ members_of rest ≡ₚ P ++ members_of sorted ->
     (forall k, k < length P' -> exists g, d'.1 !! k = Some g /\ filled g) ->
     (length P' = numHops \/ rest = []) -> Forall internal u ->
     Q (rest, d') (World p [] c (t ++ u))) ->
  wp ev (deal_heads fuel numHops i sorted d) (World p [] c t) Q.
Proof.
  revert i sorted d P t Q. induction fuel as [|fuel IH]; intros i sorted d P t Q Hf Hi Hh HP Hfill HQ.
  - cbn [deal_heads]. apply wp_ret. specialize (HQ sorted d P []). rewrite app_nil_r in HQ.
    apply HQ; [done|done|by rewrite HP|right; by destruct sorted; cbn in Hf; [|lia]|done].
  - cbn [deal_heads]. destruct ((i <? numHops) && (0 <? length sorted)) eqn:Econd.
    + apply andb_true_iff in Econd as [Hin Hlen]. apply Nat.ltb_lt in Hin, Hlen.
      assert (Hgo : forall sorted' t' u, t' = t ++ u -> Forall internal u -> sorted' ≡ₚ sorted ->
        wp ev (match sorted' with
               | [] => Ret (sorted', d)
               | n :: rest =>
                   match parsePublicKey (PublicKeyText n) with
                   | None => deal_heads fuel numHops i rest d
                   | Some pubKey => deal_heads fuel numHops (i + 1) rest (deal i n pubKey d)
                   end
               end) (World p [] c t') Q).
      { intros sorted' t' u -> Hu Hperm.
        assert (Hl := Permutation_length Hperm). destruct sorted' as [|n rest]; [cbn in Hl; lia|].
        assert (Hm := members_of_perm _ _ Hperm). rewrite members_of_cons in Hm. unfold member in Hm.
        cbn in Hl. destruct (parsePublicKey (PublicKeyText n)) as [pk|] eqn:Epk; cbn in Hm.
        - apply IH with (P := P ++ [(node_addr n, pk)]); [lia|lia| | | |].
          + apply holds_deal; [done..|]. unfold member. by rewrite Epk.
          + rewrite length_app. cbn. lia.
          + intros k Hk. destruct (decide (k = i)) as [->|Hne].
            * apply filled_here. rewrite (h_len _ _ _ Hh). lia.
            * apply filled_alter, Hfill. lia.
          + intros rest' d' P' v Hh' Hp' Hf' He' Hv. rewrite <- app_assoc.
            apply (HQ _ _ P'); [done| |done..|by apply Forall_app].
            rewrite Hp', <- Hm, <- app_assoc. done.
        - apply IH with (P := P); [lia|lia|done..|].
          intros rest' d' P' v Hh' Hp' Hf' He' Hv. rewrite <- app_assoc.
          apply (HQ _ _ P'); [done| |done..|by apply Forall_app]. by rewrite Hp', <- Hm. }
      destruct (2 <=? length sorted); apply wp_bind.
      * apply wp_bind, wp_intn; [lia|]. intros r w' _ (u & -> & Hu)%quiet_inv. apply wp_ret.
        apply (Hgo _ _ u); [done..|]. case_match; [apply swap_perm|done].
      * apply wp_ret. apply (Hgo _ _ []); [by rewrite app_nil_r|done..].
    + apply wp_ret. specialize (HQ sorted d P []). rewrite app_nil_r in HQ.
      apply HQ; [done|done|by rewrite HP| |done]. apply andb_false_iff in Econd as [E|E].
      * left. apply Nat.ltb_ge in E. lia.
      * right. apply Nat.ltb_ge in E. by destruct sorted; [|cbn in E; lia].
Qed.

Lemma min_index_lt scores i m k n : k < n -> i + length scores <= n -> min_index scores i m k < n.
Proof.
  revert i m k. induction scores as [|s l IH]; intros i m k Hk Hn; cbn in *; [done|].
  destruct (SpecFloat.SFltb s m); apply IH; lia.
Qed.

Lemma wp_deal_rest sorted numHops d P p c t Q :
  0 < numHops -> holds numHops P d ->
  (forall d', holds numHops (P ++ members_of sorted) d' ->
     (forall k, (exists g, d.1 !! k = Some g /\ filled g) -> exists g, d'.1 !! k = Some g /\ filled g) ->
     Q d' (World p [] c t)) ->
  wp ev (deal_rest sorted d) (World p [] c t) Q.
Proof.
  intros Hpos. revert d P Q. induction sorted as [|n rest IH]; intros d P Q Hh HQ; cbn [deal_rest].
  - apply wp_ret, HQ; [|done]. unfold members_of. cbn. by rewrite app_nil_r.
  - rewrite members_of_cons in HQ. unfold member in HQ.
    destruct (parsePublicKey (PublicKeyText n)) as [pk|] eqn:Epk; cbn in HQ.
    + set (i := min_index d.2 0 f64_max 0).
      assert (Hi : i < numHops) by (apply min_index_lt; [done|rewrite (h_scores _ _ _ Hh); lia]).
      destruct (lookup_lt_is_Some_2 d.1 i) as [g Hg]; [by rewrite (h_len _ _ _ Hh)|].
      apply wp_bind, (wp_get_index ev _ _ _ _ _ Hg).
      apply IH with (P := P ++ [(node_addr n, pk)]).
      * apply holds_deal; [done..|]. unfold member. by rewrite Epk.
      * intros d' Hd' Hf. apply HQ; [by rewrite <- app_assoc in Hd'|].
        intros k Hk. by apply Hf, filled_alter.
    + by apply IH with (P := P).
Qed.

Lemma swap_zip {A B} i k (a : list A) (b : list B) :
  length a = length b -> zip (swap i k a) (swap i k b) = swap i k (zip a b).
Proof.
  intros H. set (l := zip a b).
  assert (Ha : a = l.*1) by (symmetry; apply fst_zip; lia).
  assert (Hb : b = l.*2) by (symmetry; apply snd_zip; lia).
  rewrite Ha, Hb, !swap_fmap. apply zip_fst_snd.
Qed.

Lemma wp_shuffle_group i g p c t Q :
  aligned g -> i < length (Addrs g) ->
  (forall g' u, aligned g' -> group_pairs g' ≡ₚ group_pairs g -> Forall internal u ->
     Q g' (World p [] c (t ++ u))) ->
  wp ev (shuffle_group i g) (World p [] c t) Q.
Proof.
  revert g t Q. induction i as [|i IH]; intros g t Q Ha Hi HQ; cbn [shuffle_group].
  - apply wp_ret. specialize (HQ g []). rewrite app_nil_r in HQ. by apply HQ.
  - apply wp_bind, wp_intn; [lia|]. intros j w' Hj (u & -> & Hu)%quiet_inv. cbn zeta.
    assert (Ha' := Ha). unfold aligned in Ha'.
    destruct (lookup_lt_is_Some_2 (PubKeys g) (Datatypes.S i)) as [x Hx]; [lia|].
    destruct (lookup_lt_is_Some_2 (PubKeys g) (Z.to_nat j)) as [y Hy]; [lia|].
    apply wp_bind, (wp_get_index ev _ _ _ _ _ Hx). apply wp_bind, (wp_get_index ev _ _ _ _ _ Hy).
    apply IH.
    + unfold aligned. cbn [Addrs PubKeys]. by rewrite !length_swap.
    + cbn [Addrs]. rewrite length_swap. lia.
    + intros g' v Hg' Hp Hv. rewrite <- app_assoc. apply HQ; [done| |by apply Forall_app].
      rewrite Hp. unfold group_pairs. cbn [Addrs PubKeys]. rewrite swap_zip by done. apply swap_perm.
Qed.

Lemma filled_pairs g g' :
  aligned g -> aligned g' -> group_pairs g' ≡ₚ group_pairs g -> filled g -> filled g'.
Proof.
  unfold aligned, group_pairs, filled. intros Ha Ha' Hp Hf He.
  apply Permutation_length in Hp. rewrite !length_zip_with, He in Hp. cbn [length Nat.min] in Hp.
  assert (length (Addrs g) <> 0) by (by destruct (Addrs g)). lia.
Qed.

Lemma wp_shuffle_groups gs p c t Q :
  Forall aligned gs ->
  (forall gs' u, Forall2 (fun g g' => aligned g' /\ group_pairs g' ≡ₚ group_pairs g) gs gs' ->
     Forall internal u -> Q gs' (World p [] c (t ++ u))) ->
  wp ev (shuffle_groups gs) (World p [] c t) Q.
Proof.
  intros Ha. revert t Q. induction Ha as [|g gs Hg Ha IH]; intros t Q HQ; cbn [shuffle_groups].
  - apply wp_ret. specialize (HQ [] []). rewrite app_nil_r in HQ. by apply HQ.
  - assert (Hrest : forall g' u, aligned g' -> group_pairs g' ≡ₚ group_pairs g -> Forall internal u ->
      wp ev (rest ← shuffle_groups gs; Ret (g' :: rest)) (World p [] c (t ++ u)) Q).
    { intros g' u Hg' Hp Hu. apply wp_bind, IH. intros gs' v Hgs Hv. apply wp_ret.
      rewrite <- app_assoc. apply HQ; [by constructor|by apply Forall_app]. }
    apply wp_bind. destruct (1 <? length (Addrs g)) eqn:E.
    + apply Nat.ltb_lt in E. apply wp_shuffle_group; [done|lia|]. by apply Hrest.
    + apply wp_ret. specialize (Hrest g []). rewrite app_nil_r in Hrest. by apply Hrest.
Qed.

Lemma pairs_empty k : pairs (replicate k (MkGroup [] [])) = [].
Proof. induction k as [|k IH]; [done|]. exact IH. Qed.

Lemma wp_BuildSmartClusters nodes numHops blacklist p c t Q :
  0 < numHops ->
  (forall gs rel u,
     let usable := members_of (filter (fun n => not_blacklisted blacklist n = true) nodes) in
     length gs = numHops -> Forall aligned gs -> pairs gs ≡ₚ usable ->
     (numHops <= length usable -> Forall filled gs) -> Forall internal u ->
     Q (gs, rel) (World p [] c (t ++ u))) ->
  wp ev (BuildSmartClusters nodes numHops blacklist) (World p [] c t) Q.
Proof.
  intros Hpos HQ. unfold BuildSmartClusters.
  set (avail := filter _ nodes) in *. set (sorted := sortNodesByScore avail).
  assert (Hs : members_of sorted ≡ₚ members_of avail) by (apply members_of_perm, sort_perm).
  apply wp_bind, (wp_deal_heads _ _ _ _ _ []); [lia|lia| |done|intros; lia|].
  { split; cbn [fst snd]; [by rewrite length_replicate..| |].
    - apply Forall_replicate. done.
    - by rewrite pairs_empty. }
  intros rest d P u Hh Hperm Hfill Hend Hu. cbn [fst snd].
  apply wp_bind, (wp_deal_rest _ numHops _ P); [done..|]. intros d' Hd' Hkeep.
  apply wp_bind, wp_shuffle_groups; [apply Hd'|]. intros gs v Hgs Hv.
  apply wp_ret. rewrite <- app_assoc.
  assert (Hpairs : pairs gs ≡ₚ pairs d'.1).
  { clear -Hgs. unfold pairs. induction Hgs as [|g g' l l' [_ Hg] Hgs IH]; [done|].
    cbn. by rewrite Hg, IH. }
  cbn [app] in Hperm.
  apply HQ.
  - by rewrite <- (Forall2_length _ _ _ Hgs), (h_len _ _ _ Hd').
  - clear -Hgs. induction Hgs as [|g g' l l' [Hx _] _ IH]; by constructor.
  - by rewrite Hpairs, (h_pairs _ _ _ Hd'), Hperm.
  - intros Hen.
    assert (HP : length P = numHops).
    { destruct Hend as [| ->]; [done|]. rewrite app_nil_r, Hs in Hperm.
      apply Permutation_length in Hperm. rewrite <- Hperm in Hen.
      assert (length P <= numHops); [|lia].
      destruct (Nat.le_gt_cases (length P) numHops) as [|Hgt]; [done|].
      destruct (Hfill numHops Hgt) as (g & Hg & _). apply lookup_lt_Some in Hg.
      rewrite (h_len _ _ _ Hh) in Hg. lia. }
    apply Forall_lookup. intros k g' Hk.
    destruct (Forall2_lookup_r _ _ _ _ _ Hgs Hk) as (g & Hg & Ha' & Hp).
    destruct (Hkeep k) as (g0 & Hg0 & Hf).
    { apply Hfill. apply lookup_lt_Some in Hg. rewrite (h_len _ _ _ Hd') in Hg. lia. }
    assert (g0 = g) as -> by congruence. eapply filled_pairs; [|done..].
    assert (Hal := h_aligned _ _ _ Hd'). rewrite Forall_lookup in Hal. by eapply Hal.
  - by apply Forall_app.
Qed.
End Clusters.
