(* ===== verification/Send.v ===== *)
(** * Sending with retries: node/send.go, node/super_send.go, node/telemetry.go

    [SendWithRetry] and [SendWithRetrySuper] pick a route from the directory's
    list, build the onion, register the channel for the acknowledgement, send,
    and wait for true (acknowledged), false (refused) or the time-out.  The
    waiting goroutine is written in line, since its spawner returns at once;
    so is the telemetry goroutine, which only reports.  [slog] output is left
    out.  Both recursions run on fuel; SendSpec and SuperSendSpec show that
    [maxRetries] plus one is enough. *)

From S2P Require Import Prelude GoStrings Base64 GoMonad Crypto OnionLayer KeyCache Node.
From S2P Require Import OnionBuild Directory Cluster.

Section Send.
Context {C : CryptoLib} {G : GoSort}.

(** ** Telemetry *)

Definition Telemetry (from to evType msg exid : string) (hop : Z) : prog Proc unit :=
  trigger (ETelemetry (TelEvent from to evType msg exid hop)).

(** The goroutine that reports the hops of a route, one every 50 ms. *)
Fixpoint telemetry_hops (r : list string) (exid : string) (i : Z) : prog Proc unit :=
  match r with
  | a :: ((b :: _) as rest) =>
      trigger (ESleep (50 * millisecond)) ;;
      Telemetry a b "RELAY" "" exid (i + 2) ;;
      telemetry_hops rest exid (i + 1)
  | _ => Ret tt
  end.

Definition telemetry_forward (nodeAddr kind message exid : string) (r : list string)
    : prog Proc unit :=
  first ← get_index r 0;
  Telemetry nodeAddr first kind message exid 1 ;;
  telemetry_hops r exid 0.

(** ** Pieces common to both *)

(** [fmt.Sprintf("%s:%d", node.NodeIP, node.Port)]. *)
Definition own_addr (n : Node) : string := NodeIP n +:+ ":" +:+ Itoa (Port n).
Definition node_address : prog Proc string := trigger (EGet (fun p => own_addr (node p))).

Definition register_ack (msgID firstNackID : string) (ch : nat) : prog Proc unit :=
  Lock Mu ;;
  write Mu (on_node (upd_PendingACKs (<[msgID := ch]>))) ;;
  write Mu (on_node (upd_PendingACKs (<[firstNackID := ch]>))) ;;
  Unlock Mu.

Definition forget_ack (msgID firstNackID : string) : prog Proc unit :=
  Lock Mu ;;
  write Mu (on_node (upd_PendingACKs (delete msgID))) ;;
  write Mu (on_node (upd_PendingACKs (delete firstNackID))) ;;
  Unlock Mu.

(** [time.Since(startTime).Milliseconds()]. *)
Definition since_ms (startTime : Z) : prog Proc Z :=
  now ← trigger ENow;
  Ret (Z.quot (now - startTime) millisecond).

Definition result (kind destAddr what : string) (n ms : Z) : string :=
  kind +:+ "|" +:+ destAddr +:+ "|" +:+ what +:+ "|" +:+ Itoa n +:+ "|" +:+ Itoa ms +:+ "ms".

(** ** SEND: a route of single relays *)

Definition parse_candidate (nodeAddr destAddr entry : string) : option string :=
  match SplitN entry pipe 4 with
  | [_; ip; port; _] =>
      let addr := ip +:+ ":" +:+ port in
      if negb (String.eqb addr nodeAddr) && negb (String.eqb addr destAddr) then Some addr else None
  | _ => None
  end.

Definition candidates_of (listStr nodeAddr destAddr : string) : list string :=
  omap (parse_candidate nodeAddr destAddr) (Split (TrimPrefix listStr "LIST:") comma).

(** The goroutine that waits for the acknowledgement; [retry] is the next
    attempt. *)
Definition await_ack (retry : prog Proc unit) (destAddr nodeAddr first : string)
    (msgID firstNackID : string) (ackChan : nat) (currentTry startTime : Z) : prog Proc unit :=
  success ← trigger (ESelect ackChan);
  elapsed ← since_ms startTime;
  match success with
  | Some true =>
      trigger (EPrint (result "RESULT" destAddr "ACK" currentTry elapsed)) ;;
      Telemetry destAddr nodeAddr "ACK" "" msgID 1
  | Some false =>
      Telemetry first nodeAddr "NACK" "" msgID 1 ;;
      forget_ack msgID firstNackID ;;
      retry
  | None =>
      trigger (EPrint (result "RESULT" destAddr "TIMEOUT" currentTry elapsed)) ;;
      Telemetry first nodeAddr "NACK" "timeout" msgID 1 ;;
      forget_ack msgID firstNackID
  end.

(** From the registration of the acknowledgement on. *)
Definition send_onion (retry : prog Proc unit) (destAddr message nodeAddr : string)
    (route : list string) (onion msgID firstNackID : string) (currentTry startTime : Z)
    : prog Proc unit :=
  ackChan ← trigger (EMakeChan 1);
  register_ack msgID firstNackID ackChan ;;
  telemetry_forward nodeAddr "SEND" message msgID route ;;
  first ← get_index route 0;
  ok ← SendTo first onion;
  if negb ok then
    forget_ack msgID firstNackID ;;
    retry
  else
    await_ack retry destAddr nodeAddr first msgID firstNackID ackChan currentTry startTime.

Fixpoint SendWithRetry (fuel : nat) (destAddr message frag : string) (numRelays maxRetries currentTry
    startTime : Z) : prog Proc unit :=
  match fuel with
  | 0 => Raise "out of fuel"
  | Datatypes.S fuel =>
  if (maxRetries <=? currentTry)%Z then
    elapsed ← since_ms startTime;
    trigger (EPrint (result "RESULT" destAddr "ABANDON" maxRetries elapsed))
  else
  lst ← Node.GetNodesList;
  match lst with
  | inr _ => Ret tt
  | inl listStr =>
  if String.eqb listStr "LIST:empty" then Ret tt else
  nodeAddr ← node_address;
  let candidates := candidates_of listStr nodeAddr destAddr in
  let numRelays := Z.min numRelays (Z.of_nat (length candidates)) in
  if (numRelays =? 0)%Z then Ret tt else
  candidates ← Shuffle candidates;
  if (numRelays <? 0)%Z then Raise "slice bounds out of range" else
  let relays := take (Z.to_nat numRelays) candidates in
  let route := relays ++ [destAddr] in
  let returnRoute := reverse relays ++ [nodeAddr] in
  enc ← Encapsulator_func message frag route returnRoute nodeAddr;
  match enc with
  | inr _ => Ret tt
  | inl (onion, msgID, firstNackID) =>
  send_onion
    (SendWithRetry fuel destAddr message frag numRelays maxRetries (currentTry + 1) startTime)
    destAddr message nodeAddr route onion msgID firstNackID currentTry startTime
  end
  end
  end.

(** ** SSEND: a route of groups *)

Definition parse_info (entry : string) : option NodeInfo :=
  match Split entry pipe with
  | name :: ip :: port :: key :: sa :: sn :: _ =>
      Some (MkInfo "" name ip (atoi_val port) key (atoi_val sa) (atoi_val sn))
  | _ => None
  end.

(** The candidates, with their keys put in the cache for a minute. *)
Fixpoint super_candidates (entries : list string) (nodeAddr destAddr : string)
    (candidates : list NodeInfo) : prog Proc (list NodeInfo) :=
  match entries with
  | [] => Ret candidates
  | entry :: rest =>
      match parse_info entry with
      | None => super_candidates rest nodeAddr destAddr candidates
      | Some n =>
          let addr := node_addr n in
          if String.eqb addr nodeAddr || String.eqb addr destAddr
          then super_candidates rest nodeAddr destAddr candidates
          else
            cached ← cache_get addr;
            match cached with
            | Some _ => super_candidates rest nodeAddr destAddr (candidates ++ [n])
            | None =>
                match parsePublicKey (PublicKeyText n) with
                | None => super_candidates rest nodeAddr destAddr candidates
                | Some key =>
                    now ← trigger ENow;
                    cache_set addr (MkCachedKey key (now + 60 * second)) ;;
                    super_candidates rest nodeAddr destAddr (candidates ++ [n])
                end
            end
      end
  end.

(** The members of the first group in turn; those that fail are blacklisted. *)
Fixpoint try_group (addrs : list string) (onion : string) (failedNodes : list string)
    : prog Proc (bool * list string) :=
  match addrs with
  | [] => Ret (false, failedNodes)
  | addr :: rest =>
      ok ← SendTo addr onion;
      if (ok : bool) then Ret (true, failedNodes)
      else try_group rest onion (failedNodes ++ [addr])
  end.

(** [r[i].Addrs[0]] for every group. *)
Fixpoint first_addrs (r : list LayerGroup) : prog Proc (list string) :=
  match r with
  | [] => Ret []
  | g :: rest =>
      a ← get_index (Addrs g) 0;
      l ← first_addrs rest;
      Ret (a :: l)
  end.

(** From the registration of the acknowledgement on; [retry] is the next
    attempt, with the blacklist it is given. *)
Definition send_onion_super (retry : list string -> prog Proc unit)
    (destAddr message nodeAddr : string) (route : list LayerGroup)
    (onion msgID firstNackID : string) (currentTry startTime : Z) (failedNodes : list string)
    : prog Proc unit :=
  ackChan ← trigger (EMakeChan 1);
  register_ack msgID firstNackID ackChan ;;
  hops ← first_addrs route;
  telemetry_forward nodeAddr "SSEND" message msgID hops ;;
  firstGroup ← get_index route 0;
  r ← try_group (Addrs firstGroup) onion failedNodes;
  let '(sent, failedNodes) := r in
  if negb sent then
    forget_ack msgID firstNackID ;;
    retry failedNodes
  else
  success ← trigger (ESelect ackChan);
  elapsed ← since_ms startTime;
  match success with
  | Some true =>
      trigger (EPrint (result "RESULT_SUPER" destAddr "ACK" currentTry elapsed)) ;;
      Telemetry destAddr nodeAddr "ACK" "" msgID 1
  | Some false =>
      first ← get_index (Addrs firstGroup) 0;
      Telemetry first nodeAddr "NACK" "" msgID 1 ;;
      forget_ack msgID firstNackID ;;
      retry failedNodes
  | None =>
      trigger (EPrint (result "RESULT_SUPER" destAddr "TIMEOUT" currentTry elapsed)) ;;
      first ← get_index (Addrs firstGroup) 0;
      Telemetry first nodeAddr "NACK" "timeout" msgID 1 ;;
      forget_ack msgID firstNackID
  end.

Fixpoint SendWithRetrySuper (fuel : nat) (destAddr message : string) (numHops groupSize maxRetries
    currentTry startTime : Z) (failedNodes : list string) : prog Proc unit :=
  match fuel with
  | 0 => Raise "out of fuel"
  | Datatypes.S fuel =>
  if (maxRetries <=? currentTry)%Z then
    elapsed ← since_ms startTime;
    trigger (EPrint (result "RESULT_SUPER" destAddr "ABANDON" maxRetries elapsed))
  else
  lst ← Node.GetNodesList;
  match lst with
  | inr _ => Ret tt
  | inl listStr =>
  if String.eqb listStr "LIST:empty" then Ret tt else
  nodeAddr ← node_address;
  candidates ← super_candidates (Split (TrimPrefix listStr "LIST:") comma) nodeAddr destAddr [];
  let numHops := if (numHops <? MinClusters)%Z then MinClusters else numHops in
  if (Z.of_nat (length candidates) <? numHops)%Z then Ret tt else
  built ← BuildSmartClusters candidates (Z.to_nat numHops) failedNodes;
  let relayGroups := built.1 in
  dk ← FetchKeyFromServer destAddr;
  match dk with
  | inr _ => Ret tt
  | inl destKey =>
  let route := relayGroups ++ [MkGroup [destAddr] [destKey]] in
  RLock KeyMu ;;
  senderPub ← read KeyMu (fun p => NPublicKey (node p));
  RUnlock KeyMu ;;
  let returnRoute := reverse relayGroups ++ [MkGroup [nodeAddr] [senderPub]] in
  enc ← Encapsulator_func_super message route returnRoute nodeAddr;
  match enc with
  | inr _ => Ret tt
  | inl (onion, msgID, firstNackID) =>
  send_onion_super
    (SendWithRetrySuper fuel destAddr message numHops groupSize maxRetries (currentTry + 1) startTime)
    destAddr message nodeAddr route onion msgID firstNackID currentTry startTime failedNodes
  end
  end
  end
  end.
End Send.
