(* ===== verification/SendSpec.v ===== *)
(** * What the senders guarantee

    The list of the directory is read back by both senders; the steps they share
    end, without a contact and without output.  The goroutine of SEND returns
    after at most [maxRetries] attempts, prints at most one result and contacts
    only relays it is meant to; with a negative relay count it panics.
    SuperSendSpec has the goroutine of SSEND. *)

From S2P Require Import Prelude GoStrings Base64 GoMonad Crypto OnionLayer KeyCache Node NodeSpec.
From S2P Require Import OnionBuild Directory DirectorySpec Cluster ClusterSpec Send.

(** ** Reading the list *)

Definition entry_field (s : string) : Prop :=
  lacks pipe s /\ lacks comma s /\ sforall graphic s = true.
Definition wf_info (n : NodeInfo) : Prop :=
  entry_field (Name n) /\ entry_field (Ip n) /\ entry_field (PublicKeyText n) /\
  is_int64 (IPort n) /\ is_int64 (AvailabilityScore n) /\ is_int64 (NetworkScore n).

Lemma Itoa_entry z : entry_field (Itoa z).
Proof. repeat split; [by apply Itoa_lacks..|apply Itoa_graphic]. Qed.

Definition entry_fields (n : NodeInfo) : list string :=
  [Name n; Ip n; Itoa (IPort n); PublicKeyText n; Itoa (AvailabilityScore n); Itoa (NetworkScore n)].

Lemma list_entry_join n : list_entry n = Join (entry_fields n) pipe.
Proof.
  unfold list_entry, entry_fields. cbn [Join].
  repeat (rewrite !app_str_assoc || rewrite !app_str_cons || rewrite !app_str_nil_l). done.
Qed.

Lemma entry_fields_ok n : wf_info n -> Forall entry_field (entry_fields n).
Proof.
  intros (H1 & H2 & H3 & _). unfold entry_fields.
  repeat (apply Forall_cons_2; [done || apply Itoa_entry|]). by apply Forall_nil_2.
Qed.

Lemma list_entry_graphic n : wf_info n -> sforall graphic (list_entry n) = true.
Proof.
  intros H. rewrite list_entry_join. apply sforall_Join; [done|].
  eapply Forall_impl; [by apply entry_fields_ok|by intros ? (_ & _ & ?)].
Qed.

Lemma list_entry_lacks_comma n : wf_info n -> lacks comma (list_entry n).
Proof.
  intros H. rewrite list_entry_join. apply lacks_Join; [done|].
  eapply Forall_impl; [by apply entry_fields_ok|by intros ? (_ & ? & _)].
Qed.

Lemma parse_info_entry n :
  wf_info n -> parse_info (list_entry n) =
    Some (MkInfo "" (Name n) (Ip n) (IPort n) (PublicKeyText n) (AvailabilityScore n) (NetworkScore n)).
Proof.
  intros H. unfold parse_info. rewrite list_entry_join, Split_Join; [|done|].
  - destruct H as (_ & _ & _ & ? & ? & ?). unfold entry_fields. by rewrite !atoi_val_Itoa.
  - eapply Forall_impl; [by apply entry_fields_ok|by intros ? (? & _)].
Qed.

Lemma parse_candidate_entry self dest n :
  wf_info n -> parse_candidate self dest (list_entry n) =
    if negb (String.eqb (node_addr n) self) && negb (String.eqb (node_addr n) dest)
    then Some (node_addr n) else None.
Proof.
  intros H. pose proof (entry_fields_ok n H) as Hf. unfold parse_candidate.
  unfold list_entry. rewrite !pipe_app.
  apply Forall_cons_1 in Hf as [(H1 & _) Hf]. apply Forall_cons_1 in Hf as [(H2 & _) Hf].
  apply Forall_cons_1 in Hf as [(H3 & _) Hf].
  rewrite SplitN_app by done. rewrite SplitN_app by done. rewrite SplitN_app by done.
  by rewrite SplitN_1.
Qed.

Lemma list_answer_trim nodes :
  nodes <> [] -> Forall wf_info nodes ->
  TrimSpace (list_answer nodes) = "LIST:" +:+ Join (list_entry <$> nodes) comma.
Proof.
  intros Hne Hw. unfold list_answer. destruct nodes as [|n nodes]; [done|].
  rewrite <- (app_str_assoc "LIST:"). apply TrimSpace_line. rewrite sforall_app.
  apply andb_true_iff. split; [done|]. apply sforall_Join; [done|].
  apply Forall_fmap. eapply Forall_impl; [exact Hw|apply list_entry_graphic].
Qed.

Lemma entries_of_list nodes :
  nodes <> [] -> Forall wf_info nodes ->
  Split (TrimPrefix (TrimSpace (list_answer nodes)) "LIST:") comma = list_entry <$> nodes.
Proof.
  intros Hne Hw. rewrite list_answer_trim by done. unfold TrimPrefix. rewrite HasPrefix_app, str_drop_app.
  apply Split_Join; [by destruct nodes|].
  apply Forall_fmap. eapply Forall_impl; [exact Hw|apply list_entry_lacks_comma].
Qed.

(** The candidates of SEND are the addresses listed, less the sender's and the
    destination's. *)
Lemma candidates_of_list nodes self dest :
  nodes <> [] -> Forall wf_info nodes ->
  candidates_of (TrimSpace (list_answer nodes)) self dest =
  filter (fun a => a <> self /\ a <> dest) (node_addr <$> nodes).
Proof.
  intros Hne Hw. unfold candidates_of. rewrite entries_of_list by done. clear Hne.
  induction Hw as [|n nodes Hn Hw IH]; [done|].
  rewrite !fmap_cons, filter_cons. cbn [omap list_omap]. rewrite parse_candidate_entry by done.
  destruct (String.eqb_spec (node_addr n) self), (String.eqb_spec (node_addr n) dest); cbn [negb andb];
    case_decide; destruct_and?; try done; try tauto; by rewrite <- IH.
Qed.

Lemma infos_of_list nodes :
  nodes <> [] -> Forall wf_info nodes ->
  omap parse_info (Split (TrimPrefix (TrimSpace (list_answer nodes)) "LIST:") comma) =
  (fun n => MkInfo "" (Name n) (Ip n) (IPort n) (PublicKeyText n) (AvailabilityScore n)
     (NetworkScore n)) <$> nodes.
Proof.
  intros Hne Hw. rewrite entries_of_list by done. clear Hne.
  induction Hw as [|n nodes Hn Hw IH]; [done|].
  rewrite !fmap_cons. cbn [omap list_omap]. rewrite parse_info_entry by done. by rewrite <- IH.
Qed.

Lemma node_addr_lacks n : wf_info n -> lacks comma (node_addr n).
Proof.
  intros (_ & (_ & Hi & _) & _). unfold node_addr. rewrite !lacks_app. split; [done|].
  split; [done|by apply Itoa_lacks].
Qed.

Lemma elem_candidate listStr self dest a :
  a ∈ candidates_of listStr self dest -> a <> self /\ a <> dest.
Proof.
  unfold candidates_of. intros (e & _ & He)%list_elem_of_omap. unfold parse_candidate in He.
  destruct (SplitN e pipe 4) as [|? [|? [|? [|? []]]]]; try done.
  destruct (String.eqb_spec (s0 +:+ ":" +:+ s1) self); [done|].
  destruct (String.eqb_spec (s0 +:+ ":" +:+ s1) dest); [done|].
  by injection He as <-.
Qed.

(** ** Steps that contact nobody *)

(** The line that asks for the list, and the answers to it. *)
Definition list_request : string := "GET_LIST" +:+ str1 nl.
Definition lists (t : list event) : list (option string) :=
  omap (fun e => match e with
                 | EvRequest l r => if String.eqb l list_request then Some r else None
                 | _ => None
                 end) t.

Lemma lists_app t u : lists (t ++ u) = lists t ++ lists u.
Proof. apply omap_app. Qed.
Lemma internal_lists u : Forall internal u -> lists u = [].
Proof. induction 1 as [|[] u He Hu IH]; cbn in *; done. Qed.
#[export] Hint Rewrite lists_app : dor_trace.

(** No dial and no output; and no request for the list either. *)
Definition mute (u : list event) : Prop := dials u = [] /\ prints u = [].
Definition silent (u : list event) : Prop := mute u /\ lists u = [].

Lemma silent_mute u : silent u -> mute u.
Proof. by intros []. Qed.
Lemma mute_app u v : mute u -> mute v -> mute (u ++ v).
Proof. intros [? ?] [? ?]. unfold mute. autorewrite with dor_trace. split; by apply app_nil. Qed.
Lemma silent_internal u : Forall internal u -> silent u.
Proof.
  intros H. split; [split; [by apply internal_dials|by apply internal_prints]|by apply internal_lists].
Qed.
Lemma silent_app u v : silent u -> silent v -> silent (u ++ v).
Proof.
  intros [? ?] [? ?]. split; [by apply mute_app|]. autorewrite with dor_trace. by apply app_nil.
Qed.
Lemma silent_nil : silent [].
Proof. done. Qed.
#[export] Hint Resolve silent_mute mute_app silent_internal silent_app silent_nil : dor.

Section Total.
Context {C : CryptoLib} {G : GoSort} {GL : GoSortLaws G}.
Variable ev : env Proc.

Lemma wp_silent_request l p h c t Q :
  l <> list_request -> (forall r u, silent u -> Q r (World p h c (t ++ u))) ->
  wp ev (trigger (ERequest l)) (World p h c t) Q.
Proof. intros Hl%String.eqb_neq HQ. wp_steps. apply HQ. split; [done|]. cbn. by rewrite Hl. Qed.

Lemma wp_rand_internal n p h c t (Q : string -> world Proc -> Prop) :
  (forall s u, String.length s = n -> Forall internal u -> Q s (World p h c (t ++ u))) ->
  wp ev (trigger (ERandBytes n)) (World p h c t) Q.
Proof. intros HQ. apply wp_rand_bytes. intros s w' Hs (u & -> & Hu)%quiet_inv. by apply HQ. Qed.

(** Encryption ends, with a text or an error. *)
Lemma wp_EncryptAES_total key m p h c t Q :
  (forall r u, Forall internal u -> Q r (World p h c (t ++ u))) ->
  wp ev (EncryptAES key m) (World p h c t) Q.
Proof.
  intros HQ. unfold EncryptAES. destruct (aes_key_ok key).
  - apply wp_bind, wp_rand_internal. intros s u _ Hu. apply wp_ret. by apply HQ.
  - apply wp_ret. specialize (HQ (inr lib_error) []). rewrite app_nil_r in HQ.
    by apply HQ.
Qed.

Lemma wp_encryptForNode_total m pk p h c t Q :
  (forall r u, Forall internal u -> Q r (World p h c (t ++ u))) ->
  wp ev (encryptForNode m (Some pk)) (World p h c t) Q.
Proof.
  intros HQ. unfold encryptForNode. apply wp_bind, wp_rand_internal. intros k u1 _ H1.
  apply wp_bind, wp_EncryptAES_total. intros [e|e] u2 H2.
  - apply wp_bind, wp_rand_internal. intros s u3 _ H3.
    destruct (EncryptOAEP s pk k); apply wp_ret; rewrite <- !app_assoc; apply HQ;
      repeat apply Forall_app_2; done.
  - apply wp_ret. rewrite <- app_assoc. apply HQ. by apply Forall_app.
Qed.

Lemma wp_encrypt_keys_total k pks acc p h c t Q :
  (forall r u, Forall internal u -> Q r (World p h c (t ++ u))) ->
  wp ev (encrypt_keys k pks acc) (World p h c t) Q.
Proof.
  revert acc t Q. induction pks as [|pk pks IH]; intros acc t Q HQ; cbn [encrypt_keys].
  - apply wp_ret. specialize (HQ (inl acc) []). rewrite app_nil_r in HQ. by apply HQ.
  - apply wp_bind, wp_rand_internal. intros s u _ Hu. destruct (EncryptOAEP s pk k).
    + apply IH. intros r v Hv. rewrite <- app_assoc. apply HQ. by apply Forall_app.
    + apply wp_ret. by apply HQ.
Qed.

Lemma wp_BroadcastEncrypt_total m pks p h c t Q :
  (forall r u, Forall internal u -> (forall ct, r = inl ct -> pks <> []) -> Q r (World p h c (t ++ u))) ->
  wp ev (BroadcastEncrypt m pks) (World p h c t) Q.
Proof.
  intros HQ. unfold BroadcastEncrypt. destruct pks as [|pk pks].
  - apply wp_ret. specialize (HQ (inr "pas de clé publique") []). rewrite app_nil_r in HQ. by apply HQ.
  - apply wp_bind, wp_rand_internal. intros k u1 _ H1.
    apply wp_bind, wp_EncryptAES_total. intros [e|e] u2 H2.
    + apply wp_bind, wp_encrypt_keys_total. intros [ks|ks] u3 H3; apply wp_ret; rewrite <- !app_assoc;
        apply HQ; try done; repeat apply Forall_app_2; done.
    + apply wp_ret. rewrite <- app_assoc. apply HQ; [by apply Forall_app|done].
Qed.

(** ** The encapsulators end *)

Definition known (m : gmap string CachedKey) (route : list string) : Prop :=
  Forall (fun a => is_Some (m !! a)) route.

Lemma known_lookup p route i a :
  known (cache p) route -> route !! i = Some a -> exists v, cache p !! a = Some v.
Proof. unfold known. rewrite Forall_lookup. intros H Hi. exact (H i a Hi). Qed.

Lemma wp_layers_loop_total route sender nacks i ct p c t Q :
  i < length route -> length nacks = length route -> known (cache p) route ->
  (forall r u, Forall internal u -> Q r (World p [] c (t ++ u))) ->
  wp ev (layers_loop route sender nacks i ct) (World p [] c t) Q.
Proof.
  intros Hi Hn Hk. revert ct t Q. induction i as [|i IH]; intros ct t Q HQ; cbn [layers_loop].
  - apply wp_ret. specialize (HQ (inl ct) []). rewrite app_nil_r in HQ. by apply HQ.
  - destruct (lookup_lt_is_Some_2 route (Datatypes.S i)) as [nx Hnx]; [lia|].
    destruct (lookup_lt_is_Some_2 route i) as [hr Hhr]; [lia|].
    destruct (lookup_lt_is_Some_2 nacks i) as [n0 Hn0]; [lia|].
    destruct (lookup_lt_is_Some_2 nacks (Datatypes.S i)) as [n1 Hn1]; [lia|].
    assert (Hprev : forall Q', (forall s, Q' s (World p [] c t)) ->
      wp ev (match i with 0 => Ret sender | S j => get_index route j end) (World p [] c t) Q').
    { intros Q' HQ'. destruct i as [|j]; [apply HQ'|].
      destruct (lookup_lt_is_Some_2 route j) as [q Hq]; [lia|].
      apply (wp_get_index ev _ _ _ _ _ Hq), HQ'. }
    apply wp_bind, Hprev. intros prev. rewrite Nat.add_1_r.
    apply wp_bind, (wp_get_index ev _ _ _ _ _ Hn0). apply wp_bind, (wp_get_index ev _ _ _ _ _ Hn1).
    apply wp_bind, (wp_get_index ev _ _ _ _ _ Hnx). apply wp_bind, (wp_get_index ev _ _ _ _ _ Hhr).
    destruct (known_lookup _ _ _ _ Hk Hhr) as [v Hv].
    apply wp_bind, wp_cache_get. rewrite Hv. cbn [fmap option_fmap option_map].
    apply wp_bind, wp_encryptForNode_total. intros [ct'|e] u Hu.
    + apply IH; [lia|]. intros r v' Hv'. rewrite <- app_assoc. apply HQ. by apply Forall_app.
    + apply wp_ret. by apply HQ.
Qed.

Lemma wp_encryptOnionLayers_total inner route sender nacks p c t Q :
  route <> [] -> length nacks = length route -> known (cache p) route ->
  (forall r u, Forall internal u -> Q r (World p [] c (t ++ u))) ->
  wp ev (encryptOnionLayers inner route sender nacks) (World p [] c t) Q.
Proof.
  intros Hne Hn Hk HQ. unfold encryptOnionLayers.
  destruct (length route) as [|k] eqn:Hl; [by destruct route|].
  destruct (lookup_lt_is_Some_2 route k) as [lst Hlst]; [lia|].
  destruct (known_lookup _ _ _ _ Hk Hlst) as [v Hv].
  apply wp_bind, (wp_get_index ev _ _ _ _ _ Hlst). apply wp_bind, wp_cache_get. rewrite Hv.
  cbn [fmap option_fmap option_map].
  apply wp_bind, wp_encryptForNode_total. intros [ct|e] u Hu.
  - apply wp_layers_loop_total; [lia|lia|done|]. intros r v' Hv'. rewrite <- app_assoc. apply HQ.
    by apply Forall_app.
  - apply wp_ret. by apply HQ.
Qed.

(** The refresh loop leaves every address with a key, or gives up. *)
Lemma wp_refresh_total nodes p c t Q :
  (forall r m u, silent u -> (r = inl tt -> known m nodes) ->
     (forall a, is_Some (cache p !! a) -> is_Some (m !! a)) ->
     Q r (World (with_cache m p) [] c (t ++ u))) ->
  wp ev (refresh_keys nodes) (World p [] c t) Q.
Proof.
  revert p t Q. induction nodes as [|a nodes IH]; intros p t Q HQ; cbn [refresh_keys].
  - apply wp_ret. specialize (HQ (inl tt) (cache p) []). rewrite app_nil_r in HQ. destruct p.
    apply HQ; [done|intros _; by apply Forall_nil_2|done].
  - assert (Hrest : forall m u, silent u -> is_Some (m !! a) ->
      (forall b, is_Some (cache p !! b) -> is_Some (m !! b)) ->
      wp ev (refresh_keys nodes) (World (with_cache m p) [] c (t ++ u)) Q).
    { intros m u Hu Hma Hmono. apply IH. intros r m' v Hv Hk Hm'. rewrite <- app_assoc.
      cbn [cache with_cache] in Hm'. apply HQ; [by apply silent_app| |auto].
      intros Hr. apply Forall_cons_2; [by apply Hm'|by apply Hk]. }
    apply wp_bind, wp_cache_get. wp_steps.
    assert (Hfetch : wp ev (key ← FetchKeyFromServer a;
      match key with
      | inl k => now ← trigger ENow; cache_set a (MkCachedKey k (now + 30 * second)) ;; refresh_keys nodes
      | inr err => Ret (inr ("error fetching public key for " +:+ a +:+ ": " +:+ err))
      end) (World p [] c (t ++ [EvNow (e_now ev (length t))])) Q).
    { unfold FetchKeyFromServer. wp_steps.
      destruct (e_request ev _ _) as [resp|]; wp_steps.
      - destruct (parse_key_response resp) as [k|err].
        + wp_steps. apply wp_cache_set. rewrite <- !app_assoc. apply Hrest; [done| |].
          * by rewrite lookup_insert_eq.
          * intros b Hb. rewrite lookup_insert_is_Some'. auto.
        + apply wp_ret. rewrite <- !app_assoc.
          replace (World p [] c) with (World (with_cache (cache p) p) [] c) by by destruct p.
          by apply HQ.
      - rewrite <- !app_assoc.
        replace (World p [] c) with (World (with_cache (cache p) p) [] c) by by destruct p.
        by apply HQ. }
    destruct (cache p !! a) as [v|] eqn:Hca; [|done].
    destruct (expired _ v); [done|].
    specialize (Hrest (cache p) [EvNow (e_now ev (length t))]). destruct p as [nd m].
    apply Hrest; [done|by rewrite Hca|done].
Qed.

Lemma wp_GenerateMsgID_internal prefix p h c t (Q : string -> world Proc -> Prop) :
  (forall s u, Forall internal u -> Q s (World p h c (t ++ u))) ->
  wp ev (GenerateMsgID prefix) (World p h c t) Q.
Proof. intros HQ. apply wp_GenerateMsgID. intros s w' _ (u & -> & Hu)%quiet_inv. by apply HQ. Qed.

Lemma wp_Encapsulator_total message frag route returnRoute sender p c t Q :
  route <> [] -> (returnRoute <> [] -> length returnRoute = length route) ->
  (forall r m u, silent u -> Q r (World (with_cache m p) [] c (t ++ u))) ->
  wp ev (Encapsulator_func message frag route returnRoute sender) (World p [] c t) Q.
Proof.
  intros Hne Hlen HQ. unfold Encapsulator_func.
  apply wp_bind, wp_refresh_total. intros ok m u0 Hu0 Hk _.
  destruct ok as [[]|e]; [|apply wp_ret; by apply HQ].
  specialize (Hk eq_refl). unfold known in Hk. apply Forall_app in Hk as [Hkf Hkr].
  set (p' := with_cache m p). assert (Hc : cache p' = m) by done.
  apply wp_bind, wp_GenerateMsgID_internal. intros msgID u1 Hu1.
  apply wp_bind, wp_gen_nacks. intros nacks u2 Hnl _ Hu2. cbn [app].
  assert (Hfin : forall first ret u, silent u ->
    wp ev (r ← encryptOnionLayers (MkOnionLayer "FINAL" msgID first "" ret frag message)
                route sender nacks;
           match r with
           | inr err => Ret (inr ("error building forward onion: " +:+ err))
           | inl forwardPayload =>
               nack0 ← get_index nacks 0; Ret (inl (forwardPayload, msgID, nack0))
           end) (World p' [] c (t ++ u)) Q).
  { intros first ret u Hu. apply wp_bind, wp_encryptOnionLayers_total; [done..|].
    intros [payload|err] v Hv.
    - destruct (lookup_lt_is_Some_2 nacks 0) as [n0 Hn0]; [destruct route; cbn in *; [done|lia]|].
      apply wp_bind, (wp_get_index ev _ _ _ _ _ Hn0). apply wp_ret. rewrite <- app_assoc.
      apply HQ. auto with dor.
    - apply wp_ret. rewrite <- app_assoc. apply HQ. auto with dor. }
  assert (Hu012 : silent (u0 ++ u1 ++ u2)) by auto with dor.
  rewrite <- !app_assoc. destruct returnRoute as [|g gs] eqn:Erv; apply wp_bind.
  - apply wp_ret. by apply Hfin.
  - apply wp_bind, wp_encryptOnionLayers_total; [done| |done|].
    + rewrite length_reverse, Hnl. symmetry. by apply Hlen.
    + intros [ret|err] v Hv; apply wp_ret; rewrite <- app_assoc.
      * apply Hfin. auto with dor.
      * apply wp_ret. apply HQ. auto with dor.
Qed.

Definition keyed (route : list LayerGroup) : Prop := Forall (fun g => PubKeys g <> []) route.

Lemma wp_group_loop_total route sender nacks i ct p c t Q :
  i < length route -> length nacks = length route -> keyed (drop i route) ->
  (forall r u, Forall internal u -> (forall x, r = inl x -> keyed route) ->
     Q r (World p [] c (t ++ u))) ->
  wp ev (group_loop route sender nacks i ct) (World p [] c t) Q.
Proof.
  intros Hi Hn. revert ct t Q. induction i as [|i IH]; intros ct t Q Hk HQ; cbn [group_loop].
  - apply wp_ret. specialize (HQ (inl ct) []). rewrite app_nil_r in HQ. by apply HQ.
  - destruct (lookup_lt_is_Some_2 route (Datatypes.S i)) as [nx Hnx]; [lia|].
    destruct (lookup_lt_is_Some_2 route i) as [hr Hhr]; [lia|].
    destruct (lookup_lt_is_Some_2 nacks i) as [n0 Hn0]; [lia|].
    destruct (lookup_lt_is_Some_2 nacks (Datatypes.S i)) as [n1 Hn1]; [lia|].
    assert (Hprev : forall Q', (forall s, Q' s (World p [] c t)) ->
      wp ev (match i with 0 => Ret sender
             | Datatypes.S j => g ← get_index route j; Ret (JoinAddresses (Addrs g)) end)
        (World p [] c t) Q').
    { intros Q' HQ'. destruct i as [|j]; [apply HQ'|].
      destruct (lookup_lt_is_Some_2 route j) as [q Hq]; [lia|].
      apply wp_bind, (wp_get_index ev _ _ _ _ _ Hq), HQ'. }
    apply wp_bind, Hprev. intros prev. rewrite Nat.add_1_r.
    apply wp_bind, (wp_get_index ev _ _ _ _ _ Hn0). apply wp_bind, (wp_get_index ev _ _ _ _ _ Hn1).
    apply wp_bind, (wp_get_index ev _ _ _ _ _ Hnx). apply wp_bind, (wp_get_index ev _ _ _ _ _ Hhr).
    apply wp_bind, wp_BroadcastEncrypt_total. intros [ct'|e] u Hu Hk'.
    + apply IH; [lia| |].
      * unfold keyed. rewrite (drop_S _ _ _ Hhr). apply Forall_cons_2; [by eapply Hk'|done].
      * intros r v' Hv'. rewrite <- app_assoc. apply HQ. by apply Forall_app.
    + apply wp_ret. by apply HQ.
Qed.

Lemma wp_encryptOnionLayersGroup_total inner route sender nacks p c t Q :
  route <> [] -> length nacks = length route ->
  (forall r u, Forall internal u -> (forall x, r = inl x -> keyed route) ->
     Q r (World p [] c (t ++ u))) ->
  wp ev (encryptOnionLayersGroup inner route sender nacks) (World p [] c t) Q.
Proof.
  intros Hne Hn HQ. unfold encryptOnionLayersGroup.
  destruct (length route) as [|k] eqn:Hl; [by destruct route|].
  destruct (lookup_lt_is_Some_2 route k) as [lst Hlst]; [lia|].
  apply wp_bind, (wp_get_index ev _ _ _ _ _ Hlst).
  apply wp_bind, wp_BroadcastEncrypt_total. intros [ct|e] u Hu Hk.
  - apply wp_group_loop_total; [lia|lia| |].
    + unfold keyed. rewrite (drop_S _ _ _ Hlst), drop_ge by lia.
      apply Forall_cons_2; [by eapply Hk|by apply Forall_nil_2].
    + intros r v' Hv'. rewrite <- app_assoc. apply HQ. by apply Forall_app.
  - apply wp_ret. by apply HQ.
Qed.

Lemma wp_Encapsulator_super_total message route returnRoute sender p c t Q :
  route <> [] -> (returnRoute <> [] -> length returnRoute = length route) ->
  (forall r u, silent u -> (forall x, r = inl x -> keyed route) -> Q r (World p [] c (t ++ u))) ->
  wp ev (Encapsulator_func_super message route returnRoute sender) (World p [] c t) Q.
Proof.
  intros Hne Hlen HQ. unfold Encapsulator_func_super.
  apply wp_bind, wp_GenerateMsgID_internal. intros msgID u1 Hu1.
  apply wp_bind, wp_gen_nacks. intros nacks u2 Hnl _ Hu2. cbn [app].
  assert (Hfin : forall first ret u, silent u ->
    wp ev (r ← encryptOnionLayersGroup (MkOnionLayer "FINAL" msgID first "" ret "" message)
                route sender nacks;
           match r with
           | inr err => Ret (inr err)
           | inl forwardPayload =>
               nack0 ← get_index nacks 0; Ret (inl (forwardPayload, msgID, nack0))
           end) (World p [] c (t ++ u)) Q).
  { intros first ret u Hu. apply wp_bind, wp_encryptOnionLayersGroup_total; [done..|].
    intros [payload|err] v Hv Hk.
    - destruct (lookup_lt_is_Some_2 nacks 0) as [n0 Hn0]; [destruct route; cbn in *; [done|lia]|].
      apply wp_bind, (wp_get_index ev _ _ _ _ _ Hn0). apply wp_ret. rewrite <- app_assoc.
      apply HQ; [auto with dor|]. intros. by eapply Hk.
    - apply wp_ret. rewrite <- app_assoc. apply HQ; [auto with dor|done]. }
  rewrite <- !app_assoc. destruct returnRoute as [|g gs] eqn:Erv; apply wp_bind.
  - apply wp_ret. apply Hfin. auto with dor.
  - apply wp_bind, wp_encryptOnionLayersGroup_total; [done| |].
    + rewrite length_reverse, Hnl. symmetry. by apply Hlen.
    + intros [ret|err] v Hv _; apply wp_ret; rewrite <- app_assoc.
      * apply Hfin. auto with dor.
      * apply wp_ret. apply HQ; [auto with dor|done].
Qed.

(** ** Steps of the senders *)

Lemma wp_SendTo_any a m p h c t Q :
  (forall ok u, dials u = [a] -> prints u = [] -> lists u = [] -> Q ok (World p h c (t ++ u))) ->
  wp ev (SendTo a m) (World p h c t) Q.
Proof.
  intros HQ. unfold SendTo. wp_steps. destruct (String.eqb _ ""); [wp_steps; by apply HQ|].
  destruct (0 <? _)%Z eqn:Hms; [|wp_steps; by apply HQ].
  wp_steps. apply wp_intn; [by apply Z.ltb_lt|]. intros r w' _ (u & -> & Hu)%quiet_inv.
  wp_steps. rewrite <- !app_assoc. apply HQ; autorewrite with dor_trace; rewrite ?(internal_lists u) by auto with dor; done.
Qed.

Lemma wp_telemetry_hops r exid i p h c t Q :
  (forall u, silent u -> Q tt (World p h c (t ++ u))) ->
  wp ev (telemetry_hops r exid i) (World p h c t) Q.
Proof.
  revert i t Q. induction r as [|a [|b r] IH]; intros i t Q HQ; cbn [telemetry_hops].
  1, 2: apply wp_ret; specialize (HQ []); rewrite app_nil_r in HQ; by apply HQ.
  unfold Telemetry. wp_steps. rewrite wp_trigger. cbn [exec add_event w_st w_held w_chans w_trace].
  apply IH. intros u Hu. cbn [w_trace]. rewrite <- !app_assoc. apply HQ. by apply (silent_app [_; _]).
Qed.

Lemma wp_Telemetry a b k m x hop p h c t Q :
  (forall u, silent u -> Q tt (World p h c (t ++ u))) ->
  wp ev (Telemetry a b k m x hop) (World p h c t) Q.
Proof. intros HQ. unfold Telemetry. rewrite wp_trigger. cbn. by apply HQ. Qed.

Lemma wp_telemetry_forward self kind m exid r p h c t Q :
  r <> [] -> (forall u, silent u -> Q tt (World p h c (t ++ u))) ->
  wp ev (telemetry_forward self kind m exid r) (World p h c t) Q.
Proof.
  intros Hne HQ. unfold telemetry_forward. destruct r as [|a r]; [done|].
  apply wp_bind, (wp_get_index ev _ _ a); [done|]. apply wp_bind, wp_Telemetry. intros u Hu.
  apply wp_telemetry_hops. intros v Hv. rewrite <- app_assoc. apply HQ. auto with dor.
Qed.

Lemma wp_register_ack id n ch p c t Q :
  Q tt (World (on_node (upd_PendingACKs (fun m => <[n := ch]> (<[id := ch]> m))) p) [] c t) ->
  wp ev (register_ack id n ch) (World p [] c t) Q.
Proof. intros HQ. unfold register_ack. by wp_steps. Qed.

Lemma wp_forget_ack id n p c t Q :
  Q tt (World (on_node (upd_PendingACKs (fun m => delete n (delete id m))) p) [] c t) ->
  wp ev (forget_ack id n) (World p [] c t) Q.
Proof. intros HQ. unfold forget_ack. by wp_steps. Qed.

Lemma wp_since_ms z p h c t Q :
  (forall ms u, silent u -> Q ms (World p h c (t ++ u))) ->
  wp ev (since_ms z) (World p h c t) Q.
Proof. intros HQ. unfold since_ms. wp_steps. by apply HQ. Qed.

(** The channel answers, or the other goroutines have moved on meanwhile. *)
Lemma wp_select i p h c t Q :
  (forall r p' c', p' = p \/ (exists n, p' = (e_wait ev n p).2) ->
     Q r (World p' h c' (t ++ [EvWait r]))) ->
  wp ev (trigger (ESelect i)) (World p h c t) Q.
Proof.
  intros HQ. rewrite wp_trigger. cbn [exec w_chans w_st].
  destruct (c !! i) as [[[|b r] k]|].
  - destruct (e_wait ev _ p) as [r s] eqn:E. apply HQ. right. eexists. by rewrite E.
  - apply HQ. by left.
  - destruct (e_wait ev _ p) as [r s] eqn:E. apply HQ. right. eexists. by rewrite E.
Qed.

Lemma wp_NodesList p c t Q :
  (forall r a, Q r (World p [] c (t ++ [EvRequest list_request a]))) ->
  wp ev Node.GetNodesList (World p [] c t) Q.
Proof.
  intros HQ. unfold Node.GetNodesList. wp_steps. destruct (e_request ev _ _); wp_steps; by apply HQ.
Qed.

Lemma wp_make_chan k p h c t Q :
  Q (length c) (World p h (c ++ [Chan [] k]) t) -> wp ev (trigger (EMakeChan k)) (World p h c t) Q.
Proof. intros HQ. by rewrite wp_trigger. Qed.

Lemma wp_node_address p h c t Q :
  Q (own_addr (node p)) (World p h c t) -> wp ev node_address (World p h c t) Q.
Proof. intros HQ. unfold node_address. by wp_steps. Qed.

(** ** SEND returns *)

Section Retry.
Variables (self destAddr : string).

(** No goroutine of the process changes its address. *)
Hypothesis Hwait : forall n s, own_addr (node s) = self -> own_addr (node (e_wait ev n s).2) = self.

(** At most [l] requests for the list, at most [k] first hops contacted, all of
    them relays, and at most one result printed. *)
Definition attempts (l k : nat) (u : list event) : Prop :=
  length (lists u) <= l /\ length (dials u) <= k /\
  Forall (fun a => a <> self /\ a <> destAddr) (dials u) /\ length (prints u) <= 1.

Lemma attempts_silent l k u : silent u -> attempts l k u.
Proof. intros [[Hd Hp] Hl]. unfold attempts. rewrite Hd, Hp, Hl. cbn. repeat split; [lia|lia|done|lia]. Qed.

Lemma attempts_before l k u v : silent u -> attempts l k v -> attempts l k (u ++ v).
Proof. intros [[Hd Hp] Hl] Hv. unfold attempts in *. autorewrite with dor_trace. by rewrite Hd, Hp, Hl. Qed.

Lemma attempts_list l k r v : attempts l k v -> attempts (Datatypes.S l) k ([EvRequest list_request r] ++ v).
Proof.
  intros (H1 & H2). split; [|exact H2].
  change (Datatypes.S (length (lists v)) <= Datatypes.S l). lia.
Qed.

Lemma attempts_dial l k a u v :
  dials u = [a] -> prints u = [] -> lists u = [] -> a <> self -> a <> destAddr -> attempts l k v ->
  attempts l (Datatypes.S k) (u ++ v).
Proof.
  intros Hd Hp Hl Ha Hb (Hv1 & Hv2 & Hf & Hv). unfold attempts. autorewrite with dor_trace. rewrite Hd, Hp, Hl.
  cbn. repeat split; [lia|lia|by constructor|done].
Qed.

Lemma attempts_mono l j k u : j <= k -> attempts l j u -> attempts l k u.
Proof. unfold attempts. intros ? (? & ? & ? & ?). repeat split; [lia|lia|done|done]. Qed.

Lemma attempts_print l u x : silent u -> attempts l 0 (u ++ [EvPrint x]).
Proof.
  intros [[Hd Hp] Hl]. unfold attempts. autorewrite with dor_trace. rewrite Hd, Hp, Hl. cbn.
  repeat split; [lia|lia|done|lia].
Qed.

Lemma attempts_after l k u v : attempts l k u -> silent v -> attempts l k (u ++ v).
Proof.
  intros Hu [[Hd Hp] Hl]. unfold attempts in *. autorewrite with dor_trace. by rewrite Hd, Hp, Hl, !app_nil_r.
Qed.

Lemma attempts_result l k r u x v :
  silent u -> silent v -> attempts l k ([EvWait r] ++ u ++ [EvPrint x] ++ v).
Proof.
  intros Hu Hv. apply attempts_before; [done|]. rewrite app_assoc. apply attempts_after; [|done].
  eapply attempts_mono; [|by apply attempts_print]. lia.
Qed.

(** One onion sent: either the next attempt starts, after the relay contacted,
    or the sender is done with one result. *)
Lemma wp_send_onion retry message route a onion msgID n0 currentTry startTime l k p c t Q :
  route !! 0 = Some a -> a <> self /\ a <> destAddr -> own_addr (node p) = self ->
  (forall p' c' u, own_addr (node p') = self ->
     (forall v, attempts l k v -> attempts l (Datatypes.S k) (u ++ v)) ->
     wp ev retry (World p' [] c' (t ++ u)) Q) ->
  (forall p' c' u, attempts l (Datatypes.S k) u -> Q tt (World p' [] c' (t ++ u))) ->
  wp ev (send_onion retry destAddr message self route onion msgID n0 currentTry startTime)
    (World p [] c t) Q.
Proof.
  intros Hr0 [Ha Had] Hself Hretry HQ. unfold send_onion.
  apply wp_bind, wp_make_chan. apply wp_bind, wp_register_ack.
  apply wp_bind, wp_telemetry_forward; [by destruct route|]. intros u4 Hu4.
  apply wp_bind, (wp_get_index ev _ _ a); [done|].
  apply wp_bind, wp_SendTo_any. intros ok u5 Hd5 Hp5 Hl5. rewrite <- !app_assoc.
  assert (Hgo : forall v, attempts l k v -> attempts l (Datatypes.S k) (u4 ++ u5 ++ v)).
  { intros v Hv. apply attempts_before; [by auto with dor|]. by eapply attempts_dial. }
  destruct ok; cbn [negb].
  - unfold await_ack. apply wp_bind, wp_select. intros r p' c' Hp'.
    assert (Hself' : own_addr (node p') = self) by (destruct Hp' as [->|[n ->]]; [done|by apply Hwait]).
    apply wp_bind, wp_since_ms. intros ms u6 Hu6. rewrite <- !app_assoc. destruct r as [[]|].
    + wp_steps. apply wp_Telemetry. intros u7 Hu7. rewrite <- !app_assoc. apply HQ, Hgo.
      apply attempts_result; auto with dor.
    + apply wp_bind, wp_Telemetry. intros u7 Hu7. apply wp_bind, wp_forget_ack.
      rewrite <- !app_assoc. apply Hretry; [done|]. intros v Hv. rewrite <- !app_assoc. apply Hgo.
      do 3 (apply attempts_before; [by auto with dor|]). done.
    + wp_steps. apply wp_Telemetry. intros u7 Hu7. rewrite <- !app_assoc. wp_steps.
      apply wp_forget_ack. apply HQ, Hgo. apply attempts_result; auto with dor.
  - apply wp_bind, wp_forget_ack. apply Hretry; [done|].
    intros v Hv. rewrite <- !app_assoc. by apply Hgo.
Qed.

Lemma wp_SendWithRetry fuel message frag numRelays maxRetries currentTry startTime p c t Q :
  Z.to_nat (maxRetries - currentTry) < fuel -> (0 <= numRelays)%Z -> own_addr (node p) = self ->
  (forall p' c' u, attempts (Z.to_nat (maxRetries - currentTry)) (Z.to_nat (maxRetries - currentTry)) u ->
     Q tt (World p' [] c' (t ++ u))) ->
  wp ev (SendWithRetry fuel destAddr message frag numRelays maxRetries currentTry startTime)
    (World p [] c t) Q.
Proof.
  revert numRelays currentTry p c t Q.
  induction fuel as [|fuel IH]; intros numRelays currentTry p c t Q Hfuel Hn Hself HQ; [lia|].
  cbn [SendWithRetry]. destruct (maxRetries <=? currentTry)%Z eqn:Htry.
  { apply wp_bind, wp_since_ms. intros ms u Hu. wp_steps. rewrite <- app_assoc. apply HQ.
    eapply attempts_mono; [|apply attempts_print; by auto with dor]. lia. }
  apply Z.leb_gt in Htry. set (k := Z.to_nat (maxRetries - (currentTry + 1))).
  replace (Z.to_nat (maxRetries - currentTry)) with (Datatypes.S k) in HQ by lia.
  apply wp_bind, wp_NodesList. intros lst ans.
  assert (HQ1 : forall p' c' u, attempts k (Datatypes.S k) u ->
    Q tt (World p' [] c' (t ++ [EvRequest list_request ans] ++ u))) by (intros; by apply HQ, attempts_list).
  assert (Hend : forall p' u, silent u -> Q tt (World p' [] c ((t ++ [EvRequest list_request ans]) ++ u))).
  { intros p' u Hu. rewrite <- app_assoc. by apply HQ1, attempts_silent. }
  assert (Hnow : forall p', Q tt (World p' [] c (t ++ [EvRequest list_request ans]))).
  { intros p'. specialize (Hend p' [] silent_nil). by rewrite app_nil_r in Hend. }
  destruct lst as [listStr|e]; [|by apply wp_ret].
  destruct (String.eqb listStr "LIST:empty"); [by apply wp_ret|].
  apply wp_bind, wp_node_address. rewrite Hself. cbn zeta.
  destruct (Z.min _ _ =? 0)%Z eqn:Ez; [by apply wp_ret|].
  apply Z.eqb_neq in Ez. set (cands := candidates_of listStr self destAddr) in *.
  apply wp_bind, wp_shuffle. intros order w' Hperm (u2 & -> & Hu2)%quiet_inv.
  destruct (_ <? 0)%Z eqn:Eneg; [apply Z.ltb_lt in Eneg; lia|]. clear Eneg.
  set (i := Z.to_nat _). assert (Hi : i <> 0) by lia.
  assert (Hlo := Permutation_length Hperm).
  destruct (take i order) as [|a relays] eqn:Ei.
  { apply (f_equal length) in Ei. rewrite length_take in Ei. cbn in Ei. lia. }
  assert (Ha : a <> self /\ a <> destAddr).
  { apply (elem_candidate listStr). fold cands. rewrite <- Hperm, <- (take_drop i order), Ei. by left. }
  apply wp_bind, wp_Encapsulator_total; [done| |].
  { intros _. rewrite !length_app, length_reverse. done. }
  intros enc m u3 Hu3. rewrite <- !(app_assoc (t ++ _)), <- !app_assoc.
  assert (Hsil : silent (u2 ++ u3)) by auto with dor.
  destruct enc as [[[onion msgID] n0]|e]; [|apply wp_ret; rewrite app_assoc; by apply Hend].
  revert Hsil. generalize (u2 ++ u3). intros u Hu.
  eapply (wp_send_onion _ _ _ a); [done|done|done| |].
  - intros p' c' v Hp' Hv. apply IH; [lia|lia|done|].
    intros p'' c'' x Hx. rewrite <- !app_assoc. apply HQ1, attempts_before; [done|]. by apply Hv.
  - intros p' c' v Hv. rewrite <- !app_assoc. by apply HQ1, attempts_before.
Qed.

(** With a negative count the sender panics at the first list with an entry,
    before it contacts anybody. *)
Lemma negative_finishes fuel message frag numRelays maxRetries currentTry startTime p c t
    (Q : unit -> world Proc -> Prop) (P : string -> world Proc -> Prop) :
  (numRelays < 0)%Z ->
  (forall p' c' u, attempts (Z.to_nat (maxRetries - currentTry)) (Z.to_nat (maxRetries - currentTry)) u -> Q tt (World p' [] c' (t ++ u))) ->
  (forall w u, w_trace w = t ++ u -> mute u -> P "slice bounds out of range" w) ->
  finishes ev (SendWithRetry (Datatypes.S fuel) destAddr message frag numRelays maxRetries currentTry startTime)
    (World p [] c t) Q P.
Proof.
  intros Hn HQ HP. cbn [SendWithRetry]. destruct (maxRetries <=? currentTry)%Z eqn:Htry.
  { apply finishes_wp, wp_bind, wp_since_ms. intros ms u Hu. wp_steps. rewrite <- app_assoc. apply HQ.
    eapply attempts_mono; [|apply attempts_print; by auto with dor]. lia. }
  apply finishes_bind, wp_NodesList. intros lst ans.
  assert (Hnow : forall p', (currentTry < maxRetries)%Z -> Q tt (World p' [] c (t ++ [EvRequest list_request ans]))).
  { intros p' Hlt. apply HQ. replace (Z.to_nat _) with (Datatypes.S (Z.to_nat (maxRetries - (currentTry + 1)))) by lia.
    by apply (attempts_list _ _ _ []), attempts_silent. }
  apply Z.leb_gt in Htry. destruct lst as [listStr|e]; [|by apply Hnow].
  destruct (String.eqb listStr "LIST:empty"); [by apply Hnow|].
  apply finishes_bind, wp_node_address. cbn zeta.
  destruct (Z.min _ _ =? 0)%Z eqn:Ez; [by apply Hnow|].
  apply finishes_bind, wp_shuffle. intros order w' _ (u2 & -> & Hu2)%quiet_inv.
  destruct (_ <? 0)%Z eqn:Eneg; [|apply Z.ltb_ge in Eneg; lia].
  apply (HP _ ([EvRequest list_request ans] ++ u2)); [by rewrite app_assoc|]. apply mute_app; auto with dor. done.
Qed.

End Retry.
End Total.
