(* ===== verification/SuperSendSpec.v ===== *)
(** * What the sender of SSEND guarantees

    The trace of [SendWithRetrySuper] against the rule of its blacklist: a
    member that could not be reached is never tried again once the next attempt
    has begun, that is, once the list has been asked for again; after a
    successful connection no other is opened in the same attempt. *)

From S2P Require Import Prelude GoStrings Base64 GoMonad Crypto OnionLayer KeyCache Node NodeSpec.
From S2P Require Import OnionBuild Directory DirectorySpec Cluster ClusterSpec Send SendSpec.

(** ** The rule *)

Section Rule.
Variables (self destAddr : string).

(** [barred] is the blacklist of the attempt, [failing] what the attempt has
    added to it; [ready]: the attempt may still connect. *)
Fixpoint polite (barred failing : list string) (ready : bool) (u : list event) : Prop :=
  match u with
  | [] => True
  | EvRequest l _ :: u =>
      if String.eqb l list_request then polite (barred ++ failing) [] true u
      else polite barred failing ready u
  | EvDial a _ ok :: u =>
      ready = true /\ a <> self /\ a <> destAddr /\ a ∉ barred /\
      polite barred (if ok then failing else failing ++ [a]) (negb ok) u
  | _ :: u => polite barred failing ready u
  end.

Lemma polite_silent b f r u v : silent u -> polite b f r v -> polite b f r (u ++ v).
Proof.
  revert b f r. induction u as [|e u IH]; intros b f r [[Hd Hp] Hl] Hv; [done|].
  destruct e; cbn in *; try discriminate; try (apply IH; [done|exact Hv]).
  destruct (String.eqb _ _); [discriminate|]. by apply IH.
Qed.

Lemma polite_print b f r x v : polite b f r v -> polite b f r (EvPrint x :: v).
Proof. done. Qed.

(** The next attempt starts with what this one knows. *)
Lemma polite_next b f r v : polite (b ++ f) [] false v -> polite b f r v.
Proof.
  revert b f r. induction v as [|e v IH]; intros b f r Hv; [done|].
  destruct e; cbn in *; try (by apply IH); [by destruct Hv|].
  destruct (String.eqb _ _); [by rewrite app_nil_r in Hv|by apply IH].
Qed.

(** What holds after a part of the trace. *)
Lemma polite_after b f r u v :
  polite b f r (u ++ v) -> exists b' f' r', b ⊆ b' /\ f ⊆ b' ++ f' /\ (lists u <> [] -> f ⊆ b') /\ polite b' f' r' v.
Proof.
  revert b f r. induction u as [|e u IH]; intros b f r Hp.
  - exists b, f, r. set_solver.
  - destruct e; cbn in *; try (by eapply IH).
    + destruct Hp as (_ & _ & _ & _ & Hp). apply IH in Hp as (b' & f' & r' & Hb & Hf & Hl & Hp).
      exists b', f', r'. split; [done|]. destruct ok; [done|]. split; [set_solver|]. split; [|done].
      intros Hne. specialize (Hl Hne). set_solver.
    + destruct (String.eqb _ _); [|by eapply IH].
      apply IH in Hp as (b' & f' & r' & Hb & Hf & Hl & Hp). exists b', f', r'.
      split; [set_solver|]. split; [set_solver|]. split; [set_solver|done].
Qed.

Lemma polite_barred b f r u a : polite b f r u -> a ∈ b -> a ∉ dials u.
Proof.
  revert b f r. induction u as [|e u IH]; intros b f r Hp Ha; [by apply not_elem_of_nil|].
  destruct e; cbn in *; try (by eapply IH).
  - destruct Hp as (_ & _ & _ & Hb & Hp). apply not_elem_of_cons. split; [congruence|by eapply IH].
  - destruct (String.eqb _ _); [|by eapply IH]. eapply IH; [exact Hp|]. set_solver.
Qed.

Lemma polite_dials b f r u : polite b f r u -> Forall (fun a => a <> self /\ a <> destAddr /\ a ∉ b) (dials u).
Proof.
  revert b f r. induction u as [|e u IH]; intros b f r Hp; [constructor|].
  destruct e; cbn in *; try (by eapply IH).
  - destruct Hp as (_ & ? & ? & ? & Hp). constructor; [done|by eapply IH].
  - destruct (String.eqb _ _); [|by eapply IH]. eapply Forall_impl; [by eapply IH|]. intros x (? & ? & Hx).
    split; [done|]. split; [done|]. intros Hb. apply Hx. set_solver.
Qed.

Lemma polite_closed b f u a m ok v : polite b f false (u ++ EvDial a m ok :: v) -> lists u <> [].
Proof.
  revert b f. induction u as [|e u IH]; intros b f Hp; [by destruct Hp|].
  destruct e; cbn in *; try (by eapply IH); [by destruct Hp|].
  destruct (String.eqb _ _); [done|by eapply IH].
Qed.

(** In terms of the trace alone. *)
Lemma polite_spared b f r u1 a m u2 x u3 :
  polite b f r (u1 ++ EvDial a m false :: u2 ++ EvRequest list_request x :: u3) -> a ∉ dials u3.
Proof.
  intros Hp. apply polite_after in Hp as (b1 & f1 & r1 & _ & _ & _ & Hp). cbn in Hp.
  destruct Hp as (_ & _ & _ & _ & Hp). apply polite_after in Hp as (b2 & f2 & r2 & _ & Hf & _ & Hp).
  cbn in Hp. rewrite ?String.eqb_refl in Hp. eapply polite_barred; [exact Hp|]. set_solver.
Qed.

Lemma polite_single b f r u1 a m u2 a' m' ok u3 :
  polite b f r (u1 ++ EvDial a m true :: u2 ++ EvDial a' m' ok :: u3) -> lists u2 <> [].
Proof.
  intros Hp. apply polite_after in Hp as (b1 & f1 & r1 & _ & _ & _ & Hp). cbn in Hp.
  destruct Hp as (_ & _ & _ & _ & Hp). by eapply polite_closed.
Qed.
End Rule.

Section Super.
Context {C : CryptoLib} {G : GoSort} {GL : GoSortLaws G}.
Variable ev : env Proc.
Variables (self destAddr : string).

(** No goroutine of the process changes its address. *)
Hypothesis Hwait : forall n s, own_addr (node s) = self -> own_addr (node (e_wait ev n s).2) = self.

(** An attempt that has its list: the rule is kept from here on, at most [k]
    lists more are asked for, and at most one result is printed. *)
Definition going (failed : list string) (k : nat) (u : list event) : Prop :=
  polite self destAddr failed [] true u /\ length (lists u) <= k /\ length (prints u) <= 1.

(** The same from before the attempt. *)
Definition contacts (failed : list string) (k : nat) (u : list event) : Prop :=
  polite self destAddr failed [] false u /\ length (lists u) <= k /\ length (prints u) <= 1.

Lemma going_silent failed k u : silent u -> going failed k u.
Proof.
  intros Hu. split; [by rewrite <- (app_nil_r u); apply polite_silent|]. destruct Hu as [[_ Hp] Hl].
  rewrite Hl, Hp. cbn. lia.
Qed.

Lemma going_before failed k u v : silent u -> going failed k v -> going failed k (u ++ v).
Proof.
  intros Hu (H1 & H2 & H3). split; [by apply polite_silent|]. destruct Hu as [[_ Hp] Hl].
  autorewrite with dor_trace. by rewrite Hl, Hp.
Qed.

Lemma contacts_list failed k r u : going failed k u -> contacts failed (Datatypes.S k) (EvRequest list_request r :: u).
Proof.
  intros (H1 & H2 & H3). split; [|split; [|done]].
  - cbn. rewrite ?String.eqb_refl, app_nil_r. exact H1.
  - change (Datatypes.S (length (lists u)) <= Datatypes.S k). lia.
Qed.

Lemma contacts_abandon failed k u x : silent u -> contacts failed k (u ++ [EvPrint x]).
Proof.
  intros Hu. split; [by apply polite_silent|]. destruct Hu as [[_ Hp] Hl].
  autorewrite with dor_trace. rewrite Hl, Hp. cbn. lia.
Qed.

(** Trying the members of a group: [failed'] of them in vain. *)
Record tried (addrs failed' : list string) (sent : bool) (u : list event) : Prop := {
  tr_polite barred v before :
    Forall (fun a => a <> self /\ a <> destAddr /\ a ∉ barred) addrs ->
    polite self destAddr barred (before ++ failed') (negb sent) v ->
    polite self destAddr barred before true (u ++ v);
  tr_prints : prints u = [];
  tr_lists : lists u = [] }.

(** A result ends the attempt. *)
Lemma polite_result b f r w u x v :
  silent u -> silent v -> polite self destAddr b f r ([EvWait w] ++ u ++ [EvPrint x] ++ v).
Proof.
  intros Hu Hv. change (polite self destAddr b f r (u ++ [EvPrint x] ++ v)). apply polite_silent; [done|].
  change (polite self destAddr b f r v). rewrite <- (app_nil_r v). by apply polite_silent.
Qed.

Lemma after_group addrs failed failed' sent k u4 u5 v :
  Forall (fun a => a <> self /\ a <> destAddr /\ a ∉ failed) addrs -> silent u4 ->
  tried addrs failed' sent u5 -> polite self destAddr failed failed' (negb sent) v ->
  length (lists v) <= k -> length (prints v) <= 1 -> going failed k (u4 ++ u5 ++ v).
Proof.
  intros Ha Hu4 [H1 H2 H3] Hv Hl Hp. apply going_before; [done|].
  split; [by apply (H1 _ _ [] Ha)|]. autorewrite with dor_trace. by rewrite H2, H3.
Qed.

Lemma after_group_retry addrs failed failed' sent k u4 u5 v :
  Forall (fun a => a <> self /\ a <> destAddr /\ a ∉ failed) addrs -> silent u4 ->
  tried addrs failed' sent u5 -> contacts (failed ++ failed') k v -> going failed k (u4 ++ u5 ++ v).
Proof. intros Ha Hu4 Ht (H1 & H2 & H3). eapply after_group; [done..| |done|done]. by apply polite_next. Qed.

Lemma contacts_before failed k u v : silent u -> contacts failed k v -> contacts failed k (u ++ v).
Proof.
  intros Hu (H1 & H2 & H3). split; [by apply polite_silent|]. destruct Hu as [[_ Hp] Hl].
  autorewrite with dor_trace. by rewrite Hl, Hp.
Qed.

Lemma after_group_result addrs failed failed' k u4 u5 r u6 x u7 :
  Forall (fun a => a <> self /\ a <> destAddr /\ a ∉ failed) addrs -> silent u4 ->
  tried addrs failed' true u5 -> silent u6 -> silent u7 ->
  going failed k (u4 ++ u5 ++ [EvWait r] ++ u6 ++ [EvPrint x] ++ u7).
Proof.
  intros Ha Hu4 Ht Hu6 Hu7. eapply after_group; [done..|by apply polite_result| |].
  - destruct Hu6 as [_ Hl], Hu7 as [_ Hl']. autorewrite with dor_trace. rewrite Hl, Hl'. cbn. lia.
  - destruct Hu6 as [[_ Hl] _], Hu7 as [[_ Hl'] _]. autorewrite with dor_trace. rewrite Hl, Hl'. cbn. lia.
Qed.

(** ** Steps of the sender *)

Lemma wp_super_candidates entries cs p c t Q :
  Forall (fun n => node_addr n <> self /\ node_addr n <> destAddr) cs ->
  (forall cs' m u, Forall (fun n => node_addr n <> self /\ node_addr n <> destAddr) cs' ->
     Forall internal u -> Q cs' (World (with_cache m p) [] c (t ++ u))) ->
  wp ev (super_candidates entries self destAddr cs) (World p [] c t) Q.
Proof.
  revert cs p t Q. induction entries as [|e entries IH]; intros cs p t Q Hcs HQ;
    cbn [super_candidates].
  - apply wp_ret. specialize (HQ cs (cache p) []). rewrite app_nil_r in HQ. destruct p. by apply HQ.
  - destruct (parse_info e) as [n|]; [|by apply IH]. cbn zeta.
    destruct (String.eqb_spec (node_addr n) self) as [|Hns]; [by apply IH|].
    destruct (String.eqb_spec (node_addr n) destAddr) as [|Hnd]; cbn [orb]; [by apply IH|].
    assert (Hcs' : Forall (fun n => node_addr n <> self /\ node_addr n <> destAddr) (cs ++ [n])).
    { apply Forall_app. split; [done|]. by repeat constructor. }
    apply wp_bind, wp_cache_get. destruct (cache p !! node_addr n); [by apply IH|].
    destruct (parsePublicKey (PublicKeyText n)) as [k|]; [|by apply IH].
    wp_steps. apply wp_cache_set, IH; [done|]. intros cs' m u Hf Hu. rewrite <- app_assoc.
    apply HQ; [done|]. by constructor.
Qed.

Lemma wp_SendTo_dial a m p h c t Q :
  (forall ok u, silent u -> Q ok (World p h c (t ++ u ++ [EvDial a (m +:+ str1 nl) ok]))) ->
  wp ev (SendTo a m) (World p h c t) Q.
Proof.
  intros HQ. unfold SendTo. wp_steps.
  assert (H0 := fun ok => HQ ok [] silent_nil). cbn [app] in H0.
  destruct (String.eqb _ ""); [wp_steps; by apply H0|].
  destruct (0 <? _)%Z eqn:Hms; [|wp_steps; by apply H0].
  wp_steps. apply wp_intn; [by apply Z.ltb_lt|]. intros r w' _ (u & -> & Hu)%quiet_inv.
  wp_steps. rewrite <- !app_assoc. rewrite (app_assoc u). apply HQ. apply silent_app; [by auto with dor|done].
Qed.

Lemma wp_try_group addrs onion acc p c t Q :
  (forall sent failed' u, tried addrs failed' sent u ->
     Q (sent, acc ++ failed') (World p [] c (t ++ u))) ->
  wp ev (try_group addrs onion acc) (World p [] c t) Q.
Proof.
  revert acc t Q. induction addrs as [|a addrs IH]; intros acc t Q HQ; cbn [try_group].
  - apply wp_ret. specialize (HQ false [] []). rewrite !app_nil_r in HQ. apply HQ. split; [|done|done].
    intros b v before _ Hv. by rewrite app_nil_r in Hv.
  - apply wp_bind, wp_SendTo_dial. intros ok u Hu. assert (Hu' := Hu). destruct Hu' as [[Hd Hp] Hl]. destruct ok.
    + apply wp_ret. specialize (HQ true []). rewrite app_nil_r in HQ. apply HQ. split; autorewrite with dor_trace.
      * intros b v before [(? & ? & ?) _]%Forall_cons_1 Hv. rewrite <- app_assoc. apply polite_silent; [done|].
        cbn. do 4 (split; [done|]). by rewrite app_nil_r in Hv.
      * by rewrite Hp.
      * by rewrite Hl.
    + apply IH. intros sent failed' v [H1 H2 H3]. rewrite <- !app_assoc. apply (HQ sent (a :: failed')).
      split; autorewrite with dor_trace.
      * intros b v' before [(? & ? & ?) Hrest]%Forall_cons_1 Hv. rewrite <- !app_assoc. apply polite_silent; [done|].
        cbn. do 4 (split; [done|]). apply H1; [done|]. by rewrite <- app_assoc.
      * by rewrite Hp, H2.
      * by rewrite Hl, H3.
Qed.

Lemma wp_first_addrs r p h c t Q :
  Forall filled r -> (forall l, length l = length r -> Q l (World p h c t)) ->
  wp ev (first_addrs r) (World p h c t) Q.
Proof.
  intros Hr. revert Q. induction Hr as [|g r Hg Hr IH]; intros Q HQ; cbn [first_addrs].
  - apply wp_ret. by apply HQ.
  - destruct (Addrs g) as [|a l] eqn:Ea; [done|].
    apply wp_bind, (wp_get_index ev _ _ a); [done|]. apply wp_bind, IH. intros l' Hl.
    apply wp_ret, HQ. cbn. by rewrite Hl.
Qed.

(** An address of a group is that of a listed candidate off the blacklist. *)
Lemma group_member gs cands blacklist g a :
  Forall aligned gs -> pairs gs ≡ₚ members_of (filter (fun n => not_blacklisted blacklist n = true) cands) ->
  g ∈ gs -> a ∈ Addrs g -> (a ∉ blacklist) /\ (exists n, n ∈ cands /\ node_addr n = a).
Proof.
  intros Hal Hp Hg Ha. rewrite Forall_forall in Hal. specialize (Hal g Hg). unfold aligned in Hal.
  apply list_elem_of_lookup_1 in Ha as [i Hi].
  destruct (lookup_lt_is_Some_2 (PubKeys g) i) as [k Hk].
  { rewrite <- Hal. by eapply lookup_lt_Some. }
  assert (Hin : (a, k) ∈ pairs gs).
  { unfold pairs. apply list_elem_of_In, in_concat. exists (group_pairs g). split.
    - apply list_elem_of_In, list_elem_of_fmap_2, Hg.
    - apply list_elem_of_In, (list_elem_of_lookup_2 _ i). unfold group_pairs.
      by rewrite lookup_zip_with, Hi, Hk. }
  rewrite Hp in Hin. apply list_elem_of_omap in Hin as (n & Hn & Hm).
  apply list_elem_of_filter in Hn as [Hnb Hn]. unfold member in Hm.
  destruct (parsePublicKey _); [|done]. injection Hm as <- _. split; [|eauto].
  intros Hb. unfold not_blacklisted in Hnb. apply negb_true_iff in Hnb.
  apply not_true_iff_false in Hnb. apply Hnb, existsb_exists. exists (node_addr n).
  split; [by apply list_elem_of_In|apply String.eqb_refl].
Qed.

Lemma keyed_filled gs : Forall aligned gs -> keyed gs -> Forall filled gs.
Proof.
  intros Ha Hk. unfold keyed in Hk. rewrite Forall_forall in *. intros g Hg He. specialize (Ha g Hg). specialize (Hk g Hg).
  unfold aligned in Ha. rewrite He in Ha. by destruct (PubKeys g).
Qed.

Lemma wp_Fetch_silent a p c t Q :
  (forall r u, silent u -> Q r (World p [] c (t ++ u))) ->
  wp ev (FetchKeyFromServer a) (World p [] c t) Q.
Proof.
  intros HQ. unfold FetchKeyFromServer. apply wp_bind, wp_silent_request; [done|]. intros [r|] u Hu; apply wp_ret; by apply HQ.
Qed.

Lemma wp_send_onion_super retry message route g onion msgID n0 currentTry startTime failed k p c t Q :
  route !! 0 = Some g -> Forall filled route ->
  Forall (fun a => a <> self /\ a <> destAddr /\ a ∉ failed) (Addrs g) ->
  own_addr (node p) = self ->
  (forall failed' p' c' u, own_addr (node p') = self ->
     (forall v, contacts (failed ++ failed') k v -> going failed k (u ++ v)) ->
     wp ev (retry (failed ++ failed')) (World p' [] c' (t ++ u)) Q) ->
  (forall p' c' u, going failed k u -> Q tt (World p' [] c' (t ++ u))) ->
  wp ev (send_onion_super retry destAddr message self route onion msgID n0 currentTry startTime failed)
    (World p [] c t) Q.
Proof.
  intros Hr0 Hfill Hg Hself Hretry HQ. unfold send_onion_super.
  apply wp_bind, wp_make_chan. apply wp_bind, wp_register_ack.
  apply wp_bind, wp_first_addrs; [done|]. intros hops Hhops.
  apply wp_bind, wp_telemetry_forward; [by destruct route, hops|]. intros u4 Hu4.
  apply wp_bind, (wp_get_index ev _ _ g); [done|].
  apply wp_bind, wp_try_group. intros sent failed' u5 Ht. rewrite <- !app_assoc.
  assert (Hfg : filled g) by (rewrite Forall_lookup in Hfill; by eapply Hfill).
  assert (Hfirst : exists a, Addrs g !! 0 = Some a) by (unfold filled in Hfg; destruct (Addrs g) as [|a]; [done|by exists a]).
  destruct Hfirst as [a Ea]. destruct sent; cbn [negb].
  - apply wp_bind, wp_select. intros r p' c' Hp'.
    assert (Hself' : own_addr (node p') = self) by (destruct Hp' as [->|[n ->]]; [done|by apply Hwait]).
    apply wp_bind, wp_since_ms. intros ms u6 Hu6. rewrite <- !app_assoc. destruct r as [[]|].
    + wp_steps. apply wp_Telemetry. intros u7 Hu7. rewrite <- !app_assoc. apply HQ.
      by eapply after_group_result.
    + apply wp_bind, (wp_get_index ev _ _ a); [done|].
      apply wp_bind, wp_Telemetry. intros u7 Hu7. apply wp_bind, wp_forget_ack.
      rewrite <- !app_assoc. apply Hretry; [done|]. intros v Hv. rewrite <- !app_assoc.
      eapply after_group_retry; [done..|]. do 3 (apply contacts_before; [done|]). done.
    + wp_steps. apply (wp_get_index ev _ _ a); [done|]. wp_steps.
      apply wp_Telemetry. intros u7 Hu7. rewrite <- !app_assoc. wp_steps.
      apply wp_forget_ack. apply HQ. by eapply after_group_result.
  - apply wp_bind, wp_forget_ack. apply Hretry; [done|].
    intros v Hv. rewrite <- !app_assoc. by eapply after_group_retry.
Qed.

Lemma wp_SendWithRetrySuper fuel message numHops groupSize maxRetries currentTry startTime failed
    p c t Q :
  Z.to_nat (maxRetries - currentTry) < fuel -> own_addr (node p) = self ->
  (forall p' c' u, contacts failed (Z.to_nat (maxRetries - currentTry)) u ->
     Q tt (World p' [] c' (t ++ u))) ->
  wp ev (SendWithRetrySuper fuel destAddr message numHops groupSize maxRetries currentTry startTime
           failed) (World p [] c t) Q.
Proof.
  revert numHops currentTry failed p c t Q.
  induction fuel as [|fuel IH]; intros numHops currentTry failed p c t Q Hfuel Hself HQ; [lia|].
  cbn [SendWithRetrySuper]. destruct (maxRetries <=? currentTry)%Z eqn:Htry.
  { apply wp_bind, wp_since_ms. intros ms u Hu. wp_steps. rewrite <- app_assoc. apply HQ.
    by apply contacts_abandon. }
  apply Z.leb_gt in Htry. set (k := Z.to_nat (maxRetries - (currentTry + 1))).
  replace (Z.to_nat (maxRetries - currentTry)) with (Datatypes.S k) in HQ by lia.
  apply wp_bind, wp_NodesList. intros lst ans.
  assert (HQ1 : forall p' c' u, going failed k u -> Q tt (World p' [] c' (t ++ [EvRequest list_request ans] ++ u))).
  { intros p' c' u Hu. by apply HQ, contacts_list. }
  assert (Hend : forall p' u, silent u -> Q tt (World p' [] c ((t ++ [EvRequest list_request ans]) ++ u))).
  { intros p' u Hu. rewrite <- app_assoc. by apply HQ1, going_silent. }
  assert (Hnow : forall p', Q tt (World p' [] c (t ++ [EvRequest list_request ans]))).
  { intros p'. specialize (Hend p' [] silent_nil). by rewrite app_nil_r in Hend. }
  destruct lst as [listStr|e]; [|by apply wp_ret].
  destruct (String.eqb listStr "LIST:empty"); [by apply wp_ret|].
  apply wp_bind, wp_node_address. rewrite Hself.
  apply wp_bind, wp_super_candidates; [by apply Forall_nil_2|]. intros cands m u2 Hcands Hu2. cbn zeta.
  set (hops := if (numHops <? MinClusters)%Z then MinClusters else numHops).
  assert (Hhops : (3 <= hops)%Z).
  { unfold hops, MinClusters. destruct (numHops <? 3)%Z eqn:E; [lia|]. apply Z.ltb_ge in E. lia. }
  destruct (_ <? hops)%Z; [apply wp_ret, Hend; auto with dor|].
  apply wp_bind, wp_BuildSmartClusters; [lia|]. intros gs rel u3. cbn zeta.
  intros Hlen Hal Hpairs _ Hu3. cbn [fst].
  apply wp_bind, wp_Fetch_silent. intros dk u4 Hu4. rewrite <- !(app_assoc (t ++ _)), <- !app_assoc.
  destruct dk as [destKey|e]; [|apply wp_ret; rewrite app_assoc; apply Hend; auto with dor].
  wp_steps. apply wp_Encapsulator_super_total; [by destruct gs| |].
  { intros _. rewrite !length_app, length_reverse. done. }
  intros enc u5 Hu5 Hkeyed. rewrite <- !app_assoc.
  assert (Hsil : silent (u2 ++ u3 ++ u4 ++ u5)) by auto 10 with dor.
  destruct enc as [[[onion msgID] n0]|e]; [|apply wp_ret; rewrite app_assoc; by apply Hend].
  assert (Hfill : Forall filled (gs ++ [MkGroup [destAddr] [destKey]])).
  { apply keyed_filled; [|by eapply Hkeyed]. apply Forall_app. split; [done|]. by repeat constructor. }
  destruct gs as [|g gs]; [cbn in Hlen; lia|]. revert Hsil. generalize (u2 ++ u3 ++ u4 ++ u5). intros u Hu.
  eapply (wp_send_onion_super _ _ _ g); [done|done| |done| |].
  - apply Forall_forall. intros a Ha.
    destruct (group_member _ _ _ g a Hal Hpairs) as (Hb & n & Hn & <-); [by left|done|].
    rewrite Forall_forall in Hcands. destruct (Hcands n Hn). done.
  - intros failed' p' c' v Hp' Hv. apply IH; [lia|done|].
    intros p'' c'' x Hx. rewrite <- !app_assoc. apply HQ1, going_before; [done|]. by apply Hv.
  - intros p' c' v Hv. rewrite <- !app_assoc. by apply HQ1, going_before.
Qed.
End Super.
