(* ===== verification/RoutesSpec.v ===== *)
(** * The dashboard's page: what an event changes

    The counts, the exchanges and the log as functions of the events
    processed. *)

From S2P Require Import Prelude GoStrings JavaScript GoMonad Crypto KeyCache Node OnionBuild Directory Cluster Send.
From S2P Require Import Hub Dashboard RoutesPage.

(** ** What drawing leaves alone *)

(** The data of the script, less what is drawn and the counts of the nodes. *)
Definition data (p : routes) :=
  (allEvents p, exchanges p, (statTotal p, statAck p, statNack p, latencies p), (reconstruct p, exF p, tyF p)).

Lemma data_ensureNode id p : data (ensureNode id p) = data p.
Proof. unfold ensureNode. by case_match. Qed.
Lemma data_ensureEdge f t p : data (ensureEdge f t p) = data p.
Proof. unfold ensureEdge. by case_match. Qed.
Lemma data_update_edge id f p : data (update_edge id f p) = data p.
Proof. unfold update_edge. by case_match. Qed.
Lemma data_update_node id c p : data (update_node id c p) = data p.
Proof. done. Qed.
Lemma data_count id f p : data (count id f p) = data p.
Proof. unfold count. by case_match. Qed.
Lemma data_addLogEntry ev n r s p : data (addLogEntry ev n r s p) = data p.
Proof. unfold addLogEntry. by repeat case_match. Qed.
Lemma data_updateStats p : data (updateStats p) = data p.
Proof. done. Qed.
Lemma data_renderExchangeCard exid p : data (renderExchangeCard exid p) = data p.
Proof. unfold renderExchangeCard. by repeat case_match. Qed.
Lemma data_renderNodeInfo a p : data (renderNodeInfo a p) = data p.
Proof. unfold renderNodeInfo. by repeat case_match. Qed.

Create Rewrite HintDb routes_data.
#[export] Hint Rewrite data_ensureNode data_ensureEdge data_update_edge data_update_node data_count
  data_addLogEntry data_updateStats data_renderExchangeCard data_renderNodeInfo : routes_data.

Lemma data_flashEdge from to col label sim p : data (flashEdge from to col label sim p) = data p.
Proof. unfold flashEdge. cbn zeta. by autorewrite with routes_data. Qed.
Lemma data_count_event ev p : data (count_event ev p) = data p.
Proof. unfold count_event. cbn zeta. repeat case_match; by autorewrite with routes_data. Qed.
#[export] Hint Rewrite data_flashEdge data_count_event : routes_data.

(** The exchanges are part of the data. *)
Lemma getEx_data e p q : data p = data q -> getEx e p = getEx e q.
Proof. unfold data, getEx. intros H. injection H as _ -> _ _ _ _ _ _ _. done. Qed.

Lemma getEx_put e exid ex p : getEx e (put_ex exid ex p) = if String.eqb e exid then ex else getEx e p.
Proof. unfold getEx, put_ex. cbn. rewrite obj_get_set. by destruct (String.eqb e exid). Qed.

(** ** One event *)

(** What the counts and switches are after an event. *)
Record counted (ev : Event) (p q : routes) : Prop := {
  ct_events : allEvents q = allEvents p ++ [ev];
  ct_total : statTotal q = (statTotal p + 1)%Z;
  ct_ack : statAck q = (statAck p + if String.eqb (ev_Type ev) "ACK" then 1 else 0)%Z;
  ct_nack : statNack q = (statNack p + if String.eqb (ev_Type ev) "NACK" then 1 else 0)%Z;
  ct_reconstruct : reconstruct q = reconstruct p }.

Definition switches (p : routes) := (allEvents p, (statTotal p, statAck p, statNack p), reconstruct p).
Lemma switches_data p q : data p = data q -> switches p = switches q.
Proof. unfold data, switches. congruence. Qed.

(** What belongs to the routes of the exchanges is as it was. *)
Definition same_routes (p q : routes) : Prop :=
  switches q = switches p /\
  forall e, fwdRoute (getEx e q) = fwdRoute (getEx e p) /\ retRoute (getEx e q) = retRoute (getEx e p).

Lemma same_routes_trans p q r : same_routes p q -> same_routes q r -> same_routes p r.
Proof.
  intros [H1 H2] [H3 H4]. split; [congruence|]. intros e. destruct (H2 e), (H4 e). split; congruence.
Qed.

(** A change of one exchange that keeps its routes, and drawing. *)
Lemma same_routes_put exid ex p q :
  data q = data (put_ex exid ex p) -> fwdRoute ex = fwdRoute (getEx exid p) ->
  retRoute ex = retRoute (getEx exid p) -> same_routes p q.
Proof.
  intros Hd Hf Hr. split; [by rewrite (switches_data _ _ Hd)|]. intros e.
  rewrite (getEx_data e _ _ Hd), getEx_put. by destruct (String.eqb_spec e exid) as [->|].
Qed.

Lemma show_hop_spec exid ts i a b p : same_routes p (show_hop exid ts i a b p).
Proof.
  apply (same_routes_put exid (set_ret (retCount (getEx exid p) + 1) (getEx exid p))); [|done|done].
  unfold show_hop. cbn zeta. autorewrite with routes_data. reflexivity.
Qed.

Lemma each_hop_same f :
  (forall i a b p, same_routes p (f i a b p)) -> forall i hops p, same_routes p (each_hop f i hops p).
Proof.
  intros Hf i hops. revert i. induction hops as [|[a b] hops IH]; intros i p; [done|]. cbn [each_hop].
  eapply same_routes_trans; [apply (Hf i a b)|apply IH].
Qed.

Lemma show_return_spec exid ts r p : same_routes p (show_return exid ts r p).
Proof. apply each_hop_same. intros i a b q. apply show_hop_spec. Qed.

Lemma data_last_render p o :
  data (match o with Some a => renderNodeInfo a p | None => p end) = data p.
Proof. destruct o; by autorewrite with routes_data. Qed.

Lemma process_ack_spec exid ev p :
  let q := process_ack exid ev p in
  switches q = (allEvents p, (statTotal p, (statAck p + 1)%Z, statNack p), reconstruct p) /\
  (forall e, fwdRoute (getEx e q) = fwdRoute (getEx e p)) /\
  retRoute (getEx exid q) = buildReturnRoute p (getEx exid p).
Proof.
  cbn zeta. unfold process_ack. cbn zeta.
  match goal with |- context [buildReturnRoute ?p0 (getEx exid p)] => set (p1 := p0) end.
  change (buildReturnRoute p1 (getEx exid p)) with (buildReturnRoute p (getEx exid p)).
  set (ret := buildReturnRoute p (getEx exid p)).
  set (p2 := put_ex exid (acknowledge (ev_Ts ev) ret (getEx exid p)) p1).
  match goal with |- context [updateStats ?x] => set (p3 := x) end.
  assert (H3 : same_routes p2 p3).
  { unfold p3. destruct (2 <=? length ret); [apply show_return_spec|].
    apply (same_routes_put exid (set_ret (retCount (getEx exid p2) + 1) (getEx exid p2))); [|done|done].
    autorewrite with routes_data. reflexivity. }
  clearbody p3.
  assert (Hl : data (match selNode (renderExchangeCard exid (updateStats p3)) with
    | Some a => renderNodeInfo a (renderExchangeCard exid (updateStats p3))
    | None => renderExchangeCard exid (updateStats p3) end) = data p3).
  { rewrite data_last_render. by autorewrite with routes_data. }
  match type of Hl with data ?x = _ => generalize dependent x end. intros q Hl.
  destruct H3 as [H3 H4]. split; [by rewrite (switches_data _ _ Hl), H3|].
  assert (H5 : forall e, getEx e p1 = getEx e p) by done. split.
  - intros e. rewrite (getEx_data e _ _ Hl), (proj1 (H4 e)). unfold p2. rewrite getEx_put, H5.
    by destruct (String.eqb_spec e exid) as [->|].
  - rewrite (getEx_data exid _ _ Hl), (proj2 (H4 exid)). unfold p2. by rewrite getEx_put, String.eqb_refl.
Qed.

Lemma process_nack_spec exid ev p :
  let q := process_nack exid ev p in
  switches q = (allEvents p, (statTotal p, statAck p, (statNack p + 1)%Z), reconstruct p) /\
  (forall e, fwdRoute (getEx e q) = fwdRoute (getEx e p)).
Proof.
  cbn zeta. unfold process_nack. cbn zeta. set (p1 := set_statNack (statNack p + 1)%Z p).
  set (n := (retCount (getEx exid p1) + 1)%Z).
  set (p2 := put_ex exid (set_ret n (set_result "nack" (getEx exid p1))) p1).
  match goal with |- switches ?x = _ /\ _ => assert (Hd : data x = data p2) by (by autorewrite with routes_data);
    generalize dependent x end.
  intros q Hd. split; [by rewrite (switches_data _ _ Hd)|]. intros e.
  rewrite (getEx_data e _ _ Hd). unfold p2. rewrite getEx_put. by destruct (String.eqb_spec e exid) as [->|].
Qed.

Lemma process_forward_spec exid ev p :
  let q := process_forward exid ev p in
  switches q = switches p /\ (forall e, fwdRoute (getEx e q) = fwdRoute (getEx e p)).
Proof.
  cbn zeta. unfold process_forward. cbn zeta. set (n := (fwdCount (getEx exid p) + 1)%Z).
  set (p1 := put_ex exid (set_fwd n (getEx exid p)) p).
  match goal with |- switches ?x = _ /\ _ => assert (Hd : data x = data p1);
    [|generalize dependent x] end.
  { destruct (selNode _) as [a|]; [case_match|]; by autorewrite with routes_data. }
  intros q Hd. split; [by rewrite (switches_data _ _ Hd)|]. intros e.
  rewrite (getEx_data e _ _ Hd). unfold p1. rewrite getEx_put. by destruct (String.eqb_spec e exid) as [->|].
Qed.

Lemma extend_route_ack ev r : ev_Type ev = "ACK" -> extend_route ev r = r.
Proof. intros Ht. unfold extend_route. by rewrite Ht. Qed.

Lemma processEvent_spec ev p :
  counted ev p (processEvent ev p) /\
  (forall e, fwdRoute (getEx e (processEvent ev p))
     = if String.eqb e (exid_of ev) then extend_route ev (fwdRoute (getEx e p)) else fwdRoute (getEx e p)) /\
  (ev_Type ev = "ACK" -> retRoute (getEx (exid_of ev) (processEvent ev p))
     = if reconstruct p && (2 <=? length (fwdRoute (getEx (exid_of ev) p)))
       then reverse (fwdRoute (getEx (exid_of ev) p)) else []).
Proof.
  unfold processEvent. cbn zeta.
  set (p0 := set_statTotal _ _). set (exid := exid_of ev).
  set (p1 := put_ex exid (record_in (length (allEvents p)) ev (getEx exid p0)) p0).
  assert (H1 : forall e, fwdRoute (getEx e p1)
    = if String.eqb e exid then extend_route ev (fwdRoute (getEx e p)) else fwdRoute (getEx e p)).
  { intros e. unfold p1. rewrite getEx_put. by destruct (String.eqb_spec e exid) as [->|]. }
  destruct (String.eqb_spec (ev_Type ev) "ACK") as [Ht|Ht].
  - destruct (process_ack_spec exid ev p1) as (H2 & H3 & H4). cbn zeta in *.
    generalize dependent (process_ack exid ev p1). intros q H2 H3 H4.
    unfold switches in H2. cbn in H2. injection H2 as E1 E2 E3 E4 E5.
    split; [split; rewrite ?E1, ?E2, ?E3, ?E4, ?E5, ?Ht; try done; by rewrite Z.add_0_r|].
    split; [intros e; by rewrite H3, H1|]. intros _. rewrite H4. unfold buildReturnRoute. rewrite H1, String.eqb_refl.
    rewrite extend_route_ack by done. change (reconstruct p1) with (reconstruct p).
    clear. destruct (reconstruct p); [|reflexivity]. cbn [negb andb]. generalize (fwdRoute (getEx exid p)). intros r.
    destruct (Nat.ltb_spec (length r) 2), (Nat.leb_spec 2 (length r)); reflexivity || lia.
  - destruct (String.eqb_spec (ev_Type ev) "NACK") as [Hn|Hn].
    + destruct (process_nack_spec exid ev p1) as (H2 & H3). cbn zeta in *.
      generalize dependent (process_nack exid ev p1). intros q H2 H3.
      unfold switches in H2. cbn in H2. injection H2 as E1 E2 E3 E4 E5.
      split; [split; rewrite ?E1, ?E2, ?E3, ?E4, ?E5, ?Hn; try done; by rewrite Z.add_0_r|].
      split; [intros e; by rewrite H3, H1|done].
    + destruct (process_forward_spec exid ev p1) as (H2 & H3). cbn zeta in *.
      generalize dependent (process_forward exid ev p1). intros q H2 H3.
      unfold switches in H2. cbn in H2. injection H2 as E1 E2 E3 E4 E5. apply String.eqb_neq in Ht, Hn.
      split; [split; rewrite ?E1, ?E2, ?E3, ?E4, ?E5, ?Ht, ?Hn; try done; by rewrite Z.add_0_r|].
      split; [intros e; by rewrite H3, H1|]. intros H. by rewrite H in Ht.
Qed.

(** ** Many events *)

Lemma processEvents_app evs evs' p : processEvents (evs ++ evs') p = processEvents evs' (processEvents evs p).
Proof. apply foldl_app. Qed.

Definition of_type (type : string) (evs : list Event) : nat :=
  length (filter (fun e => ev_Type e = type) evs).

Lemma processEvents_counts evs p :
  let q := processEvents evs p in
  allEvents q = allEvents p ++ evs /\ statTotal q = (statTotal p + Z.of_nat (length evs))%Z /\
  statAck q = (statAck p + Z.of_nat (of_type "ACK" evs))%Z /\
  statNack q = (statNack p + Z.of_nat (of_type "NACK" evs))%Z /\ reconstruct q = reconstruct p.
Proof.
  revert p. induction evs as [|ev evs IH]; intros p; cbn zeta.
  { cbn. rewrite app_nil_r, !Z.add_0_r. done. }
  destruct (processEvent_spec ev p) as ([E1 E2 E3 E4 E5] & _ & _).
  change (processEvents (ev :: evs) p) with (processEvents evs (processEvent ev p)).
  generalize dependent (processEvent ev p). intros q E1 E2 E3 E4 E5.
  destruct (IH q) as (-> & -> & -> & -> & ->). rewrite E1, E2, E3, E4, E5.
  unfold of_type. rewrite !filter_cons, <- app_assoc. split; [done|].
  destruct (String.eqb_spec (ev_Type ev) "ACK"), (String.eqb_spec (ev_Type ev) "NACK");
    repeat case_decide; try congruence; cbn [length]; repeat split; lia.
Qed.

Lemma processEvents_route evs p e :
  fwdRoute (getEx e (processEvents evs p))
  = foldl (fun r ev => extend_route ev r) (fwdRoute (getEx e p)) (filter (fun ev => exid_of ev = e) evs).
Proof.
  revert p. induction evs as [|ev evs IH]; intros p; [done|].
  destruct (processEvent_spec ev p) as (_ & Hr & _).
  change (processEvents (ev :: evs) p) with (processEvents evs (processEvent ev p)).
  generalize dependent (processEvent ev p). intros q Hr. rewrite IH, Hr, filter_cons.
  destruct (String.eqb_spec e (exid_of ev)) as [He|He].
  - by rewrite decide_True.
  - by rewrite decide_False.
Qed.

(** ** The telemetry of a node *)

(** What the dashboard makes of a posted event. *)
Definition stamp (t : telEvent) (ts : Z) : Event :=
  MkEvent (tel_From t) (tel_To t) (tel_Type t) (tel_Msg t) (tel_ExID t) ts.
Definition tels (u : list event) : list telEvent :=
  omap (fun e => match e with EvTel t => Some t | _ => None end) u.

Lemma tels_app u v : tels (u ++ v) = tels u ++ tels v.
Proof. apply omap_app. Qed.

(** The RELAY events along [r], numbered from [i + 2]. *)
Fixpoint relay_tels (r : list string) (exid : string) (i : Z) : list telEvent :=
  match r with
  | a :: ((b :: _) as rest) => TelEvent a b "RELAY" "" exid (i + 2) :: relay_tels rest exid (i + 1)
  | _ => []
  end.

Section Telemetry.
Context {C : CryptoLib} {G : GoSort}.

Lemma wp_hops_posted (ev : env Proc) r exid i q h c t Q :
  (forall u, tels u = relay_tels r exid i -> Q tt (World q h c (t ++ u))) ->
  wp ev (telemetry_hops r exid i) (World q h c t) Q.
Proof.
  revert i t Q. induction r as [|a [|b r] IH]; intros i t Q HQ; cbn [telemetry_hops].
  1, 2: apply wp_ret; rewrite <- (app_nil_r t); by apply HQ.
  unfold Telemetry. wp_steps. rewrite wp_trigger. cbn [exec add_event w_st w_held w_chans w_trace].
  apply IH. intros u Hu. cbn [w_trace]. rewrite <- !app_assoc. apply HQ.
  rewrite !tels_app, Hu. done.
Qed.

Lemma wp_route_posted (ev : env Proc) self kind m exid first rest q h c t Q :
  (forall u, tels u = TelEvent self first kind m exid 1 :: relay_tels (first :: rest) exid 0 ->
     Q tt (World q h c (t ++ u))) ->
  wp ev (telemetry_forward self kind m exid (first :: rest)) (World q h c t) Q.
Proof.
  intros HQ. unfold telemetry_forward.
  apply wp_bind, (wp_get_index ev _ _ first); [done|]. unfold Telemetry. wp_steps. rewrite wp_trigger.
  cbn [exec add_event w_st w_held w_chans w_trace].
  apply wp_hops_posted. intros u Hu. cbn [w_trace]. rewrite <- !app_assoc. apply HQ.
  rewrite tels_app, Hu. done.
Qed.
End Telemetry.

(** The route the page makes of the RELAY events. *)
Lemma relays_extend exid r a i ts acc :
  acc <> [] -> NoDup r -> (forall x, x ∈ r -> x ∉ acc) -> length ts = length r ->
  foldl (fun l ev => extend_route ev l) acc (zip_with stamp (relay_tels (a :: r) exid i) ts) = acc ++ r.
Proof.
  revert a i ts acc. induction r as [|b r IH]; intros a i ts acc Hne Hnd Hd Hl.
  { cbn. by rewrite app_nil_r. }
  destruct ts as [|t ts]; [done|]. apply NoDup_cons in Hnd as [Hb Hnd].
  change (relay_tels (a :: b :: r) exid i) with (TelEvent a b "RELAY" "" exid (i + 2) :: relay_tels (b :: r) exid (i + 1)).
  cbn [zip_with foldl].
  assert (He : extend_route (stamp (TelEvent a b "RELAY" "" exid (i + 2)) t) acc = acc ++ [b]).
  { unfold extend_route, push_new. cbn -[length]. destruct acc as [|x acc]; [done|]. cbn [length Nat.ltb Nat.leb].
    rewrite decide_False; [done|]. apply Hd. by left. }
  rewrite He, IH.
  - by rewrite <- app_assoc.
  - by destruct acc.
  - done.
  - intros x Hx Hin. apply elem_of_app in Hin as [Hin| ->%list_elem_of_singleton]; [|done].
    apply (Hd x); [by right|done].
  - cbn in Hl. lia.
Qed.

Lemma route_extend kind m exid self first rest ts :
  is_send kind = true -> NoDup (self :: rest) -> length ts = S (length rest) ->
  foldl (fun l ev => extend_route ev l) []
    (zip_with stamp (TelEvent self first kind m exid 1 :: relay_tels (first :: rest) exid 0) ts) = self :: rest.
Proof.
  intros Hk Hnd Hl. destruct ts as [|t ts]; [done|]. apply NoDup_cons in Hnd as [Hs Hnd].
  cbn [zip_with foldl].
  assert (He : extend_route (stamp (TelEvent self first kind m exid 1) t) [] = [self]).
  { unfold extend_route. cbn [stamp tel_Type tel_From ev_Type ev_From]. rewrite Hk.
    unfold is_send in Hk. by apply orb_true_iff in Hk as [Hk|Hk]; apply String.eqb_eq in Hk; subst kind. }
  rewrite He. apply (relays_extend exid rest first 0 ts [self]); [done|done| |cbn in Hl; lia].
  intros x Hx ->%list_elem_of_singleton. done.
Qed.
