(* ===== verification/Visit.v ===== *)
(** * A page of the dashboard and the server together

    When its script ends, the page has two requests under way: the event stream
    and the history (dashboard/main.go 630-635).  The server takes them up in
    either order, at any time, while events come in; the page processes the
    answers as they arrive.  What the page then has is stated against the moment
    its stream was opened and the moment the history was read.  A stream that
    breaks off and is opened again by the browser, and the user's clicks, are not
    treated. *)

From S2P Require Import Prelude GoStrings JavaScript Hub Dashboard GoMonad RoutesPage RoutesSpec.

(** [stream]: the channel of the page's stream, and the dashboard as it was when
    the stream was opened; [taken]: how many events the page has processed from
    it; [snapshot]: the history as it was read for the page; [merged]: whether
    the page has processed it. *)
Record visit := Visit {
  server : dash; shown : routes; stream : option (nat * dash); taken : nat;
  snapshot : option (list Event); merged : bool }.

(** The page has been loaded. *)
Definition load (d : dash) : visit := Visit d empty_routes None 0 None false.

(** The handler of [/stream] up to its loop, and that of [/history]. *)
Definition subscribe_page (c : nat) (d : dash) : dash :=
  Dash (history d) (recorded d) (subscribe c (clients d)).
Definition handle_stream (c : nat) (v : visit) : visit :=
  Visit (subscribe_page c (server v)) (shown v) (Some (c, server v)) (taken v) (snapshot v) (merged v).
Definition handle_history (v : visit) : visit :=
  Visit (server v) (shown v) (stream v) (taken v) (Some (history (server v))) (merged v).

(** [es.onmessage], and [evs.forEach(processEvent)] when the history is there. *)
Definition onmessage (ev : Event) (v : visit) : visit :=
  Visit (server v) (processEvent ev (shown v)) (stream v) (S (taken v)) (snapshot v) (merged v).
Definition onhistory (evs : list Event) (v : visit) : visit :=
  Visit (server v) (processEvents evs (shown v)) (stream v) (taken v) (snapshot v) true.

Inductive visit_step : visit -> visit -> Prop :=
| visit_server v d :
    dash_step (server v) d ->
    visit_step v (Visit d (shown v) (stream v) (taken v) (snapshot v) (merged v))
| visit_stream c v :
    stream v = None -> sending (clients (server v)) = None -> channels (clients (server v)) !! c = None ->
    visit_step v (handle_stream c v)
| visit_history v : snapshot v = None -> visit_step v (handle_history v)
| visit_event c d0 o ev v :
    stream v = Some (c, d0) -> out (clients (server v)) !! c = Some o -> o !! taken v = Some ev ->
    visit_step v (onmessage ev v)
| visit_merge evs v : snapshot v = Some evs -> merged v = false -> visit_step v (onhistory evs v).

Definition visit_reach : visit -> visit -> Prop := rtc visit_step.

(** ** The invariant *)

(** What the page has taken from its stream so far. *)
Definition streamed (v : visit) : list Event :=
  match stream v with
  | Some (c, _) => take (taken v) (default [] (out (clients (server v)) !! c))
  | None => []
  end.
Definition merged_history (v : visit) : list Event :=
  if merged v then default [] (snapshot v) else [].

Record visit_ok (v : visit) : Prop := {
  vo_server : dash_reach empty_dash (server v);
  vo_snapshot evs : snapshot v = Some evs -> evs `prefix_of` history (server v);
  vo_merged : snapshot v = None -> merged v = false;
  vo_closed : stream v = None -> taken v = 0;
  vo_stream c d0 : stream v = Some (c, d0) ->
    dash_reach empty_dash d0 /\ history d0 `prefix_of` history (server v) /\
    sent (clients d0) `prefix_of` sent (clients (server v)) /\
    exists o, length o = taken v /\ subscriber c (length (sent (clients d0))) o (clients (server v));
  vo_shown : exists evs, shown v = processEvents evs empty_routes /\ evs ≡ₚ merged_history v ++ streamed v }.

Lemma history_step d d' : dash_step d d' -> history d `prefix_of` history d'.
Proof. intros [ev d1|ev r1 r2 d1 h _ _|d1 h _]; [by apply prefix_app_r|done|done]. Qed.

Lemma sent_step d d' : dash_step d d' -> sent (clients d) `prefix_of` sent (clients d').
Proof.
  intros [ev d1|ev r1 r2 d1 h _ Hs|d1 h Hs]; cbn; [done| |by rewrite (other_sent _ _ _ Hs)].
  rewrite (publish_sent _ _ _ _ Hs). by apply prefix_app_r.
Qed.

Lemma subscriber_dash c n o d d' :
  dash_step d d' -> subscriber c n o (clients d) -> subscriber c n o (clients d').
Proof.
  intros [ev d1|ev r1 r2 d1 h _ Hs|d1 h Hs] H; [exact H|exact (subscriber_step _ _ _ _ _ _ _ H Hs)..].
Qed.

(** The events taken do not change when the server goes on. *)
Lemma streamed_same {A} (o : list A) c (h h' : @hub A) n :
  subscriber c n o h -> subscriber c n o h' ->
  take (length o) (default [] (out h !! c)) = o /\ take (length o) (default [] (out h' !! c)) = o.
Proof.
  intros (_ & _ & o1 & -> & k1 & ->) (_ & _ & o2 & -> & k2 & ->). cbn.
  by rewrite !take_app_length.
Qed.

Lemma visit_ok_server v d :
  visit_ok v -> dash_step (server v) d ->
  visit_ok (Visit d (shown v) (stream v) (taken v) (snapshot v) (merged v)).
Proof.
  intros [H1 H2 Hm H3 H4 (evs & He & Hp)] Hs. split; cbn.
  - by eapply rtc_r.
  - intros l Hl. etrans; [by apply H2|by apply history_step].
  - done.
  - done.
  - intros c d0 Hc. destruct (H4 c d0 Hc) as (Hd & Hh & Hse & o & Ho & Hsub).
    split; [done|]. split; [etrans; [exact Hh|by apply history_step]|].
    split; [etrans; [exact Hse|by apply sent_step]|].
    exists o. split; [done|by eapply subscriber_dash].
  - exists evs. split; [done|]. rewrite Hp. unfold merged_history, streamed. cbn.
    destruct (stream v) as [[c d0]|]; [|done]. destruct (H4 c d0 eq_refl) as (_ & _ & _ & o & <- & Hsub).
    destruct (streamed_same o c _ _ _ Hsub (subscriber_dash _ _ _ _ _ Hs Hsub)) as [-> ->]. done.
Qed.

Lemma visit_ok_stream c v :
  visit_ok v -> stream v = None -> sending (clients (server v)) = None ->
  channels (clients (server v)) !! c = None -> visit_ok (handle_stream c v).
Proof.
  intros [H1 H2 Hm H3 H4 (evs & He & Hp)] Hn Hs Hc. split; cbn.
  - eapply rtc_r; [exact H1|]. by apply dash_hub, step_subscribe.
  - exact H2.
  - done.
  - done.
  - intros c' d0 [= <- <-]. do 3 (split; [done|]). exists []. rewrite (H3 Hn). split; [done|].
    apply subscriber_new.
  - exists evs. split; [done|]. rewrite Hp. unfold merged_history, streamed. cbn. by rewrite Hn, (H3 Hn).
Qed.

Lemma visit_ok_event c d0 o ev v :
  visit_ok v -> stream v = Some (c, d0) -> out (clients (server v)) !! c = Some o -> o !! taken v = Some ev ->
  visit_ok (onmessage ev v).
Proof.
  intros [H1 H2 Hm H3 H4 (evs & He & Hp)] Hst Ho Hev. split; cbn; [done|done|done|by rewrite Hst| |].
  - intros c' d' Hc'. rewrite Hst in Hc'. injection Hc' as <- <-.
    destruct (H4 c d0 Hst) as (Hd & Hh & Hse & o' & _ & Hsub & Hsince & _). do 3 (split; [done|]).
    exists (take (S (taken v)) o). split.
    + rewrite length_take. apply lookup_lt_Some in Hev. lia.
    + split; [done|]. split; [done|]. exists o. split; [done|]. exists (drop (S (taken v)) o). by rewrite take_drop.
  - exists (evs ++ [ev]). split; [by rewrite processEvents_app, <- He|]. unfold merged_history, streamed in *. cbn.
    rewrite Hst, Ho in *. cbn in *. by rewrite (take_S_r _ _ _ Hev), app_assoc, <- Hp.
Qed.

Lemma visit_ok_merge evs v :
  visit_ok v -> snapshot v = Some evs -> merged v = false -> visit_ok (onhistory evs v).
Proof.
  intros [H1 H2 Hn H3 H4 (l & He & Hp)] Hs Hm. split; cbn; [done|done|by rewrite Hs|done|done|].
  exists (l ++ evs). split; [by rewrite processEvents_app, <- He|]. rewrite Hp. unfold merged_history. cbn.
  rewrite Hs, Hm. cbn. apply Permutation_app_comm.
Qed.

Lemma visit_ok_step v v' : visit_ok v -> visit_step v v' -> visit_ok v'.
Proof.
  intros Hok Hs. destruct Hs as [v d Hs|c v Hn Hs Hc|v Hn|c d0 o ev v Hst Ho Hev|evs v Hs Hm].
  - by apply visit_ok_server.
  - by apply visit_ok_stream.
  - destruct Hok as [H1 H2 Hm H3 H4 (l & He & Hp)]. split; cbn; [done| |done|done|done|].
    + by intros evs [= <-].
    + exists l. split; [done|]. rewrite Hp. unfold merged_history, streamed. cbn.
      by rewrite (Hm Hn).
  - by eapply visit_ok_event.
  - by apply visit_ok_merge.
Qed.

Lemma visit_ok_reach d v : dash_reach empty_dash d -> visit_reach (load d) v -> visit_ok v.
Proof.
  intros Hd Hr. assert (H : visit_ok (load d)).
  { split; cbn; [done|done|done|done|done|]. by exists []. }
  revert H. induction Hr as [|v1 v2 v3 Hs Hr IH]; [done|]. intros H. by eapply IH, visit_ok_step.
Qed.

(** ** Everything has arrived *)

(** Both answers are processed; every event recorded has been broadcast, the
    page's channel was never full and is empty, and all it was sent is
    processed. *)
Record caught_up (v : visit) (c : nat) (d0 : dash) (evs : list Event) : Prop := {
  cu_stream : stream v = Some (c, d0);
  cu_snapshot : snapshot v = Some evs;
  cu_merged : merged v = true;
  cu_recorded : recorded (server v) = [];
  cu_sending : sending (clients (server v)) = None;
  cu_open : c ∈ subs (clients (server v));
  cu_kept : c ∉ dropped (clients (server v));
  cu_queue : channels (clients (server v)) !! c = Some (Channel [] false);
  cu_taken : taken v = length (default [] (out (clients (server v)) !! c)) }.

(** The stream carried what was recorded and not yet broadcast when it was
    opened, and all that was recorded since. *)
Lemma streamed_all v c d0 evs :
  visit_ok v -> caught_up v c d0 evs ->
  exists new, history (server v) = history d0 ++ new /\ streamed v ≡ₚ recorded d0 ++ new.
Proof.
  intros [H1 H2 Hm H3 H4 _] [C1 C2 C3 C4 C5 C6 C7 C8 C9].
  destruct (H4 c d0 C1) as (Hd0 & [new Hnew] & [k Hk] & o' & _ & _ & Hsince & o & Ho & _).
  exists new. split; [done|]. unfold streamed. rewrite C1, C9, Ho. cbn. rewrite firstn_all.
  destruct (dash_invariant _ H1) as [Hh Hp], (dash_invariant _ Hd0) as [_ Hp0].
  destruct (ok_streams _ _ (ok_reach _ _ Hh) c [] false C8) as (o2 & n & Ho2 & Hn & Hle & _ & _ & Hl).
  rewrite Ho in Ho2. injection Ho2 as <-. rewrite Hsince in Hn. injection Hn as <-.
  specialize (Hl C6 C7). unfold due in Hl. rewrite C5, app_nil_r in Hl. rewrite C4, app_nil_r, Hnew, <- Hp0 in Hp.
  rewrite Hk, drop_app_length in Hl. rewrite Hk, <- Hl, <- app_assoc in Hp. by apply Permutation_app_inv_l in Hp.
Qed.

(** A page whose stream was opened, then one event came, then its history was
    read and processed, then the event was read off the stream. *)
Definition one_event (ev : Event) : dash :=
  Dash [ev] [] (finish (forward 0 ev [] (Hub {[0 := Channel [ev] false]} {[0]} (Some (ev, [])) {[0 := []]} [ev]
    {[0 := 0]} ∅))).
Definition one_visit (ev : Event) : visit :=
  onmessage ev (onhistory [ev] (handle_history
    (Visit (one_event ev) empty_routes (Some (0, empty_dash)) 0 None false))).

Tactic Notation "hub_goes" uconstr(step) :=
  eapply rtc_l; [eapply visit_server, dash_hub; cbn; by eapply step|].

Lemma one_visit_reached ev : visit_reach (load empty_dash) (one_visit ev).
Proof.
  eapply rtc_l; [by apply (visit_stream 0)|].
  eapply rtc_l; [apply visit_server, (dash_record ev)|].
  eapply rtc_l; [eapply visit_server, (dash_broadcast ev [] []); [reflexivity|]|].
  { by eapply (step_begin stream_capacity ev [0]). }
  hub_goes (step_offer stream_capacity ev 0 []).
  hub_goes (step_forward stream_capacity 0 ev []).
  hub_goes (step_finish stream_capacity ev).
  eapply rtc_l; [by apply visit_history|].
  eapply rtc_l; [by apply (visit_merge [ev])|].
  eapply rtc_l; [by apply (visit_event 0 empty_dash [ev] ev)|].
  apply rtc_refl.
Qed.

Lemma one_visit_caught_up ev : caught_up (one_visit ev) 0 empty_dash [ev].
Proof. split; cbn; try done; set_solver. Qed.
