(* ===== verification/EndToEnd.v ===== *)
(** * SEND from the command to the acknowledgement

    The goroutine of SEND, run in a network whose directory lists reachable
    nodes, comes to its wait with one onion on the wire; the network carries
    it to the destination and the acknowledgement back; the goroutine then
    reports it. *)

From S2P Require Import Prelude GoStrings Base64 GoMonad Crypto OnionLayer KeyCache Node NodeSpec.
From S2P Require Import Fragments OnionBuild Network Directory Cluster ClusterSpec Send SendSpec.

(** Traces that put exactly [ms] on the network and printed nothing. *)
Definition posts (u : list event) (ms : list (string * string)) : Prop :=
  sends u = ms /\ prints u = [].

Lemma silent_posts u : silent u -> posts u [].
Proof.
  intros [[Hd Hp] _]. split; [|done]. clear Hp. induction u as [|e u IH]; [done|].
  destruct e; cbn in *; try done; by apply IH.
Qed.

Lemma emits_posts u ms : emits u ms -> posts u ms.
Proof. by intros (? & _ & ?). Qed.

Lemma internal_posts u : Forall internal u -> posts u [].
Proof. intros Hu. by apply emits_posts, emits_internal. Qed.

Lemma posts_app u v ms ns : posts u ms -> posts v ns -> posts (u ++ v) (ms ++ ns).
Proof. intros [<- Hu] [<- Hv]. split; [by rewrite sends_app|by rewrite prints_app, Hu, Hv]. Qed.

Section EndToEnd.
Context {C : CryptoLib} {L : CryptoLaws C}.
Variable ev : env Proc.
Variable pk_of : string -> PublicKey.

(** A listening node at a well-written address, with the key the directory has
    for it. *)
Definition reachable (N : net) (a : string) : Prop :=
  lacks pipe a /\ Contains a colon = true /\ ParseAddresses a = [a] /\ key_fits (pk_of a) /\
  exists p c, procs N !! a = Some (p, c) /\ Public (NPrivateKey (node p)) = pk_of a.

Lemma reachable_hop N a : reachable N a -> hop_ok N (single pk_of a) /\ up_hop N (single pk_of a).
Proof.
  intros (Hp & Hc & Ha & _ & p & c & Hl & Hk). split.
  - split; [done|]. split; [done|]. cbn. rewrite Ha. intros b q d ->%list_elem_of_singleton Hq.
    rewrite Hl in Hq. injection Hq as <- <-. rewrite Hk. by left.
  - exists a. cbn. rewrite Ha. split; [by left|]. apply bool_decide_eq_true_2. rewrite Hl. by eexists.
Qed.

Lemma reachable_fits N l : Forall (reachable N) l -> Forall (fun a => key_fits (pk_of a)) l.
Proof. intros H. eapply Forall_impl; [exact H|]. by intros a (_ & _ & _ & ? & _). Qed.

Lemma routed_single N front dest back self :
  Forall (reachable N) (front ++ [dest]) -> Forall (reachable N) (back ++ [self]) ->
  length back = length front ->
  routed N (single pk_of <$> front ++ [dest]) (single pk_of <$> back ++ [self]) dest self.
Proof.
  intros Hf Hb Hl.
  assert (Hall : forall l, Forall (reachable N) l ->
    Forall (hop_ok N) (single pk_of <$> l) /\ Forall (up_hop N) (single pk_of <$> l)).
  { intros l Hr. split; apply Forall_fmap; (eapply Forall_impl; [exact Hr|]);
      intros a Ha; by apply reachable_hop. }
  assert (Hlast : forall l x, List.last (single pk_of <$> l ++ [x]) ("", []) = single pk_of x).
  { intros l x. rewrite fmap_app. cbn. apply List.last_last. }
  assert (Hd : ParseAddresses dest = [dest]).
  { apply Forall_app in Hf as [_ Hf]. rewrite Forall_singleton in Hf. apply Hf. }
  assert (Hs : ParseAddresses self = [self]).
  { apply Forall_app in Hb as [_ Hb]. rewrite Forall_singleton in Hb. apply Hb. }
  destruct (Hall _ Hf) as [H1 H2]. destruct (Hall _ Hb) as [H3 H4]. split.
  - by apply Forall_app.
  - by apply Forall_app.
  - rewrite !length_fmap, !length_app, Hl. cbn. split_and!; [..|done].
    + intros H%(f_equal length). rewrite length_fmap, length_app in H. cbn in H. lia.
    + intros H%(f_equal length). rewrite length_fmap, length_app in H. cbn in H. lia.
  - by rewrite Hlast.
  - by rewrite Hlast.
Qed.
(** ** The goroutine up to its wait *)

Variable up : string -> bool.
Hypothesis Hup : forall n a, e_dial ev n a = up a.

(** What holds when the goroutine of SEND waits for its answer. *)
Definition launched (cands : list string) (dest : string) (pc : parcel) (message self : string) (t0 try : Z)
    (p : Proc) (chs : list chan) (t : list event) (c : nat) (k : option bool -> prog Proc unit) (w : world Proc) : Prop :=
  exists front first retry nacks msgID n0 payload m u,
    let route := front ++ [dest] in
    let back := reverse front in
    head front = Some first /\ Forall (fun a => a ∈ cands) front /\
    encapsulated (single pk_of <$> route) (single pk_of <$> back ++ [self]) self self (parcel_text pc) message
      nacks msgID payload /\
    agrees pk_of (self :: dest :: cands) m /\ posts u [(first, payload +:+ str1 nl)] /\ c = length chs /\
    Vis (ESelect c) k = await_ack retry dest self first msgID n0 c try t0 /\
    w = World (on_node (upd_PendingACKs (fun a => <[n0 := c]> (<[msgID := c]> a))) (with_cache m p)) []
          (chs ++ [Chan [] 1]) (t ++ u).

(** [send_onion], when the first relay listens. *)
Lemma pauses_send_onion retry dest message self front onion msgID n0 try t0 p chs t Q first :
  head front = Some first -> up first = true ->
  (forall u k, posts u [(first, onion +:+ str1 nl)] ->
     Vis (ESelect (length chs)) k = await_ack retry dest self first msgID n0 (length chs) try t0 ->
     Q (length chs) k (World (on_node (upd_PendingACKs (fun a => <[n0 := length chs]> (<[msgID := length chs]> a))) p)
       [] (chs ++ [Chan [] 1]) (t ++ u))) ->
  pauses ev Q (send_onion retry dest message self (front ++ [dest]) onion msgID n0 try t0)
    (World p [] chs t).
Proof.
  intros Hf Hfu HQ. destruct front as [|f front]; [done|]. injection Hf as ->. unfold send_onion.
  apply pauses_bind, wp_make_chan, pauses_bind, wp_register_ack, pauses_bind.
  apply wp_telemetry_forward; [done|]. intros u Hu.
  apply pauses_bind. eapply wp_get_index; [reflexivity|].
  apply pauses_bind, (wp_SendTo ev up Hup). rewrite Hfu. intros v Hv. cbn [negb].
  rewrite <- app_assoc. eapply pauses_here, HQ; [|reflexivity].
  apply (posts_app _ _ [] [_]); [by apply silent_posts|by apply emits_posts].
Qed.
Lemma list_not_empty nodes :
  nodes <> [] -> Forall wf_info nodes -> TrimSpace (list_answer nodes) <> "LIST:empty".
Proof.
  intros Hne Hwf Heq. rewrite list_answer_trim in Heq by done.
  assert (Hl : lacks pipe ("LIST:" +:+ Join (list_entry <$> nodes) comma)) by (rewrite Heq; done).
  apply lacks_app in Hl as [_ Hl]. destruct nodes as [|n nodes]; [done|].
  cbn [fmap list_fmap] in Hl.
  assert (Hn : lacks pipe (list_entry n)) 
    by (destruct (list_entry <$> nodes) as [|e l]; [done|]; rewrite Join_cons in Hl by done;
        by apply lacks_app in Hl as [? _]).
  unfold list_entry in Hn. rewrite !lacks_app in Hn. by destruct Hn as (_ & Hn & _).
Qed.

Lemma pauses_SendWithRetry N fuel dest pc message k maxRetries try t0 p chs t nodes :
  let self := own_addr (node p) in
  let cands := filter (fun a => a <> self /\ a <> dest) (node_addr <$> nodes) in
  (forall a, reachable N a -> up a = true) ->
  (forall n, e_request ev n ("GET_LIST" +:+ str1 nl) = Some (list_answer nodes)) ->
  nodes <> [] -> Forall wf_info nodes -> cands <> [] ->
  Forall (reachable N) (self :: dest :: cands) ->
  dir_knows ev pk_of (self :: dest :: cands) -> agrees pk_of (self :: dest :: cands) (cache p) ->
  (0 < k)%Z -> (try < maxRetries)%Z ->
  pauses ev (launched cands dest pc message self t0 try p chs t)
    (SendWithRetry (Datatypes.S fuel) dest message (parcel_text pc) k maxRetries try t0) (World p [] chs t).
Proof.
  intros self cands Hreach Hlist Hne Hwf Hc Hr Hd Ha Hk Htry. cbn [SendWithRetry].
  destruct (Z.leb_spec maxRetries try); [lia|].
  apply pauses_bind. unfold Node.GetNodesList. wp_steps. rewrite Hlist. wp_steps.
  destruct (String.eqb_spec (TrimSpace (list_answer nodes)) "LIST:empty") as [E|_];
    [by apply list_not_empty in E|].
  apply pauses_bind, wp_node_address. fold self. rewrite candidates_of_list by done. fold cands.
  set (m := Z.min k (Z.of_nat (length cands))).
  assert (Hm : (0 < m)%Z) by (unfold m; destruct cands; [done|]; cbn; lia).
  destruct (Z.eqb_spec m 0); [lia|]. apply pauses_bind, wp_shuffle. intros order w Hord Hw.
  apply quiet_inv in Hw as (u1 & -> & Hu1). destruct (Z.ltb_spec m 0); [lia|].
  set (front := take (Z.to_nat m) order).
  assert (Hfront : Forall (fun a => a ∈ cands) front).
  { apply Forall_take. rewrite Hord. by apply Forall_forall. }
  assert (exists first, head front = Some first) as [first Hfirst].
  { unfold front. destruct order as [|f order]; [by apply Permutation_nil in Hord|].
    destruct (Z.to_nat m) eqn:E; [lia|]. by exists f. }
  assert (Hin : forall a, a ∈ front -> a ∈ self :: dest :: cands)
    by (intros a Ha'; rewrite Forall_forall in Hfront; by do 2 right; apply Hfront).
  assert (Hnodes : forall a, a ∈ (front ++ [dest]) ++ reverse front ++ [self] -> a ∈ self :: dest :: cands).
  { intros a. rewrite !elem_of_app, elem_of_reverse, !list_elem_of_singleton.
    intros [[?| ->]|[?| ->]]; [by apply Hin|by right; left|by apply Hin|by left]. }
  apply pauses_bind, (wp_Encapsulator_func ev pk_of (self :: dest :: cands)).
  - by destruct front.
  - apply Forall_forall. intros a Ha'%Hnodes. eapply Forall_forall in Ha'; [|by apply (reachable_fits N)]. done.
  - intros _. by rewrite !length_app, length_reverse.
  - exact Hnodes.
  - done.
  - done.
  - intros nacks msgID payload n0 m' u2 Henc Hn0 Hu2 Hagm _.
    rewrite List.last_last in Henc. eapply (pauses_send_onion _ _ _ _ _ _ _ _ _ _ _ _ _ _ first); [done| |].
    { apply Hreach. rewrite Forall_forall in Hr. apply Hr, Hin.
      destruct front as [|f front']; [done|]. injection Hfirst as ->. by left. }
    intros u3 kont Hu3 Hkont.
    exists front, first, (SendWithRetry fuel dest message (parcel_text pc) m maxRetries (try + 1) t0), nacks, msgID, n0, payload, m',
      ([EvRequest ("GET_LIST" +:+ str1 nl) (Some (list_answer nodes))] ++ u1 ++ u2 ++ u3).
    split_and!; try done.
    + apply (posts_app _ _ [] [_]); [done|]. apply (posts_app _ _ [] [_]); [by apply internal_posts|].
      apply (posts_app _ _ [] [_]); [by apply emits_posts|done].
    + by rewrite <- !app_assoc.
Qed.

(** ** Through the network *)

(** The network while the goroutine of [self] waits. *)
Definition sent_net (N : net) (self : string) (t : list event) (w : world Proc) : net :=
  Net (<[self := (w_st w, w_chans w)]> (procs N)) (sends (drop (length t) (w_trace w))).

Lemma sent_lookup N self p p' chs chs' wr a q cq :
  procs N !! self = Some (p, chs) ->
  procs (Net (<[self := (p', chs')]> (procs N)) wr) !! a = Some (q, cq) ->
  (a = self /\ q = p' /\ cq = chs') \/ (a <> self /\ procs N !! a = Some (q, cq)).
Proof.
  intros Hs. cbn. intros [[<- [= <- <-]]|[Hne Ha]]%lookup_insert_Some; [by left|by right].
Qed.

Lemma sent_reachable N self p p' chs chs' wr a :
  procs N !! self = Some (p, chs) -> NPrivateKey (node p') = NPrivateKey (node p) ->
  reachable N a -> reachable (Net (<[self := (p', chs')]> (procs N)) wr) a.
Proof.
  intros Hs Hk (H1 & H2 & H3 & H4 & q & cq & Hq & Hkey). do 4 (split; [done|]). cbn.
  destruct (decide (a = self)) as [->|Hne].
  - rewrite Hs in Hq. injection Hq as <- <-. exists p', chs'. rewrite lookup_insert_eq. by rewrite Hk.
  - exists q, cq. by rewrite lookup_insert_ne.
Qed.

Lemma sent_fresh N self p p' chs chs' wr nacks msgID :
  procs N !! self = Some (p, chs) -> SeenMsgs (node p') = SeenMsgs (node p) ->
  fresh N nacks msgID -> fresh (Net (<[self := (p', chs')]> (procs N)) wr) nacks msgID.
Proof.
  intros Hs Hseen [H1 H2 H3].
  assert (Hu : forall id, unseen N id -> unseen (Net (<[self := (p', chs')]> (procs N)) wr) id).
  { intros id Hid a q cq Ha. destruct (sent_lookup _ _ _ _ _ _ _ _ _ _ Hs Ha) as [(-> & -> & ->)|[_ Hq]].
    - rewrite Hseen. by eapply Hid.
    - by eapply Hid. }
  split; [done|intros x y Hx Hy; by apply Hu, H2|by apply Hu].
Qed.

(** A goroutine that waits on [c] for the answer of attempt [try]: when it gets
    an acknowledgement it reports it and ends, and does nothing else. *)
Definition reported (label dest : string) (try : Z) (q : Proc) (tr : list event) (w : world Proc) : Prop :=
  exists u ms cq, w = World q [] cq (tr ++ u) /\ sends u = [] /\ prints u = [result label dest "ACK" try ms].

Definition reports (label dest : string) (try : Z) (c : nat) (k : option bool -> prog Proc unit) : Prop :=
  forall ev' q cq tr n, cq !! c = Some (Chan [true] n) ->
    wp ev' (Vis (ESelect c) k) (World q [] cq tr) (fun _ => reported label dest try q tr).

Lemma reports_await retry dest self first msgID n0 c try t0 k :
  Vis (ESelect c) k = await_ack retry dest self first msgID n0 c try t0 -> reports "RESULT" dest try c k.
Proof.
  intros Hk ev' q cq tr n Hc. rewrite Hk. unfold await_ack. rewrite wp_bind, wp_trigger. cbn [exec w_chans]. rewrite Hc.
  unfold since_ms. wp_steps. unfold Telemetry. rewrite wp_trigger.
  eexists _, _, _. split; [unfold add_event, set_chans; cbn; rewrite <- !app_assoc; reflexivity|done].
Qed.

(** From the wait on: the network [N] carries the onion that is on its way and
    its acknowledgement, the destination gets what it carries, no other
    process changes but for its bookkeeping, and the goroutine reports it. *)
Definition comes_back (label : string) (N : net) (dest : string) (pc : parcel) (message self : string)
    (try : Z) (c : nat) (k : option bool -> prog Proc unit) (hops : nat) : Prop :=
  forall evs, length evs = 2 * hops ->
    exists N' q cq, deliver_all evs N = Some N' /\ wire N' = [] /\
      (forall a, standing N' a = if decide (a = dest) then on_node (arrive pc message) <$> standing N a
                                 else standing N a) /\
      procs N' !! self = Some (q, cq) /\
      forall ev' tr, wp ev' (Vis (ESelect c) k) (World q [] cq tr) (fun _ => reported label dest try q tr).

(** The round trip of file Network, seen from the waiting goroutine. *)
Lemma carried label M hops rhops dest pc message self nacks msgID payload try c k p cs :
  encapsulated hops rhops self self (parcel_text pc) message nacks msgID payload -> parcel_ok pc ->
  routed M hops rhops dest self -> fresh M nacks msgID ->
  procs M !! self = Some (p, cs) -> PendingACKs (node p) !! msgID = Some c ->
  cs !! c = Some (Chan [] 1) -> lacks pipe self -> at_hop M (List.hd ("", []) hops) payload ->
  reports label dest try c k ->
  comes_back label M dest pc message self try c k (length nacks).
Proof.
  intros Henc Hpc Hrt Hfr Hself Hpend Hc Hs Hat Hk evs Hevs.
  destruct (round_trip hops rhops self pc message nacks msgID payload M dest self c evs)
    as (N' & HN' & Hw' & Hin' & Haw'); try done.
  - exists p, cs. split; [done|]. split; [done|]. exists (Chan [] 1). split; [done|cbn; lia].
  - destruct Hrt as [_ _ (_ & _ & Hl) _ _]. rewrite Hevs, Hl, (enc_len _ _ _ _ _ _ _ _ _ Henc). lia.
  - specialize (Haw' self). rewrite decide_True in Haw' by done. unfold awaiting in Haw'.
    rewrite Hself in Haw'. destruct (procs N' !! self) as [[q cq]|] eqn:Hq; [|done].
    cbn in Haw'. injection Haw' as _ Hcq. exists N', q, cq. split_and!; try done.
    intros ev' tr. apply (Hk ev' q cq tr 1). subst cq. unfold push. rewrite Hc. cbn.
    apply list_lookup_insert_eq. by eapply lookup_lt_Some.
Qed.

(** What a SEND has posted when it waits: one line, the onion of the message
    for a route over [cands], to the first relay; [w] is the world then. *)
Definition posted (cands : list string) (dest : string) (pc : parcel) (message self : string) (p : Proc)
    (t : list event) (nacks : list string) (msgID : string) (w : world Proc) : Prop :=
  exists front first payload u,
    encapsulated (single pk_of <$> front ++ [dest]) (single pk_of <$> reverse front ++ [self]) self self
      (parcel_text pc) message nacks msgID payload /\
    head front = Some first /\ Forall (fun a => a ∈ cands) front /\
    w_trace w = t ++ u /\ posts u [(first, payload +:+ str1 nl)] /\
    settle (node (w_st w)) = settle (node p).

Lemma launched_delivers N cands dest pc message self t0 try p chs t c k w :
  launched cands dest pc message self t0 try p chs t c k w -> parcel_ok pc ->
  wire N = [] -> procs N !! self = Some (p, chs) -> Forall (reachable N) (self :: dest :: cands) ->
  exists nacks msgID, posted cands dest pc message self p t nacks msgID w /\
    (fresh N nacks msgID ->
     comes_back "RESULT" (sent_net N self t w) dest pc message self try c k (length nacks)).
Proof.
  intros (front & first & retry & nacks & msgID & n0 & payload & m & u & Hfirst & Hfront & Henc &
    Hag & Hu & -> & Hk & ->) Hpc Hw Hself Hr.
  exists nacks, msgID. split; [by exists front, first, payload, u|].
  intros Hfr. unfold sent_net. cbn [w_st w_chans w_trace]. rewrite drop_app_length.
  destruct Hu as [-> _].
  match goal with |- context [insert self (?p', ?ch')] => set (p1 := p'); set (chs1 := ch') end.
  set (N1 := Net (<[self := (p1, chs1)]> (procs N)) [(first, payload +:+ str1 nl)]).
  assert (Hr1 : Forall (reachable N1) (self :: dest :: cands)).
  { eapply Forall_impl; [exact Hr|]. intros a. by apply (sent_reachable N self p p1 chs). }
  assert (Hin : forall a, a ∈ front -> a ∈ self :: dest :: cands).
  { intros a Ha. rewrite Forall_forall in Hfront. by do 2 right; apply Hfront. }
  rewrite Forall_forall in Hr1.
  eapply (carried _ N1 _ _ dest pc message self nacks msgID payload try (length chs) k p1 chs1); [exact Henc|done|..].
  - apply routed_single; [| |by rewrite length_reverse].
    + apply Forall_forall. intros a [Ha| ->%list_elem_of_singleton]%elem_of_app; apply Hr1; [by apply Hin|by right; left].
    + apply Forall_forall. intros a [Ha| ->%list_elem_of_singleton]%elem_of_app; apply Hr1; [|by left].
      by apply Hin, elem_of_reverse.
  - by apply (sent_fresh N self p _ chs).
  - by apply lookup_insert_eq.
  - cbn. destruct (decide (n0 = msgID)) as [->|Hne]; [by rewrite lookup_insert_eq|].
    by rewrite lookup_insert_ne, lookup_insert_eq.
  - unfold chs1. by rewrite lookup_app_r, Nat.sub_diag.
  - apply (Hr1 self). by left.
  - exists first. split; [done|]. destruct front as [|f front']; [done|]. injection Hfirst as ->. cbn.
    destruct (Hr1 first) as (_ & _ & -> & _ & q & cq & Hq & _); [apply Hin; by left|].
    split; [by left|]. apply bool_decide_eq_true_2. rewrite Hq. by eexists.
  - by eapply reports_await.
Qed.
End EndToEnd.
