(* ===== verification/SuperEndToEnd.v ===== *)
(** * SSEND from the command to the acknowledgement

    The goroutine of SSEND, up to its wait, deals all the listed relays into
    groups and posts one onion for a route of these groups.  From there on the
    onion needs one listening member in every group. *)

From S2P Require Import Prelude GoStrings Base64 GoMonad Crypto OnionLayer KeyCache Node NodeSpec.
From S2P Require Import OnionBuild Network Directory Cluster ClusterSpec Send SendSpec SuperSendSpec EndToEnd.

Section Super.
Context {C : CryptoLib} {G : GoSort} {L : CryptoLaws C} {GL : GoSortLaws G}.
Variable ev : env Proc.
Variable pk_of : string -> PublicKey.

(** ** Candidates *)

(** A node as SSEND reads it from the list. *)
Definition as_listed (n : NodeInfo) : NodeInfo :=
  MkInfo "" (Name n) (Ip n) (IPort n) (PublicKeyText n) (AvailabilityScore n) (NetworkScore n).

Definition lists_key (n : NodeInfo) : Prop :=
  parsePublicKey (PublicKeyText n) = Some (pk_of (node_addr n)).

Lemma wp_candidates_listed nodes self dest acc p c t Q :
  Forall wf_info nodes -> Forall lists_key nodes ->
  (forall m u, Forall internal u ->
     Q (acc ++ (as_listed <$> filter (fun n => node_addr n <> self /\ node_addr n <> dest) nodes))
       (World (with_cache m p) [] c (t ++ u))) ->
  wp ev (super_candidates (list_entry <$> nodes) self dest acc) (World p [] c t) Q.
Proof.
  revert acc p t Q. induction nodes as [|n nodes IH]; intros acc p t Q Hw Hk HQ.
  - apply wp_ret. specialize (HQ (cache p) []). rewrite !app_nil_r in HQ. destruct p. by apply HQ.
  - apply Forall_cons_1 in Hw as [Hn Hw]. apply Forall_cons_1 in Hk as [Hkn Hk].
    cbn [fmap list_fmap super_candidates]. rewrite parse_info_entry by done. fold (as_listed n).
    cbn zeta. change (node_addr (as_listed n)) with (node_addr n).
    rewrite filter_cons in HQ.
    destruct (String.eqb_spec (node_addr n) self) as [|Hns]; cbn [orb].
    { rewrite decide_False in HQ by tauto. by apply IH. }
    destruct (String.eqb_spec (node_addr n) dest) as [|Hnd].
    { rewrite decide_False in HQ by tauto. by apply IH. }
    rewrite decide_True in HQ by done. rewrite fmap_cons, cons_middle, app_assoc in HQ.
    apply wp_bind, wp_cache_get. destruct (cache p !! node_addr n); [by apply IH|].
    change (PublicKeyText (as_listed n)) with (PublicKeyText n). rewrite Hkn.
    wp_steps. apply wp_cache_set, IH; [done..|]. intros m u Hu. rewrite <- (app_assoc t).
    apply HQ. by constructor.
Qed.

(** ** Groups *)

Lemma none_blacklisted (l : list NodeInfo) : filter (fun n => not_blacklisted [] n = true) l = l.
Proof. induction l as [|n l IH]; [done|]. rewrite filter_cons, decide_True by done. by rewrite IH. Qed.

(** Every member with its key, none of them empty. *)
Definition matched (g : LayerGroup) : Prop := PubKeys g = pk_of <$> Addrs g /\ Addrs g <> [].

Lemma members_listed nodes :
  Forall lists_key nodes ->
  members_of (as_listed <$> nodes) = (fun n => (node_addr n, pk_of (node_addr n))) <$> nodes.
Proof.
  intros Hk. induction Hk as [|n nodes Hn Hk IH]; [done|]. rewrite !fmap_cons, members_of_cons, IH.
  unfold member. change (PublicKeyText (as_listed n)) with (PublicKeyText n). by rewrite Hn.
Qed.

Lemma groups_matched gs nodes :
  Forall aligned gs -> Forall filled gs -> Forall lists_key nodes ->
  pairs gs ≡ₚ members_of (as_listed <$> nodes) ->
  Forall matched gs /\ concat (Addrs <$> gs) ≡ₚ node_addr <$> nodes.
Proof.
  intros Ha Hf Hk Hp.
  rewrite members_listed in Hp by done. clear Hk.
  assert (Hall : Forall (fun x => x.2 = pk_of x.1) (pairs gs)).
  { rewrite Hp. apply Forall_fmap, Forall_forall. by intros n _. }
  apply (fmap_Permutation fst) in Hp. rewrite <- list_fmap_compose in Hp.
  change (fst ∘ _) with node_addr in Hp. rewrite <- Hp. clear Hp nodes.
  induction Ha as [|g gs Hg Ha IH]; [done|]. apply Forall_cons_1 in Hf as [Hfg Hf].
  unfold pairs in *. cbn [fmap list_fmap concat] in *. apply Forall_app in Hall as [Hhd Htl].
  destruct (IH Hf Htl) as [IH1 IH2]. unfold aligned in Hg.
  assert (Hfst : (group_pairs g).*1 = Addrs g) by (apply fst_zip; lia).
  split.
  - constructor; [|done]. split; [|done].
    rewrite <- Hfst, <- list_fmap_compose. rewrite <- (snd_zip (Addrs g) (PubKeys g)) at 1 by lia.
    apply list_fmap_ext. intros i x Hx. rewrite Forall_lookup in Hhd. by apply (Hhd i).
  - rewrite fmap_app, IH2. by rewrite Hfst.
Qed.

Definition alone (a : string) : LayerGroup := MkGroup [a] [pk_of a].

Lemma ghop_alone a : ghop (alone a) = single pk_of a.
Proof. done. Qed.

Lemma matched_alone a : matched (alone a).
Proof. done. Qed.

Lemma matched_usable g :
  matched g -> Forall (fun a => key_fits (pk_of a)) (Addrs g) -> usable g.
Proof.
  intros [Hk Hne] Hf. unfold usable. rewrite Hk. split; [by destruct (Addrs g)|by apply Forall_fmap].
Qed.

Lemma all_usable gs :
  Forall matched gs -> Forall (fun a => key_fits (pk_of a)) (concat (Addrs <$> gs)) -> Forall usable gs.
Proof.
  induction 1 as [|g gs Hg Hm IH]; [done|]. cbn [fmap list_fmap concat]. intros [H1 H2]%Forall_app.
  constructor; [by apply matched_usable|by apply IH].
Qed.

Lemma routes_usable gs self dest :
  Forall matched gs -> Forall (fun a => key_fits (pk_of a)) (self :: dest :: concat (Addrs <$> gs)) ->
  Forall usable (gs ++ [alone dest]) /\ Forall usable (reverse gs ++ [alone self]).
Proof.
  intros Hm [Hs [Hd Hg]%Forall_cons_1]%Forall_cons_1. assert (Hus := all_usable gs Hm Hg).
  assert (Hone : forall a, key_fits (pk_of a) -> Forall usable [alone a]).
  { intros a Ha. by apply Forall_singleton, matched_usable; [apply matched_alone|apply Forall_singleton]. }
  split; apply Forall_app; split; try done; [by apply Hone|by apply Forall_reverse|by apply Hone].
Qed.

Lemma last_group l g d :
  match l ++ [g] with [] => d | y :: _ => JoinAddresses (Addrs (List.last (l ++ [g]) y)) end
  = JoinAddresses (Addrs g).
Proof. destruct l as [|y l]; [done|]. by rewrite <- app_comm_cons, app_comm_cons, List.last_last. Qed.

Lemma wp_Fetch_known a p c t Q :
  dir_knows ev pk_of [a] -> (forall u, emits u [] -> Q (inl (pk_of a)) (World p [] c (t ++ u))) ->
  wp ev (FetchKeyFromServer a) (World p [] c t) Q.
Proof.
  intros Hd HQ. apply wp_FetchKeyFromServer. intros u Hu.
  destruct (Hd a (length t)) as (resp & -> & ->); [by left|]. by apply HQ.
Qed.

(** ** The goroutine up to its wait *)

Variable up : string -> bool.
Hypothesis Hup : forall n a, e_dial ev n a = up a.

Lemma wp_try_first addrs onion failed p c t Q :
  addrs <> [] -> Forall (fun a => up a = true) addrs ->
  (forall a u, a ∈ addrs -> posts u [(a, onion +:+ str1 nl)] -> Q (true, failed) (World p [] c (t ++ u))) ->
  wp ev (try_group addrs onion failed) (World p [] c t) Q.
Proof.
  intros Hne Hall HQ. destruct addrs as [|a rest]; [done|]. apply Forall_cons_1 in Hall as [Ha _].
  cbn [try_group]. apply wp_bind, (wp_SendTo ev up Hup). rewrite Ha. intros u Hu. apply wp_ret.
  apply (HQ a); [by left|by apply emits_posts].
Qed.

Lemma pauses_send_onion_super retry dest message self g route onion msgID n0 try t0 failed p chs t Q :
  Forall filled (g :: route) -> Forall (fun a => up a = true) (Addrs g) ->
  (forall a u k, a ∈ Addrs g -> posts u [(a, onion +:+ str1 nl)] ->
     reports "RESULT_SUPER" dest try (length chs) k ->
     Q (length chs) k (World (on_node (upd_PendingACKs (fun a => <[n0 := length chs]> (<[msgID := length chs]> a))) p)
       [] (chs ++ [Chan [] 1]) (t ++ u))) ->
  pauses ev Q (send_onion_super retry dest message self (g :: route) onion msgID n0 try t0 failed)
    (World p [] chs t).
Proof.
  intros Hfill Hgu HQ. unfold send_onion_super.
  apply pauses_bind, wp_make_chan, pauses_bind, wp_register_ack, pauses_bind.
  apply wp_first_addrs; [done|]. intros hops Hhops. apply pauses_bind.
  apply wp_telemetry_forward; [by destruct hops|]. intros u Hu.
  apply pauses_bind. eapply wp_get_index; [reflexivity|]. apply pauses_bind, wp_try_first; [|done|].
  { by apply Forall_cons_1 in Hfill as [? _]. }
  intros a v Ha Hv. cbn [negb]. rewrite <- app_assoc. eapply pauses_here, (HQ a); [done|..].
  - apply (posts_app _ _ [] [_]); [by apply silent_posts|done].
  - intros ev' q cq tr n Hc. apply wp_vis. cbn [exec w_chans]. rewrite Hc.
    cbn beta iota.
    unfold since_ms. wp_steps. unfold Telemetry. rewrite wp_trigger.
    eexists _, _, _. split; [unfold add_event, set_chans; cbn; rewrite <- !app_assoc; reflexivity|done].
Qed.

(** What holds when the goroutine of SSEND waits for its answer. *)
Definition launched_super (hops : nat) (cands : list string) (dest message self : string) (try : Z)
    (p : Proc) (chs : list chan) (t : list event) (c : nat) (k : option bool -> prog Proc unit)
    (w : world Proc) : Prop :=
  exists g gs first nacks msgID n0 payload m u,
    let route := (g :: gs) ++ [alone dest] in
    let back := reverse (g :: gs) ++ [alone self] in
    length (g :: gs) = hops /\ Forall matched (g :: gs) /\ concat (Addrs <$> g :: gs) ≡ₚ cands /\
    first ∈ Addrs g /\
    encapsulated (ghop <$> route) (ghop <$> back) self self "" message nacks msgID payload /\
    posts u [(first, payload +:+ str1 nl)] /\ c = length chs /\
    reports "RESULT_SUPER" dest try c k /\
    w = World (on_node (upd_PendingACKs (fun a => <[n0 := c]> (<[msgID := c]> a))) (with_cache m p)) []
          (chs ++ [Chan [] 1]) (t ++ u).

Lemma pauses_SendWithRetrySuper fuel dest message numHops groupSize maxRetries try t0 p chs t nodes :
  let self := own_addr (node p) in
  let cands := filter (fun n => node_addr n <> self /\ node_addr n <> dest) nodes in
  let hops := Z.max MinClusters numHops in
  (forall n, e_request ev n ("GET_LIST" +:+ str1 nl) = Some (list_answer nodes)) ->
  Forall wf_info nodes -> Forall lists_key nodes ->
  (hops <= Z.of_nat (length cands))%Z ->
  Forall (fun a => up a = true) (node_addr <$> cands) ->
  Forall (fun a => key_fits (pk_of a)) (self :: dest :: (node_addr <$> cands)) ->
  dir_knows ev pk_of [dest] -> NPublicKey (node p) = pk_of self ->
  (try < maxRetries)%Z ->
  pauses ev (launched_super (Z.to_nat hops) (node_addr <$> cands) dest message self try p chs t)
    (SendWithRetrySuper (Datatypes.S fuel) dest message numHops groupSize maxRetries try t0 [])
    (World p [] chs t).
Proof.
  intros self cands hops Hlist Hwf Hkeys Hlen Hcu Hfit Hd Hpub Htry.
  assert (Hhops : (3 <= hops)%Z) by (unfold hops, MinClusters; lia).
  assert (Hne : nodes <> []) by (intros ->; cbn in Hlen; lia).
  cbn [SendWithRetrySuper]. destruct (Z.leb_spec maxRetries try); [lia|].
  apply pauses_bind. unfold Node.GetNodesList. wp_steps. rewrite Hlist. wp_steps.
  destruct (String.eqb_spec (TrimSpace (list_answer nodes)) "LIST:empty") as [E|_];
    [by apply list_not_empty in E|].
  apply pauses_bind, wp_node_address. fold self. rewrite entries_of_list by done.
  apply pauses_bind, wp_candidates_listed; [done..|]. fold cands. intros m u1 Hu1. cbn [app]. cbn zeta.
  replace (if (numHops <? MinClusters)%Z then MinClusters else numHops) with hops
    by (unfold hops; destruct (Z.ltb_spec numHops MinClusters); lia).
  rewrite length_fmap. destruct (Z.ltb_spec (Z.of_nat (length cands)) hops); [lia|].
  apply pauses_bind, wp_BuildSmartClusters; [lia|]. intros gs rel u2. cbn zeta.
  rewrite none_blacklisted. intros Hgl Hal Hpairs Hfill Hu2. cbn [fst]. rewrite <- app_assoc.
  assert (Hck : Forall lists_key cands) by (eapply Forall_sublist; [apply sublist_filter|done]).
  assert (Hsize : length (members_of (as_listed <$> cands)) = length cands)
    by (rewrite members_listed, length_fmap; done).
  destruct (groups_matched gs cands) as [Hmat Hperm]; [done|apply Hfill; lia|done..|].
  apply pauses_bind, wp_Fetch_known; [done|]. intros u3 Hu3. rewrite <- !app_assoc.
  cbn iota. do 3 (apply pauses_bind; wp_steps).
  cbn [node with_cache]. rewrite Hpub. fold (alone dest) (alone self).
  destruct (routes_usable gs self dest) as [Hroute Hback]; [done| |].
  { do 2 (apply Forall_cons_1 in Hfit as [? Hfit]; constructor; [done|]). by rewrite Hperm. }
  destruct gs as [|g gs]; [cbn in Hgl; lia|].
  apply pauses_bind, (wp_Encapsulator_func_super ev); [done..| |].
  - intros _. by rewrite !length_app, length_reverse.
  - intros nacks msgID payload n0 u4 Henc Hn0 Hu4. rewrite <- !app_assoc. rewrite last_group in Henc.
    apply pauses_send_onion_super.
    + change (Forall filled ((g :: gs) ++ [alone dest])). apply Forall_app.
      split; [|by apply Forall_singleton]. eapply Forall_impl; [exact Hmat|by intros ? []].
    + rewrite <- Hperm in Hcu. cbn [fmap list_fmap concat] in Hcu. by apply Forall_app in Hcu as [? _].
    + intros a u5 k Ha Hu5 Hk.
      exists g, gs, a, nacks, msgID, n0, payload, m,
        ([EvRequest ("GET_LIST" +:+ str1 nl) (Some (list_answer nodes))] ++ u1 ++ u2 ++ u3 ++ u4 ++ u5).
      split_and!; try done.
      * repeat (apply (posts_app _ _ [] [_]); [first [done|by apply internal_posts|by apply emits_posts]|]). done.
      * by rewrite <- !app_assoc.
Qed.
(** ** Through the network *)

(** A relay that is gone, or holds the key it is known by. *)
Definition known (M : net) (a : string) : Prop :=
  lacks pipe a /\ lacks comma a /\ Contains a colon = true /\
  forall p c, procs M !! a = Some (p, c) -> Public (NPrivateKey (node p)) = pk_of a.

Definition listens (M : net) (g : LayerGroup) : Prop := exists a, a ∈ Addrs g /\ Network.up M a = true.

Lemma known_parse M l : l <> [] -> Forall (known M) l -> ParseAddresses (JoinAddresses l) = l.
Proof.
  intros Hne Hl. apply ParseAddresses_Join; [|done|].
  - eapply Forall_impl; [exact Hl|]. by intros a (_ & ? & _).
  - intros ->. rewrite Forall_singleton in Hl. by destruct Hl as (_ & _ & ? & _).
Qed.

Lemma group_hop M g :
  matched g -> Forall (known M) (Addrs g) -> listens M g -> hop_ok M (ghop g) /\ up_hop M (ghop g).
Proof.
  intros [Hk Hne] Hg (a & Ha & Hu). unfold hop_ok, up_hop. cbn [ghop fst snd].
  rewrite (known_parse M) by done. split; [|by exists a]. split_and!.
  - apply lacks_Join; [done|]. eapply Forall_impl; [exact Hg|]. by intros b (? & _).
  - destruct (Addrs g) as [|b l]; [done|]. apply Forall_cons_1 in Hg as [(_ & _ & Hc & _) _].
    by apply Contains_Join.
  - intros b p c Hb Hp. rewrite Hk. rewrite Forall_forall in Hg.
    destruct (Hg b Hb) as (_ & _ & _ & Hkey). rewrite (Hkey p c Hp). by apply list_elem_of_fmap_2.
Qed.

Lemma routed_groups M gs dest self :
  Forall matched gs -> Forall (known M) (self :: dest :: concat (Addrs <$> gs)) ->
  Network.up M self = true -> Network.up M dest = true -> Forall (listens M) gs -> gs <> [] ->
  routed M (ghop <$> gs ++ [alone dest]) (ghop <$> reverse gs ++ [alone self]) dest self.
Proof.
  intros Hm [Hs [Hd Hk]%Forall_cons_1]%Forall_cons_1 Hus Hud Hl Hne.
  assert (Hone : forall a, known M a -> Network.up M a = true ->
    hop_ok M (ghop (alone a)) /\ up_hop M (ghop (alone a)) /\ ParseAddresses (ghop (alone a)).1 = [a]).
  { intros a Ha Hu. assert (Hf : Forall (known M) [a]) by by apply Forall_singleton.
    destruct (group_hop M (alone a)) as [? ?]; [apply matched_alone|done| |].
    - exists a. split; [by left|done].
    - split_and!; [done..|]. by apply (known_parse M [a]). }
  assert (Hgs : Forall (fun g => hop_ok M (ghop g) /\ up_hop M (ghop g)) gs).
  { clear -Hm Hk Hl. induction Hm as [|g gs Hg Hm IH]; [done|]. cbn [fmap list_fmap concat] in Hk.
    apply Forall_app in Hk as [H1 H2]. apply Forall_cons_1 in Hl as [H3 H4].
    constructor; [by apply group_hop|by apply IH]. }
  destruct (Hone self Hs Hus) as (S1 & S2 & S3). destruct (Hone dest Hd Hud) as (D1 & D2 & D3).
  assert (Hlast : forall l a, List.last (ghop <$> l ++ [alone a]) ("", []) = ghop (alone a)).
  { intros l a. rewrite fmap_app. apply List.last_last. }
  split.
  - rewrite <- fmap_app. apply Forall_fmap. rewrite !Forall_app, !Forall_singleton, Forall_reverse.
    split_and!; try done; (eapply Forall_impl; [exact Hgs|by intros g []]).
  - rewrite <- fmap_app. apply Forall_fmap. rewrite !Forall_app, !Forall_singleton, Forall_reverse.
    split_and!; try done; (eapply Forall_impl; [exact Hgs|by intros g []]).
  - rewrite !length_fmap, !length_app, length_reverse. split_and!; [| |done];
      rewrite fmap_app; by intros [? [=]]%app_eq_nil.
  - by rewrite Hlast.
  - by rewrite Hlast.
Qed.

(** Some processes are gone. *)
Definition weakened (N M : net) : Prop :=
  wire M = wire N /\ forall a, procs M !! a = procs N !! a \/ procs M !! a = None.

Lemma weakened_up N M a : weakened N M -> Network.up M a = true -> procs M !! a = procs N !! a.
Proof.
  intros [_ H] Hu. apply bool_decide_eq_true in Hu as [x Hx]. destruct (H a) as [?|Hn]; [done|congruence].
Qed.

Lemma reachable_known N M self p p' chs chs' wr a :
  procs N !! self = Some (p, chs) -> NPrivateKey (node p') = NPrivateKey (node p) ->
  weakened (Net (<[self := (p', chs')]> (procs N)) wr) M -> lacks comma a ->
  reachable pk_of N a -> known M a.
Proof.
  intros Hs Hk [_ Hw] Hc Hr. apply (sent_reachable pk_of N self p p' chs chs' wr) in Hr; [|done..].
  destruct Hr as (Hp & Hcol & _ & _ & q & cq & Hq & Hkey). split_and!; [done..|].
  intros q' cq' Hq'. destruct (Hw a) as [E|E]; congruence.
Qed.

Lemma launched_super_delivers N hops cands dest message self try p chs t c k w :
  launched_super hops cands dest message self try p chs t c k w ->
  procs N !! self = Some (p, chs) -> Forall (reachable pk_of N) (self :: dest :: cands) ->
  Forall (lacks comma) (self :: dest :: cands) ->
  exists gs first nacks msgID payload u,
    length gs = hops /\ Forall matched gs /\ concat (Addrs <$> gs) ≡ₚ cands /\
    (exists g, head gs = Some g /\ first ∈ Addrs g) /\
    encapsulated (ghop <$> gs ++ [alone dest]) (ghop <$> reverse gs ++ [alone self]) self self "" message
      nacks msgID payload /\
    w_trace w = t ++ u /\ posts u [(first, payload +:+ str1 nl)] /\
    settle (node (w_st w)) = settle (node p) /\
    forall M, weakened (sent_net N self t w) M ->
      Forall (fun a => Network.up M a = true) [self; dest; first] -> Forall (listens M) gs ->
      fresh M nacks msgID ->
      comes_back "RESULT_SUPER" M dest Whole message self try c k (length nacks).
Proof.
  intros (g & gs & first & nacks & msgID & n0 & payload & m & u & Hlen & Hmat & Hperm & Hfirst & Henc &
    Hu & -> & Hk & ->) Hself Hr Hc.
  exists (g :: gs), first, nacks, msgID, payload, u.
  do 3 (split; [done|]). split; [by exists g|]. do 4 (split; [done|]).
  unfold sent_net. cbn [w_st w_chans w_trace]. rewrite drop_app_length. destruct Hu as [-> _].
  match goal with |- context [insert self (?p', ?ch')] => set (p1 := p'); set (chs1 := ch') end.
  intros M HM Hups Hl Hfr. rewrite !Forall_cons in Hups. destruct Hups as (Hus & Hud & Huf & _).
  assert (Hkn : Forall (known M) (self :: dest :: concat (Addrs <$> g :: gs))).
  { rewrite Hperm. apply Forall_forall. intros a Ha. rewrite Forall_forall in Hr, Hc.
    eapply (reachable_known N M self p p1); [done|done|exact HM|by apply Hc|by apply Hr]. }
  assert (HMself : procs M !! self = Some (p1, chs1)).
  { rewrite (weakened_up _ _ _ HM Hus). apply lookup_insert_eq. }
  eapply (carried _ M _ _ dest Whole message self nacks msgID payload try (length chs) k p1 chs1);
    [exact Henc|exact I| |done|exact HMself|..].
  - by apply routed_groups.
  - cbn. destruct (decide (n0 = msgID)) as [->|Hne]; [by rewrite lookup_insert_eq|].
    by rewrite lookup_insert_ne, lookup_insert_eq.
  - unfold chs1. by rewrite lookup_app_r, Nat.sub_diag.
  - apply Forall_cons_1 in Hr as [(? & _) _]. done.
  - exists first. destruct HM as [-> _]. split; [done|]. cbn. split; [|done].
    rewrite (known_parse M); [done|by apply Forall_cons_1 in Hmat as [[_ ?] _]|].
    do 2 apply Forall_cons_1 in Hkn as [_ Hkn]. cbn [fmap list_fmap concat] in Hkn.
    by apply Forall_app in Hkn as [? _].
  - done.
Qed.
End Super.
