(* ===== verification/Commands.v ===== *)
(** * Commands: node/cli.go, node/web.go and node/main.go

    The commands typed at the console ([runCLI]) and those posted by the web
    page ([processCmd]), the fragmentation of long messages, and the start of
    the node.  A [go] statement is the effect [ESpawn]; [body] is what the
    goroutine runs. *)

From S2P Require Import Prelude GoStrings Base64 GoMonad Crypto OnionLayer KeyCache Node Fragments.
From S2P Require Import OnionBuild Directory Cluster Send.

Section Commands.
Context {C : CryptoLib} {G : GoSort}.

Definition Println (s : string) : prog Proc unit := trigger (EPrint s).

(** What a sending goroutine runs; SendSpec shows that the fuel is enough. *)
Definition body (g : goroutine) : prog Proc unit :=
  match g with
  | GoSend destAddr message frag numRelays maxRetries startTime =>
      SendWithRetry (Datatypes.S (Z.to_nat maxRetries)) destAddr message frag numRelays maxRetries 0
        startTime
  | GoSendSuper destAddr message numHops groupSize maxRetries startTime =>
      SendWithRetrySuper (Datatypes.S (Z.to_nat maxRetries)) destAddr message numHops groupSize
        maxRetries 0 startTime []
  | GoStartNode | GoWebUI | GoCleanCache | GoStdoutBridge => Ret tt
  end.

(** ** Commands of the console, [runCLI]

    The console and the page have a copy of the code of each command, and so
    has the model. *)

Definition cli_FETCH (targetAddr : string) : prog Proc unit :=
  r ← trigger (EAsk targetAddr ("GET_PUBKEY" +:+ str1 nl));
  match r with
  | NoDial => Println ("Erreur connexion: " +:+ lib_error)
  | Dialed wrote pubBase64 whole =>
      if negb wrote then Println ("Erreur FETCH write: " +:+ lib_error) else
      if negb whole then Println ("Erreur FETCH read: " +:+ lib_error) else
      let pubBytes := (decode_partial (TrimSpace pubBase64)).1 in
      match ParsePKIX pubBytes with
      | None => Println ("Erreur decodage clé: " +:+ lib_error)
      | Some None => Ret tt
      | Some (Some pubKey) =>
          now ← trigger ENow;
          cache_set targetAddr (MkCachedKey pubKey (now + 30 * second)) ;;
          Println ("Enregistrement de la clé (publique) de " +:+ targetAddr +:+ " réalisé avec succès!")
      end
  end.

Definition cli_MSG (data : string) : prog Proc unit :=
  match SplitN data colon 3 with
  | [ip; port; msg] =>
      let dstAddr := ip +:+ ":" +:+ port in
      nodeAddr ← node_address;
      enc ← Encapsulator_func msg "" [dstAddr] [] nodeAddr;
      match enc with
      | inr err => Println ("Erreur Encapsulator_func: " +:+ err)
      | inl (onion, _, _) =>
          ok ← SendTo dstAddr onion;
          if (ok : bool) then Ret tt else Println ("Error sending message: " +:+ lib_error)
      end
  | _ => Println "Invalid MSG format. Use MSG:<port>:<message>"
  end.

Definition cli_RELAY (data : string) : prog Proc unit :=
  let lastComma := LastIndex data comma in
  if (lastComma =? -1)%Z then
    Println "Format: RELAY:<ip>:<port>,<ip>:<port>,...,<message>"
  else
    let addrsStr := Split (str_take (Z.to_nat lastComma) data) comma in
    let message := str_drop (Z.to_nat lastComma + 1) data in
    let route := TrimSpace <$> addrsStr in
    nodeAddr ← node_address;
    enc ← Encapsulator_func message "" route [] nodeAddr;
    match enc with
    | inr err => Println ("Erreur Encapsulator_func: " +:+ err)
    | inl (onion, _, _) =>
        first ← get_index route 0;
        ok ← SendTo first onion;
        if (ok : bool) then Ret tt else Println ("Erreur: " +:+ lib_error)
    end.

(** One goroutine per chunk, the [i+1]-th of [n] from here on. *)
Fixpoint spawn_chunks (destAddr fragID : string) (numRelays : Z) (chunks : list string) (i n : Z)
    : prog Proc unit :=
  match chunks with
  | [] => Ret tt
  | chunk :: rest =>
      now ← trigger ENow;
      trigger (ESpawn (GoSend destAddr chunk (frag_label fragID (i + 1) n) numRelays 3 now)) ;;
      spawn_chunks destAddr fragID numRelays rest (i + 1) n
  end.

Definition cli_SEND (data : string) : prog Proc unit :=
  match SplitN data colon 4 with
  | [nbr; ip; port; message] =>
      match Atoi nbr with
      | (_, Some _) => Println ("Error parsing relay number: " +:+ lib_error)
      | (numRelays, None) =>
          let destAddr := ip +:+ ":" +:+ port in
          if String.length message <=? fragChunkSize then
            now ← trigger ENow;
            trigger (ESpawn (GoSend destAddr message "" numRelays 3 now))
          else
            fragID ← GenerateMsgID "frag";
            match splitMessage message fragChunkSize with
            | None => Raise "out of fuel"
            | Some chunks =>
                spawn_chunks destAddr fragID numRelays chunks 0 (Z.of_nat (length chunks))
            end
      end
  | _ => Println "Format: SEND:<nbr_relays>:<ip>:<port>:<message>"
  end.

(** [for i := 0; i < n; i++]. *)
Fixpoint for_loop (n : nat) (i : Z) (once : Z -> prog Proc unit) : prog Proc unit :=
  match n with
  | 0 => Ret tt
  | Datatypes.S n => once i ;; for_loop n (i + 1) once
  end.

Definition cli_BENCH (data : string) : prog Proc unit :=
  match SplitN data colon 5 with
  | [s_nbrMsg; s_numRelays; s_maxRetries; ip; port] =>
      let nbrMsg := atoi_val s_nbrMsg in
      let numRelays := atoi_val s_numRelays in
      let maxRetries := atoi_val s_maxRetries in
      let destAddr := ip +:+ ":" +:+ port in
      for_loop (Z.to_nat nbrMsg) 0 (fun i =>
        let msg := "bench-msg-" +:+ Itoa i in
        now ← trigger ENow;
        trigger (ESpawn (GoSend destAddr msg "" numRelays maxRetries now)) ;;
        trigger (ESleep (500 * millisecond)))
  | _ => Println "Format: BENCH:<nbr_messages>:<nbr_relays>:<maxRetries>:<ip>:<port>"
  end.

Definition cli_LIST : prog Proc unit :=
  r ← Node.GetNodesList;
  match r with
  | inr err => Println ("Error: " +:+ err)
  | inl list => Println list
  end.

Definition cli_SSEND (data : string) : prog Proc unit :=
  match SplitN data colon 5 with
  | [s_groupSize; s_numRelays; ip; port; message] =>
      let groupSize := atoi_val s_groupSize in
      let numRelays := atoi_val s_numRelays in
      let destAddr := ip +:+ ":" +:+ port in
      now ← trigger ENow;
      trigger (ESpawn (GoSendSuper destAddr message numRelays groupSize 3 now))
  | _ => Println "Format: SSEND:<group_size>:<nbr_relays>:<ip>:<port>:<message>"
  end.

Definition cli_SBENCH (data : string) : prog Proc unit :=
  match SplitN data colon 6 with
  | [s_nbrMsg; s_groupSize; s_numRelays; s_maxRetries; ip; port] =>
      let nbrMsg := atoi_val s_nbrMsg in
      let groupSize := atoi_val s_groupSize in
      let numRelays := atoi_val s_numRelays in
      let maxRetries := atoi_val s_maxRetries in
      let destAddr := ip +:+ ":" +:+ port in
      for_loop (Z.to_nat nbrMsg) 0 (fun i =>
        let msg := "sbench-msg-" +:+ Itoa i in
        now ← trigger ENow;
        trigger (ESpawn (GoSendSuper destAddr msg numRelays groupSize maxRetries now)) ;;
        trigger (ESleep (500 * millisecond)))
  | _ => Println "Format: SBENCH:<nbr_messages>:<group_size>:<nbr_relays>:<maxRetries>:<ip>:<port>"
  end.

(** ** Commands of the page, [processCmd] *)

(** [if mode == "auth" { msg = "AUTH:" + n.ID + ":" + msg }]. *)
Definition sign (mode msg : string) : prog Proc string :=
  if String.eqb mode "auth"
  then name ← trigger (EGet (fun p => ID (node p))); Ret ("AUTH:" +:+ name +:+ ":" +:+ msg)
  else Ret msg.

Definition web_FETCH (data : string) : prog Proc unit :=
  r ← trigger (EAsk data ("GET_PUBKEY" +:+ str1 nl));
  match r with
  | NoDial => Println ("Erreur connexion: " +:+ lib_error)
  | Dialed _ pubBase64Raw _ =>
      let pubBytes := (decode_partial (TrimSpace pubBase64Raw)).1 in
      match ParsePKIX pubBytes with
      | None => Println ("Erreur decodage clé: " +:+ lib_error)
      | Some None => Ret tt
      | Some (Some pubKey) =>
          now ← trigger ENow;
          cache_set data (MkCachedKey pubKey (now + 30 * second)) ;;
          Println ("Enregistrement de la clé (publique) de " +:+ data +:+ " réalisé avec succès!")
      end
  end.

Definition web_MSG (nodeAddr mode data : string) : prog Proc unit :=
  match SplitN data colon 3 with
  | [ip; port; msg] =>
      let dstAddr := ip +:+ ":" +:+ port in
      msg ← sign mode msg;
      enc ← Encapsulator_func msg "" [dstAddr] [] nodeAddr;
      match enc with
      | inr err => Println ("Erreur Encapsulator_func: " +:+ err)
      | inl (onion, _, _) =>
          ok ← SendTo dstAddr onion;
          if (ok : bool) then Ret tt else Println ("Error sending message: " +:+ lib_error)
      end
  | _ => Println "Invalid MSG format. Use MSG:<ip>:<port>:<message>"
  end.

Definition web_RELAY (nodeAddr mode data : string) : prog Proc unit :=
  let lastComma := LastIndex data comma in
  if (lastComma =? -1)%Z then
    Println "Format: RELAY:<ip>:<port>,<ip>:<port>,...,<message>"
  else
    let addrsStr := Split (str_take (Z.to_nat lastComma) data) comma in
    message ← sign mode (str_drop (Z.to_nat lastComma + 1) data);
    let route := TrimSpace <$> addrsStr in
    enc ← Encapsulator_func message "" route [] nodeAddr;
    match enc with
    | inr err => Println ("Erreur Encapsulator_func: " +:+ err)
    | inl (onion, _, _) =>
        first ← get_index route 0;
        ok ← SendTo first onion;
        if (ok : bool) then Ret tt else Println ("Erreur: " +:+ lib_error)
    end.

Definition web_SEND (mode data : string) : prog Proc unit :=
  match SplitN data colon 4 with
  | [nbr; ip; port; message] =>
      match Atoi nbr with
      | (_, Some _) => Println ("Error parsing relay number: " +:+ lib_error)
      | (numRelays, None) =>
          let destAddr := ip +:+ ":" +:+ port in
          message ← sign mode message;
          now ← trigger ENow;
          trigger (ESpawn (GoSend destAddr message "" numRelays 3 now))
      end
  | _ => Println "Format: SEND:<nbr_relays>:<ip>:<port>:<message>"
  end.

Definition web_SSEND (mode data : string) : prog Proc unit :=
  match SplitN data colon 5 with
  | [s_groupSize; s_numRelays; ip; port; message] =>
      let groupSize := atoi_val s_groupSize in
      let numRelays := atoi_val s_numRelays in
      let destAddr := ip +:+ ":" +:+ port in
      message ← sign mode message;
      now ← trigger ENow;
      trigger (ESpawn (GoSendSuper destAddr message numRelays groupSize 3 now))
  | _ => Println "Format: SSEND:<group_size>:<nbr_relays>:<ip>:<port>:<message>"
  end.

Definition web_BENCH (data : string) : prog Proc unit :=
  match SplitN data colon 5 with
  | [s_nbrMsg; s_numRelays; s_maxRetries; ip; port] =>
      let nbrMsg := atoi_val s_nbrMsg in
      let numRelays := atoi_val s_numRelays in
      let maxRetries := atoi_val s_maxRetries in
      let destAddr := ip +:+ ":" +:+ port in
      for_loop (Z.to_nat nbrMsg) 0 (fun i =>
        let msg := "bench-msg-" +:+ Itoa i in
        now ← trigger ENow;
        trigger (ESpawn (GoSend destAddr msg "" numRelays maxRetries now)) ;;
        trigger (ESleep (500 * millisecond)))
  | _ => Println "Format: BENCH:<nbr_messages>:<nbr_relays>:<maxRetries>:<ip>:<port>"
  end.

Definition web_SBENCH (data : string) : prog Proc unit :=
  match SplitN data colon 6 with
  | [s_nbrMsg; s_groupSize; s_numRelays; s_maxRetries; ip; port] =>
      let nbrMsg := atoi_val s_nbrMsg in
      let groupSize := atoi_val s_groupSize in
      let numRelays := atoi_val s_numRelays in
      let maxRetries := atoi_val s_maxRetries in
      let destAddr := ip +:+ ":" +:+ port in
      for_loop (Z.to_nat nbrMsg) 0 (fun i =>
        let msg := "sbench-msg-" +:+ Itoa i in
        now ← trigger ENow;
        trigger (ESpawn (GoSendSuper destAddr msg numRelays groupSize maxRetries now)) ;;
        trigger (ESleep (500 * millisecond)))
  | _ => Println "Format: SBENCH:<nbr_messages>:<group_size>:<nbr_relays>:<maxRetries>:<ip>:<port>"
  end.

Definition web_LIST : prog Proc unit :=
  r ← Node.GetNodesList;
  match r with
  | inr err => Println ("Error: " +:+ err)
  | inl list => Println list
  end.

(** ** The console *)

(** One trimmed, non-empty line; [false] ends the console. *)
Definition cli_command (input : string) : prog Proc bool :=
  match SplitN input colon 2 with
  | [] => Raise "index out of range"
  | word :: more =>
      let cmd := ToUpper word in
      let data := match more with d :: _ => d | [] => "" end in
      if String.eqb cmd "FETCH" then cli_FETCH data ;; Ret true
      else if String.eqb cmd "MSG" then cli_MSG data ;; Ret true
      else if String.eqb cmd "RELAY" then cli_RELAY data ;; Ret true
      else if String.eqb cmd "SEND" then cli_SEND data ;; Ret true
      else if String.eqb cmd "BENCH" then cli_BENCH data ;; Ret true
      else if String.eqb cmd "LIST" then cli_LIST ;; Ret true
      else if String.eqb cmd "REGEN" then
        r ← RegenerateKeys;
        match r with
        | inr err => Println ("Erreur lors de la régénération: " +:+ err) ;; Ret true
        | inl _ => Ret true
        end
      else if String.eqb cmd "SSEND" then cli_SSEND data ;; Ret true
      else if String.eqb cmd "SBENCH" then cli_SBENCH data ;; Ret true
      else if String.eqb cmd "QUIT" then Println "Shutting down node..." ;; Stop ;; Ret false
      else Println "Unknown command. Use MSG or RELAY." ;; Ret true
  end.

Fixpoint cli_loop (lines : list string) : prog Proc unit :=
  match lines with
  | [] => Ret tt
  | line :: rest =>
      let input := TrimSpace line in
      if String.eqb input "" then cli_loop rest
      else
        continue ← cli_command input;
        if (continue : bool) then cli_loop rest else Ret tt
  end.

Definition banner : list string :=
  ["  FETCH:<ip>:<port>                              - Récupérer la clé publique d'un noeud";
   "  MSG:<ip>:<port>:<message>                      - Message direct";
   "  RELAY:<ip>:<port>,<ip>:<port>,...,<message>    - Relai multi-hop (route manuelle)";
   "  SEND:<nbr>:<ip>:<port>:<message>               - Envoi auto (route aléatoire)";
   "  REGEN:                                         - Régénère la clé RSA du noeud";
   "  SSEND:<grp>:<nbr>:<ip>:<port>:<message>        - Envoi super-node (broadcast enc)";
   "  SBENCH:<msgs>:<grp>:<nbr>:<retries>:<ip>:<port> - Bench super-node";
   "  QUIT:                                          - Quitter";
   "  LIST:                                          - Afficher la liste des noeuds enregistrés";
   ""].

(** [stdin]: what is typed until the end of the input.  The console, and with
    it [main], ends at a line of 64 KiB as well. *)
Definition runCLI (stdin : string) : prog Proc unit := print_all banner ;; cli_loop (scan_lines stdin).

(** ** The web page *)

Definition processCmd (input mode : string) : prog Proc unit :=
  if String.eqb input "" then Ret tt
  else
  match SplitN input colon 2 with
  | [] => Raise "index out of range"
  | word :: more =>
      let cmd := ToUpper (TrimSpace word) in
      let data := match more with d :: _ => d | [] => "" end in
      nodeAddr ← node_address;
      if String.eqb cmd "FETCH" then web_FETCH data
      else if String.eqb cmd "MSG" then web_MSG nodeAddr mode data
      else if String.eqb cmd "RELAY" then web_RELAY nodeAddr mode data
      else if String.eqb cmd "SEND" then web_SEND mode data
      else if String.eqb cmd "SSEND" then web_SSEND mode data
      else if String.eqb cmd "BENCH" then web_BENCH data
      else if String.eqb cmd "SBENCH" then web_SBENCH data
      else if String.eqb cmd "LIST" then web_LIST
      else if String.eqb cmd "REGEN" then
        r ← RegenerateKeys;
        match r with
        | inr err => Println ("Erreur lors de la régénération: " +:+ err)
        | inl _ => Println "Clé RSA régénérée avec succès."
        end
      else if String.eqb cmd "QUIT" then Println "Shutting down node..." ;; Stop
      else Println ("Unknown command: " +:+ cmd)
  end.

(** The body of [makeHandleCmd] once the request is decoded. *)
Definition handleCmd (Cmd Mode : string) : prog Proc unit :=
  processCmd (TrimSpace Cmd) (TrimSpace Mode).

(** The list that [makeHandleNodes] answers. *)
Definition handleNodes : prog Proc string :=
  r ← Node.GetNodesList;
  Ret (match r with
       | inr _ => "LIST:empty"
       | inl list => if String.eqb list "" then "LIST:empty" else list
       end).

(** ** The start of a node *)

(** The port of the listener [net.Listen("tcp4", addr)] opens. *)
Variable listen : string -> option Z.

Definition NewNode (id : string) : prog Proc (Node + string) :=
  seed ← trigger (ERandBytes 256);
  let privateKey := GenerateKey seed in
  os_port ← trigger (EGetenv "PORT");
  let addr := if String.eqb os_port "" then "0.0.0.0:0" else "0.0.0.0:" +:+ os_port in
  match listen addr with
  | None => Ret (inr lib_error)
  | Some port =>
      Ret (inl (MkNode id port privateKey (Public privateKey) "" ∅ ∅ None None None []))
  end.

(** [os.Args[1]] unless it is an option, otherwise the environment. *)
Definition node_id (args : list string) : prog Proc string :=
  match args with
  | _ :: a :: _ => if negb (HasPrefix a "--") then Ret a else trigger (EGetenv "NODE_ID")
  | _ => trigger (EGetenv "NODE_ID")
  end.

(** An empty cache, and its cleaner. *)
Definition newKeyCache : prog Proc (gmap string CachedKey) :=
  trigger (ESpawn GoCleanCache) ;;
  Ret ∅.

(** [os.Pipe] may fail. *)
Definition startStdoutBridge : prog Proc unit :=
  failed ← trigger EFault;
  if (failed : bool) then Ret tt else trigger (ESpawn GoStdoutBridge).

(** [main].  The address of the directory is part of the effect [ERequest]. *)
Definition main (args : list string) (stdin : string) : prog Proc unit :=
  publicKeys ← newKeyCache;
  id ← node_id args;
  if String.eqb id "" then
    Println "Usage: go run main.go <id>  OR set NODE_ID env variable"
  else
    r ← NewNode id;
    match r with
    | inr err => Println ("Error creating node: " +:+ err)
    | inl n =>
        trigger (ESet (fun _ => MkProc n publicKeys)) ;;
        trigger (ESpawn GoStartNode) ;;
        profile ← trigger (EGetenv "NETWORK_PROFILE");
        let scores := GetScoresFromProfile profile in
        joined ← JoinServerList scores.1 scores.2;
        (match joined with
         | inr err => Println ("Error joining server: " +:+ err)
         | inl _ => Ret tt
         end) ;;
        web ← trigger (EGetenv "ENABLE_WEB");
        (if String.eqb web "1" then startStdoutBridge ;; trigger (ESpawn GoWebUI) else Ret tt) ;;
        runCLI stdin
    end.
End Commands.
