(* ===== verification/Web.v ===== *)
(** * The HTTP side of node/web.go

    What each handler of the web interface answers, and the goroutine it
    starts.  The HTTP server and the JSON decoder are library code: a handler
    takes the method and the decoded body ([None]: the decoder failed). *)

From S2P Require Import Prelude GoStrings GoMonad Crypto KeyCache Node Cluster Commands Dashboard.

Section Web.
Context {C : CryptoLib} {G : GoSort}.

Record cmdRequest := MkRequest { Cmd : string; Mode : string }.
Record response := Response { status : Z; content : string }.

Definition quote : string := str1 "034"%char.

(** [http.Error] ends its text with a line break. *)
Definition http_error (text : string) (code : Z) : response := Response code (text +:+ str1 nl).

Definition makeHandleCmd (Method : string) (decoded : option cmdRequest)
    : response * option (prog Proc unit) :=
  if negb (String.eqb Method "POST") then (http_error "method not allowed" 405, None)
  else
    match decoded with
    | None => (http_error "bad json" 400, None)
    | Some req =>
        (Response 200 ("{" +:+ quote +:+ "ok" +:+ quote +:+ ":true}"),
         Some (handleCmd (Cmd req) (Mode req)))
    end.

(** [webPage] is the constant of web_page.go. *)
Definition makeHandleIndex (webPage : string) (n : Node) : string :=
  ReplaceAll webPage "DOR Node UI" ("DOR — " +:+ ID n).

(** The port and the address of [startWebUI], which it announces. *)
Definition web_port (p : string) : Z :=
  if String.eqb p "" then 9090
  else match Atoi p with (v, None) => v | _ => 9090 end.

Definition startWebUI : prog Proc string :=
  p ← trigger (EGetenv "WEB_PORT");
  let port := web_port p in
  b ← trigger (EGetenv "WEB_BIND");
  let bind := if String.eqb b "" then "127.0.0.1" else b in
  Println ("[web] Interface disponible sur http://localhost:" +:+ Itoa port) ;;
  Ret (bind +:+ ":" +:+ Itoa port).
End Web.
