(* ===== verification/ChatPage.v ===== *)
(** * The script of the node's web page: node/web_page.go

    The page keeps conversations, follows the list of nodes, posts commands and
    reads the log lines of its node.  [page] holds the variables of the script
    and, separately, what is on the screen, which the script updates piece by
    piece.  A handler is a function from page to page; what it posts to [/cmd]
    is its second result.  Scrolling, style sheets and the pictures of the
    camera are left out. *)

From S2P Require Import Prelude GoStrings JavaScript Web.

Definition INBOX : string := "__inbox__".

(** ** State *)

(** [{name, ip, port}]. *)
Record peer := Peer { p_name : string; p_ip : string; p_port : string }.
Definition peer_key (n : peer) : string := p_ip n +:+ ":" +:+ p_port n.

(** A message of a conversation; the null [senderID] is [""]. *)
Record chat := MkChat {
  c_id : Z; c_from : string; c_text : string; c_status : string;
  c_mode : string; c_senderID : string; c_sendType : string }.

(** A row of the conversation on the screen, an entry of the side bar. *)
Inductive row :=
| MeRow (ssend : bool) (text status : string)
| PeerRow (sender : option string) (auth : bool) (text : string)
| MetaRow (text : string).
Record item := Item { i_key : string; i_name : string; i_active : bool; i_badge : option string }.

(** The values of the input elements. *)
Record form := Form {
  msg_input : string; relay_count : string; ssend_group : string; mode_select : string; send_type : string }.

Record page := Page {
  selectedNode : option peer; selectedNodeKey : string;
  conversations : gmap string (list chat); unread : gmap string Z; msgCounter : Z; isStreaming : bool;
  knownNodes : list (string * peer); nodeOrder : list string; lastNodeListRaw : string;
  inputs : form;
  messagesDiv : list row; logsDiv : list string; nodesListDiv : list item;
  inboxItem : bool * option string;
  nodeNameSpan : string; targetHintSpan : string; relaysSpan : string;
  sendBtn_disabled : bool; camBtn_disabled : bool; camBtn_active : bool;
  modeIndicator : string * string; modeSelect_class : string;
  ssend_visible : bool; sendBtn_text : string;
  remoteVideo : option (string * string) }.

(** Assignments. *)
Definition set_selectedNode x (p : page) : page :=
  Page x (selectedNodeKey p) (conversations p) (unread p) (msgCounter p) (isStreaming p) (knownNodes
    p) (nodeOrder p) (lastNodeListRaw p) (inputs p) (messagesDiv p) (logsDiv p) (nodesListDiv p)
    (inboxItem p) (nodeNameSpan p) (targetHintSpan p) (relaysSpan p) (sendBtn_disabled p)
    (camBtn_disabled p) (camBtn_active p) (modeIndicator p) (modeSelect_class p) (ssend_visible p)
    (sendBtn_text p) (remoteVideo p).
Definition set_selectedNodeKey x (p : page) : page :=
  Page (selectedNode p) x (conversations p) (unread p) (msgCounter p) (isStreaming p) (knownNodes p)
    (nodeOrder p) (lastNodeListRaw p) (inputs p) (messagesDiv p) (logsDiv p) (nodesListDiv p)
    (inboxItem p) (nodeNameSpan p) (targetHintSpan p) (relaysSpan p) (sendBtn_disabled p)
    (camBtn_disabled p) (camBtn_active p) (modeIndicator p) (modeSelect_class p) (ssend_visible p)
    (sendBtn_text p) (remoteVideo p).
Definition set_conversations x (p : page) : page :=
  Page (selectedNode p) (selectedNodeKey p) x (unread p) (msgCounter p) (isStreaming p) (knownNodes
    p) (nodeOrder p) (lastNodeListRaw p) (inputs p) (messagesDiv p) (logsDiv p) (nodesListDiv p)
    (inboxItem p) (nodeNameSpan p) (targetHintSpan p) (relaysSpan p) (sendBtn_disabled p)
    (camBtn_disabled p) (camBtn_active p) (modeIndicator p) (modeSelect_class p) (ssend_visible p)
    (sendBtn_text p) (remoteVideo p).
Definition set_unread x (p : page) : page :=
  Page (selectedNode p) (selectedNodeKey p) (conversations p) x (msgCounter p) (isStreaming p)
    (knownNodes p) (nodeOrder p) (lastNodeListRaw p) (inputs p) (messagesDiv p) (logsDiv p)
    (nodesListDiv p) (inboxItem p) (nodeNameSpan p) (targetHintSpan p) (relaysSpan p)
    (sendBtn_disabled p) (camBtn_disabled p) (camBtn_active p) (modeIndicator p) (modeSelect_class
    p) (ssend_visible p) (sendBtn_text p) (remoteVideo p).
Definition set_msgCounter x (p : page) : page :=
  Page (selectedNode p) (selectedNodeKey p) (conversations p) (unread p) x (isStreaming p)
    (knownNodes p) (nodeOrder p) (lastNodeListRaw p) (inputs p) (messagesDiv p) (logsDiv p)
    (nodesListDiv p) (inboxItem p) (nodeNameSpan p) (targetHintSpan p) (relaysSpan p)
    (sendBtn_disabled p) (camBtn_disabled p) (camBtn_active p) (modeIndicator p) (modeSelect_class
    p) (ssend_visible p) (sendBtn_text p) (remoteVideo p).
Definition set_isStreaming x (p : page) : page :=
  Page (selectedNode p) (selectedNodeKey p) (conversations p) (unread p) (msgCounter p) x
    (knownNodes p) (nodeOrder p) (lastNodeListRaw p) (inputs p) (messagesDiv p) (logsDiv p)
    (nodesListDiv p) (inboxItem p) (nodeNameSpan p) (targetHintSpan p) (relaysSpan p)
    (sendBtn_disabled p) (camBtn_disabled p) (camBtn_active p) (modeIndicator p) (modeSelect_class
    p) (ssend_visible p) (sendBtn_text p) (remoteVideo p).
Definition set_knownNodes x (p : page) : page :=
  Page (selectedNode p) (selectedNodeKey p) (conversations p) (unread p) (msgCounter p) (isStreaming
    p) x (nodeOrder p) (lastNodeListRaw p) (inputs p) (messagesDiv p) (logsDiv p) (nodesListDiv p)
    (inboxItem p) (nodeNameSpan p) (targetHintSpan p) (relaysSpan p) (sendBtn_disabled p)
    (camBtn_disabled p) (camBtn_active p) (modeIndicator p) (modeSelect_class p) (ssend_visible p)
    (sendBtn_text p) (remoteVideo p).
Definition set_nodeOrder x (p : page) : page :=
  Page (selectedNode p) (selectedNodeKey p) (conversations p) (unread p) (msgCounter p) (isStreaming
    p) (knownNodes p) x (lastNodeListRaw p) (inputs p) (messagesDiv p) (logsDiv p) (nodesListDiv p)
    (inboxItem p) (nodeNameSpan p) (targetHintSpan p) (relaysSpan p) (sendBtn_disabled p)
    (camBtn_disabled p) (camBtn_active p) (modeIndicator p) (modeSelect_class p) (ssend_visible p)
    (sendBtn_text p) (remoteVideo p).
Definition set_lastNodeListRaw x (p : page) : page :=
  Page (selectedNode p) (selectedNodeKey p) (conversations p) (unread p) (msgCounter p) (isStreaming
    p) (knownNodes p) (nodeOrder p) x (inputs p) (messagesDiv p) (logsDiv p) (nodesListDiv p)
    (inboxItem p) (nodeNameSpan p) (targetHintSpan p) (relaysSpan p) (sendBtn_disabled p)
    (camBtn_disabled p) (camBtn_active p) (modeIndicator p) (modeSelect_class p) (ssend_visible p)
    (sendBtn_text p) (remoteVideo p).
Definition set_inputs x (p : page) : page :=
  Page (selectedNode p) (selectedNodeKey p) (conversations p) (unread p) (msgCounter p) (isStreaming
    p) (knownNodes p) (nodeOrder p) (lastNodeListRaw p) x (messagesDiv p) (logsDiv p) (nodesListDiv
    p) (inboxItem p) (nodeNameSpan p) (targetHintSpan p) (relaysSpan p) (sendBtn_disabled p)
    (camBtn_disabled p) (camBtn_active p) (modeIndicator p) (modeSelect_class p) (ssend_visible p)
    (sendBtn_text p) (remoteVideo p).
Definition set_messagesDiv x (p : page) : page :=
  Page (selectedNode p) (selectedNodeKey p) (conversations p) (unread p) (msgCounter p) (isStreaming
    p) (knownNodes p) (nodeOrder p) (lastNodeListRaw p) (inputs p) x (logsDiv p) (nodesListDiv p)
    (inboxItem p) (nodeNameSpan p) (targetHintSpan p) (relaysSpan p) (sendBtn_disabled p)
    (camBtn_disabled p) (camBtn_active p) (modeIndicator p) (modeSelect_class p) (ssend_visible p)
    (sendBtn_text p) (remoteVideo p).
Definition set_logsDiv x (p : page) : page :=
  Page (selectedNode p) (selectedNodeKey p) (conversations p) (unread p) (msgCounter p) (isStreaming
    p) (knownNodes p) (nodeOrder p) (lastNodeListRaw p) (inputs p) (messagesDiv p) x (nodesListDiv
    p) (inboxItem p) (nodeNameSpan p) (targetHintSpan p) (relaysSpan p) (sendBtn_disabled p)
    (camBtn_disabled p) (camBtn_active p) (modeIndicator p) (modeSelect_class p) (ssend_visible p)
    (sendBtn_text p) (remoteVideo p).
Definition set_nodesListDiv x (p : page) : page :=
  Page (selectedNode p) (selectedNodeKey p) (conversations p) (unread p) (msgCounter p) (isStreaming
    p) (knownNodes p) (nodeOrder p) (lastNodeListRaw p) (inputs p) (messagesDiv p) (logsDiv p) x
    (inboxItem p) (nodeNameSpan p) (targetHintSpan p) (relaysSpan p) (sendBtn_disabled p)
    (camBtn_disabled p) (camBtn_active p) (modeIndicator p) (modeSelect_class p) (ssend_visible p)
    (sendBtn_text p) (remoteVideo p).
Definition set_inboxItem x (p : page) : page :=
  Page (selectedNode p) (selectedNodeKey p) (conversations p) (unread p) (msgCounter p) (isStreaming
    p) (knownNodes p) (nodeOrder p) (lastNodeListRaw p) (inputs p) (messagesDiv p) (logsDiv p)
    (nodesListDiv p) x (nodeNameSpan p) (targetHintSpan p) (relaysSpan p) (sendBtn_disabled p)
    (camBtn_disabled p) (camBtn_active p) (modeIndicator p) (modeSelect_class p) (ssend_visible p)
    (sendBtn_text p) (remoteVideo p).
Definition set_nodeNameSpan x (p : page) : page :=
  Page (selectedNode p) (selectedNodeKey p) (conversations p) (unread p) (msgCounter p) (isStreaming
    p) (knownNodes p) (nodeOrder p) (lastNodeListRaw p) (inputs p) (messagesDiv p) (logsDiv p)
    (nodesListDiv p) (inboxItem p) x (targetHintSpan p) (relaysSpan p) (sendBtn_disabled p)
    (camBtn_disabled p) (camBtn_active p) (modeIndicator p) (modeSelect_class p) (ssend_visible p)
    (sendBtn_text p) (remoteVideo p).
Definition set_targetHintSpan x (p : page) : page :=
  Page (selectedNode p) (selectedNodeKey p) (conversations p) (unread p) (msgCounter p) (isStreaming
    p) (knownNodes p) (nodeOrder p) (lastNodeListRaw p) (inputs p) (messagesDiv p) (logsDiv p)
    (nodesListDiv p) (inboxItem p) (nodeNameSpan p) x (relaysSpan p) (sendBtn_disabled p)
    (camBtn_disabled p) (camBtn_active p) (modeIndicator p) (modeSelect_class p) (ssend_visible p)
    (sendBtn_text p) (remoteVideo p).
Definition set_relaysSpan x (p : page) : page :=
  Page (selectedNode p) (selectedNodeKey p) (conversations p) (unread p) (msgCounter p) (isStreaming
    p) (knownNodes p) (nodeOrder p) (lastNodeListRaw p) (inputs p) (messagesDiv p) (logsDiv p)
    (nodesListDiv p) (inboxItem p) (nodeNameSpan p) (targetHintSpan p) x (sendBtn_disabled p)
    (camBtn_disabled p) (camBtn_active p) (modeIndicator p) (modeSelect_class p) (ssend_visible p)
    (sendBtn_text p) (remoteVideo p).
Definition set_sendBtn_disabled x (p : page) : page :=
  Page (selectedNode p) (selectedNodeKey p) (conversations p) (unread p) (msgCounter p) (isStreaming
    p) (knownNodes p) (nodeOrder p) (lastNodeListRaw p) (inputs p) (messagesDiv p) (logsDiv p)
    (nodesListDiv p) (inboxItem p) (nodeNameSpan p) (targetHintSpan p) (relaysSpan p) x
    (camBtn_disabled p) (camBtn_active p) (modeIndicator p) (modeSelect_class p) (ssend_visible p)
    (sendBtn_text p) (remoteVideo p).
Definition set_camBtn_disabled x (p : page) : page :=
  Page (selectedNode p) (selectedNodeKey p) (conversations p) (unread p) (msgCounter p) (isStreaming
    p) (knownNodes p) (nodeOrder p) (lastNodeListRaw p) (inputs p) (messagesDiv p) (logsDiv p)
    (nodesListDiv p) (inboxItem p) (nodeNameSpan p) (targetHintSpan p) (relaysSpan p)
    (sendBtn_disabled p) x (camBtn_active p) (modeIndicator p) (modeSelect_class p) (ssend_visible
    p) (sendBtn_text p) (remoteVideo p).
Definition set_camBtn_active x (p : page) : page :=
  Page (selectedNode p) (selectedNodeKey p) (conversations p) (unread p) (msgCounter p) (isStreaming
    p) (knownNodes p) (nodeOrder p) (lastNodeListRaw p) (inputs p) (messagesDiv p) (logsDiv p)
    (nodesListDiv p) (inboxItem p) (nodeNameSpan p) (targetHintSpan p) (relaysSpan p)
    (sendBtn_disabled p) (camBtn_disabled p) x (modeIndicator p) (modeSelect_class p) (ssend_visible
    p) (sendBtn_text p) (remoteVideo p).
Definition set_modeIndicator x (p : page) : page :=
  Page (selectedNode p) (selectedNodeKey p) (conversations p) (unread p) (msgCounter p) (isStreaming
    p) (knownNodes p) (nodeOrder p) (lastNodeListRaw p) (inputs p) (messagesDiv p) (logsDiv p)
    (nodesListDiv p) (inboxItem p) (nodeNameSpan p) (targetHintSpan p) (relaysSpan p)
    (sendBtn_disabled p) (camBtn_disabled p) (camBtn_active p) x (modeSelect_class p) (ssend_visible
    p) (sendBtn_text p) (remoteVideo p).
Definition set_modeSelect_class x (p : page) : page :=
  Page (selectedNode p) (selectedNodeKey p) (conversations p) (unread p) (msgCounter p) (isStreaming
    p) (knownNodes p) (nodeOrder p) (lastNodeListRaw p) (inputs p) (messagesDiv p) (logsDiv p)
    (nodesListDiv p) (inboxItem p) (nodeNameSpan p) (targetHintSpan p) (relaysSpan p)
    (sendBtn_disabled p) (camBtn_disabled p) (camBtn_active p) (modeIndicator p) x (ssend_visible p)
    (sendBtn_text p) (remoteVideo p).
Definition set_ssend_visible x (p : page) : page :=
  Page (selectedNode p) (selectedNodeKey p) (conversations p) (unread p) (msgCounter p) (isStreaming
    p) (knownNodes p) (nodeOrder p) (lastNodeListRaw p) (inputs p) (messagesDiv p) (logsDiv p)
    (nodesListDiv p) (inboxItem p) (nodeNameSpan p) (targetHintSpan p) (relaysSpan p)
    (sendBtn_disabled p) (camBtn_disabled p) (camBtn_active p) (modeIndicator p) (modeSelect_class
    p) x (sendBtn_text p) (remoteVideo p).
Definition set_sendBtn_text x (p : page) : page :=
  Page (selectedNode p) (selectedNodeKey p) (conversations p) (unread p) (msgCounter p) (isStreaming
    p) (knownNodes p) (nodeOrder p) (lastNodeListRaw p) (inputs p) (messagesDiv p) (logsDiv p)
    (nodesListDiv p) (inboxItem p) (nodeNameSpan p) (targetHintSpan p) (relaysSpan p)
    (sendBtn_disabled p) (camBtn_disabled p) (camBtn_active p) (modeIndicator p) (modeSelect_class
    p) (ssend_visible p) x (remoteVideo p).
Definition set_remoteVideo x (p : page) : page :=
  Page (selectedNode p) (selectedNodeKey p) (conversations p) (unread p) (msgCounter p) (isStreaming
    p) (knownNodes p) (nodeOrder p) (lastNodeListRaw p) (inputs p) (messagesDiv p) (logsDiv p)
    (nodesListDiv p) (inboxItem p) (nodeNameSpan p) (targetHintSpan p) (relaysSpan p)
    (sendBtn_disabled p) (camBtn_disabled p) (camBtn_active p) (modeIndicator p) (modeSelect_class
    p) (ssend_visible p) (sendBtn_text p) x.

(** ** Conversations *)

Definition ensureConv (k : string) (p : page) : page :=
  let p := match conversations p !! k with
           | Some _ => p
           | None => set_conversations (<[k := []]> (conversations p)) p
           end in
  match unread p !! k with
  | Some _ => p
  | None => set_unread (<[k := 0%Z]> (unread p)) p
  end.

(** [conversations[k] || []] and [unread[k] || 0]. *)
Definition conv (p : page) (k : string) : list chat := default [] (conversations p !! k).
Definition unread_of (p : page) (k : string) : Z := default 0%Z (unread p !! k).

Definition makeMeta (text : string) : row := MetaRow text.

Definition render_chat (m : chat) : row :=
  if String.eqb (c_from m) "me" then
    let ssend := String.eqb (c_sendType m) "ssend" in
    MeRow ssend ((if ssend then "🕸 " else "") +:+ c_text m)
      (if String.eqb (c_status m) "pending" then "⏳" else if String.eqb (c_status m) "ok" then "✔" else "✖")
  else if String.eqb (c_from m) "peer" then
    let auth := String.eqb (c_mode m) "auth" in
    PeerRow (if auth && negb (String.eqb (c_senderID m) "") then Some ("🔐 " +:+ c_senderID m) else None)
      auth (c_text m)
  else makeMeta (c_text m).

Definition render_rows (l : list chat) : list row :=
  match l with [] => [makeMeta "Aucun message."] | _ => render_chat <$> l end.
Definition renderConversation (p : page) : page :=
  set_messagesDiv (render_rows (conv p (selectedNodeKey p))) p.

(** What a badge shows for a count. *)
Definition badge_text (count : Z) : option string :=
  if (count =? 0)%Z then None else Some (if (99 <? count)%Z then "99+" else Itoa count).

(** [querySelector]: the first element with that [data-key], changed. *)
Fixpoint with_item (key : string) (f : item -> item) (items : list item) : list item :=
  match items with
  | [] => []
  | i :: items => if String.eqb (i_key i) key then f i :: items else i :: with_item key f items
  end.

Definition set_badge (b : option string) (i : item) : item := Item (i_key i) (i_name i) (i_active i) b.
Definition set_active (active : bool) (i : item) : item := Item (i_key i) (i_name i) active (i_badge i).

Definition updateBadge (key : string) (p : page) : page :=
  let b := badge_text (unread_of p key) in
  if String.eqb key INBOX then set_inboxItem ((inboxItem p).1, b) p
  else set_nodesListDiv (with_item key (set_badge b) (nodesListDiv p)) p.

(** Missing arguments are [""]. *)
Definition addMessage (key from text status mode senderID sendType : string) (p : page) : page :=
  let p := ensureConv key p in
  let p := set_msgCounter (msgCounter p + 1)%Z p in
  let m := MkChat (msgCounter p) from text (or_else status "ok") (or_else mode "anon") senderID
             (or_else sendType "send") in
  let p := set_conversations (<[key := conv p key ++ [m]]> (conversations p)) p in
  if String.eqb key (selectedNodeKey p) then renderConversation p
  else if String.eqb from "peer" || String.eqb from "meta" then
    updateBadge key (set_unread (<[key := (unread_of p key + 1)%Z]> (unread p)) p)
  else p.

Definition set_status (status : string) (m : chat) : chat :=
  MkChat (c_id m) (c_from m) (c_text m) status (c_mode m) (c_senderID m) (c_sendType m).
Definition is_pending (m : chat) : bool := String.eqb (c_from m) "me" && String.eqb (c_status m) "pending".

(** The loop from the end of the conversation to the first pending message. *)
Fixpoint mark_newest (status : string) (i : nat) (l : list chat) : list chat :=
  match i with
  | 0 => l
  | S i =>
      match l !! i with
      | Some m => if is_pending m then <[i := set_status status m]> l else mark_newest status i l
      | None => l
      end
  end.

Definition updateLastPending (destKey status : string) (p : page) : page :=
  match conversations p !! destKey with
  | None => p
  | Some l =>
      let p := set_conversations (<[destKey := mark_newest status (length l) l]> (conversations p)) p in
      if String.eqb destKey (selectedNodeKey p) then renderConversation p else p
  end.

(** ** The side bar *)

Definition sidebar_item (p : page) (key : string) : item :=
  Item key (default "" (p_name <$> obj_get key (knownNodes p))) (String.eqb key (selectedNodeKey p))
    (if (0 <? unread_of p key)%Z
     then Some (if (99 <? unread_of p key)%Z then "99+" else Itoa (unread_of p key)) else None).

(** One turn of the loop: the conversation is made first. *)
Fixpoint render_items (order : list string) (p : page) : page :=
  match order with
  | [] => p
  | key :: order =>
      let p := ensureConv key p in
      render_items order (set_nodesListDiv (nodesListDiv p ++ [sidebar_item p key]) p)
  end.
Definition rerenderSidebar (p : page) : page := render_items (nodeOrder p) (set_nodesListDiv [] p).

Definition setModeIndicator (mode : string) (p : page) : page :=
  set_modeIndicator
    (if String.eqb mode "auth" then ("🔐 Authentifié", "mode-badge auth")
     else if String.eqb mode "ssend" then ("⚡ SSEND", "mode-badge ssend")
     else ("🔒 Anonyme", "mode-badge anon")) p.

Definition updateModeStyle (p : page) : page :=
  let val := mode_select (inputs p) in
  let p := set_modeSelect_class (if String.eqb val "auth" then "mode-select auth" else "mode-select") p in
  if negb (String.eqb (selectedNodeKey p) "") && negb (String.eqb (selectedNodeKey p) INBOX)
  then setModeIndicator val p else p.

Definition updateRelayLabel (p : page) : page := set_relaysSpan (relay_count (inputs p)) p.

Definition onSendTypeChange (p : page) : page :=
  let isSSend := String.eqb (send_type (inputs p)) "ssend" in
  set_sendBtn_text (if isSSend then "🕸 Envoyer ➤" else "Envoyer ➤") (set_ssend_visible isSSend p).

(** Both choices up to [ensureConv], [renderConversation]. *)
Definition inbox_chosen (p : page) : page :=
  let p := set_selectedNodeKey INBOX (set_selectedNode None p) in
  let p := updateBadge INBOX (set_unread (<[INBOX := 0%Z]> (unread p)) p) in
  let p := set_nodesListDiv (set_active false <$> nodesListDiv p) p in
  let p := set_inboxItem (true, (inboxItem p).2) p in
  let p := set_targetHintSpan "aucun nœud" (set_nodeNameSpan "📬 Messages reçus" p) in
  let p := set_camBtn_disabled true (set_sendBtn_disabled true p) in
  setModeIndicator "anon" p.

Definition selectInbox (p : page) : page := renderConversation (ensureConv INBOX (inbox_chosen p)).

Definition node_chosen (n : peer) (p : page) : page :=
  let key := p_ip n +:+ ":" +:+ p_port n in
  let p := set_selectedNodeKey key (set_selectedNode (Some n) p) in
  let p := updateBadge key (set_unread (<[key := 0%Z]> (unread p)) p) in
  let p := set_nodesListDiv (set_active false <$> nodesListDiv p) p in
  let p := set_inboxItem (false, (inboxItem p).2) p in
  let p := set_nodesListDiv (with_item key (set_active true) (nodesListDiv p)) p in
  let p := set_targetHintSpan key (set_nodeNameSpan (p_name n +:+ "  (" +:+ key +:+ ")") p) in
  let p := set_camBtn_disabled false (set_sendBtn_disabled false p) in
  updateModeStyle p.

Definition selectNode (n : peer) (p : page) : page :=
  renderConversation (ensureConv (p_ip n +:+ ":" +:+ p_port n) (node_chosen n p)).

(** ** The list of nodes *)

Definition stop_streaming (p : page) : page := set_camBtn_active false (set_isStreaming false p).

Definition fail_pending (m : chat) : chat := if is_pending m then set_status "fail" m else m.

(** Everything of the conversation that is still pending has failed. *)
Definition fail_conversation (key : string) (p : page) : page :=
  match conversations p !! key with
  | Some l =>
      let p := set_conversations (<[key := fail_pending <$> l]> (conversations p)) p in
      if String.eqb key (selectedNodeKey p) then renderConversation p else p
  | None => p
  end.

(** The node on the screen is left for the inbox. *)
Definition leave_node (p : page) : page :=
  let p := set_camBtn_disabled true (set_sendBtn_disabled true p) in
  let p := if isStreaming p then stop_streaming p else p in
  selectInbox (set_selectedNode None p).

Definition onNodeDisappeared (key : string) (p : page) : page :=
  let p := fail_conversation key p in
  let p := addMessage key "meta" ("⚠️ Nœud " +:+ key +:+ " hors ligne — messages non délivrés")
             "ok" "anon" "" "send" p in
  let p := if String.eqb key (selectedNodeKey p) then p
           else addMessage INBOX "meta" ("⚠️ Nœud " +:+ key +:+ " a disparu du réseau") "ok" "anon" "" "send" p in
  if String.eqb (selectedNodeKey p) key then leave_node p else p.

(** The address of an entry with three fields or more. *)
Definition parse_peer (entry : string) : option peer :=
  match Split (js_trim entry) pipe with
  | name :: ip :: port :: _ => Some (Peer name ip port)
  | _ => None
  end.

Definition learn_peer (n : peer) (p : page) : page :=
  let key := p_ip n +:+ ":" +:+ p_port n in
  match obj_get key (knownNodes p) with
  | None => set_nodeOrder (nodeOrder p ++ [key]) (set_knownNodes (obj_set key n (knownNodes p)) p)
  | Some known => set_knownNodes (obj_set key (Peer (p_name n) (p_ip known) (p_port known)) (knownNodes p)) p
  end.

Definition listed_peers (listStr : string) : list peer :=
  if negb (String.eqb listStr "") && negb (String.eqb listStr "LIST:empty")
  then omap parse_peer (Split (if HasPrefix listStr "LIST:" then str_drop 5 listStr else listStr) comma)
  else [].

(** The loop that removes the nodes that are gone, from the last index down. *)
Fixpoint remove_gone (fresh : list string) (i : nat) (p : page) : page :=
  match i with
  | 0 => p
  | S i =>
      match nodeOrder p !! i with
      | None => remove_gone fresh i p
      | Some key =>
          if decide (key ∈ fresh) then remove_gone fresh i p
          else
            let p := onNodeDisappeared key p in
            let p := set_nodeOrder (delete i (nodeOrder p)) p in
            remove_gone fresh i (set_knownNodes (obj_del key (knownNodes p)) p)
      end
  end.

(** [loadNodes] once the answer is there. *)
Definition loadNodes (listStr : string) (p : page) : page :=
  if String.eqb listStr (lastNodeListRaw p) then p
  else
    let p := set_lastNodeListRaw listStr p in
    let fresh := listed_peers listStr in
    let p := foldl (fun p n => learn_peer n p) p fresh in
    rerenderSidebar (remove_gone (peer_key <$> fresh) (length (nodeOrder p)) p).

(** ** Sending *)

(** [parseInt(...) || 3]; the number is printed in decimal. *)
Definition group_size (p : page) : string :=
  Itoa match parseInt (ssend_group (inputs p)) with
       | Some z => if (z =? 0)%Z then 3 else z
       | None => 3
       end.

(** The command for [text] to the selected node. *)
Definition command (p : page) (n : peer) (text : string) : string :=
  let relays := relay_count (inputs p) in
  if String.eqb (send_type (inputs p)) "ssend"
  then "SSEND:" +:+ group_size p +:+ ":" +:+ relays +:+ ":" +:+ p_ip n +:+ ":" +:+ p_port n +:+ ":" +:+ text
  else "SEND:" +:+ relays +:+ ":" +:+ p_ip n +:+ ":" +:+ p_port n +:+ ":" +:+ text.

Definition set_msg_input (text : string) (f : form) : form :=
  Form text (relay_count f) (ssend_group f) (mode_select f) (send_type f).

Definition sendMessage (p : page) : page * option cmdRequest :=
  let text := js_trim (msg_input (inputs p)) in
  let mode := mode_select (inputs p) in
  let sendType := send_type (inputs p) in
  match selectedNode p with
  | None => (p, None)
  | Some n =>
      if String.eqb text "" || sendBtn_disabled p then (p, None)
      else
        let key := p_ip n +:+ ":" +:+ p_port n in
        match obj_get key (knownNodes p) with
        | None =>
            (onNodeDisappeared key
               (addMessage INBOX "meta" ("⚠️ Impossible d'envoyer : nœud " +:+ key +:+ " hors ligne")
                  "ok" "anon" "" "send" p), None)
        | Some _ =>
            let cmd := command p n text in
            let p := setModeIndicator (if String.eqb sendType "ssend" then "ssend" else mode) p in
            let p := addMessage key "me" text "pending" mode "" sendType p in
            (set_inputs (set_msg_input "" (inputs p)) p, Some (MkRequest cmd mode))
        end
  end.

(** The promise of the request is rejected. *)
Definition sendMessage_failed (key err : string) (p : page) : page :=
  addMessage key "meta" ("Erreur réseau : " +:+ err) "fail" "" "" "" p.

(** ** Log lines *)

Definition displayRemoteVideo (base64Data senderName : string) (p : page) : page :=
  set_remoteVideo (Some ("Flux en direct de " +:+ senderName, base64Data)) p.

(** The time-out of the picture. *)
Definition hide_video (p : page) : page := set_remoteVideo None p.

Definition findNodeKey (senderID : string) (p : page) : option string :=
  fst <$> List.find (fun e : string * peer => String.eqb (p_name e.2) senderID || String.eqb e.1 senderID)
    (knownNodes p).

(** [/^RESULT(?:_SUPER)?\|([^|]+)\|([A-Z]+)\|/]. *)
Definition resultM : list piece :=
  [Lit "RESULT"; Maybe "_SUPER"; Lit "|"; GroupOpen; Plus (not_byte pipe); GroupClose; Lit "|";
   GroupOpen; Plus upper; GroupClose; Lit "|"].

Definition dquote : ascii := "034"%char.

(** The words [Message recu (MsgID], white space, a colon, the text up to the
    next closing parenthesis, and the group: what stands between the next two
    double quotes. *)
Definition msgM : list piece :=
  [Lit "Message recu (MsgID"; Star white; Lit ":"; Plus (not_byte ")"%char); Lit ")";
   Star (not_byte dquote); Lit (str1 dquote); GroupOpen; Star (not_byte dquote); GroupClose; Lit (str1 dquote)].

(** [/^AUTH:([^:]+):(.+)$/s]. *)
Definition authM : list piece :=
  [Lit "AUTH:"; GroupOpen; Plus (not_byte colon); GroupClose; Lit ":"; GroupOpen; Plus any; GroupClose; AtEnd].

Definition appendLog (line : string) (p : page) : page :=
  let p := set_logsDiv (logsDiv p ++ [line]) p in
  match match_start resultM line with
  | Some [dest; verdict] => updateLastPending dest (if String.eqb verdict "ACK" then "ok" else "fail") p
  | _ =>
      match match_any msgM line with
      | Some [m] =>
          let raw := js_trim m in
          match match_start authM raw with
          | Some [sender; rest] =>
              let text := js_trim rest in
              let p := setModeIndicator "auth" p in
              if HasPrefix text "VIDEO:" then displayRemoteVideo (str_drop 6 text) ("🔐 " +:+ sender) p
              else
                addMessage (match findNodeKey sender p with Some k => k | None => INBOX end)
                  "peer" text "ok" "auth" sender "send" p
          | _ =>
              let p := setModeIndicator "anon" p in
              if HasPrefix raw "VIDEO:" then displayRemoteVideo (str_drop 6 raw) "🔒 Nœud Anonyme" p
              else addMessage INBOX "peer" raw "ok" "anon" "" "send" p
          end
      | _ => p
      end
  end.

Definition loadNodes_failed (err : string) (p : page) : page := appendLog ("Erreur /nodes : " +:+ err) p.
Definition es_onerror (p : page) : page := appendLog "⚠️ SSE déconnecté…" p.

(** ** The camera *)

(** The camera is asked for; [camera_granted]: it is there. *)
Definition toggleStream (p : page) : page :=
  match selectedNode p with
  | None => p
  | Some _ => if isStreaming p then stop_streaming p else p
  end.
Definition camera_granted (p : page) : page := set_camBtn_active true (set_isStreaming true p).

(** The interval: one picture, as a message. *)
Definition send_frame (frameBase64 : string) (p : page) : page * option cmdRequest :=
  match selectedNode p with
  | None => (p, None)
  | Some n =>
      if isStreaming p then
        match obj_get (p_ip n +:+ ":" +:+ p_port n) (knownNodes p) with
        | None => (toggleStream p, None)
        | Some _ => (p, Some (MkRequest (command p n ("VIDEO:" +:+ frameBase64)) (mode_select (inputs p))))
        end
      else (p, None)
  end.

Definition quitNode (confirmed : bool) : option cmdRequest :=
  if confirmed then Some (MkRequest "QUIT" "anon") else None.

(** ** The page as it is opened, and what can happen to it *)

Definition blank : page :=
  Page None INBOX ∅ ∅ 0 false [] [] "" (Form "" "3" "3" "anon" "send") [] [] [] (true, None)
    "📬 Messages reçus" "aucun nœud" "3" true true false ("🔒 Anonyme", "mode-badge anon") "mode-select"
    false "Envoyer ➤" None.

(** The last lines of the script; [loadNodes] is an event of its own. *)
Definition opened : page :=
  onSendTypeChange (updateModeStyle (updateRelayLabel (selectInbox (ensureConv INBOX blank)))).

(** The handlers of the input elements run after a change of their value. *)
Definition edit (f : form) (p : page) : page :=
  onSendTypeChange (updateModeStyle (updateRelayLabel (set_inputs f p))).

Inductive page_step : page -> page -> Prop :=
| step_nodes listStr p : page_step p (loadNodes listStr p)
| step_nodes_failed err p : page_step p (loadNodes_failed err p)
| step_node i n p :
    i ∈ nodesListDiv p -> obj_get (i_key i) (knownNodes p) = Some n -> page_step p (selectNode n p)
| step_inbox p : page_step p (selectInbox p)
| step_edit f p : page_step p (edit f p)
| step_send p : page_step p (sendMessage p).1
| step_send_failed key err p :
    is_Some (conversations p !! key) -> page_step p (sendMessage_failed key err p)
| step_log line p : page_step p (appendLog line p)
| step_disconnected p : page_step p (es_onerror p)
| step_camera p : page_step p (toggleStream p)
| step_granted p : page_step p (camera_granted p)
| step_frame frame p : page_step p (send_frame frame p).1
| step_hide p : page_step p (hide_video p).

Definition page_reach : page -> page -> Prop := rtc page_step.
