(* ===== verification/ChatPageSpec.v ===== *)
(** * The node's web page: its invariant

    What every handler of file ChatPage keeps: the side bar lists the known
    nodes, the selected one is among them, the conversation and the badges on
    the screen are those of the data. *)

From S2P Require Import Prelude GoStrings JavaScript Web ChatPage.

(** ** What the handlers leave alone *)

(** What the choice of a node depends on. *)
Definition nav (p : page) : option peer * string * list (string * peer) * list string * bool :=
  (selectedNode p, selectedNodeKey p, knownNodes p, nodeOrder p, sendBtn_disabled p).

Lemma nav_ensureConv k p : nav (ensureConv k p) = nav p.
Proof. unfold ensureConv. by repeat case_match. Qed.

Lemma nav_updateBadge k p : nav (updateBadge k p) = nav p.
Proof. unfold updateBadge. by repeat case_match. Qed.

Lemma nav_addMessage k from text status mode senderID sendType p :
  nav (addMessage k from text status mode senderID sendType p) = nav p.
Proof.
  unfold addMessage. rewrite <- (nav_ensureConv k p). set (q := ensureConv k p). cbn zeta.
  repeat case_match; [done| |done]. by rewrite nav_updateBadge.
Qed.

Lemma nav_updateLastPending k status p : nav (updateLastPending k status p) = nav p.
Proof. unfold updateLastPending. by repeat case_match. Qed.

Lemma nav_render_items order p : nav (render_items order p) = nav p.
Proof.
  revert p. induction order as [|k order IH]; intros p; [done|]. cbn [render_items]. rewrite IH.
  change (nav (set_nodesListDiv _ (ensureConv k p))) with (nav (ensureConv k p)). apply nav_ensureConv.
Qed.

(** Conversations and counters. *)
Lemma conv_ensureConv k k' p : conv (ensureConv k p) k' = conv p k'.
Proof.
  unfold ensureConv, conv. destruct (conversations p !! k) eqn:E; [by case_match|].
  transitivity (default [] (<[k := []]> (conversations p) !! k')); [by case_match|].
  destruct (decide (k = k')) as [<-|]; [by rewrite lookup_insert_eq, E|by rewrite lookup_insert_ne].
Qed.

Lemma unread_ensureConv k k' p : unread_of (ensureConv k p) k' = unread_of p k'.
Proof.
  unfold ensureConv. set (q := match conversations p !! k with Some _ => p | None => _ end).
  assert (Hq : unread q = unread p) by (unfold q; by case_match). rewrite Hq. unfold unread_of.
  destruct (unread p !! k) eqn:E; [by rewrite Hq|]. cbn.
  destruct (decide (k = k')) as [<-|]; [by rewrite lookup_insert_eq, E|by rewrite lookup_insert_ne].
Qed.

(** The screen. *)
Lemma ensureConv_screen k p :
  messagesDiv (ensureConv k p) = messagesDiv p /\ nodesListDiv (ensureConv k p) = nodesListDiv p /\
  inboxItem (ensureConv k p) = inboxItem p.
Proof. unfold ensureConv. by repeat case_match. Qed.

(** ** The invariant *)

Record nav_ok (p : page) : Prop := {
  nv_order : nodeOrder p = keys (knownNodes p);
  nv_nodup : NoDup (nodeOrder p);
  nv_keys : Forall (fun e => e.1 = peer_key e.2) (knownNodes p);
  nv_selected : match selectedNode p with
                | Some n => selectedNodeKey p = peer_key n /\ peer_key n ∈ nodeOrder p
                | None => selectedNodeKey p = INBOX
                end;
  nv_button : sendBtn_disabled p = match selectedNode p with Some _ => false | None => true end }.

Lemma nav_ok_same p q : nav q = nav p -> nav_ok p -> nav_ok q.
Proof.
  unfold nav. intros Hn [H1 H2 H3 H4 H5]. injection Hn as E1 E2 E3 E4 E5.
  split; rewrite ?E1, ?E2, ?E3, ?E4, ?E5; done.
Qed.

(** The side bar may be out of date while a list of nodes is processed. *)
Record core_ok (p : page) : Prop := {
  co_nav : nav_ok p;
  co_rows : messagesDiv p = render_rows (conv p (selectedNodeKey p));
  co_inbox : inboxItem p = (String.eqb (selectedNodeKey p) INBOX, badge_text (unread_of p INBOX));
  co_count : forall k, (0 <= unread_of p k)%Z;
  co_read : unread_of p (selectedNodeKey p) = 0%Z }.

Definition bar_ok (p : page) : Prop := nodesListDiv p = sidebar_item p <$> nodeOrder p.

Definition page_ok (p : page) : Prop := core_ok p /\ bar_ok p.

Lemma key_not_inbox n : peer_key n <> INBOX.
Proof.
  intros He. assert (H : Contains (peer_key n) colon = true).
  { unfold peer_key. change (":" +:+ p_port n) with (String colon (p_port n)). apply Contains_app. }
  by rewrite He in H.
Qed.

Lemma order_not_inbox p : nav_ok p -> INBOX ∉ nodeOrder p.
Proof.
  intros [H1 _ H3 _ _]. rewrite H1. unfold keys. rewrite list_elem_of_fmap. intros ([k n] & Hk & Hin).
  rewrite Forall_forall in H3. apply H3 in Hin. cbn in Hk, Hin. apply (key_not_inbox n). congruence.
Qed.

(** ** The side bar *)

Definition badge_of (p : page) (k : string) : option string := badge_text (unread_of p k).

Lemma badge_shown p k :
  (0 <= unread_of p k)%Z ->
  sidebar_item p k = Item k (default "" (p_name <$> obj_get k (knownNodes p)))
    (String.eqb k (selectedNodeKey p)) (badge_of p k).
Proof.
  intros H. unfold sidebar_item, badge_of, badge_text. f_equal.
  destruct (Z.ltb_spec 0 (unread_of p k)), (Z.eqb_spec (unread_of p k) 0); done || lia.
Qed.

(** One entry of the side bar changes, the others are as they were. *)
Lemma with_item_map key h (f g : string -> item) order :
  NoDup order -> (forall k, i_key (f k) = k) -> (forall k, k ∈ order -> k <> key -> g k = f k) ->
  (key ∈ order -> g key = h (f key)) -> with_item key h (f <$> order) = g <$> order.
Proof.
  intros Hnd Hf. induction Hnd as [|k order Hk Hnd IH]; intros Hg Hgk; [done|].
  cbn [fmap list_fmap with_item]. rewrite Hf. destruct (String.eqb_spec k key) as [->|Hne].
  - rewrite Hgk by left. f_equal. apply list_fmap_ext. intros i k Hi.
    symmetry. apply Hg; [right; by eapply list_elem_of_lookup_2|].
    intros ->. by apply list_elem_of_lookup_2 in Hi.
  - rewrite Hg by (done || left). f_equal. apply IH.
    + intros j Hj. apply Hg. by right.
    + intros Hin. apply Hgk. by right.
Qed.

(** ** Messages *)

Lemma core_same p q :
  nav q = nav p -> messagesDiv q = messagesDiv p -> inboxItem q = inboxItem p ->
  (forall k, conv q k = conv p k) -> (forall k, unread_of q k = unread_of p k) -> core_ok p -> core_ok q.
Proof.
  intros Hn Hm Hi Hc Hu [H1 H2 H3 H4 H5]. assert (Hs : selectedNodeKey q = selectedNodeKey p).
  { unfold nav in Hn. congruence. }
  split; [by eapply nav_ok_same| | |intros k|]; by rewrite ?Hm, ?Hi, ?Hs, ?Hc, ?Hu.
Qed.

Lemma bar_same p q :
  nav q = nav p -> nodesListDiv q = nodesListDiv p -> (forall k, unread_of q k = unread_of p k) ->
  bar_ok p -> bar_ok q.
Proof.
  unfold bar_ok, nav. intros Hn Hd Hu Hb. assert (nodeOrder q = nodeOrder p) as Ho by congruence.
  rewrite Hd, Hb, Ho. apply list_fmap_ext. intros i k _. unfold sidebar_item.
  assert (knownNodes q = knownNodes p) as -> by congruence.
  assert (selectedNodeKey q = selectedNodeKey p) as -> by congruence. by rewrite Hu.
Qed.

Lemma core_ensureConv k p : core_ok p -> core_ok (ensureConv k p).
Proof.
  destruct (ensureConv_screen k p) as (H1 & _ & H3). apply core_same; try done.
  - apply nav_ensureConv.
  - intros j. apply conv_ensureConv.
  - intros j. apply unread_ensureConv.
Qed.

Lemma bar_ensureConv k p : bar_ok p -> bar_ok (ensureConv k p).
Proof.
  destruct (ensureConv_screen k p) as (_ & H2 & _). apply bar_same; try done.
  - apply nav_ensureConv.
  - intros j. apply unread_ensureConv.
Qed.

(** A change of one conversation, drawn when it is on the screen. *)
Lemma core_conversation k l p :
  core_ok p ->
  core_ok (let q := set_conversations (<[k := l]> (conversations p)) p in
           if String.eqb k (selectedNodeKey p) then renderConversation q else q).
Proof.
  intros [H1 H2 H3 H4 H5]. cbn zeta. destruct (String.eqb_spec k (selectedNodeKey p)) as [->|Hne].
  - split; [by apply (nav_ok_same p)|done..].
  - split; [by apply (nav_ok_same p)| |done..]. cbn. rewrite H2. unfold conv. cbn. by rewrite lookup_insert_ne.
Qed.

(** A badge that is drawn again. *)
Lemma core_updateBadge k q :
  nav_ok q -> messagesDiv q = render_rows (conv q (selectedNodeKey q)) ->
  (inboxItem q).1 = String.eqb (selectedNodeKey q) INBOX ->
  (k <> INBOX -> (inboxItem q).2 = badge_of q INBOX) ->
  (forall j, (0 <= unread_of q j)%Z) -> unread_of q (selectedNodeKey q) = 0%Z ->
  core_ok (updateBadge k q).
Proof.
  intros H1 H2 H3 H4 H5 H6. unfold updateBadge. destruct (String.eqb_spec k INBOX) as [->|Hne].
  - split; [by apply (nav_ok_same q)|done| |done..]. cbn. by rewrite H3.
  - split; [by apply (nav_ok_same q)|done| |done..]. cbn. destruct (inboxItem q) as [a b] eqn:E. cbn in *. by rewrite H3, H4.
Qed.

Lemma bar_updateBadge k q (f : string -> item) :
  nav_ok q -> (forall j, (0 <= unread_of q j)%Z) -> nodesListDiv q = f <$> nodeOrder q ->
  (forall j, i_key (f j) = j) -> (forall j, j ∈ nodeOrder q -> j <> k -> f j = sidebar_item q j) ->
  (k ∈ nodeOrder q -> sidebar_item q k = set_badge (badge_of q k) (f k)) ->
  bar_ok (updateBadge k q).
Proof.
  intros Hn Hc Hd Hk Hf Hfk. unfold updateBadge, bar_ok. destruct (String.eqb_spec k INBOX) as [->|Hne].
  - cbn. rewrite Hd. apply list_fmap_ext. intros i j Hj%list_elem_of_lookup_2.
    change (f j = sidebar_item q j). apply Hf; [done|]. intros ->. by apply (order_not_inbox q).
  - cbn. rewrite Hd. apply with_item_map; [apply Hn|done| |exact Hfk].
    intros j Hj Hjk. symmetry. by apply Hf.
Qed.

(** One more unread message of a conversation that is not on the screen. *)
Definition one_more (k : string) (p : page) : page :=
  set_unread (<[k := (unread_of p k + 1)%Z]> (unread p)) p.

Lemma unread_one_more k p j :
  unread_of (one_more k p) j = if decide (j = k) then (unread_of p k + 1)%Z else unread_of p j.
Proof.
  unfold one_more, unread_of. cbn. case_decide as Hj; [by rewrite Hj, lookup_insert_eq|by rewrite lookup_insert_ne].
Qed.

Lemma core_badge k p : core_ok p -> k <> selectedNodeKey p -> core_ok (updateBadge k (one_more k p)).
Proof.
  intros [H1 H2 H3 H4 H5] Hne. apply core_updateBadge; [by apply (nav_ok_same p)|done|..].
  - cbn. by rewrite H3.
  - intros Hi. unfold badge_of. rewrite unread_one_more, decide_False by done. cbn. by rewrite H3.
  - intros j. rewrite unread_one_more. case_decide; [|done]. specialize (H4 k). lia.
  - by rewrite unread_one_more, decide_False.
Qed.

Lemma bar_badge k p :
  core_ok p -> bar_ok p -> k <> selectedNodeKey p -> bar_ok (updateBadge k (one_more k p)).
Proof.
  intros [H1 H2 H3 H4 H5] Hb Hne.
  assert (Hc : forall j, (0 <= unread_of (one_more k p) j)%Z).
  { intros j. rewrite unread_one_more. case_decide; [|done]. specialize (H4 k). lia. }
  eapply bar_updateBadge; [by apply (nav_ok_same p)|done|exact Hb|done| |].
  - intros j Hj Hjk. rewrite !badge_shown by done. unfold badge_of. by rewrite unread_one_more, decide_False.
  - intros Hk. by rewrite !badge_shown.
Qed.

Lemma addMessage_ok k from text status mode senderID sendType p :
  core_ok p -> core_ok (addMessage k from text status mode senderID sendType p) /\
    (bar_ok p -> bar_ok (addMessage k from text status mode senderID sendType p)).
Proof.
  intros Hp. unfold addMessage. apply (core_ensureConv k) in Hp.
  assert (Hbar := bar_ensureConv k p). set (q := ensureConv k p) in *. cbn zeta.
  set (q1 := set_msgCounter _ q). assert (H1 : core_ok q1) by (by eapply core_same; [..|exact Hp]).
  assert (Hb1 : bar_ok p -> bar_ok q1) by (intros Hb; by eapply bar_same; [..|by apply Hbar]).
  match goal with |- context [set_conversations (<[k := ?l]> _) q1] => set (l1 := l) end.
  assert (Hc := core_conversation k l1 q1 H1). cbn zeta in Hc.
  set (q2 := set_conversations _ q1) in *. change (selectedNodeKey q1) with (selectedNodeKey q2) in Hc.
  assert (Hb2 : bar_ok p -> bar_ok q2) by (intros Hb; by eapply bar_same; [..|by apply Hb1]).
  destruct (String.eqb_spec k (selectedNodeKey q2)) as [He|Hne].
  - split; [exact Hc|]. intros Hb. by eapply bar_same; [..|by apply Hb2].
  - destruct (_ || _); [|by split].
    split; [by apply core_badge|]. intros Hb. apply bar_badge; [exact Hc|by apply Hb2|done].
Qed.

Lemma updateLastPending_ok k status p :
  core_ok p -> core_ok (updateLastPending k status p) /\ (bar_ok p -> bar_ok (updateLastPending k status p)).
Proof.
  intros Hp. unfold updateLastPending. destruct (conversations p !! k) as [l|]; [|done].
  split; [exact (core_conversation k _ p Hp)|]. intros Hb. cbn zeta.
  case_match; (eapply bar_same; [..|exact Hb]); done.
Qed.

(** ** Choosing *)

Definition read_now (k : string) (p : page) : page := set_unread (<[k := 0%Z]> (unread p)) p.

Lemma unread_read_now k p j : unread_of (read_now k p) j = if decide (j = k) then 0%Z else unread_of p j.
Proof.
  unfold read_now, unread_of. cbn. case_decide as Hj; [by rewrite Hj, lookup_insert_eq|by rewrite lookup_insert_ne].
Qed.

(** What is left after [unread[k] = 0; updateBadge(k)]: all badges are right. *)
Lemma badges_read k p :
  core_ok p -> let q := updateBadge k (read_now k p) in
  nav q = nav p /\ (forall j, unread_of q j = unread_of (read_now k p) j) /\
  (inboxItem q).2 = badge_of q INBOX /\ (forall j, conv q j = conv p j) /\
  (bar_ok p -> bar_ok (updateBadge k (read_now k p))) /\
  (forall j, (0 <= unread_of q j)%Z).
Proof.
  intros [H1 H2 H3 H4 H5] q.
  assert (Hc : forall j, (0 <= unread_of (read_now k p) j)%Z).
  { intros j. rewrite unread_read_now. by case_decide. }
  assert (Hu : forall j, unread_of q j = unread_of (read_now k p) j) by (intros j; unfold q, updateBadge; by case_match).
  split; [by unfold q; rewrite nav_updateBadge|]. split; [done|].
  split.
  { unfold badge_of. rewrite Hu, unread_read_now. unfold q, updateBadge.
    destruct (String.eqb_spec k INBOX) as [->|Hne].
    - rewrite decide_True by done. change (badge_text (unread_of (read_now INBOX p) INBOX) = badge_text 0).
      by rewrite unread_read_now, decide_True.
    - rewrite decide_False by done. cbn. by rewrite H3. }
  split; [intros j; unfold q, updateBadge; by case_match|]. split.
  - intros Hb. eapply bar_updateBadge; [by apply (nav_ok_same p)|done|exact Hb|done| |].
    + intros j Hj Hjk. rewrite !badge_shown by done. unfold badge_of. by rewrite unread_read_now, decide_False.
    + intros Hk. by rewrite !badge_shown.
  - intros j. by rewrite Hu.
Qed.

(** The common part of both choices: [q] after the badge, [r] before the
    conversation is drawn. *)
Record chosen (k : string) (p q r : page) : Prop := {
  ch_badge : q = updateBadge k (read_now k p);
  ch_nav : nav_ok r;
  ch_key : selectedNodeKey r = k;
  ch_known : knownNodes r = knownNodes p;
  ch_order : nodeOrder r = nodeOrder p;
  ch_inbox : inboxItem r = (String.eqb k INBOX, (inboxItem q).2);
  ch_unread : forall j, unread_of r j = unread_of q j }.

Lemma chosen_core k p q r : core_ok p -> chosen k p q r -> core_ok (renderConversation (ensureConv k r)).
Proof.
  intros Hp [Hq Hn Hk Hkn Ho Hi Hu].
  destruct (badges_read k p Hp) as (Hnq & Huq & Hiq & Hcq & _ & Hpos). rewrite <- Hq in *.
  assert (Hc : core_ok (renderConversation r)).
  { split; [by apply (nav_ok_same r)|done|..].
    - change (inboxItem r = (String.eqb (selectedNodeKey r) INBOX, badge_text (unread_of r INBOX))).
      rewrite Hi, Hk, Hiq, Hu. done.
    - intros j. change (0 <= unread_of r j)%Z. by rewrite Hu.
    - change (unread_of r (selectedNodeKey r) = 0%Z). by rewrite Hk, Hu, Huq, unread_read_now, decide_True. }
  destruct (ensureConv_screen k r) as (E1 & E2 & E3).
  eapply (core_same (renderConversation r)); [..|exact Hc].
  - apply (nav_ensureConv k r).
  - change (render_rows (conv (ensureConv k r) (selectedNodeKey (ensureConv k r)))
      = render_rows (conv r (selectedNodeKey r))).
    rewrite conv_ensureConv. assert (Hs := nav_ensureConv k r). unfold nav in Hs. by injection Hs as _ -> _ _ _.
  - exact E3.
  - intros j. apply (conv_ensureConv k j r).
  - intros j. apply (unread_ensureConv k j r).
Qed.

Lemma chosen_bar k p q r :
  core_ok p -> bar_ok p -> chosen k p q r ->
  nodesListDiv r = with_item k (set_active true) (set_active false <$> nodesListDiv q) ->
  bar_ok (renderConversation (ensureConv k r)).
Proof.
  intros Hp Hbar [Hq Hn Hk Hkn Ho Hi Hu] Hd.
  destruct (badges_read k p Hp) as (Hnq & Huq & Hiq & Hcq & Hbq & Hpos). rewrite <- Hq in *. apply Hbq in Hbar.
  unfold nav in Hnq. injection Hnq as _ _ Hkq Hoq _.
  assert (Hb : bar_ok r).
  { unfold bar_ok. rewrite Hd, Hbar, Hoq, Ho.
    rewrite <- list_fmap_compose. apply with_item_map; [by rewrite <- Ho; apply Hn|done|..].
    - intros j Hj Hne. unfold sidebar_item, set_active. cbn. rewrite Hu, Hkn, Hk, Hkq.
      apply String.eqb_neq in Hne. by rewrite Hne.
    - intros Hj. unfold sidebar_item, set_active. cbn. rewrite Hu, Hkn, Hk, Hkq. by rewrite String.eqb_refl. }
  destruct (ensureConv_screen k r) as (_ & E2 & _).
  eapply (bar_same r); [apply (nav_ensureConv k r)|exact E2|intros j; apply (unread_ensureConv k j r)|exact Hb].
Qed.

Lemma with_item_none key h items : Forall (fun i => i_key i <> key) items -> with_item key h items = items.
Proof.
  induction 1 as [|i items Hi _ IH]; [done|]. cbn. apply String.eqb_neq in Hi. by rewrite Hi, IH.
Qed.

Lemma bar_keys p : bar_ok p -> i_key <$> nodesListDiv p = nodeOrder p.
Proof. unfold bar_ok. intros ->. rewrite <- list_fmap_compose. apply list_fmap_id. Qed.

(** [selectInbox], where only the selected node itself may be out of step. *)
Lemma selectInbox_chosen p :
  core_ok p -> exists q r, selectInbox p = renderConversation (ensureConv INBOX r) /\ chosen INBOX p q r /\
    nodesListDiv r = (set_active false <$> nodesListDiv q).
Proof.
  intros Hp. assert (Hk := co_nav _ Hp).
  exists (updateBadge INBOX (read_now INBOX p)). eexists. split; [reflexivity|].
  split; [|done].
  split; try done. destruct Hk as [H1 H2 H3 H4 H5]. by split.
Qed.

Lemma selectInbox_ok p :
  core_ok p -> core_ok (selectInbox p) /\ (bar_ok p -> bar_ok (selectInbox p)).
Proof.
  intros Hp. destruct (selectInbox_chosen p Hp) as (q & r & -> & Hc & Hd).
  split; [by eapply chosen_core|]. intros Hb. eapply chosen_bar; [done..|].
  rewrite Hd, with_item_none; [done|]. destruct Hc as [Hq _ _ _ _ _ _].
  destruct (badges_read INBOX p Hp) as (Hnq & _ & _ & _ & Hbq & _). rewrite <- Hq in *.
  apply Forall_forall. intros i Hi. assert (Hk : i_key i ∈ nodeOrder q).
  { rewrite <- (bar_keys q) by auto. apply list_elem_of_fmap.
    apply list_elem_of_fmap in Hi as (i' & -> & Hi). by exists i'. }
  unfold nav in Hnq. injection Hnq as _ _ _ Ho _. rewrite Ho in Hk.
  intros He. rewrite He in Hk. by apply (order_not_inbox p (co_nav _ Hp)).
Qed.

Lemma updateModeStyle_eq p :
  exists a b, updateModeStyle p = set_modeIndicator a (set_modeSelect_class b p).
Proof.
  exists (modeIndicator (updateModeStyle p)), (modeSelect_class (updateModeStyle p)).
  destruct p. unfold updateModeStyle. cbn zeta. case_match; reflexivity.
Qed.

Lemma selectNode_chosen n p :
  nav_ok p -> peer_key n ∈ nodeOrder p ->
  exists q r, selectNode n p = renderConversation (ensureConv (peer_key n) r) /\ chosen (peer_key n) p q r /\
    nodesListDiv r = with_item (peer_key n) (set_active true) (set_active false <$> nodesListDiv q).
Proof.
  intros [H1 H2 H3 H4 H5] Hin.
  exists (updateBadge (peer_key n) (read_now (peer_key n) p)). unfold selectNode, node_chosen. cbn zeta. fold (peer_key n).
  change (set_unread _ _) with
    (set_selectedNodeKey (peer_key n) (set_selectedNode (Some n) (read_now (peer_key n) p))).
  assert (Hne : String.eqb (peer_key n) INBOX = false) by (apply String.eqb_neq, key_not_inbox).
  unfold updateBadge. rewrite !Hne.
  match goal with |- context [updateModeStyle ?r0] => destruct (updateModeStyle_eq r0) as (a & b & ->) end.
  eexists. split; [reflexivity|]. split; [|done].
  split; [by unfold updateBadge; rewrite Hne|by split|reflexivity..|by cbn; rewrite Hne|done].
Qed.

Lemma selectNode_ok n p :
  core_ok p -> peer_key n ∈ nodeOrder p ->
  core_ok (selectNode n p) /\ (bar_ok p -> bar_ok (selectNode n p)).
Proof.
  intros Hp Hin. destruct (selectNode_chosen n p (co_nav _ Hp) Hin) as (q & r & -> & Hc & Hd).
  split; [by eapply chosen_core|]. intros Hb. by eapply chosen_bar.
Qed.

(** ** The list of nodes *)

Lemma core_nav_change p q :
  nav_ok q -> selectedNodeKey q = selectedNodeKey p -> messagesDiv q = messagesDiv p ->
  inboxItem q = inboxItem p -> (forall k, conv q k = conv p k) -> (forall k, unread_of q k = unread_of p k) ->
  core_ok p -> core_ok q.
Proof.
  intros Hn Hs Hm Hi Hc Hu [H1 H2 H3 H4 H5].
  split; [done| | |intros k|]; by rewrite ?Hm, ?Hi, ?Hs, ?Hc, ?Hu.
Qed.

(** [nodeOrder] after the first loop of [loadNodes]. *)
Definition add_key (order : list string) (k : string) : list string :=
  if decide (k ∈ order) then order else order ++ [k].

Lemma learn_peer_ok n p :
  core_ok p -> core_ok (learn_peer n p) /\ nodeOrder (learn_peer n p) = add_key (nodeOrder p) (peer_key n) /\
    (forall k, conv (learn_peer n p) k = conv p k) /\
    (forall k, p_name <$> obj_get k (knownNodes (learn_peer n p))
               = if String.eqb k (peer_key n) then Some (p_name n) else p_name <$> obj_get k (knownNodes p)).
Proof.
  intros Hp. destruct (co_nav _ Hp) as [H1 H2 H3 H4 H5]. unfold learn_peer, add_key. fold (peer_key n). cbn zeta.
  destruct (obj_get (peer_key n) (knownNodes p)) as [known|] eqn:E.
  - assert (Hin : peer_key n ∈ keys (knownNodes p)) by (apply obj_get_keys; by eexists).
    rewrite decide_True by (by rewrite H1). split; [|split; [done|]; split; [done|]].
    + eapply (core_nav_change p); try done. split; cbn; try done.
      * by rewrite keys_obj_set, decide_True.
      * apply Forall_obj_set; [|done]. rewrite Forall_forall in H3. apply (H3 _ (obj_get_Some _ _ _ E)).
    + intros k. cbn. rewrite obj_get_set. by destruct (String.eqb k (peer_key n)).
  - apply obj_get_None in E. rewrite decide_False by (by rewrite H1). split; [|split; [done|]; split; [done|]].
    + eapply (core_nav_change p); try done. split; cbn; try done.
      * by rewrite keys_obj_set, decide_False, H1.
      * apply NoDup_app. split; [done|]. split; [|apply NoDup_singleton].
        intros k Hk ->%list_elem_of_singleton. by rewrite H1 in Hk.
      * by apply Forall_obj_set.
      * destruct (selectedNode p); [|done]. destruct H4 as [-> ?]. split; [done|]. apply elem_of_app. by left.
    + intros k. cbn. rewrite obj_get_set. by destruct (String.eqb k (peer_key n)).
Qed.

Lemma learn_peers_ok ns p :
  core_ok p -> let q := foldl (fun p n => learn_peer n p) p ns in
  core_ok q /\ nodeOrder q = foldl add_key (nodeOrder p) (peer_key <$> ns) /\
    (forall k, conv q k = conv p k) /\
    (forall k, k ∈ peer_key <$> ns -> exists n, n ∈ ns /\ peer_key n = k /\
       p_name <$> obj_get k (knownNodes q) = Some (p_name n)).
Proof.
  revert p. induction ns as [|n ns IH]; intros p Hp; cbn zeta; cbn [foldl fmap list_fmap].
  { split; [done|]. do 2 (split; [done|]). by intros k ?%not_elem_of_nil. }
  destruct (learn_peer_ok n p Hp) as (Hp1 & Ho & Hc & Hk).
  destruct (IH (learn_peer n p) Hp1) as (Hq & Hoq & Hcq & Hkq). rewrite <- Ho.
  split; [done|]. split; [done|]. split; [intros k; by rewrite Hcq|].
  intros k. destruct (decide (k ∈ peer_key <$> ns)) as [Hin|Hni]; intros Hin'.
  - destruct (Hkq k Hin) as (m & Hm & ?). exists m. split; [by right|done].
  - apply elem_of_cons in Hin' as [->|]; [|done]. exists n. split; [by left|]. split; [done|].
    specialize (Hk (peer_key n)). rewrite String.eqb_refl in Hk. rewrite <- Hk. clear -Hni.
    generalize (learn_peer n p). clear p. induction ns as [|m ns IH]; intros p; [done|].
    cbn in Hni. apply not_elem_of_cons in Hni as [Hne Hni]. cbn [foldl].
    rewrite IH by done. unfold learn_peer. fold (peer_key m). cbn zeta. apply String.eqb_neq in Hne.
    case_match; cbn; by rewrite obj_get_set, Hne.
Qed.

(** The message that [addMessage] makes. *)
Definition new_message (from text status mode senderID sendType : string) (p : page) : chat :=
  MkChat (msgCounter p + 1) from text (or_else status "ok") (or_else mode "anon") senderID
    (or_else sendType "send").

Lemma msgCounter_ensureConv k p : msgCounter (ensureConv k p) = msgCounter p.
Proof. unfold ensureConv. by repeat case_match. Qed.

Lemma conv_addMessage k from text status mode senderID sendType p j :
  conv (addMessage k from text status mode senderID sendType p) j
  = if decide (j = k) then conv p k ++ [new_message from text status mode senderID sendType p] else conv p j.
Proof.
  unfold addMessage, new_message. rewrite <- (msgCounter_ensureConv k p), <- (conv_ensureConv k k p).
  rewrite <- (conv_ensureConv k j p). set (q := ensureConv k p). cbn zeta.
  set (q1 := set_msgCounter _ q).
  match goal with |- context [set_conversations (<[k := ?l]> _) q1] => set (l1 := l) end.
  transitivity (conv (set_conversations (<[k := l1]> (conversations q1)) q1) j).
  - unfold updateBadge. by repeat case_match.
  - unfold conv at 1. cbn. case_decide as Hj; [by rewrite Hj, lookup_insert_eq|by rewrite lookup_insert_ne].
Qed.

Lemma conv_render p j : conv (renderConversation p) j = conv p j.
Proof. reflexivity. Qed.
Lemma nav_render p : nav (renderConversation p) = nav p.
Proof. reflexivity. Qed.
Lemma unread_render p j : unread_of (renderConversation p) j = unread_of p j.
Proof. reflexivity. Qed.

Lemma conv_selectInbox p j : conv (selectInbox p) j = conv p j.
Proof.
  unfold selectInbox. rewrite conv_render, conv_ensureConv. reflexivity.
Qed.

Lemma nav_selectInbox p : nav (selectInbox p) = (None, INBOX, knownNodes p, nodeOrder p, true).
Proof.
  unfold selectInbox. rewrite nav_render, nav_ensureConv. reflexivity.
Qed.

Lemma fail_conversation_ok key p :
  core_ok p -> let q := fail_conversation key p in
  core_ok q /\ nav q = nav p /\ conv q key = fail_pending <$> conv p key /\
  (forall k, k <> key -> conv q k = conv p k).
Proof.
  intros Hp. unfold fail_conversation. cbn zeta. destruct (conversations p !! key) as [l|] eqn:E.
  - split; [exact (core_conversation key _ p Hp)|]. split; [by case_match|].
    split; [|intros k Hk]; unfold conv; rewrite ?E; case_match; cbn;
      rewrite ?lookup_insert_eq, ?lookup_insert_ne by done; done.
  - split; [done|]. split; [done|]. split; [|done]. unfold conv. by rewrite E.
Qed.

Lemma leave_node_ok p :
  core_ok p -> let q := leave_node p in
  core_ok q /\ nav q = (None, INBOX, knownNodes p, nodeOrder p, true) /\ forall j, conv q j = conv p j.
Proof.
  intros Hp. unfold leave_node. cbn zeta.
  set (p4 := if isStreaming p then stop_streaming p else p).
  match goal with |- context [selectInbox ?x] => replace (selectInbox x) with (selectInbox p4) end.
  2: { unfold p4. change (isStreaming (set_camBtn_disabled _ _)) with (isStreaming p). by destruct (isStreaming p). }
  assert (H4 : core_ok p4).
  { unfold p4. case_match; [|done]. by apply (core_same p). }
  split; [by apply selectInbox_ok|]. split.
  - rewrite nav_selectInbox. unfold p4. by case_match.
  - intros j. rewrite conv_selectInbox. unfold p4. by case_match.
Qed.

Lemma onNodeDisappeared_ok key p :
  core_ok p -> key <> INBOX -> let q := onNodeDisappeared key p in
  core_ok q /\ knownNodes q = knownNodes p /\ nodeOrder q = nodeOrder p /\ selectedNodeKey q <> key /\
  (selectedNodeKey p <> key -> nav q = nav p) /\ (selectedNodeKey p = key -> selectedNodeKey q = INBOX) /\
  (exists m, c_from m = "meta" /\ conv q key = (fail_pending <$> conv p key) ++ [m]) /\
  (forall k, k <> key -> k <> INBOX -> conv q k = conv p k).
Proof.
  intros Hp Hne. unfold onNodeDisappeared. cbn zeta.
  destruct (fail_conversation_ok key p Hp) as (H1 & N1 & C1 & D1).
  set (p1 := fail_conversation key p) in *. clearbody p1.
  match goal with |- context [addMessage key "meta" ?t "ok" "anon" "" "send" p1] =>
    destruct (addMessage_ok key "meta" t "ok" "anon" "" "send" p1 H1) as [H2 _];
    assert (N2 := nav_addMessage key "meta" t "ok" "anon" "" "send" p1);
    assert (C2 := fun j => conv_addMessage key "meta" t "ok" "anon" "" "send" p1 j);
    set (p2 := addMessage key "meta" t "ok" "anon" "" "send" p1) in * end.
  assert (Hc2 : exists m, c_from m = "meta" /\ conv p2 key = (fail_pending <$> conv p key) ++ [m]).
  { eexists. split; [|rewrite C2, decide_True, C1 by done; reflexivity]. done. }
  assert (D2 : forall k, k <> key -> conv p2 k = conv p k).
  { intros k Hk. by rewrite C2, decide_False, D1. }
  clearbody p2. clear C2.
  match goal with |- context [if String.eqb key (selectedNodeKey p2) then p2 else ?x] =>
    set (p3 := if String.eqb key (selectedNodeKey p2) then p2 else x) in * end.
  assert (H3 : core_ok p3 /\ nav p3 = nav p2 /\ forall k, k <> INBOX -> conv p3 k = conv p2 k).
  { unfold p3. case_match; [done|]. split; [by apply addMessage_ok|]. split; [apply nav_addMessage|].
    intros k Hk. by rewrite conv_addMessage, decide_False. }
  clearbody p3. destruct H3 as (H3 & N3 & D3). rewrite N2, N1 in N3.
  assert (Hn := N3). unfold nav in Hn. injection Hn as _ Hsel Hkn Ho _.
  destruct Hc2 as (m & Hm & C2).
  destruct (String.eqb_spec (selectedNodeKey p3) key) as [He|Hns].
  - destruct (leave_node_ok p3 H3) as (Hco & Hs & Hcv).
    generalize dependent (leave_node p3). intros q Hco Hs Hcv.
    unfold nav in Hs. injection Hs as E1 E2 E3 E4 E5. rewrite E2.
    split; [done|]. do 4 (split; [congruence|]). split; [done|]. split.
    + exists m. split; [done|]. by rewrite Hcv, D3.
    + intros k Hk Hki. by rewrite Hcv, D3, D2.
  - split; [done|]. do 4 (split; [done|]). split; [congruence|]. split.
    + exists m. split; [done|]. by rewrite D3.
    + intros k Hk Hki. by rewrite D3, D2.
Qed.

Lemma delete_filter (l : list string) i k :
  NoDup l -> l !! i = Some k -> delete i l = filter (fun x => x <> k) l.
Proof.
  intros Hnd Hi. rewrite <- (take_drop_middle l i k Hi) at 2. rewrite delete_take_drop.
  rewrite <- (take_drop_middle l i k Hi) in Hnd. apply NoDup_app in Hnd as (_ & H1 & H2).
  apply NoDup_cons in H2 as [H2 _]. rewrite filter_app, filter_cons. case_decide as Hx; [done|]. clear Hx.
  assert (Hf : forall l' : list string, k ∉ l' -> filter (fun x => x <> k) l' = l').
  { induction l' as [|x l' IH]; intros Hk; [done|]. apply not_elem_of_cons in Hk as [Hx Hk].
    rewrite filter_cons, decide_True, IH; [done..|]. by intros ->. }
  rewrite !Hf; [done|done|]. intros Hk. apply (H1 k Hk). by left.
Qed.

(** One node is removed. *)
Definition forget_node (i : nat) (key : string) (p : page) : page :=
  set_knownNodes (obj_del key (knownNodes p)) (set_nodeOrder (delete i (nodeOrder p)) p).

Lemma forget_node_ok i key p :
  core_ok p -> nodeOrder p !! i = Some key -> selectedNodeKey p <> key ->
  core_ok (forget_node i key p).
Proof.
  intros Hp Hi Hs. destruct (co_nav _ Hp) as [H1 H2 H3 H4 H5].
  apply (core_nav_change p); try done. split; cbn.
  - rewrite keys_obj_del, <- H1. by apply delete_filter.
  - rewrite (delete_filter _ _ key) by done. by apply NoDup_filter.
  - apply Forall_forall. intros e [_ He]%list_elem_of_filter. rewrite Forall_forall in H3. by apply H3.
  - destruct (selectedNode p); [|done]. destruct H4 as [Hk Hin]. split; [done|].
    rewrite (delete_filter _ _ key) by done. apply list_elem_of_filter. split; [congruence|done].
  - done.
Qed.

(** No message to a node that is gone is still pending. *)
Definition settled_conv (l : list chat) : Prop := Forall (fun m => is_pending m = false) l.

Lemma fail_pending_settled l m : c_from m = "meta" -> settled_conv ((fail_pending <$> l) ++ [m]).
Proof.
  intros Hm. apply Forall_app. split.
  - apply Forall_fmap, Forall_forall. intros x _. cbn. unfold fail_pending.
    destruct (is_pending x) eqn:E; [|done]. unfold is_pending. cbn. by rewrite andb_false_r.
  - apply Forall_singleton. unfold is_pending. by rewrite Hm.
Qed.

Lemma delete_around {A} i (l : list A) :
  i < length l ->
  take i (delete i l) = take i l /\ drop i (delete i l) = drop (S i) l /\ i <= length (delete i l).
Proof.
  intros Hi. rewrite delete_take_drop. split; [|split].
  - rewrite take_app_le by (rewrite length_take; lia). by rewrite take_take, Nat.min_id.
  - rewrite drop_app_ge by (rewrite length_take; lia). rewrite length_take.
    by replace (i - i `min` length l) with 0 by lia.
  - rewrite length_app, length_take, length_drop. lia.
Qed.

Lemma remove_gone_ok fresh i p :
  core_ok p -> i <= length (nodeOrder p) -> let q := remove_gone fresh i p in
  core_ok q /\
  nodeOrder q = filter (fun k => k ∈ fresh) (take i (nodeOrder p)) ++ drop i (nodeOrder p) /\
  (forall k, k ∈ fresh -> obj_get k (knownNodes q) = obj_get k (knownNodes p)) /\
  (forall k, k ∈ take i (nodeOrder p) -> k ∉ fresh -> settled_conv (conv q k)) /\
  (forall k, k <> INBOX -> k ∉ take i (nodeOrder p) \/ k ∈ fresh -> conv q k = conv p k) /\
  (selectedNodeKey p = INBOX \/ selectedNodeKey p ∈ fresh ->
   selectedNode q = selectedNode p /\ selectedNodeKey q = selectedNodeKey p).
Proof.
  revert p. induction i as [|i IH]; intros p Hp Hi; cbn zeta; cbn [remove_gone].
  { cbn [take drop]. rewrite drop_0. split; [done|]. split; [done|]. split; [done|].
    split; [by intros k ?%not_elem_of_nil|by split]. }
  destruct (lookup_lt_is_Some_2 (nodeOrder p) i) as [key Hk]; [lia|]. rewrite Hk.
  assert (Htake : take (S i) (nodeOrder p) = take i (nodeOrder p) ++ [key]) by (by apply take_S_r).
  assert (Hdrop : drop i (nodeOrder p) = key :: drop (S i) (nodeOrder p)) by (by apply drop_S).
  assert (Hnd := nv_nodup _ (co_nav _ Hp)).
  assert (Hki : key ∉ take i (nodeOrder p)).
  { intros Hin. rewrite <- (take_drop i (nodeOrder p)), Hdrop in Hnd. apply NoDup_app in Hnd as (_ & Hd & _).
    apply (Hd key Hin). by left. }
  assert (Hinb : key <> INBOX).
  { intros ->. apply (order_not_inbox p (co_nav _ Hp)). by eapply list_elem_of_lookup_2. }
  rewrite Htake, filter_app, filter_cons. cbn [filter list_filter]. case_decide as Hf.
  - destruct (IH p Hp ltac:(lia)) as (Hq & Ho & Hg & Hs & Hc & Hsel). rewrite Ho, Hdrop.
    split; [done|]. split; [by rewrite <- app_assoc|]. split; [done|]. split; [|split; [|done]].
    + intros k [| ->%list_elem_of_singleton]%elem_of_app; [by apply Hs|done].
    + intros k Hki' Hor. apply Hc; [done|]. destruct Hor as [Hor|]; [left|by right].
      intros Hin. apply Hor, elem_of_app. by left.
  - destruct (onNodeDisappeared_ok key p Hp Hinb) as (Hp1 & Hkn1 & Ho1 & Hs1 & N1 & _ & (m & Hm & C1) & D1).
    cbn zeta. set (p1 := onNodeDisappeared key p) in *. clearbody p1.
    change (remove_gone fresh i _) with (remove_gone fresh i (forget_node i key p1)). rewrite <- Ho1 in Hk.
    assert (Hp2 := forget_node_ok i key p1 Hp1 Hk Hs1).
    destruct (delete_around i (nodeOrder p)) as (Ht2 & Hd2 & Hl2); [lia|].
    assert (Hf2 : nodeOrder (forget_node i key p1) = delete i (nodeOrder p)) by (by rewrite <- Ho1).
    rewrite <- Hf2 in Ht2, Hd2, Hl2.
    destruct (IH (forget_node i key p1) Hp2 Hl2) as (Hq & Ho & Hg & Hs & Hc & Hsel).
    rewrite Ht2, Hd2 in *. split; [done|]. split; [by rewrite Ho, app_nil_r|]. split; [|split; [|split]].
    + intros k Hkf. rewrite Hg by done. cbn. rewrite obj_get_del by (by intros ->). by rewrite Hkn1.
    + intros k [| ->%list_elem_of_singleton]%elem_of_app Hnf; [by apply Hs|].
      rewrite Hc by (done || by left). change (settled_conv (conv p1 key)). rewrite C1. by apply fail_pending_settled.
    + intros k Hkin Hor. assert (Hne : k <> key).
      { intros ->. destruct Hor as [Hor|]; [|done]. apply Hor, elem_of_app. right. by left. }
      rewrite Hc; [by apply D1|done|]. destruct Hor as [Hor|]; [left|by right].
      intros Hin. apply Hor, elem_of_app. by left.
    + intros Hor. assert (Hne : selectedNodeKey p <> key).
      { intros He. rewrite He in Hor. by destruct Hor. }
      specialize (N1 Hne). unfold nav in N1. injection N1 as E1 E2 _ _ _.
      cbn [forget_node set_knownNodes set_nodeOrder selectedNode selectedNodeKey] in Hsel.
      rewrite E1, E2 in Hsel. by apply Hsel.
Qed.

Lemma render_items_ok order p :
  core_ok p -> core_ok (render_items order p) /\
  nodesListDiv (render_items order p) = nodesListDiv p ++ (sidebar_item p <$> order) /\
  (forall k, conv (render_items order p) k = conv p k) /\
  (forall k, unread_of (render_items order p) k = unread_of p k).
Proof.
  revert p. induction order as [|k order IH]; intros p Hp; cbn [render_items].
  { split; [done|]. split; [by rewrite app_nil_r|done]. }
  assert (Hq := core_ensureConv k p Hp). destruct (ensureConv_screen k p) as (_ & Hn & _).
  assert (Hs : forall j, sidebar_item (ensureConv k p) j = sidebar_item p j).
  { intros j. unfold sidebar_item. rewrite unread_ensureConv. assert (Hv := nav_ensureConv k p).
    unfold nav in Hv. by injection Hv as _ -> -> _ _. }
  assert (Hc : forall j, conv (ensureConv k p) j = conv p j) by (intros j; apply conv_ensureConv).
  assert (Hu : forall j, unread_of (ensureConv k p) j = unread_of p j) by (intros j; apply unread_ensureConv).
  generalize dependent (ensureConv k p). intros q Hq Hn Hs Hc Hu.
  destruct (IH (set_nodesListDiv (nodesListDiv q ++ [sidebar_item q k]) q)) as (H1 & H2 & H3 & H4).
  { by apply (core_same q). }
  split; [done|]. split; [|split].
  - rewrite H2. cbn [set_nodesListDiv nodesListDiv fmap list_fmap]. rewrite Hn, <- app_assoc. cbn [app]. rewrite Hs.
    do 2 f_equal. apply list_fmap_ext. intros i j _. apply Hs.
  - intros j. rewrite H3. apply Hc.
  - intros j. rewrite H4. apply Hu.
Qed.

Lemma rerenderSidebar_ok p :
  core_ok p -> page_ok (rerenderSidebar p) /\ nav (rerenderSidebar p) = nav p /\
  (forall k, conv (rerenderSidebar p) k = conv p k).
Proof.
  intros Hp. unfold rerenderSidebar.
  destruct (render_items_ok (nodeOrder p) (set_nodesListDiv [] p)) as (H1 & H2 & H3 & H4).
  { by apply (core_same p). }
  assert (Hn := nav_render_items (nodeOrder p) (set_nodesListDiv [] p)).
  change (nav (set_nodesListDiv [] p)) with (nav p) in Hn.
  split; [split; [done|]|by split].
  unfold bar_ok. rewrite H2. unfold nav in Hn. injection Hn as _ Hs Hk Ho _. rewrite Ho.
  cbn [set_nodesListDiv nodesListDiv app]. apply list_fmap_ext. intros i k _.
  unfold sidebar_item. by rewrite H4, Hk, Hs.
Qed.

Lemma elem_of_add_keys k ks order : k ∈ foldl add_key order ks <-> k ∈ order \/ k ∈ ks.
Proof.
  revert order. induction ks as [|j ks IH]; intros order; cbn [foldl].
  - split; [by left|]. intros [|?%not_elem_of_nil]; done.
  - rewrite IH, elem_of_cons. unfold add_key. case_decide as Hj.
    + split; [naive_solver|]. intros [|[->|]]; auto.
    + rewrite elem_of_app, list_elem_of_singleton. tauto.
Qed.

Lemma filter_add_keys (P : string -> Prop) `{forall k, Decision (P k)} ks order :
  filter P order `prefix_of` filter P (foldl add_key order ks).
Proof.
  revert order. induction ks as [|j ks IH]; intros order; [done|]. cbn [foldl].
  etrans; [|apply IH]. unfold add_key. case_decide; [done|]. rewrite filter_app. by apply prefix_app_r.
Qed.

(** What [loadNodes] does with a list that differs from the last one. *)
Record loaded (fresh : list peer) (p q : page) : Prop := {
  ld_ok : page_ok q;
  ld_order : nodeOrder q = filter (fun k => k ∈ peer_key <$> fresh)
                             (foldl add_key (nodeOrder p) (peer_key <$> fresh));
  ld_names : forall k, k ∈ peer_key <$> fresh -> exists n, n ∈ fresh /\ peer_key n = k /\
               p_name <$> obj_get k (knownNodes q) = Some (p_name n);
  ld_gone : forall k, k ∈ nodeOrder p -> k ∉ peer_key <$> fresh -> settled_conv (conv q k);
  ld_kept : forall k, k <> INBOX -> k ∉ nodeOrder p \/ k ∈ peer_key <$> fresh -> conv q k = conv p k;
  ld_selected : selectedNodeKey p = INBOX \/ selectedNodeKey p ∈ peer_key <$> fresh ->
                selectedNode q = selectedNode p /\ selectedNodeKey q = selectedNodeKey p }.

Lemma loadNodes_ok listStr p :
  page_ok p -> listStr <> lastNodeListRaw p -> loaded (listed_peers listStr) p (loadNodes listStr p).
Proof.
  intros [Hp _] Hne. unfold loadNodes. apply String.eqb_neq in Hne. rewrite Hne.
  set (p0 := set_lastNodeListRaw listStr p). cbn zeta.
  assert (Hp0 : core_ok p0) by (by apply (core_same p)).
  set (fresh := listed_peers listStr).
  destruct (learn_peers_ok fresh p0 Hp0) as (H1 & O1 & C1 & K1). cbn zeta in *.
  assert (S1 : forall l p, selectedNode (foldl (fun p n => learn_peer n p) p l) = selectedNode p /\
    selectedNodeKey (foldl (fun p n => learn_peer n p) p l) = selectedNodeKey p).
  { clear. induction l as [|n l IH]; intros p; [done|]. cbn [foldl].
    destruct (IH (learn_peer n p)) as [-> ->]. unfold learn_peer. by case_match. }
  destruct (S1 fresh p0) as [S2 S3].
  generalize dependent (foldl (fun p n => learn_peer n p) p0 fresh). intros q Hq Oq Cq Kq S2 S3.
  destruct (remove_gone_ok (peer_key <$> fresh) (length (nodeOrder q)) q Hq (le_n _)) as (H2 & O2 & G2 & S & C2 & Sel).
  cbn zeta in *. rewrite drop_all, app_nil_r, firstn_all in O2. rewrite firstn_all in S, C2.
  generalize dependent (remove_gone (peer_key <$> fresh) (length (nodeOrder q)) q). intros r Hr Or Gr Sr Cr Sel.
  destruct (rerenderSidebar_ok r Hr) as (Hs & Ns & Cs). unfold nav in Ns. injection Ns as E1 E2 E3 E4 _.
  split; [done| | | | |].
  - by rewrite E4, Or, Oq.
  - intros k Hk. destruct (Kq k Hk) as (n & Hn & Hkn & Hg). exists n. rewrite E3, Gr by done. done.
  - intros k Hk Hf. rewrite Cs. apply Sr; [|done]. rewrite Oq. apply elem_of_add_keys. by left.
  - intros k Hk Hor. rewrite Cs, Cr, Cq; [done|done|]. destruct Hor as [Hor|]; [|by right].
    destruct (decide (k ∈ peer_key <$> fresh)); [by right|]. left. rewrite Oq, elem_of_add_keys.
    by intros [].
  - intros Hor. rewrite E1, E2. rewrite S2, S3 in Sel. by apply Sel.
Qed.

(** ** Every handler *)

Lemma page_same p q :
  nav q = nav p -> messagesDiv q = messagesDiv p -> inboxItem q = inboxItem p ->
  nodesListDiv q = nodesListDiv p ->
  (forall k, conv q k = conv p k) -> (forall k, unread_of q k = unread_of p k) -> page_ok p -> page_ok q.
Proof. intros ? ? ? ? ? ? []. split; [by apply (core_same p)|by apply (bar_same p)]. Qed.

Lemma page_addMessage k from text status mode senderID sendType p :
  page_ok p -> page_ok (addMessage k from text status mode senderID sendType p).
Proof. intros [H1 H2]. by split; apply addMessage_ok. Qed.

Lemma page_updateLastPending k status p : page_ok p -> page_ok (updateLastPending k status p).
Proof. intros [H1 H2]. by split; apply updateLastPending_ok. Qed.

Create HintDb page.
#[export] Hint Resolve page_addMessage page_updateLastPending : page.
#[export] Hint Extern 2 (page_ok (setModeIndicator _ ?p)) => apply (page_same p) : page.
#[export] Hint Extern 2 (page_ok (set_logsDiv _ ?p)) => apply (page_same p) : page.
#[export] Hint Extern 2 (page_ok (set_inputs _ ?p)) => apply (page_same p) : page.
#[export] Hint Extern 2 (page_ok (displayRemoteVideo _ _ ?p)) => apply (page_same p) : page.

Lemma page_appendLog line p : page_ok p -> page_ok (appendLog line p).
Proof.
  intros Hp. unfold appendLog. cbn zeta.
  assert (H : page_ok (set_logsDiv (logsDiv p ++ [line]) p)) by auto with page.
  generalize dependent (set_logsDiv (logsDiv p ++ [line]) p). intros q H.
  repeat case_match; auto 6 with page.
Qed.

(** The node the button [send] is for is always known. *)
Lemma selected_known p n :
  page_ok p -> selectedNode p = Some n ->
  selectedNodeKey p = peer_key n /\ is_Some (obj_get (peer_key n) (knownNodes p)) /\ sendBtn_disabled p = false.
Proof.
  intros [Hp _] Hn. destruct (co_nav _ Hp) as [H1 _ _ H4 H5]. rewrite Hn in H4, H5. destruct H4 as [H4 Hin].
  split; [done|]. split; [|done]. apply obj_get_keys. by rewrite <- H1.
Qed.

Lemma page_sendMessage p : page_ok p -> page_ok (sendMessage p).1.
Proof.
  intros Hp. unfold sendMessage. cbn zeta. destruct (selectedNode p) as [n|] eqn:Hn; [|done].
  destruct (selected_known p n Hp Hn) as (Hk & [v Hv] & Hb). fold (peer_key n). rewrite Hv.
  case_match; [done|]. cbn [fst].
  match goal with |- page_ok (set_inputs _ (addMessage ?k ?a ?b ?c ?d ?e ?f ?q)) =>
    assert (H1 : page_ok (addMessage k a b c d e f q)) by (apply page_addMessage; by apply (page_same p));
    generalize dependent (addMessage k a b c d e f q) end.
  intros q Hq. by apply (page_same q).
Qed.

Lemma page_edit f p : page_ok p -> page_ok (edit f p).
Proof.
  intros Hp. unfold edit.
  destruct (updateModeStyle_eq (updateRelayLabel (set_inputs f p))) as (a & b & ->). by apply (page_same p).
Qed.

Lemma page_step_ok p q : page_step p q -> page_ok p -> page_ok q.
Proof.
  intros Hs Hp. destruct Hs as [listStr p|err p|i n p Hi Hg|p|f p|p|key err p _|line p|p|p|p|frame p|p].
  - destruct (decide (listStr = lastNodeListRaw p)) as [->|Hne].
    + unfold loadNodes. by rewrite String.eqb_refl.
    + by eapply ld_ok, loadNodes_ok.
  - by apply page_appendLog.
  - assert (Hin : peer_key n ∈ nodeOrder p).
    { destruct Hp as [[[H1 _ H3 _ _] _ _ _ _] _]. rewrite Forall_forall in H3.
      apply obj_get_Some in Hg. specialize (H3 _ Hg). cbn in H3. rewrite H1, <- H3. apply list_elem_of_fmap. by exists (i_key i, n). }
    destruct Hp as [H1 H2]. by split; apply selectNode_ok.
  - destruct Hp as [H1 H2]. by split; apply selectInbox_ok.
  - by apply page_edit.
  - by apply page_sendMessage.
  - by apply page_addMessage.
  - by apply page_appendLog.
  - by apply page_appendLog.
  - unfold toggleStream. repeat case_match; [by apply (page_same p)|done..].
  - by apply (page_same p).
  - unfold send_frame, toggleStream. repeat case_match; cbn [fst]; try done; by apply (page_same p).
  - by apply (page_same p).
Qed.

Lemma opened_ok : page_ok opened.
Proof.
  set (b := set_messagesDiv (render_rows []) blank).
  assert (H : core_ok (ensureConv INBOX b)).
  { split; [|reflexivity|reflexivity| |reflexivity].
    - split; [reflexivity|apply NoDup_nil_2|apply Forall_nil_2|reflexivity|reflexivity].
    - intros k. rewrite unread_ensureConv. unfold unread_of. cbn. by rewrite lookup_empty. }
  assert (Ho : opened = onSendTypeChange (updateModeStyle (updateRelayLabel (selectInbox (ensureConv INBOX b)))))
    by (vm_compute; reflexivity).
  rewrite Ho. clear Ho. assert (Hs : page_ok (selectInbox (ensureConv INBOX b))).
  { destruct (selectInbox_ok _ H) as [H1 H2]. split; [exact H1|]. by apply H2. }
  generalize dependent (selectInbox (ensureConv INBOX b)). intros q Hq.
  destruct (updateModeStyle_eq (updateRelayLabel q)) as (x & y & ->). by apply (page_same q).
Qed.

Lemma page_reach_ok p : page_reach opened p -> page_ok p.
Proof.
  assert (H : forall p q, page_reach p q -> page_ok p -> page_ok q).
  { induction 1 as [|p1 p2 p3 Hs Hr IH]; [done|]. intros H. by eapply IH, page_step_ok. }
  intros Hr. apply (H _ _ Hr), opened_ok.
Qed.

(** ** A line that tells of a message *)

(** The words the page looks for in a line of the log, and the message between
    double quotes after them. *)
Definition incoming (pre gap id mid body post : string) : string :=
  pre +:+ "Message recu (MsgID" +:+ gap +:+ ":" +:+ id +:+ ")" +:+ mid +:+ quote +:+ body +:+ quote +:+ post.

(** One message more in conversation [k], unread unless [k] is on the screen. *)
Record received (k text mode sender : string) (p p' : page) : Prop := {
  rc_conv : conv p' k = conv p k ++ [MkChat (msgCounter p + 1) "peer" text "ok" mode sender "send"];
  rc_others j : j <> k -> conv p' j = conv p j;
  rc_unread j : unread_of p' j =
    if decide (j = k /\ k <> selectedNodeKey p) then (unread_of p j + 1)%Z else unread_of p j;
  rc_nav : nav p' = nav p }.

Lemma msgM_incoming pre gap id mid body post :
  lacks "M" pre -> gap ∈ [""; " "] -> id <> "" -> lacks ")" id -> lacks dquote mid -> lacks dquote body ->
  match_any msgM (incoming pre gap id mid body post) = Some [body].
Proof.
  intros Hp Hg Hne Hi Hm Hb. unfold incoming, msgM. rewrite match_any_skip by done.
  apply match_any_start. unfold match_start. set (from := _ +:+ _) at 1. clearbody from.
  rewrite match_lit.
  assert (Hrest : match_here [Lit ":"; Plus (not_byte ")"%char); Lit ")"; Star (not_byte dquote);
    Lit (str1 dquote); GroupOpen; Star (not_byte dquote); GroupClose; Lit (str1 dquote)] from
    (":" +:+ id +:+ ")" +:+ mid +:+ quote +:+ body +:+ quote +:+ post) = Some [body]).
  { rewrite match_lit. apply match_plus_until; [done|done|]. etrans; [apply (match_lit ")")|].
    apply match_star_until; [done|]. etrans; [apply (match_lit (str1 dquote))|].
    apply match_group_star; [done|]. by etrans; [apply (match_lit (str1 dquote))|]. }
  apply elem_of_cons in Hg as [->|Hg%list_elem_of_singleton]; [|subst gap]; rewrite ?app_str_nil_l.
  - exact Hrest.
  - rewrite (app_str_cons " "), app_str_nil_l. by apply match_star_one.
Qed.

Lemma resultM_other line : HasPrefix line "RESULT" = false -> match_start resultM line = None.
Proof. intros Hl. unfold match_start, resultM. cbn [match_here]. by rewrite Hl. Qed.

Lemma unread_addMessage k text mode sender p j :
  unread_of (addMessage k "peer" text "ok" mode sender "send" p) j =
    if decide (j = k /\ k <> selectedNodeKey p) then (unread_of p j + 1)%Z else unread_of p j.
Proof.
  unfold addMessage. rewrite <- (unread_ensureConv k j p).
  assert (Hk : selectedNodeKey (ensureConv k p) = selectedNodeKey p).
  { assert (Hn := nav_ensureConv k p). by injection Hn. }
  rewrite <- Hk. set (q := ensureConv k p). cbn zeta. cbn [selectedNodeKey set_conversations set_msgCounter].
  destruct (String.eqb_spec k (selectedNodeKey q)) as [He|Hne].
  - rewrite decide_False by tauto. reflexivity.
  - cbn [orb String.eqb Ascii.eqb Bool.eqb]. transitivity (unread_of (one_more k q) j).
    + unfold updateBadge. by case_match.
    + rewrite unread_one_more. case_decide as Hj.
      * rewrite decide_True by done. by rewrite Hj.
      * rewrite decide_False by tauto. done.
Qed.

Lemma received_addMessage k text mode sender p :
  mode <> "" -> received k text mode sender p (addMessage k "peer" text "ok" mode sender "send" p).
Proof.
  intros Hm. split.
  - rewrite conv_addMessage, decide_True by done. unfold new_message, or_else.
    apply String.eqb_neq in Hm. by rewrite Hm.
  - intros j Hj. by rewrite conv_addMessage, decide_False.
  - apply unread_addMessage.
  - apply nav_addMessage.
Qed.

(** What the page does with a text it has taken off a line. *)
Definition take_message (sender_of : option (string * string)) (raw : string) (p : page) : page :=
  match sender_of with
  | Some (sender, rest) =>
      let text := js_trim rest in
      let p := setModeIndicator "auth" p in
      if HasPrefix text "VIDEO:" then displayRemoteVideo (str_drop 6 text) ("🔐 " +:+ sender) p
      else addMessage (default INBOX (findNodeKey sender p)) "peer" text "ok" "auth" sender "send" p
  | None =>
      let p := setModeIndicator "anon" p in
      if HasPrefix raw "VIDEO:" then displayRemoteVideo (str_drop 6 raw) "🔒 Nœud Anonyme" p
      else addMessage INBOX "peer" raw "ok" "anon" "" "send" p
  end.
Definition signer (raw : string) : option (string * string) :=
  match match_start authM raw with Some [sender; rest] => Some (sender, rest) | _ => None end.

Lemma appendLog_incoming pre gap id mid body post p :
  lacks "M" pre -> gap ∈ [""; " "] -> id <> "" -> lacks ")" id -> lacks dquote mid -> lacks dquote body ->
  HasPrefix (incoming pre gap id mid body post) "RESULT" = false ->
  appendLog (incoming pre gap id mid body post) p =
    take_message (signer (js_trim body)) (js_trim body) (set_logsDiv (logsDiv p ++ [incoming pre gap id mid body post]) p).
Proof.
  intros. unfold appendLog, signer, take_message. rewrite resultM_other, msgM_incoming by done. by repeat case_match.
Qed.

Lemma authM_signed name text :
  name <> "" -> lacks colon name -> text <> "" -> signer ("AUTH:" +:+ name +:+ ":" +:+ text) = Some (name, text).
Proof.
  intros Hn Hc Ht. unfold signer, match_start, authM. rewrite match_lit.
  set (from := "AUTH:" +:+ _) at 1. clearbody from.
  assert (H : match_here [GroupOpen; Plus (not_byte colon); GroupClose; Lit ":"; GroupOpen; Plus any; GroupClose; AtEnd]
    from (name +:+ ":" +:+ text) = Some [name; text]); [|by rewrite H].
  apply match_group_until; [done|done|]. etrans; [apply (match_lit ":")|]. by apply match_group_rest.
Qed.

Lemma authM_other raw : HasPrefix raw "AUTH:" = false -> signer raw = None.
Proof. intros Hr. unfold signer, match_start, authM. cbn [match_here]. by rewrite Hr. Qed.

(** The line goes to the log first, which changes none of this. *)
Lemma received_as s raw l p :
  let p' := take_message s raw (set_logsDiv l p) in
  let '(k, text, mode, sender) :=
    match s with
    | Some (sender, rest) => (default INBOX (findNodeKey sender p), js_trim rest, "auth", sender)
    | None => (INBOX, raw, "anon", "")
    end in
  if HasPrefix text "VIDEO:"
  then (exists who, remoteVideo p' = Some (who, str_drop 6 text)) /\ conversations p' = conversations p
  else received k text mode sender p p'.
Proof.
  destruct s as [[sender rest]|]; cbn zeta iota; unfold take_message; cbn zeta.
  - destruct (HasPrefix (js_trim rest) "VIDEO:"); [split; [by eexists|done]|].
    destruct (received_addMessage (default INBOX (findNodeKey sender p)) (js_trim rest) "auth" sender
      (setModeIndicator "auth" (set_logsDiv l p)) ltac:(done)) as [H1 H2 H3 H4]. by split.
  - destruct (HasPrefix raw "VIDEO:"); [split; [by eexists|done]|].
    destruct (received_addMessage INBOX raw "anon" "" (setModeIndicator "anon" (set_logsDiv l p)) ltac:(done))
      as [H1 H2 H3 H4]. by split.
Qed.
