(* ===== verification/CommandSpec.v ===== *)
(** * What the commands do *)

From S2P Require Import Prelude GoStrings Base64 GoMonad Crypto OnionLayer KeyCache Node NodeSpec.
From S2P Require Import Fragments OnionBuild Directory Cluster Send SendSpec Commands.

Section Spec.
Context {C : CryptoLib} {G : GoSort} {L : CryptoLaws C}.

(** The fields of a command are read back. *)
Lemma fields_4 nbr ip port message :
  lacks colon nbr -> lacks colon ip -> lacks colon port ->
  SplitN (nbr +:+ ":" +:+ ip +:+ ":" +:+ port +:+ ":" +:+ message) colon 4 = [nbr; ip; port; message].
Proof.
  intros Hn Hi Hp. rewrite !(app_str_cons ":"), !app_str_nil_l.
  do 3 (rewrite SplitN_app by done). by rewrite SplitN_1.
Qed.

(** The text and the label of the message a goroutine sends. *)
Definition piece_of (g : goroutine) : option (string * string) :=
  match g with GoSend _ message frag _ _ _ => Some (frag, message) | _ => None end.

Definition sends_to (destAddr : string) (numRelays : Z) (g : goroutine) : Prop :=
  exists message frag now, g = GoSend destAddr message frag numRelays 3 now /\
    0 < String.length message <= fragChunkSize.

(** The labelled chunk [i] of [chunks]. *)
Definition labelled (fragID : string) (chunks : list string) (i : nat) : string * string :=
  (frag_label fragID (Z.of_nat i + 1) (Z.of_nat (length chunks)), chunks !!! i).

Lemma wp_spawn_chunks (ev : env Proc) destAddr fragID numRelays chunks i n p c t Q :
  (forall u, Forall2 (fun g j => exists now, g = GoSend destAddr (chunks !!! j)
       (frag_label fragID (i + Z.of_nat j + 1) n) numRelays 3 now)
     (spawns u) (seq 0 (length chunks)) -> Q tt (World p [] c (t ++ u))) ->
  wp ev (spawn_chunks destAddr fragID numRelays chunks i n) (World p [] c t) Q.
Proof.
  revert i t Q. induction chunks as [|ch chunks IH]; intros i t Q HQ; cbn [spawn_chunks].
  - apply wp_ret. specialize (HQ []). rewrite app_nil_r in HQ. apply HQ. constructor.
  - wp_steps. apply IH. intros u Hu. rewrite <- !app_assoc. apply HQ. cbn [length seq].
    cbn [app spawns omap list_omap]. constructor.
    + eexists. by replace (i + Z.of_nat 0 + 1)%Z with (i + 1)%Z by lia.
    + rewrite <- fmap_S_seq. apply Forall2_fmap_r. eapply Forall2_impl; [exact Hu|].
      intros g j (now & ->). exists now. do 2 f_equal. lia.
Qed.

(** SEND of a long message: one goroutine per chunk, labelled in order. *)
Lemma wp_cli_SEND_long (ev : env Proc) nbr ip port message k p c t Q :
  lacks colon nbr -> lacks colon ip -> lacks colon port -> Atoi nbr = (k, None) ->
  fragChunkSize < String.length message ->
  (forall u fid chunks, id_shape "frag" fid -> splitMessage message fragChunkSize = Some chunks ->
     Forall2 (fun g j => exists now, g = GoSend (ip +:+ ":" +:+ port) (chunks !!! j)
       (frag_label fid (Z.of_nat j + 1) (Z.of_nat (length chunks))) k 3 now)
       (spawns u) (seq 0 (length chunks)) ->
     Q tt (World p [] c (t ++ u))) ->
  wp ev (cli_SEND (nbr +:+ ":" +:+ ip +:+ ":" +:+ port +:+ ":" +:+ message))
    (World p [] c t) Q.
Proof.
  intros Hn Hi Hp Hk Hl HQ. unfold cli_SEND. rewrite fields_4, Hk by done. cbn iota zeta.
  destruct (Nat.leb_spec (String.length message) fragChunkSize); [lia|].
  apply wp_bind, wp_GenerateMsgID. intros fid w' Hid (u & -> & Hu)%quiet_inv. cbn [String.eqb] in Hid.
  destruct (split_loop_spec (S (String.length message)) message fragChunkSize []) as (ch & Hch & _);
    [unfold fragChunkSize; lia|lia|].
  unfold splitMessage. rewrite Hch. apply wp_spawn_chunks. intros v Hv. rewrite <- app_assoc.
  apply (HQ (u ++ v) fid ch); [done|exact Hch|]. autorewrite with dor_trace. exact Hv.
Qed.

(** Each of these goroutines sends one fragment at most. *)
Lemma chunk_senders dest k message fid chunks (gs : list goroutine) :
  splitMessage message fragChunkSize = Some chunks ->
  Forall2 (fun g j => exists now, g = GoSend dest (chunks !!! j)
    (frag_label fid (Z.of_nat j + 1) (Z.of_nat (length chunks))) k 3 now) gs (seq 0 (length chunks)) ->
  Forall (sends_to dest k) gs.
Proof.
  intros Hch Hgs.
  assert (Hof : chunks_of message fragChunkSize chunks) by (apply split_chunks; [done|unfold fragChunkSize; lia]).
  apply Forall_lookup. intros i g Hg. destruct (Forall2_lookup_l _ _ _ _ _ Hgs Hg) as (j & Hj & now & ->).
  apply lookup_seq in Hj as [-> Hj]. eexists _, _, _. split; [done|].
  refine (proj1 (proj2 Hof i _ _)). by apply list_lookup_lookup_total_lt.
Qed.

Lemma chunks_count msg size chunks : chunks_of msg size chunks -> length chunks <= String.length msg.
Proof.
  intros [<- Hc].
  assert (H : Forall (fun c => 0 < String.length c) chunks).
  { apply Forall_lookup. intros i c Hi. by apply Hc in Hi as [[? _] _]. }
  clear Hc. induction H as [|c l Hc H IH]; [done|]. change (str_concat (c :: l)) with (c +:+ str_concat l).
  rewrite length_str_app. cbn. lia.
Qed.

(** The recipient's side: layers that carry the pieces of these goroutines, in
    any order, are the fragments of the message in that order. *)
Lemma pieces_carried dest fid chunks k gs ls :
  lacks colon fid -> (Z.of_nat (length chunks) <= max_int)%Z ->
  Forall2 (fun g j => exists now, g = GoSend dest (chunks !!! j)
    (frag_label fid (Z.of_nat j + 1) (Z.of_nat (length chunks))) k 3 now) gs (seq 0 (length chunks)) ->
  (fun l => (Frag l, Message l)) <$> ls ≡ₚ omap piece_of gs ->
  exists R, R ≡ₚ seq 0 (length chunks) /\ Forall2 carries ls (chunk_fragment fid chunks <$> R).
Proof.
  intros Hf Hmax Hgs Hls.
  assert (Hp : omap piece_of gs = labelled fid chunks <$> seq 0 (length chunks)).
  { clear Hls. induction Hgs as [|g j gs js (now & ->) H IH]; [done|]. cbn. by f_equal. }
  rewrite Hp in Hls. apply Permutation_map_inv in Hls as (R & Hls & HR).
  exists R. split; [by symmetry|].
  assert (HRb : Forall (fun j => j < length chunks) R).
  { rewrite <- HR. apply Forall_forall. intros j Hj%elem_of_seq. lia. }
  clear -Hls HRb Hf Hmax. revert ls Hls. induction HRb as [|j R Hj HRb IH]; intros [|l ls] Hls; try done.
  cbn in Hls. injection Hls as H1 H2 H3. rewrite fmap_cons. apply Forall2_cons_2; [|by apply IH].
  unfold carries, chunk_fragment, is_int64, min_int, max_int in *. cbn. repeat split; [done..|lia|lia|lia|lia].
Qed.

(** A negative relay count is not refused, and slices out of range. *)
Lemma negative_panics (ev : env Proc) fuel destAddr message frag k maxRetries currentTry startTime p c t :
  (k < 0)%Z -> (currentTry < maxRetries)%Z ->
  (forall n, exists r, e_request ev n ("GET_LIST" +:+ str1 nl) = Some r /\ TrimSpace r <> "LIST:empty") ->
  panics ev (SendWithRetry (S fuel) destAddr message frag k maxRetries currentTry startTime)
    (World p [] c t) "slice bounds out of range".
Proof.
  intros Hk Htry Hlist. cbn [SendWithRetry]. apply Z.leb_gt in Htry. rewrite Htry.
  apply panics_bind. unfold Node.GetNodesList. wp_steps.
  destruct (Hlist (length t)) as (r & -> & Hr). wp_steps.
  apply String.eqb_neq in Hr. rewrite Hr. apply panics_bind, wp_node_address.
  cbn zeta. set (cands := candidates_of _ _ _).
  assert (Z.min k (Z.of_nat (length cands)) = k) as -> by lia.
  destruct (Z.eqb_spec k 0); [lia|]. apply panics_bind, wp_shuffle. intros order w' _ _.
  apply Z.ltb_lt in Hk. by rewrite Hk.
Qed.

(** What [sign] makes of a message. *)
Definition auth (mode name msg : string) : string :=
  if String.eqb mode "auth" then "AUTH:" +:+ name +:+ ":" +:+ msg else msg.

Lemma wp_sign (ev : env Proc) mode msg p h c t Q :
  Q (auth mode (ID (node p)) msg) (World p h c t) -> wp ev (sign mode msg) (World p h c t) Q.
Proof. intros HQ. unfold sign, auth in *. destruct (String.eqb mode "auth"); by wp_steps. Qed.

(** ** FETCH *)

(** The first line the process [q] writes to a peer that sends it [line]. *)
Definition peer_answer (evq : env Proc) (q : Proc) (cq : list chan) (line : string) : option string :=
  head (replies (w_trace (run evq (handlerroutine line) (World q [] cq [])).2)).

Lemma peer_key evq q cq :
  peer_answer evq q cq ("GET_PUBKEY" +:+ str1 nl) =
  Some (EncodeToString (MarshalPKIX (NPublicKey (node q))) +:+ str1 nl).
Proof. reflexivity. Qed.

Lemma parsed_key pk :
  ParsePKIX (decode_partial (TrimSpace (EncodeToString (MarshalPKIX pk) +:+ str1 nl))).1 = Some (Some pk).
Proof.
  rewrite TrimSpace_line by apply EncodeToString_graphic.
  assert (Hd := DecodeString_EncodeToString (MarshalPKIX pk)). unfold DecodeString in Hd.
  destruct (decode_partial _) as [r []]; [|done]. injection Hd as ->. apply parse_marshal.
Qed.

(** ** BENCH *)

(** The loop of a bench: [job i now] started for every [i]. *)
Definition bench_once (job : Z -> Z -> goroutine) (i : Z) : prog Proc unit :=
  now ← trigger ENow;
  trigger (ESpawn (job i now)) ;;
  trigger (ESleep (500 * millisecond)).

Lemma wp_bench_loop (ev : env Proc) n i job p c t Q :
  (forall nows u, length nows = n -> spawns u = zip_with job (seqZ i (Z.of_nat n)) nows ->
     Q tt (World p [] c (t ++ u))) ->
  wp ev (for_loop n i (bench_once job)) (World p [] c t) Q.
Proof.
  revert i t Q. induction n as [|n IH]; intros i t Q HQ; cbn [for_loop].
  - apply wp_ret. specialize (HQ [] []). rewrite app_nil_r in HQ. by apply HQ.
  - apply wp_bind. unfold bench_once at 1. wp_steps. cbn [w_trace]. apply IH. intros nows u Hn Hu. rewrite <- !app_assoc.
    eapply (HQ (_ :: nows)); [cbn; by rewrite Hn|].
    rewrite seqZ_cons by lia. cbn [app spawns omap list_omap zip_with]. f_equal.
    change (spawns u = zip_with job (seqZ (Z.succ i) (Z.pred (Z.of_nat (S n)))) nows).
    rewrite Hu. by replace (Z.pred (Z.of_nat (S n))) with (Z.of_nat n) by lia.
Qed.
End Spec.
