(* ===== verification/FrontEnds.v ===== *)
(** * The console against the page

    [runCLI] and [processCmd] have a copy each of the code of the commands.
    The lemmas compare the copies, one by one: run on the same process, with the
    text the page signs typed at the console, they do the same. *)

From S2P Require Import Prelude GoStrings Base64 GoMonad Crypto OnionLayer KeyCache Node NodeSpec.
From S2P Require Import Fragments OnionBuild Directory Cluster Send SendSpec Commands CommandSpec.

(** ** Last index *)

Lemma LastIndex_lacks s c : lacks c s -> LastIndex s c = (-1)%Z.
Proof.
  induction s as [|a s IH]; [done|]. intros [Ha Hs]%lacks_cons. cbn. rewrite IH by done. cbn.
  by apply Ascii.eqb_neq in Ha as ->.
Qed.

Lemma LastIndex_app x y c : lacks c y -> LastIndex (x +:+ String c y) c = Z.of_nat (String.length x).
Proof.
  intros Hy. induction x as [|a x IH].
  - rewrite app_str_nil_l. cbn. rewrite LastIndex_lacks by done. cbn. by rewrite Ascii.eqb_refl.
  - rewrite app_str_cons. cbn [LastIndex String.length]. rewrite IH.
    destruct (Z.leb_spec 0 (Z.of_nat (String.length x))); lia.
Qed.

(** The text before the last [c] and the text after it. *)
Lemma LastIndex_split s c :
  LastIndex s c = (-1)%Z \/
  exists x y, s = x +:+ String c y /\ lacks c y /\ LastIndex s c = Z.of_nat (String.length x).
Proof.
  induction s as [|a s [IH|(x & y & -> & Hy & IH)]]; [by left| |].
  - cbn [LastIndex]. rewrite IH. cbn [Z.leb Z.compare]. destruct (Ascii.eqb_spec a c) as [->|]; [|by left].
    right. exists "", s. split; [done|]. split; [|done].
    clear -IH. induction s as [|b s IHs]; [done|]. cbn [LastIndex] in IH.
    destruct (Z.leb_spec 0 (LastIndex s c)); [lia|]. destruct (Ascii.eqb_spec b c); [lia|].
    apply lacks_cons. split; [done|]. apply IHs. clear -H.
    induction s as [|a s IH]; [done|]. cbn [LastIndex] in *.
    destruct (Z.leb_spec 0 (LastIndex s c)); [lia|]. by destruct (Ascii.eqb a c).
  - right. exists (String a x), y. split; [done|]. split; [done|].
    rewrite <- app_str_cons. by apply LastIndex_app.
Qed.

Section FrontEnds.
Context {C : CryptoLib} {G : GoSort}.
Implicit Types (w : world Proc) (ev : env Proc).

(** ** The text of a signed command *)

(** The last of [n] fields. *)
Definition sign_field (n : nat) (mode name data : string) : string :=
  match reverse (SplitN data colon n) with
  | msg :: before =>
      if length before =? n - 1 then Join (reverse before ++ [auth mode name msg]) colon else data
  | [] => data
  end.

Definition sign_last (mode name data : string) : string :=
  let i := LastIndex data comma in
  if (i =? -1)%Z then data
  else str_take (Z.to_nat i + 1) data +:+ auth mode name (str_drop (Z.to_nat i + 1) data).

(** What to type at the console for [cmd] with [data] given to the page. *)
Definition signed (mode name cmd data : string) : string :=
  if String.eqb cmd "MSG" then sign_field 3 mode name data
  else if String.eqb cmd "SEND" then sign_field 4 mode name data
  else if String.eqb cmd "SSEND" then sign_field 5 mode name data
  else if String.eqb cmd "RELAY" then sign_last mode name data
  else data.

Lemma auth_anonymous mode name msg : mode <> "auth" -> auth mode name msg = msg.
Proof. intros Hm. unfold auth. by apply String.eqb_neq in Hm as ->. Qed.

Lemma sign_field_spec n mode name data before msg :
  SplitN data colon (S n) = before ++ [msg] ->
  SplitN (sign_field (S n) mode name data) colon (S n) =
    if length before =? n then before ++ [auth mode name msg] else before ++ [msg].
Proof.
  intros Hs. unfold sign_field. rewrite Hs, reverse_app, reverse_singleton. cbn [app].
  rewrite length_reverse, reverse_involutive. replace (S n - 1) with n by lia.
  destruct (Nat.eqb_spec (length before) n) as [Hl|]; [|by rewrite Hs].
  assert (Hb := proj1 (SplitN_pieces _ _ _ _ _ Hs)). clear Hs. subst n.
  induction Hb as [|b l Hb _ IH]; [by rewrite SplitN_1|].
  cbn [app length]. rewrite Join_cons by (by destruct l). rewrite SplitN_app by done. by rewrite IH.
Qed.

Lemma fields_snoc (l : list string) : l <> [] -> exists before x, l = before ++ [x].
Proof. intros Hl. destruct (exists_last Hl) as (b & x & ->). by exists b, x. Qed.

(** ** The copies of one command *)

Lemma run_sign {A} ev mode msg (k : string -> prog Proc A) w :
  run ev (m ← sign mode msg; k m) w = run ev (k (auth mode (ID (node (w_st w))) msg)) w.
Proof. unfold sign, auth. by destruct (String.eqb mode "auth"). Qed.

Lemma MSG_same ev mode data w :
  length (SplitN data colon 3) = 3 ->
  run ev (web_MSG (own_addr (node (w_st w))) mode data) w =
  run ev (cli_MSG (sign_field 3 mode (ID (node (w_st w))) data)) w.
Proof.
  intros Hl. unfold web_MSG, cli_MSG.
  rewrite (sign_field_spec 2 mode _ data (take 2 (SplitN data colon 3)) (List.last (SplitN data colon 3) "")).
  - destruct (SplitN data colon 3) as [|a [|b [|m [|]]]]; try done. cbn zeta. rewrite run_sign. reflexivity.
  - destruct (SplitN data colon 3) as [|a [|b [|m [|]]]]; done.
Qed.

Lemma RELAY_same ev mode data w :
  (mode = "auth" -> lacks comma (ID (node (w_st w)))) ->
  run ev (web_RELAY (own_addr (node (w_st w))) mode data) w =
  run ev (cli_RELAY (sign_last mode (ID (node (w_st w))) data)) w.
Proof.
  intros Hm. unfold web_RELAY, cli_RELAY, sign_last. cbn zeta.
  destruct (LastIndex_split data comma) as [E|(x & y & -> & Hy & E)].
  - rewrite !E. change ((-1 =? -1)%Z) with true. cbn iota. rewrite E. reflexivity.
  - assert (Hd : forall z, str_take (String.length x + 1) (x +:+ String comma z) = x +:+ str1 comma /\
      str_take (String.length x) (x +:+ String comma z) = x /\
      str_drop (String.length x + 1) (x +:+ String comma z) = z).
    { intros z. change (String comma z) with (str1 comma +:+ z).
      replace (String.length x + 1) with (String.length (x +:+ str1 comma)) by (rewrite length_str_app; done).
      rewrite <- (app_str_assoc x (str1 comma) z), str_take_app, str_drop_app. split; [done|]. split; [|done].
      rewrite app_str_assoc. apply str_take_app. }
    rewrite !E. destruct (Z.eqb_spec (Z.of_nat (String.length x)) (-1)); [lia|].
    rewrite !Nat2Z.id. destruct (Hd y) as (-> & -> & ->). rewrite run_sign.
    set (y' := auth mode _ y). assert (Hy' : lacks comma y').
    { unfold y', auth. destruct (String.eqb_spec mode "auth") as [->|]; [|done].
      repeat (apply lacks_app_2; [first [done|by apply Hm]|]). done. }
    rewrite app_str_assoc. change (str1 comma +:+ y') with (String comma y').
    rewrite LastIndex_app by done. destruct (Z.eqb_spec (Z.of_nat (String.length x)) (-1)); [lia|].
    rewrite !Nat2Z.id. destruct (Hd y') as (_ & -> & ->). reflexivity.
Qed.

(** The message of a SEND fits one fragment, as the console gets it. *)
Definition short_send (data : string) : Prop :=
  forall nbr ip port message, SplitN data colon 4 = [nbr; ip; port; message] ->
    String.length message <= fragChunkSize.

Lemma SEND_same ev mode data w :
  short_send (sign_field 4 mode (ID (node (w_st w))) data) ->
  run ev (web_SEND mode data) w = run ev (cli_SEND (sign_field 4 mode (ID (node (w_st w))) data)) w.
Proof.
  unfold short_send, web_SEND, cli_SEND.
  destruct (fields_snoc (SplitN data colon 4)) as (before & x & Hs); [by apply SplitN_not_nil|].
  rewrite (sign_field_spec 3 mode _ data before x Hs), Hs. destruct (Nat.eqb_spec (length before) 3) as [Hl|Hl].
  - destruct before as [|nbr [|ip [|port [|]]]]; try done. cbn [app]. intros Hshort.
    specialize (Hshort _ _ _ _ eq_refl). destruct (Atoi nbr) as [k [e|]]; [done|]. cbn zeta.
    rewrite run_sign. destruct (Nat.leb_spec (String.length (auth mode (ID (node (w_st w))) x)) fragChunkSize); [done|lia].
  - intros _. destruct before as [|nbr [|ip [|port [|z [|]]]]]; try done.
Qed.

Lemma SSEND_same ev mode data w :
  run ev (web_SSEND mode data) w = run ev (cli_SSEND (sign_field 5 mode (ID (node (w_st w))) data)) w.
Proof.
  unfold web_SSEND, cli_SSEND.
  destruct (fields_snoc (SplitN data colon 5)) as (before & x & Hs); [by apply SplitN_not_nil|].
  rewrite (sign_field_spec 4 mode _ data before x Hs), Hs. destruct (Nat.eqb_spec (length before) 4) as [Hl|Hl].
  - destruct before as [|g [|nbr [|ip [|port [|]]]]]; try done. cbn [app]. cbn zeta. by rewrite run_sign.
  - destruct before as [|g [|nbr [|ip [|port [|y [|]]]]]]; done.
Qed.

Lemma BENCH_same ev data w : run ev (web_BENCH data) w = run ev (cli_BENCH data) w.
Proof. reflexivity. Qed.
Lemma SBENCH_same ev data w : run ev (web_SBENCH data) w = run ev (cli_SBENCH data) w.
Proof. reflexivity. Qed.
Lemma LIST_same ev w : run ev web_LIST w = run ev cli_LIST w.
Proof. reflexivity. Qed.

(** The peer was not reached, or took the request and answered a whole line. *)
Definition whole_answer ev (addr : string) w : Prop :=
  match e_ask ev (tick w) addr ("GET_PUBKEY" +:+ str1 nl) with
  | NoDial => True
  | Dialed wrote _ whole => wrote = true /\ whole = true
  end.

Lemma FETCH_same ev data w :
  whole_answer ev data w -> run ev (web_FETCH data) w = run ev (cli_FETCH data) w.
Proof.
  unfold whole_answer, web_FETCH, cli_FETCH. intros H. unfold mbind, prog_mbind. cbn [prog_bind trigger run exec].
  destruct (e_ask _ _ _ _) as [|wrote got whole]; [done|]. by destruct H as [-> ->].
Qed.

(** ** A line *)

Definition commands : list string :=
  ["FETCH"; "MSG"; "RELAY"; "SEND"; "SSEND"; "BENCH"; "SBENCH"; "LIST"; "REGEN"; "QUIT"].

Definition word_of (input : string) : string := List.hd "" (SplitN input colon 2).
Definition data_of (input : string) : string :=
  match SplitN input colon 2 with _ :: d :: _ => d | _ => "" end.
Definition console_line (mode name input : string) : string :=
  match SplitN input colon 2 with
  | [word; data] => word +:+ ":" +:+ signed mode name (ToUpper word) data
  | _ => input
  end.

(** What the page prints and the console does not: that the keys were changed. *)
Definition receipt ev (cmd : string) w : list event :=
  if String.eqb cmd "REGEN" then
    match (run ev RegenerateKeys w).1 with
    | Done (inl _) => [EvPrint "Clé RSA régénérée avec succès."]
    | _ => []
    end
  else [].

Definition add_events (u : list event) w : world Proc :=
  World (w_st w) (w_held w) (w_chans w) (w_trace w ++ u).

(** The page's outcome, from the one of the console. *)
Definition as_page {A} (u : list event) (r : outcome A * world Proc) : outcome unit * world Proc :=
  match r with
  | (Done _, w) => (Done tt, add_events u w)
  | (Blocked, w) => (Blocked, w)
  | (Panicked s, w) => (Panicked s, w)
  end.

(** Where the copies do not differ by more than that. *)
Record comparable ev (mode : string) w (cmd data : string) : Prop := {
  cmp_command : cmd ∈ commands;
  cmp_MSG : cmd = "MSG" -> length (SplitN data colon 3) = 3;
  cmp_RELAY : cmd = "RELAY" -> mode = "auth" -> lacks comma (ID (node (w_st w)));
  cmp_SEND : cmd = "SEND" -> short_send (sign_field 4 mode (ID (node (w_st w))) data);
  cmp_FETCH : cmd = "FETCH" -> whole_answer ev data w }.

Lemma add_no_events w : add_events [] w = w.
Proof. unfold add_events. rewrite app_nil_r. by destruct w. Qed.

Lemma as_page_silent {A} (r : outcome A * world Proc) :
  as_page [] r = match r with (Done _, w) => (Done tt, w) | (Blocked, w) => (Blocked, w) | (Panicked s, w) => (Panicked s, w) end.
Proof. destruct r as [[] w]; [|done..]. cbn. by rewrite add_no_events. Qed.

(** A command of the console, and what it does next. *)
Lemma as_page_then ev (p : prog Proc unit) (b : bool) w :
  as_page [] (run ev (p ;; Ret b) w) = run ev p w.
Proof.
  unfold mbind, prog_mbind. rewrite run_bind. destruct (run ev p w) as [[[]| |] w']; [|done..]. cbn. by rewrite add_no_events.
Qed.

(** Data of a console line. *)
Lemma console_line_split mode name input :
  let line := console_line mode name input in
  SplitN line colon 2 = [word_of input] /\ line = input /\ data_of input = "" \/
  SplitN line colon 2 = [word_of input; signed mode name (ToUpper (word_of input)) (data_of input)].
Proof.
  cbn zeta. unfold console_line, word_of, data_of.
  assert (Hl := length_SplitN input colon 2). assert (Hn := SplitN_not_nil input colon 1).
  destruct (SplitN input colon 2) as [|word [|data [|]]] eqn:E; cbn in Hl; [done|by left|right|lia].
  rewrite (app_str_cons ":"), app_str_nil_l, SplitN_app, SplitN_1; [done|].
  assert (H := proj1 (SplitN_pieces input colon 2 [word] data E)). by apply Forall_cons_1 in H as [? _].
Qed.

Lemma signed_nothing mode name cmd : signed mode name cmd "" = "".
Proof. unfold signed. by repeat case_match. Qed.

(** The console picks the command of the line. *)
Lemma console_dispatch mode name input :
  exists more, SplitN (console_line mode name input) colon 2 = word_of input :: more /\
    match more with d :: _ => d | [] => "" end = signed mode name (ToUpper (word_of input)) (data_of input).
Proof.
  destruct (console_line_split mode name input) as [(-> & _ & ->)| ->]; eexists; (split; [done|]); [|done].
  by rewrite signed_nothing.
Qed.

Lemma REGEN_same ev w :
  run ev (r ← RegenerateKeys;
          match r with
          | inr err => Println ("Erreur lors de la régénération: " +:+ err)
          | inl _ => Println "Clé RSA régénérée avec succès."
          end) w =
  as_page (receipt ev "REGEN" w)
    (run ev (r ← RegenerateKeys;
             match r with
             | inr err => Println ("Erreur lors de la régénération: " +:+ err) ;; Ret true
             | inl _ => Ret true
             end) w).
Proof.
  unfold receipt. change (String.eqb "REGEN" "REGEN") with true. cbn iota.
  generalize RegenerateKeys. intros p. unfold mbind, prog_mbind. rewrite !run_bind.
  destruct (run ev p w) as [[[[]|err]| |] w']; try done.
  cbn. unfold add_events. cbn. by rewrite app_nil_r.
Qed.

Lemma agree ev mode input w :
  input <> "" -> TrimSpace (word_of input) = word_of input ->
  comparable ev mode w (ToUpper (word_of input)) (data_of input) ->
  run ev (processCmd input mode) w =
  as_page (receipt ev (ToUpper (word_of input)) w)
    (run ev (cli_command (console_line mode (ID (node (w_st w))) input)) w).
Proof.
  intros Hne Ht [Hc H1 H2 H3 H4]. unfold processCmd, cli_command.
  apply String.eqb_neq in Hne. rewrite Hne.
  destruct (console_dispatch mode (ID (node (w_st w))) input) as (more & -> & ->).
  assert (Hsp : exists more, SplitN input colon 2 = word_of input :: more /\
    match more with d :: _ => d | [] => "" end = data_of input).
  { unfold word_of, data_of. assert (Hn := SplitN_not_nil input colon 1).
    destruct (SplitN input colon 2) as [|x l]; [done|]. by exists l. }
  destruct Hsp as (more' & -> & ->). cbn zeta. rewrite Ht.
  set (data := data_of input) in *. set (cmd := ToUpper (word_of input)) in *. clearbody data cmd. clear Ht Hne.
  unfold node_address at 1, mbind at 1, prog_mbind at 1. cbn [prog_bind trigger run exec].
  unfold commands in Hc. repeat (apply elem_of_cons in Hc as [->|Hc]); [..|by apply not_elem_of_nil in Hc];
    cbn [String.eqb Ascii.eqb Bool.eqb]; unfold signed; cbn [String.eqb Ascii.eqb Bool.eqb];
    try change (receipt ev _ w) with (@nil event); rewrite ?as_page_then.
  - apply FETCH_same. by apply H4.
  - apply MSG_same. by apply H1.
  - apply RELAY_same. by apply H2.
  - apply SEND_same. by apply H3.
  - apply SSEND_same.
  - reflexivity.
  - reflexivity.
  - reflexivity.
  - apply REGEN_same.
  - rewrite as_page_silent. reflexivity.
Qed.

(** QUIT, and nothing else, ends the console. *)
Lemma then_ret ev {A} (p : prog Proc A) (b b' : bool) w w' :
  run ev (p ;; Ret b) w = (Done b', w') -> b' = b.
Proof. unfold mbind, prog_mbind. rewrite run_bind. destruct (run ev p w) as [[]]; by intros [=]. Qed.

Lemma console_ends ev input w b w' :
  run ev (cli_command input) w = (Done b, w') -> b = negb (String.eqb (ToUpper (word_of input)) "QUIT").
Proof.
  unfold cli_command, word_of. assert (Hn := SplitN_not_nil input colon 1).
  destruct (SplitN input colon 2) as [|word more]; [done|]. cbn zeta. cbn [List.hd].
  generalize (match more with d :: _ => d | [] => "" end). intros data.
  repeat match goal with |- context [String.eqb (ToUpper word) ?k] => destruct (String.eqb_spec (ToUpper word) k) as [->|?] end;
    try congruence; cbn [negb]; try apply then_ret.
  - unfold mbind, prog_mbind. rewrite run_bind. destruct (run ev RegenerateKeys w) as [[[[]|]| |]]; cbn; by intros [=].
  - destruct (String.eqb (ToUpper word) "QUIT"); by intros [=].
Qed.

(** Words that are no commands: a line is printed. *)
Lemma unknown_same ev mode input w :
  input <> "" -> TrimSpace (word_of input) = word_of input -> ToUpper (word_of input) ∉ commands ->
  (exists l, run ev (cli_command input) w = (Done true, add_events [EvPrint l] w)) /\
  (exists l, run ev (processCmd input mode) w = (Done tt, add_events [EvPrint l] w)).
Proof.
  intros Hne Ht Hc. unfold cli_command, processCmd, word_of in *. apply String.eqb_neq in Hne. rewrite Hne.
  assert (Hn := SplitN_not_nil input colon 1). destruct (SplitN input colon 2) as [|word more]; [done|].
  cbn zeta. cbn [List.hd] in *. rewrite Ht. unfold commands in Hc.
  repeat (apply not_elem_of_cons in Hc as [?%String.eqb_neq Hc]).
  repeat match goal with H : String.eqb _ _ = false |- _ => rewrite H; clear H end.
  split; eexists; reflexivity.
Qed.
End FrontEnds.
