(* ===== verification/LongSend.v ===== *)
(** * A long SEND from the command to the delivery of the message

    The goroutines a SEND of more than 4096 bytes starts, one per chunk, run in
    the network one after the other, in any order: each to its wait, then the
    network until nothing is on the wire, then the goroutine to its end. *)

From S2P Require Import Prelude GoStrings Base64 GoMonad Crypto OnionLayer KeyCache Node NodeSpec.
From S2P Require Import Fragments OnionBuild Network Directory Cluster ClusterSpec Send SendSpec EndToEnd.
From S2P Require Import Commands CommandSpec.

Section LongSend.
Context {C : CryptoLib} {G : GoSort} {L : CryptoLaws C}.
Variable pk_of : string -> PublicKey.
Variables (self dest : string) (nodes : list NodeInfo).

(** The relays the directory offers. *)
Definition offered : list string := filter (fun a => a <> self /\ a <> dest) (node_addr <$> nodes).
Abbreviation everyone := (self :: dest :: offered).

(** The environment of a process of [N]: dials succeed where a process listens,
    the directory answers its list and the keys. *)
Definition served (N : net) (ev : env Proc) : Prop :=
  (forall n a, e_dial ev n a = Network.up N a) /\
  (forall n, e_request ev n ("GET_LIST" +:+ str1 nl) = Some (list_answer nodes)) /\
  dir_knows ev pk_of everyone.

(** The goroutines [gs] of the node at [self], each run to its end before the
    next one starts, lead from [N] to a network where [Q] holds: each comes to
    its wait with one onion posted; when the identifiers it drew are new, the
    network comes to rest and the goroutine reports the acknowledgement. *)
Fixpoint in_turn (gs : list goroutine) (N : net) (Q : net -> Prop) : Prop :=
  match gs with
  | [] => Q N
  | g :: rest => exists p chs pc message,
      procs N !! self = Some (p, chs) /\ piece_of g = Some (parcel_text pc, message) /\
      forall ev, served N ev ->
      pauses ev (fun c kont w => exists nacks msgID,
          posted pk_of offered dest pc message self p [] nacks msgID w /\
          (fresh N nacks msgID -> forall evs, length evs = 2 * length nacks ->
           exists N' q cq, deliver_all evs (sent_net N self [] w) = Some N' /\
             procs N' !! self = Some (q, cq) /\
             forall ev', wp ev' (Vis (ESelect c) kont) (World q [] cq []) (fun _ w' =>
               reported "RESULT" dest 0 q [] w' /\
               in_turn rest (Net (<[self := (w_st w', w_chans w')]> (procs N')) (wire N')) Q)))
        (body g) (World p [] chs [])
  end.

(** ** One turn *)

Definition holding (N : net) (a : string) : option Node := node <$> standing N a.

(** The network is at rest, everyone is reachable, and what the node has cached
    is what the directory says. *)
Record ready (N : net) : Prop := {
  rd_wire : wire N = [];
  rd_reach : Forall (reachable pk_of N) everyone;
  rd_self : exists p chs, procs N !! self = Some (p, chs) /\ own_addr (node p) = self /\
              agrees pk_of everyone (cache p) }.

Lemma holding_lookup N a p c : procs N !! a = Some (p, c) -> holding N a = Some (settle (node p)).
Proof. intros H. unfold holding, standing. by rewrite H. Qed.

Lemma holding_inv N a n : holding N a = Some n -> exists p c, procs N !! a = Some (p, c) /\ n = settle (node p).
Proof.
  unfold holding, standing. destruct (procs N !! a) as [[p c]|]; [|done]. intros [= <-]. by exists p, c.
Qed.

Lemma reachable_holding N N' a :
  (forall b, NPrivateKey <$> holding N' b = NPrivateKey <$> holding N b) ->
  reachable pk_of N a -> reachable pk_of N' a.
Proof.
  intros H (H1 & H2 & H3 & H4 & p & c & Hp & Hk). do 4 (split; [done|]).
  specialize (H a). rewrite (holding_lookup _ _ _ _ Hp) in H.
  destruct (holding N' a) as [n|] eqn:En; [|done].
  destruct (holding_inv _ _ _ En) as (q & cq & Hq & ->). exists q, cq. split; [done|].
  injection H as Hkey. by rewrite Hkey.
Qed.

Lemma arrive_key k m n : NPrivateKey (arrive k m n) = NPrivateKey n.
Proof. apply arrive_rest. Qed.

Lemma arrive_addr k m n : own_addr (arrive k m n) = own_addr n.
Proof. unfold own_addr. by destruct (arrive_rest k m n) as (-> & -> & _). Qed.

(** What a network holds after a parcel for [dest]. *)
Definition after (x : parcel * string) (N : net) (a : string) : option Node :=
  if decide (a = dest) then arrive x.1 x.2 <$> holding N a else holding N a.

Lemma sent_holding N p chs w :
  procs N !! self = Some (p, chs) -> settle (node (w_st w)) = settle (node p) ->
  forall a, holding (sent_net N self [] w) a = holding N a.
Proof.
  intros Hp Hs a. destruct (decide (a = self)) as [->|Hne].
  - rewrite (holding_lookup _ _ _ _ Hp). unfold holding, standing, sent_net. cbn.
    by rewrite lookup_insert_eq, <- Hs.
  - unfold holding, standing, sent_net. cbn. by rewrite lookup_insert_ne.
Qed.

Lemma carried_holding N N1 N' x :
  (forall a, holding N1 a = holding N a) ->
  (forall a, standing N' a = if decide (a = dest) then on_node (arrive x.1 x.2) <$> standing N1 a
                             else standing N1 a) ->
  forall a, holding N' a = after x N a.
Proof.
  intros H1 H2 a. unfold holding at 1. rewrite H2. unfold after. rewrite <- H1. unfold holding.
  case_decide; [|done]. by destruct (standing N1 a).
Qed.

(** The network after a turn is ready for the next. *)
Lemma ready_after N N' x q cq :
  ready N -> procs N' !! self = Some (q, cq) -> wire N' = [] -> (forall a, holding N' a = after x N a) ->
  agrees pk_of everyone (cache q) ->
  ready N'.
Proof.
  intros [_ Hr (p & chs & Hp & Ha & _)] Hq Hw Hh Hc. split; [done| |].
  - eapply Forall_impl; [exact Hr|]. intros a. apply reachable_holding. intros b. rewrite Hh. unfold after.
    case_decide; [|done]. destruct (holding N b); [|done]. cbn. by rewrite arrive_key.
  - exists q, cq. split; [done|]. split; [|done]. specialize (Hh self).
    rewrite (holding_lookup _ _ _ _ Hq) in Hh. unfold after in Hh.
    rewrite (holding_lookup _ _ _ _ Hp) in Hh.
    change (own_addr (settle (node q)) = self). case_decide; apply (inj Some) in Hh; rewrite Hh; [rewrite arrive_addr|]; done.
Qed.

Hypothesis Hnodes : Forall wf_info nodes.
Hypothesis Hsome : nodes <> [].
Hypothesis Hoffer : offered <> [].

Lemma ready_up N a : reachable pk_of N a -> Network.up N a = true.
Proof. intros (_ & _ & _ & _ & q & cq & Hq & _). apply bool_decide_eq_true_2. rewrite Hq. by eexists. Qed.

Lemma launched_state cands pc message t0 try p chs t c k w :
  launched pk_of cands dest pc message self t0 try p chs t c k w ->
  settle (node (w_st w)) = settle (node p) /\ agrees pk_of (self :: dest :: cands) (cache (w_st w)).
Proof. by intros (? & ? & ? & ? & ? & ? & ? & m & ? & _ & _ & _ & Hag & _ & _ & _ & ->). Qed.

(** The key cache goes through the network untouched. *)
Lemma carried_cache N w x N' q cq :
  (forall a, standing N' a = if decide (a = dest) then on_node (arrive x.1 x.2) <$> standing (sent_net N self [] w) a
                             else standing (sent_net N self [] w) a) ->
  procs N' !! self = Some (q, cq) -> cache q = cache (w_st w).
Proof.
  intros H Hq. specialize (H self). unfold standing, sent_net in H. cbn in H.
  rewrite Hq, lookup_insert_eq in H. by case_decide; injection H.
Qed.

Lemma set_same N (q : Proc) cq cq' a :
  procs N !! self = Some (q, cq) ->
  holding (Net (<[self := (q, cq')]> (procs N)) (wire N)) a = holding N a.
Proof.
  intros Hq. unfold holding, standing. cbn. destruct (decide (a = self)) as [->|Hne].
  - by rewrite lookup_insert_eq, Hq.
  - by rewrite lookup_insert_ne.
Qed.

(** A goroutine's turn, whatever follows it. *)
Lemma one_turn g rest N Q pc message k now :
  g = GoSend dest message (parcel_text pc) k 3 now -> (0 < k)%Z -> parcel_ok pc -> ready N ->
  (forall N', ready N' -> (forall a, holding N' a = after (pc, message) N a) -> in_turn rest N' Q) ->
  in_turn (g :: rest) N Q.
Proof.
  intros -> Hk Hpc Hrd HQ. destruct (Hrd) as [Hw Hr (p & chs & Hp & Ha & Hc)].
  cbn [in_turn]. exists p, chs, pc, message. do 2 (split; [done|]). intros ev (Hup & Hlist & Hdir).
  pose proof (pauses_SendWithRetry ev pk_of _ Hup N 3 dest pc message k 3 0 now p chs [] nodes) as Hsend.
  cbn zeta in Hsend. rewrite Ha in Hsend. fold offered in Hsend.
  eapply pauses_mono; [apply Hsend; try done; intros a; apply ready_up|]. clear Hsend.
  intros c kont w Hl. destruct (launched_state _ _ _ _ _ _ _ _ _ _ _ Hl) as [Hset Hag].
  destruct (launched_delivers pk_of N _ dest pc message _ now 0 p chs [] c kont w Hl)
    as (nacks & msgID & Hposted & Hback); [done..|].
  exists nacks, msgID. split; [done|]. intros Hfr evs Hevs.
  destruct (Hback Hfr evs Hevs) as (N' & q & cq & HN' & Hw' & Hst & Hq & Hrep).
  exists N', q, cq. do 2 (split; [done|]). intros ev'. eapply wp_mono; [apply Hrep|].
  intros [] w' Hw2. split; [done|]. destruct Hw2 as (u & ms & cq' & -> & _). cbn [w_st w_chans].
  assert (Hh : forall a, holding (Net (<[self := (q, cq')]> (procs N')) (wire N')) a = after (pc, message) N a).
  { intros a. rewrite (set_same N' q cq) by done. revert a. eapply carried_holding; [|exact Hst].
    by apply (sent_holding N p chs). }
  apply HQ; [|done]. eapply (ready_after N _ _ q cq'); [done|apply lookup_insert_eq|done|done|].
  by rewrite (carried_cache N w (pc, message) N' q cq).
Qed.

(** ** All the turns *)

Definition sends_parcel (k : Z) (g : goroutine) (x : parcel * string) : Prop :=
  parcel_ok x.1 /\ exists now, g = GoSend dest x.2 (parcel_text x.1) k 3 now.

Definition all_arrive (l : list (parcel * string)) (n : Node) : Node :=
  fold_left (fun n x => arrive x.1 x.2 n) l n.

Lemma all_turns k gs l N Q :
  (0 < k)%Z -> Forall2 (sends_parcel k) gs l -> ready N ->
  (forall N', wire N' = [] ->
     (forall a, holding N' a = if decide (a = dest) then all_arrive l <$> holding N a else holding N a) ->
     Q N') ->
  in_turn gs N Q.
Proof.
  intros Hk Hl. revert N. induction Hl as [|g [pc m] gs l [Hpc (now & ->)] Hl IH]; intros N Hrd HQ.
  - apply HQ; [apply Hrd|]. intros a. case_decide; [|done]. by destruct (holding N a).
  - eapply one_turn; [done|done|done|done|]. intros N' Hrd' Hh. apply IH; [done|]. intros N2 Hw2 Hh2.
    apply HQ; [done|]. intros a. rewrite Hh2, !Hh. unfold after. cbn [all_arrive fold_left].
    case_decide; [|done]. by destruct (holding N a).
Qed.

(** The chunks of a message, in the order [R]. *)
Definition chunk_parcel (fid : string) (chunks : list string) (i : nat) : parcel * string :=
  (Chunk fid (Z.of_nat i + 1) (Z.of_nat (length chunks)), chunks !!! i).

Lemma all_arrive_chunks fid chunks R n :
  all_arrive (chunk_parcel fid chunks <$> R) n = f_steps (chunk_fragment fid chunks <$> R) n.
Proof. revert n. induction R as [|i R IH]; intros n; [done|]. apply IH. Qed.

Lemma chunks_sent fid chunks k gs gs' :
  lacks colon fid -> lacks pipe fid -> (Z.of_nat (length chunks) <= max_int)%Z ->
  Forall2 (fun g j => exists now, g = GoSend dest (chunks !!! j)
    (frag_label fid (Z.of_nat j + 1) (Z.of_nat (length chunks))) k 3 now) gs (seq 0 (length chunks)) ->
  gs' ≡ₚ gs ->
  exists R, R ≡ₚ seq 0 (length chunks) /\ Forall2 (sends_parcel k) gs' (chunk_parcel fid chunks <$> R).
Proof.
  intros Hf Hp Hmax Hgs Hperm. symmetry in Hperm.
  destruct (Permutation_Forall2 Hperm Hgs) as (R & HR & HF). exists R. split; [by symmetry|].
  assert (HRb : Forall (fun j => j < length chunks) R).
  { rewrite <- HR. apply Forall_forall. intros j Hj%elem_of_seq. lia. }
  apply Forall2_fmap_r. clear -HF HRb Hf Hp Hmax. induction HF as [|g j gs R (now & ->) HF IH]; [done|].
  apply Forall_cons_1 in HRb as [Hj HRb]. constructor; [|by apply IH]. split; [|by exists now].
  cbn [chunk_parcel fst parcel_ok]. unfold is_int64, min_int, max_int in *. split_and!; done || lia.
Qed.
End LongSend.
