(* ===== verification/ChatFlow.v ===== *)
(** * Between the page and its node

    How a command of the page reaches a sending goroutine, how the lines the
    node prints come back through the event stream, and what the page makes of
    them. *)

From S2P Require Import Prelude GoStrings JavaScript Hub Dashboard GoMonad Crypto KeyCache Node NodeSpec.
From S2P Require Import OnionBuild Directory Cluster Send SendSpec EndToEnd Commands CommandSpec Web ChatPage ChatPageSpec.

(** ** From a printed line to the page *)

(** The event stream of lines without breaks is these lines. *)
Lemma dispatch_data line rest :
  rest <> [] ->
  dispatch_events (("data: " +:+ line) :: "" :: rest) None "" = line :: dispatch_events rest None "".
Proof.
  intros Hr. destruct rest as [|l rest]; [done|].
  cbn [dispatch_events]. change (String.eqb ("data: " +:+ line) "") with false. cbn iota.
  unfold field. change ("data: " +:+ line) with ("data" +:+ String colon (" " +:+ line)).
  rewrite SplitN_app, SplitN_1 by done. cbn iota. unfold TrimPrefix. rewrite HasPrefix_app, str_drop_app. done.
Qed.

Lemma stream_of_frames ls :
  Forall (fun l => lacks nl l /\ lacks cr l) ls -> event_stream (frames ls) = ls.
Proof.
  unfold event_stream. induction 1 as [|l ls [Hn Hc] _ IH]; [done|].
  cbn [frames]. unfold log_frame. change " " with (str1 " "). rewrite ReplaceAll_byte, replace_nothing by done.
  rewrite !app_str_assoc. change (str1 nl +:+ str1 nl +:+ frames ls) with (String nl (String nl (frames ls))).
  rewrite <- app_str_assoc, stream_lines_line by (by apply lacks_app).
  change (String nl (frames ls)) with ("" +:+ String nl (frames ls)).
  rewrite stream_lines_line by apply lacks_nil.
  rewrite dispatch_data by apply stream_lines_not_nil. by rewrite IH.
Qed.

(** The log lines of a page. *)
Definition read_log (bytes : string) (p : page) : page :=
  foldl (fun p line => appendLog line p) p (event_stream bytes).

(** ** Results *)

(** The verdicts of the senders. *)
Definition verdicts : list string := ["ACK"; "TIMEOUT"; "ABANDON"].
Definition result_label (label : string) : Prop := label = "RESULT" \/ label = "RESULT_SUPER".

(** A text that stays on its line and within its field. *)
Definition clean (s : string) : Prop := lacks pipe s /\ lacks nl s /\ lacks cr s.

Lemma result_matched label dest verdict try ms :
  result_label label -> lacks pipe dest -> dest <> "" -> verdict ∈ verdicts ->
  match_start resultM (result label dest verdict try ms) = Some [dest; verdict].
Proof.
  intros Hl Hd Hne Hv. unfold match_start, resultM, result.
  set (tail := Itoa try +:+ "|" +:+ Itoa ms +:+ "ms"). generalize (label +:+ "|" +:+ dest +:+ "|" +:+ verdict +:+ "|" +:+ tail) at 1.
  intros from.
  assert (Hrest : forall from, match_here [Lit "|"; GroupOpen; Plus (not_byte pipe); GroupClose; Lit "|"; GroupOpen; Plus upper; GroupClose; Lit "|"]
    from ("|" +:+ dest +:+ "|" +:+ verdict +:+ "|" +:+ tail) = Some [dest; verdict]).
  { intros from'. rewrite match_lit. change (dest +:+ "|" +:+ ?x) with (dest +:+ String pipe x).
    apply match_group_until; [done|done|].
    change (String pipe (verdict +:+ "|" +:+ tail)) with ("|" +:+ verdict +:+ "|" +:+ tail). rewrite match_lit.
    change (verdict +:+ "|" +:+ tail) with (verdict +:+ ("|" +:+ tail)).
    assert (Hup : sforall (fun a => let n := nat_of_ascii a in (65 <=? n) && (n <=? 90)) verdict = true /\ verdict <> "").
    { unfold verdicts in Hv. repeat (apply elem_of_cons in Hv as [->|Hv]; [done|]). by apply not_elem_of_nil in Hv. }
    destruct Hup as [Hup Hvn]. apply match_group_class; [exact Hup|done|done|]. by rewrite match_lit. }
  destruct Hl as [-> | ->].
  - rewrite match_lit, match_skip by done. apply Hrest.
  - change ("RESULT_SUPER" +:+ ?x) with ("RESULT" +:+ "_SUPER" +:+ x). rewrite match_lit. apply match_maybe, Hrest.
Qed.

Lemma result_clean label dest verdict try ms :
  result_label label -> clean dest -> verdict ∈ verdicts ->
  lacks nl (result label dest verdict try ms) /\ lacks cr (result label dest verdict try ms).
Proof.
  intros Hl (_ & Hn & Hc) Hv. unfold result.
  assert (Hvl : lacks nl verdict /\ lacks cr verdict).
  { unfold verdicts in Hv. repeat (apply elem_of_cons in Hv as [->|Hv]; [done|]). by apply not_elem_of_nil in Hv. }
  destruct Hvl. split; repeat (apply lacks_app_2); try done; try (by apply Itoa_lacks); by destruct Hl as [-> | ->].
Qed.

(** The mark a verdict puts on the newest pending message. *)
Definition status_of (verdict : string) : string := if String.eqb verdict "ACK" then "ok" else "fail".

Lemma appendLog_result label dest verdict try ms p :
  result_label label -> lacks pipe dest -> dest <> "" -> verdict ∈ verdicts ->
  appendLog (result label dest verdict try ms) p =
  updateLastPending dest (status_of verdict) (set_logsDiv (logsDiv p ++ [result label dest verdict try ms]) p).
Proof. intros. unfold appendLog. cbn zeta. by rewrite result_matched. Qed.

Lemma mark_newest_spec status l1 m l2 :
  is_pending m = true -> settled_conv l2 ->
  mark_newest status (length (l1 ++ m :: l2)) (l1 ++ m :: l2) = l1 ++ set_status status m :: l2.
Proof.
  intros Hm Hl. rewrite length_app. cbn [length].
  replace (length l1 + S (length l2)) with (length (l1 ++ [m]) + length l2) by (rewrite length_app; cbn; lia).
  assert (H : forall l3 l4, l2 = l3 ++ l4 ->
    mark_newest status (length (l1 ++ [m]) + length l3) (l1 ++ m :: l2) = l1 ++ set_status status m :: l2).
  { induction l3 as [|x l3 IH] using rev_ind; intros l4 Heq; cbn [length].
    - rewrite length_app, Nat.add_0_r. cbn [length]. rewrite Nat.add_1_r. cbn [mark_newest].
      rewrite list_lookup_middle by done. rewrite Hm. by rewrite insert_app_r_alt, Nat.sub_diag by lia.
    - rewrite (length_app l3), Nat.add_assoc. cbn [length]. rewrite Nat.add_1_r. cbn [mark_newest].
      assert (Hx : (l1 ++ m :: l2) !! (length (l1 ++ [m]) + length l3) = Some x).
      { rewrite Heq. replace (l1 ++ m :: (l3 ++ [x]) ++ l4) with (((l1 ++ [m]) ++ l3) ++ x :: l4)
          by (rewrite <- !app_assoc; done).
        apply list_lookup_middle. by rewrite (length_app (l1 ++ [m])). }
      rewrite Hx. assert (is_pending x = false) as ->.
      { rewrite Heq in Hl. unfold settled_conv in Hl. rewrite !Forall_app, Forall_singleton in Hl. tauto. }
      apply (IH (x :: l4)). by rewrite Heq, <- app_assoc. }
  apply (H l2 []). by rewrite app_nil_r.
Qed.

(** What a result does to the page: the newest pending message of that
    conversation is marked, on the screen too. *)
Lemma result_marks label dest verdict try ms p l1 m l2 :
  result_label label -> lacks pipe dest -> dest <> "" -> verdict ∈ verdicts ->
  conv p dest = l1 ++ m :: l2 -> is_pending m = true -> settled_conv l2 ->
  conv (appendLog (result label dest verdict try ms) p) dest = l1 ++ set_status (status_of verdict) m :: l2.
Proof.
  intros Hl Hd Hne Hv Hc Hm Hs. rewrite appendLog_result by done.
  unfold updateLastPending. cbn [set_logsDiv conversations].
  unfold conv in Hc. destruct (conversations p !! dest) as [l|] eqn:E; [|by destruct l1].
  cbn in Hc. subst l. cbn zeta.
  transitivity (conv (set_conversations (<[dest := mark_newest (status_of verdict) (length (l1 ++ m :: l2)) (l1 ++ m :: l2)]>
    (conversations p)) p) dest); [by case_match|].
  unfold conv. cbn. rewrite lookup_insert_eq. cbn. by apply mark_newest_spec.
Qed.

(** No pending message, nothing to mark. *)
Lemma mark_none status i l : settled_conv l -> mark_newest status i l = l.
Proof.
  intros Hl. induction i as [|i IH]; [done|]. cbn. destruct (l !! i) as [m|] eqn:E; [|done].
  unfold settled_conv in Hl. rewrite Forall_forall in Hl. by rewrite (Hl m (list_elem_of_lookup_2 _ _ _ E)).
Qed.

Lemma result_too_late label dest verdict try ms p :
  result_label label -> lacks pipe dest -> dest <> "" -> verdict ∈ verdicts ->
  settled_conv (conv p dest) ->
  conv (appendLog (result label dest verdict try ms) p) dest = conv p dest.
Proof.
  intros Hl Hd Hne Hv Hs. rewrite appendLog_result by done. unfold updateLastPending. cbn [set_logsDiv conversations].
  unfold conv in Hs. destruct (conversations p !! dest) as [l|] eqn:E; [|done]. cbn zeta. cbn in Hs.
  rewrite mark_none by done.
  transitivity (conv (set_conversations (<[dest := l]> (conversations p)) p) dest); [by case_match|].
  unfold conv. cbn. by rewrite lookup_insert_eq, E.
Qed.

(** ** From the page to a goroutine *)

Section Posted.
Context {C : CryptoLib} {G : GoSort} {L : CryptoLaws C}.

(** What the command for [text] asks for, and the label of its result. *)
Definition job_of (f : form) (group : string) (n : peer) (sender text : string) (now : Z) : goroutine :=
  let message := auth (mode_select f) sender text in
  if String.eqb (send_type f) "ssend"
  then GoSendSuper (peer_key n) message (atoi_val (relay_count f)) (atoi_val group) 3 now
  else GoSend (peer_key n) message "" (atoi_val (relay_count f)) 3 now.
Definition label_of (f : form) : string :=
  if String.eqb (send_type f) "ssend" then "RESULT_SUPER" else "RESULT".

Lemma label_of_ok f : result_label (label_of f).
Proof. unfold label_of. case_match; [by right|by left]. Qed.

Lemma fields_5 grp nbr ip port message :
  lacks colon grp -> lacks colon nbr -> lacks colon ip -> lacks colon port ->
  SplitN (grp +:+ ":" +:+ nbr +:+ ":" +:+ ip +:+ ":" +:+ port +:+ ":" +:+ message) colon 5
  = [grp; nbr; ip; port; message].
Proof.
  intros Hg Hn Hi Hp. rewrite !(app_str_cons ":"), !app_str_nil_l.
  do 4 (rewrite SplitN_app by done). by rewrite SplitN_1.
Qed.

(** The inputs of the page: a relay count that is a number, the two modes. *)
Definition form_ok (f : form) : Prop :=
  (exists k, Atoi (relay_count f) = (k, None)) /\ lacks colon (relay_count f) /\
  TrimSpace (mode_select f) = mode_select f.
Definition peer_ok (n : peer) : Prop := lacks colon (p_ip n) /\ lacks colon (p_port n).

Lemma wp_posted (ev : env Proc) p n text q c t Q :
  form_ok (inputs p) -> peer_ok n -> TrimSpace (command p n text) = command p n text ->
  (forall now, Q tt (World q [] c (t ++ [EvNow now;
     EvSpawn (job_of (inputs p) (group_size p) n (ID (node q)) text now)]))) ->
  wp ev (handleCmd (command p n text) (mode_select (inputs p))) (World q [] c t) Q.
Proof.
  intros ([k Hk] & Hr & Hm) [Hi Hp] Htrim HQ. unfold handleCmd. rewrite Htrim, Hm.
  unfold processCmd, command, job_of in *. destruct (String.eqb (send_type (inputs p)) "ssend").
  - set (data := group_size p +:+ ":" +:+ relay_count (inputs p) +:+ ":" +:+ p_ip n +:+ ":" +:+ p_port n +:+ ":" +:+ text).
    change (String.eqb ("SSEND:" +:+ data) "") with false. cbn iota.
    change ("SSEND:" +:+ data) with ("SSEND" +:+ String colon data).
    rewrite SplitN_app, SplitN_1 by done. cbn zeta.
    change (ToUpper (TrimSpace "SSEND")) with "SSEND". unfold node_address. wp_steps. cbn [String.eqb Ascii.eqb Bool.eqb].
    unfold web_SSEND. unfold data. rewrite fields_5 by (done || by apply Itoa_lacks). cbn zeta.
    apply wp_bind, wp_sign. wp_steps.
    rewrite <- app_assoc. apply HQ.
  - set (data := relay_count (inputs p) +:+ ":" +:+ p_ip n +:+ ":" +:+ p_port n +:+ ":" +:+ text).
    change (String.eqb ("SEND:" +:+ data) "") with false. cbn iota.
    change ("SEND:" +:+ data) with ("SEND" +:+ String colon data).
    rewrite SplitN_app, SplitN_1 by done. cbn zeta.
    change (ToUpper (TrimSpace "SEND")) with "SEND". unfold node_address. wp_steps. cbn [String.eqb Ascii.eqb Bool.eqb].
    unfold web_SEND. unfold data. rewrite fields_4 by done. rewrite Hk. cbn zeta.
    apply wp_bind, wp_sign. wp_steps.
    rewrite <- app_assoc. unfold atoi_val in HQ. rewrite Hk in HQ. apply HQ.
Qed.

(** [sendMessage] with a node selected: the message is shown as pending and the
    command is posted. *)
Lemma sendMessage_posts p n :
  page_ok p -> selectedNode p = Some n -> js_trim (msg_input (inputs p)) <> "" ->
  exists p', sendMessage p =
      (p', Some (MkRequest (command p n (js_trim (msg_input (inputs p)))) (mode_select (inputs p)))) /\
    page_ok p' /\ selectedNode p' = Some n /\ knownNodes p' = knownNodes p /\
    conv p' (peer_key n) = conv p (peer_key n) ++
      [new_message "me" (js_trim (msg_input (inputs p))) "pending" (mode_select (inputs p)) ""
         (send_type (inputs p)) p].
Proof.
  intros Hp Hn Ht. destruct (selected_known p n Hp Hn) as (Hk & [v Hv] & Hb).
  assert (Hok := page_sendMessage p Hp). unfold sendMessage in *. cbn zeta in *. rewrite Hn in *.
  apply String.eqb_neq in Ht. rewrite Ht, Hb in *. fold (peer_key n) in *. rewrite Hv in *. cbn [orb fst] in *.
  eexists. split; [reflexivity|]. split; [exact Hok|].
  match goal with |- context [addMessage ?k ?a ?b ?c ?d ?e ?f ?q] =>
    assert (Hc := conv_addMessage k a b c d e f q k); assert (Hnv := nav_addMessage k a b c d e f q);
    generalize dependent (addMessage k a b c d e f q) end.
  intros q _ Hc Hnv. rewrite decide_True in Hc by done. unfold nav in Hnv. injection Hnv as E1 _ E3 _ _.
  split; [by rewrite <- Hn, <- E1|]. split; [by rewrite <- E3|]. exact Hc.
Qed.

(** What [handleNodes] answers with a directory that has [nodes], and when
    there is no answer. *)
Lemma wp_handleNodes (ev : env Proc) q c t nodes Q :
  e_request ev (length t) ("GET_LIST" +:+ str1 nl) = Some (list_answer nodes) ->
  nodes <> [] -> Forall wf_info nodes ->
  (forall u, Q (TrimSpace (list_answer nodes)) (World q [] c (t ++ u))) ->
  wp ev handleNodes (World q [] c t) Q.
Proof.
  intros Hr Hne Hw HQ. unfold handleNodes, Node.GetNodesList. wp_steps. rewrite Hr. wp_steps.
  assert (String.eqb (TrimSpace (list_answer nodes)) "" = false) as -> by (by rewrite list_answer_trim).
  apply HQ.
Qed.

Lemma wp_handleNodes_failed (ev : env Proc) q c t Q :
  e_request ev (length t) ("GET_LIST" +:+ str1 nl) = None ->
  (forall u, Q "LIST:empty" (World q [] c (t ++ u))) ->
  wp ev handleNodes (World q [] c t) Q.
Proof.
  intros Hr HQ. unfold handleNodes, Node.GetNodesList. wp_steps. rewrite Hr. wp_steps. apply HQ.
Qed.

(** The entries the page reads in the list of the directory. *)
Definition peer_of (i : NodeInfo) : peer := Peer (Name i) (Ip i) (Itoa (IPort i)).

Lemma parse_peer_entry i : wf_info i -> parse_peer (list_entry i) = Some (peer_of i).
Proof.
  intros Hi. unfold parse_peer. rewrite js_trim_graphic by (by apply list_entry_graphic).
  rewrite list_entry_join, Split_Join; [done|done|].
  eapply Forall_impl; [by apply entry_fields_ok|by intros ? (? & _)].
Qed.

Lemma listed_peers_answer nodes :
  nodes <> [] -> Forall wf_info nodes -> listed_peers (TrimSpace (list_answer nodes)) = peer_of <$> nodes.
Proof.
  intros Hne Hw. unfold listed_peers. assert (He := entries_of_list nodes Hne Hw).
  unfold TrimPrefix in He. rewrite list_answer_trim in * by done.
  rewrite HasPrefix_app in *. change (String.length "LIST:") with 5 in He. rewrite He.
  assert (String.eqb ("LIST:" +:+ Join (list_entry <$> nodes) comma) "LIST:empty" = false) as ->.
  { apply String.eqb_neq. intros Heq. destruct nodes as [|i nodes]; [done|].
    assert (Hl : lacks GoStrings.pipe ("LIST:" +:+ Join (list_entry <$> i :: nodes) comma)) by (by rewrite Heq).
    apply lacks_app in Hl as [_ Hl]. unfold lacks in Hl. cbn [fmap list_fmap] in Hl.
    rewrite Contains_Join in Hl; [done|]. unfold list_entry.
    change ("|" +:+ ?x) with (String GoStrings.pipe x). apply Contains_app. }
  cbn [negb andb]. rewrite andb_true_r. change (String.eqb ("LIST:" +:+ ?x) "") with false. cbn [negb]. clear -Hw. induction Hw as [|i nodes Hi Hw IH]; [done|].
  cbn [fmap list_fmap omap list_omap]. by rewrite parse_peer_entry, IH.
Qed.

Lemma peer_key_of i : peer_key (peer_of i) = node_addr i.
Proof. done. Qed.

Lemma peer_keys_of (nodes : list NodeInfo) : peer_key <$> (peer_of <$> nodes) = node_addr <$> nodes.
Proof. by rewrite <- list_fmap_compose. Qed.
End Posted.
