(* ===== verification/NodeConcurrency.v ===== *)
(** * The goroutines of a node, side by side

    Every program of the node is guarded (file Concurrency): it keeps the lock
    discipline, and any invariant that the elementary updates of the process
    keep. *)

From S2P Require Import Prelude GoStrings Base64 GoMonad Concurrency Crypto OnionLayer KeyCache Node.
From S2P Require Import Fragments OnionBuild Directory Cluster Send Commands.

(** The updates of the process by the goroutines that send ... *)
Record sends_stable {C : CryptoLib} (I : Proc -> Prop) : Prop := {
  st_acks f p : I p -> I (on_node (upd_PendingACKs f) p);
  st_cache m p : I p -> I (MkProc (node p) m) }.

(** ... and all those the code makes while it serves. *)
Record stable {C : CryptoLib} (I : Proc -> Prop) : Prop := {
  st_sends : sends_stable I;
  st_relays f p : I p -> I (on_node (upd_PendingRelays f) p);
  st_frag_init p : I p -> I (on_node frag_init p);
  st_frag_open i n p : I p -> I (on_node (frag_open i n) p);
  st_frag_store i n m p : I p -> I (on_node (frag_store i n m) p);
  st_frag_drop i p : I p -> I (on_node (frag_drop i) p);
  st_seen m p : I p -> I (on_node (set_SeenMsgs m) p);
  st_received m p : I p -> I (on_node (add_received m) p);
  st_keys sk p : I p -> I (on_node (set_keys sk (Public sk)) p) }.

Section Senders.
Context {C : CryptoLib} {G : GoSort}.
Variable I : Proc -> Prop.
Variable fresh : nat -> Prop.
Hypothesis HS : sends_stable I.

Abbreviation bal := (balanced I fresh).

(** ** Library of identifiers and encryption *)

Lemma bal_gen_digits n s : bal (gen_digits n s).
Proof.
  revert s. induction n as [|n IH]; intros s; cbn [gen_digits]; bal_steps.
Qed.

Lemma bal_GenerateMsgID s : bal (GenerateMsgID s).
Proof. apply bal_gen_digits. Qed.
Hint Resolve bal_GenerateMsgID : dor_bal.

Lemma bal_EncryptAES k m : bal (EncryptAES k m).
Proof. unfold EncryptAES. bal_steps. Qed.
Hint Resolve bal_EncryptAES : dor_bal.

Lemma bal_encrypt_keys k pks cts : bal (encrypt_keys k pks cts).
Proof. revert cts. induction pks as [|pk pks IH]; intros cts; cbn [encrypt_keys]; bal_steps. Qed.
Hint Resolve bal_encrypt_keys : dor_bal.

Lemma bal_BroadcastEncrypt m pks : bal (BroadcastEncrypt m pks).
Proof. unfold BroadcastEncrypt. bal_steps. Qed.
Lemma bal_encryptForNode m pk : bal (encryptForNode m pk).
Proof. unfold encryptForNode. bal_steps. Qed.
Hint Resolve bal_BroadcastEncrypt bal_encryptForNode : dor_bal.

Ltac sections :=
  unfold balanced; each_steps; try (first [apply (st_acks I HS) | apply (st_cache I HS)]; assumption).

(** ** Key cache *)

Lemma bal_cache_get k : bal (cache_get k).
Proof. unfold cache_get. by sections. Qed.

Lemma bal_cache_set k v : bal (cache_set k v).
Proof. unfold cache_set. by sections. Qed.

Lemma bal_cleanCache_pass : bal cleanCache_pass.
Proof. unfold cleanCache_pass. by sections. Qed.
Hint Resolve bal_cache_get bal_cache_set : dor_bal.

Lemma bal_FetchKeyFromServer a : bal (FetchKeyFromServer a).
Proof. unfold FetchKeyFromServer. bal_steps. Qed.
Hint Resolve bal_FetchKeyFromServer : dor_bal.

Lemma bal_refresh_keys l : bal (refresh_keys l).
Proof. induction l as [|a l IH]; cbn [refresh_keys]; bal_steps. Qed.
Hint Resolve bal_refresh_keys : dor_bal.

(** ** Network *)

Lemma bal_SendTo a m : bal (SendTo a m).
Proof.
  unfold SendTo. bal_steps. apply bal_trigger; [|done]. split; [|done]. cbn.
  by apply Z.ltb_lt.
Qed.
Hint Resolve bal_SendTo : dor_bal.

Lemma bal_send_first l m : bal (send_first l m).
Proof. induction l as [|a l IH]; cbn [send_first]; bal_steps. Qed.
Hint Resolve bal_send_first : dor_bal.

Lemma bal_GetNodesList : bal Node.GetNodesList.
Proof. unfold Node.GetNodesList. bal_steps. Qed.

Lemma bal_Stop : bal Stop.
Proof. unfold Stop. bal_steps. Qed.
Hint Resolve bal_GetNodesList bal_Stop : dor_bal.

(** ** Building onions *)

Lemma bal_layers_loop route sender nacks i payload : bal (layers_loop route sender nacks i payload).
Proof.
  revert payload. induction i as [|i IH]; intros payload; cbn [layers_loop]; [bal_steps|].
  bal_steps.
Qed.
Hint Resolve bal_layers_loop : dor_bal.

Lemma bal_encryptOnionLayers inner route sender nacks : bal (encryptOnionLayers inner route sender nacks).
Proof. unfold encryptOnionLayers. bal_steps. Qed.
Hint Resolve bal_encryptOnionLayers : dor_bal.

Lemma bal_gen_nacks n l : bal (gen_nacks n l).
Proof. revert l. induction n as [|n IH]; intros l; cbn [gen_nacks]; bal_steps. Qed.
Hint Resolve bal_gen_nacks : dor_bal.

Lemma bal_Encapsulator_func message frag route returnRoute sender :
  bal (Encapsulator_func message frag route returnRoute sender).
Proof. unfold Encapsulator_func. bal_steps. Qed.

Lemma bal_group_loop route sender nacks i payload : bal (group_loop route sender nacks i payload).
Proof. revert payload. induction i as [|i IH]; intros payload; cbn [group_loop]; bal_steps. Qed.
Hint Resolve bal_group_loop : dor_bal.

Lemma bal_encryptOnionLayersGroup inner route sender nacks :
  bal (encryptOnionLayersGroup inner route sender nacks).
Proof. unfold encryptOnionLayersGroup. bal_steps. Qed.
Hint Resolve bal_encryptOnionLayersGroup : dor_bal.

Lemma bal_Encapsulator_func_super message route returnRoute sender :
  bal (Encapsulator_func_super message route returnRoute sender).
Proof. unfold Encapsulator_func_super. bal_steps. Qed.
Hint Resolve bal_Encapsulator_func bal_Encapsulator_func_super : dor_bal.

(** ** Groups of relays *)

Lemma bal_deal_heads fuel numHops i sorted d : bal (deal_heads fuel numHops i sorted d).
Proof.
  revert i sorted d. induction fuel as [|fuel IH]; intros i sorted d; cbn [deal_heads]; bal_steps.
Qed.

Lemma bal_deal_rest sorted d : bal (deal_rest sorted d).
Proof. revert d. induction sorted as [|n sorted IH]; intros d; cbn [deal_rest]; bal_steps. Qed.

Lemma bal_shuffle_group i g : bal (shuffle_group i g).
Proof.
  revert g. induction i as [|i IH]; intros g; cbn [shuffle_group]; [bal_steps|].
  apply bal_bind; [|intros; bal_steps]. apply bal_trigger; [|done]. split; [cbn; lia|done].
Qed.
Hint Resolve bal_deal_heads bal_deal_rest bal_shuffle_group : dor_bal.

Lemma bal_shuffle_groups gs : bal (shuffle_groups gs).
Proof. induction gs as [|g gs IH]; cbn [shuffle_groups]; bal_steps. Qed.
Hint Resolve bal_shuffle_groups : dor_bal.

Lemma bal_BuildSmartClusters nodes numHops blacklist : bal (BuildSmartClusters nodes numHops blacklist).
Proof. unfold BuildSmartClusters. bal_steps. Qed.
Hint Resolve bal_BuildSmartClusters : dor_bal.

(** ** Sending *)

Lemma bal_Telemetry from to ty msg exid hop : bal (Telemetry from to ty msg exid hop).
Proof. unfold Telemetry. bal_steps. Qed.
Hint Resolve bal_Telemetry : dor_bal.

Lemma bal_telemetry_hops r exid i : bal (telemetry_hops r exid i).
Proof.
  revert i. induction r as [|a r IH]; intros i; [apply bal_ret|].
  destruct r as [|b r]; [apply bal_ret|]. remember (b :: r) as rest eqn:E.
  cbn [telemetry_hops]. rewrite E, <- E. bal_steps.
Qed.
Hint Resolve bal_telemetry_hops : dor_bal.

Lemma bal_telemetry_forward a kind m exid r : bal (telemetry_forward a kind m exid r).
Proof. unfold telemetry_forward. bal_steps. Qed.

Lemma bal_register_ack m n ch : bal (register_ack m n ch).
Proof. unfold register_ack. by sections. Qed.

Lemma bal_forget_ack m n : bal (forget_ack m n).
Proof. unfold forget_ack. by sections. Qed.
Hint Resolve bal_telemetry_forward bal_register_ack bal_forget_ack : dor_bal.

Lemma bal_since_ms t : bal (since_ms t).
Proof. unfold since_ms. bal_steps. Qed.
Lemma bal_node_address : bal node_address.
Proof. unfold node_address. bal_steps. Qed.
Hint Resolve bal_since_ms bal_node_address : dor_bal.

Lemma bal_select c : fresh c -> bal (trigger (ESelect c)).
Proof. intros Hc. by apply bal_trigger. Qed.
Hint Resolve bal_select : dor_bal.

Lemma bal_await_ack retry d a f m n ch t s :
  fresh ch -> bal retry -> bal (await_ack retry d a f m n ch t s).
Proof. intros Hc Hr. unfold await_ack. bal_steps. Qed.
Hint Resolve bal_await_ack : dor_bal.

Lemma bal_send_onion retry d msg a route onion m n t s :
  bal retry -> bal (send_onion retry d msg a route onion m n t s).
Proof. intros Hr. unfold send_onion. bal_steps. Qed.
Hint Resolve bal_send_onion : dor_bal.

Lemma bal_SendWithRetry fuel d msg frag nr mr t s : bal (SendWithRetry fuel d msg frag nr mr t s).
Proof.
  revert nr t. induction fuel as [|fuel IH]; intros nr t; cbn [SendWithRetry]; cbn zeta; bal_steps.
Qed.

Lemma bal_super_candidates entries a d l : bal (super_candidates entries a d l).
Proof.
  revert l. induction entries as [|e entries IH]; intros l; cbn [super_candidates]; cbn zeta; bal_steps.
Qed.

Lemma bal_try_group addrs onion failed : bal (try_group addrs onion failed).
Proof. revert failed. induction addrs as [|a addrs IH]; intros failed; cbn [try_group]; bal_steps. Qed.

Lemma bal_first_addrs r : bal (first_addrs r).
Proof. induction r as [|g r IH]; cbn [first_addrs]; bal_steps. Qed.
Hint Resolve bal_super_candidates bal_try_group bal_first_addrs : dor_bal.

Lemma bal_send_onion_super retry d msg a route onion m n t s failed :
  (forall l, bal (retry l)) -> bal (send_onion_super retry d msg a route onion m n t s failed).
Proof. intros Hr. unfold send_onion_super. bal_steps. Qed.
Hint Resolve bal_send_onion_super : dor_bal.

Lemma bal_read_key {A B} (g : Proc -> B) (f : B -> prog Proc A) :
  (forall x, bal (f x)) -> bal (RLock KeyMu ;; x ← read KeyMu g; RUnlock KeyMu ;; f x).
Proof. intros Hf. by sections. Qed.

Lemma bal_SendWithRetrySuper fuel d msg nh gs mr t s failed :
  bal (SendWithRetrySuper fuel d msg nh gs mr t s failed).
Proof.
  revert nh t failed. induction fuel as [|fuel IH]; intros nh t failed;
    cbn [SendWithRetrySuper]; cbn zeta; bal_steps.
  apply bal_read_key. intros pk. bal_steps.
Qed.
Hint Resolve bal_SendWithRetry bal_SendWithRetrySuper : dor_bal.

Lemma bal_body g : bal (body g).
Proof. destruct g; cbn [body]; bal_steps. Qed.

(** ** Commands *)

Lemma bal_cli_FETCH a : bal (cli_FETCH a).
Proof. unfold cli_FETCH, Println. bal_steps. Qed.

Lemma bal_web_FETCH a : bal (web_FETCH a).
Proof. unfold web_FETCH, Println. bal_steps. Qed.

Lemma bal_sign mode msg : bal (sign mode msg).
Proof. unfold sign. bal_steps. Qed.
Hint Resolve bal_sign : dor_bal.

Lemma bal_cli_MSG data : bal (cli_MSG data).
Proof. unfold cli_MSG, Println. bal_steps. Qed.

Lemma bal_web_MSG nodeAddr mode data : bal (web_MSG nodeAddr mode data).
Proof. unfold web_MSG, Println. bal_steps. Qed.

Lemma bal_cli_RELAY data : bal (cli_RELAY data).
Proof. unfold cli_RELAY, Println. bal_steps. Qed.

Lemma bal_web_RELAY nodeAddr mode data : bal (web_RELAY nodeAddr mode data).
Proof. unfold web_RELAY, Println. bal_steps. Qed.

Lemma bal_spawn_chunks d f nr chunks i n : bal (spawn_chunks d f nr chunks i n).
Proof. revert i. induction chunks as [|c chunks IH]; intros i; cbn [spawn_chunks]; bal_steps. Qed.
Hint Resolve bal_spawn_chunks : dor_bal.

Lemma bal_cli_SEND data : bal (cli_SEND data).
Proof. unfold cli_SEND, Println. bal_steps. Qed.

Lemma bal_web_SEND mode data : bal (web_SEND mode data).
Proof. unfold web_SEND, Println. bal_steps. Qed.

Lemma bal_cli_SSEND data : bal (cli_SSEND data).
Proof. unfold cli_SSEND, Println. bal_steps. Qed.

Lemma bal_web_SSEND mode data : bal (web_SSEND mode data).
Proof. unfold web_SSEND, Println. bal_steps. Qed.

Lemma bal_for_loop n i once : (forall i, bal (once i)) -> bal (for_loop n i once).
Proof. intros Ho. revert i. induction n as [|n IH]; intros i; cbn [for_loop]; bal_steps. Qed.

Lemma bal_cli_BENCH data : bal (cli_BENCH data).
Proof. unfold cli_BENCH, Println. bal_steps. apply bal_for_loop; intros; bal_steps. Qed.

Lemma bal_web_BENCH data : bal (web_BENCH data).
Proof. unfold web_BENCH, Println. bal_steps. apply bal_for_loop; intros; bal_steps. Qed.

Lemma bal_cli_SBENCH data : bal (cli_SBENCH data).
Proof. unfold cli_SBENCH, Println. bal_steps. apply bal_for_loop; intros; bal_steps. Qed.

Lemma bal_web_SBENCH data : bal (web_SBENCH data).
Proof. unfold web_SBENCH, Println. bal_steps. apply bal_for_loop; intros; bal_steps. Qed.

Lemma bal_cli_LIST : bal cli_LIST.
Proof. unfold cli_LIST, Println. bal_steps. Qed.

Lemma bal_web_LIST : bal web_LIST.
Proof. unfold web_LIST, Println. bal_steps. Qed.

End Senders.

#[local] Hint Resolve bal_GenerateMsgID bal_EncryptAES bal_encrypt_keys bal_BroadcastEncrypt
  bal_encryptForNode bal_cache_get bal_cache_set bal_cleanCache_pass bal_FetchKeyFromServer
  bal_refresh_keys bal_SendTo bal_send_first bal_GetNodesList bal_Stop bal_layers_loop
  bal_encryptOnionLayers bal_gen_nacks bal_Encapsulator_func bal_group_loop
  bal_encryptOnionLayersGroup bal_Encapsulator_func_super bal_deal_heads bal_deal_rest
  bal_shuffle_group bal_shuffle_groups bal_BuildSmartClusters bal_Telemetry bal_telemetry_hops
  bal_telemetry_forward bal_register_ack bal_forget_ack bal_since_ms bal_node_address
  bal_SendWithRetry bal_super_candidates bal_try_group bal_first_addrs bal_SendWithRetrySuper
  bal_body bal_sign bal_cli_MSG bal_web_MSG bal_cli_RELAY bal_web_RELAY bal_spawn_chunks bal_cli_SEND
  bal_web_SEND bal_cli_SSEND bal_web_SSEND bal_cli_FETCH bal_web_FETCH bal_cli_BENCH bal_web_BENCH
  bal_cli_SBENCH bal_web_SBENCH bal_cli_LIST bal_web_LIST : dor_bal.

Section Handlers.
Context {C : CryptoLib} {G : GoSort}.
Variable I : Proc -> Prop.
Variable fresh : nat -> Prop.
Hypothesis HI : stable I.
Let HS : sends_stable I := st_sends I HI.

Abbreviation bal := (balanced I fresh).

Ltac stable_step :=
  first [ apply (st_acks I HS) | apply (st_relays I HI) | apply (st_frag_init I HI)
        | apply (st_frag_open I HI) | apply (st_frag_store I HI) | apply (st_frag_drop I HI)
        | apply (st_received I HI) | apply (st_keys I HI) | apply (st_seen I HI) ]; assumption.

Ltac sections := unfold balanced; each_steps; try stable_step.

(** ** The connection handler *)

Lemma seen_init s :
  I s -> I (on_node (fun n => match SeenMsgs n with None => set_SeenMsgs (Some ∅) n | Some _ => n end) s).
Proof.
  intros Hs. destruct (SeenMsgs (node s)) eqn:E.
  - destruct s as [n c]. unfold on_node. cbn in *. by rewrite E.
  - pose proof (st_seen I HI (Some ∅) s Hs) as H. unfold on_node in *. cbn in *. by rewrite E.
Qed.

Lemma bal_seenMsg id : bal (seenMsg id).
Proof. unfold seenMsg. sections. by apply seen_init. Qed.
Hint Resolve bal_seenMsg : dor_bal.

Lemma bal_evict_pass : bal evict_pass.
Proof. unfold evict_pass. by sections. Qed.

Lemma bal_getpubkey : bal handle_getpubkey.
Proof. unfold handle_getpubkey. by sections. Qed.

Lemma bal_nack id : bal (handle_nack id).
Proof. unfold handle_nack. by sections. Qed.

Lemma bal_relay l : bal (handle_relay l).
Proof. unfold handle_relay. by sections. Qed.

Lemma bal_receive m : bal (receive m).
Proof. unfold receive. by sections. Qed.
Hint Resolve bal_receive : dor_bal.

Lemma bal_frag l : bal (handle_frag l).
Proof. unfold handle_frag. cbn zeta. by sections. Qed.
Hint Resolve bal_frag : dor_bal.

Lemma bal_send_ack l : bal (send_ack l).
Proof. unfold send_ack. bal_steps. Qed.
Hint Resolve bal_send_ack : dor_bal.

Lemma bal_final l : bal (handle_final l).
Proof. unfold handle_final. bal_steps. Qed.

Lemma bal_ack l : bal (handle_ack l).
Proof. unfold handle_ack. by sections. Qed.
Hint Resolve bal_getpubkey bal_nack bal_relay bal_final bal_ack : dor_bal.

Lemma bal_dispatch l : bal (dispatch l).
Proof. unfold dispatch. bal_steps. Qed.
Hint Resolve bal_dispatch : dor_bal.

Lemma bal_layer l : bal (handle_layer l).
Proof. unfold handle_layer. bal_steps. Qed.
Hint Resolve bal_layer : dor_bal.

Lemma bal_onion line : bal (handle_onion line).
Proof. unfold handle_onion. by sections. Qed.
Hint Resolve bal_onion : dor_bal.

Lemma bal_handlerroutine conn : bal (handlerroutine conn).
Proof. unfold handlerroutine. bal_steps. Qed.
Hint Resolve bal_handlerroutine : dor_bal.

Lemma bal_RegenerateKeys : bal RegenerateKeys.
Proof. unfold RegenerateKeys. by sections. Qed.

Hint Resolve bal_RegenerateKeys : dor_bal.

Lemma bal_cli_command input : bal (cli_command input).
Proof.
  unfold cli_command, Println. destruct (SplitN input colon 2) as [|w [|d l]]; bal_steps.
Qed.
Hint Resolve bal_cli_command : dor_bal.

Lemma bal_cli_loop lines : bal (cli_loop lines).
Proof. induction lines as [|l lines IH]; cbn [cli_loop]; cbn zeta; bal_steps. Qed.

Lemma bal_runCLI stdin : bal (runCLI stdin).
Proof.
  unfold runCLI. apply bal_bind; [|intros; apply bal_cli_loop].
  induction banner as [|l ls IH]; cbn [print_all]; bal_steps.
Qed.

Lemma bal_handleCmd cmd mode : bal (handleCmd cmd mode).
Proof.
  unfold handleCmd, processCmd, Println.
  set (input := TrimSpace cmd).
  destruct (SplitN input colon 2) as [|w [|d l]]; bal_steps.
Qed.

Lemma bal_handleNodes : bal handleNodes.
Proof. unfold handleNodes. bal_steps. Qed.
End Handlers.

(** ** The node as a whole

    What may start at any time: a connection, the console, a command or a query
    of the web page, a pass of either cleaner. *)
Section Serving.
Context {C : CryptoLib} {G : GoSort}.

Inductive node_starts : prog Proc unit -> Prop :=
| starts_conn conn : node_starts (handlerroutine conn)
| starts_cli stdin : node_starts (runCLI stdin)
| starts_cmd Cmd Mode : node_starts (handleCmd Cmd Mode)
| starts_nodes : node_starts (handleNodes ;; Ret tt)
| starts_clean : node_starts cleanCache_pass
| starts_evict : node_starts evict_pass.

Lemma node_starts_fine I fresh p :
  stable I -> node_starts p -> fine (guarded I fresh) fresh p.
Proof.
  intros HI Hp. destruct Hp.
  - by apply bal_handlerroutine.
  - by apply bal_runCLI.
  - by apply bal_handleCmd.
  - apply bal_bind; [by apply bal_handleNodes|done].
  - apply bal_cleanCache_pass, HI.
  - by apply bal_evict_pass.
Qed.

Lemma body_fine I fresh g : sends_stable I -> fine (guarded I fresh) fresh (body g).
Proof. intros HI. by apply bal_body. Qed.

Lemma stable_true : stable (fun _ => True).
Proof. by repeat split. Qed.

(** From a process that has no goroutine yet. *)
Lemma node_threads I s c :
  stable I -> reach body node_starts (Cfg s [] []) c ->
  Forall (fine_thread (guarded I (fun _ => True)) (fun _ => True)) (c_threads c).
Proof.
  intros HI Hr. refine (proj1 (fine_reach body node_starts _ _ _ _ _ _ _ _ Hr)).
  - intros p. by apply node_starts_fine.
  - intros g. by apply body_fine, HI.
  - by intros n _.
  - done.
Qed.

Lemma node_keeps I s c c' :
  stable I -> reach body node_starts (Cfg s [] []) c -> reach body node_starts c c' ->
  I (c_st c) -> I (c_st c').
Proof.
  intros HI Hr Hr' Hc.
  refine (proj2 (inv_reach body node_starts I (fun _ => True) c c' _ _ _ (node_threads I s c HI Hr) Hc Hr')).
  - intros p. by apply node_starts_fine.
  - intros g. by apply body_fine, HI.
  - by intros n _.
Qed.

Lemma node_disciplined s c :
  reach body node_starts (Cfg s [] []) c ->
  Forall (fine_thread disciplined (fun _ => True)) (c_threads c) /\ locks_ok (c_threads c).
Proof.
  intros Hr. split; [by eapply fine_disciplined, (node_threads _ s c stable_true)|].
  eapply locks_reach; [|exact Hr]. intros i j ti tj _ Hi. cbn in Hi. by rewrite lookup_nil in Hi.
Qed.

(** What every interleaving keeps of the process, and of its past. *)
Record kept (n0 n : Node) : Prop := {
  kept_keys : NPublicKey n0 = Public (NPrivateKey n0) -> NPublicKey n = Public (NPrivateKey n);
  kept_frag : wf_frag n0 -> wf_frag n;
  kept_id : ID n = ID n0 /\ Port n = Port n0 /\ NodeIP n = NodeIP n0;
  kept_received : ReceivedMsgs n0 `prefix_of` ReceivedMsgs n }.

Lemma kept_stable n0 : stable (fun p => kept n0 (node p)).
Proof.
  constructor; [constructor|..]; intros; destruct H as [H1 H2 (? & ? & ?) H4]; constructor;
    unfold wf_frag, frag_init, frag_open in *; cbn; try done; try (by case_match).
  - intros Hw. case_match; [congruence|done].
  - intros Hw Hf. rewrite (H2 Hw); [done|]. by destruct (FragBuf (node p)).
  - by apply prefix_app_r.
Qed.
End Serving.
