(* ===== verification/Schedules.v ===== *)
(** * A schedule in which the acknowledgements of a message block a node

    [handle_ack] and [handle_nack] send on the channel of the waiting
    goroutine while they hold [Node.Mu]; the channel has room for one answer.
    The lemmas follow, effect by effect, the waiting goroutine to its time-out
    and the handlers of an ACK and of a NACK for the same message after it. *)

From S2P Require Import Prelude GoStrings Base64 GoMonad Concurrency Crypto OnionLayer KeyCache Node.
From S2P Require Import NodeSpec OnionBuild Send Cluster Commands NodeConcurrency.

(** One effect of goroutine [i] with answer [x]. *)
Ltac goroutine_step i x :=
  eapply (reach_effect _ _ i _ x); [reflexivity|cbn; repeat split; try reflexivity|cbn [insert list_insert app spawned]].
(** ... of type unit. *)
Ltac goroutine_steps i := repeat (goroutine_step i tt).

Section Schedules.
Context {C : CryptoLib} {G : GoSort}.

Abbreviation node_reach := (reach body (node_starts)).

Lemma waiter_times_out retry dest nodeAddr first msgID nackID try t0 p c :
  node_reach (Cfg p [Chan [] 1] [Thread [] (forget_ack msgID nackID)]) c ->
  node_reach (Cfg p [Chan [] 1] [Thread [] (await_ack retry dest nodeAddr first msgID nackID 0 try t0)]) c.
Proof.
  intros H. unfold await_ack.
  eapply (reach_effect _ _ 0 _ (@None bool)); [reflexivity|cbn; repeat split; by left|].
  cbn. 
  goroutine_step 0 0%Z. cbn. goroutine_step 0 tt. goroutine_step 0 tt. cbn. exact H.
Qed.

Lemma ack_arrives w line layer msgID p c :
  opens p line layer -> Type_ layer = "ACK" -> MsgID layer = msgID ->
  PendingACKs (node p) !! msgID = Some 0 ->
  node_reach (Cfg (on_node (upd_PendingACKs (delete msgID)) p) [Chan [true] 1]
    [Thread [] w; Thread [] (Ret tt)]) c ->
  node_reach (Cfg p [Chan [] 1] [Thread [] w]) c.
Proof.
  intros (Hl & pt & Hd & Hp) Ht Hid Hch H.
  eapply reach_start; [apply (starts_conn (line +:+ str1 nl))|]. rewrite handlerroutine_onion by done.
  unfold handle_onion. cbn [app].
  goroutine_step 1 tt. cbn.
  goroutine_step 1 (NPrivateKey (node p)). cbn. rewrite Hd. cbn.
  goroutine_step 1 tt. cbn. rewrite Hp, handle_layer_ack by done. unfold handle_ack. rewrite Hid.
  goroutine_step 1 tt. cbn.
  goroutine_step 1 (Some 0). { cbn. by rewrite Hch. } cbn.
  eapply (reach_effect _ _ 1 _ tt); [reflexivity|cbn; eexists; split; [reflexivity|]|].
  { cbn. repeat split. lia. }
  cbn. goroutine_step 1 tt. cbn. goroutine_step 1 tt. exact H.
Qed.

Lemma nack_blocks w d nackID p :
  sforall graphic nackID = true -> PendingACKs (node p) !! nackID = Some 0 ->
  exists k, node_reach (Cfg p [Chan [true] 1] [Thread [] w; Thread [] d])
    (Cfg p [Chan [true] 1] [Thread [] w; Thread [] d; Thread [(Mu, Exclusive)] (Vis (EChanSend 0 false) k)]).
Proof.
  intros Hg Hch. eexists.
  eapply reach_start; [apply (starts_conn ("NACK:" +:+ nackID +:+ str1 nl))|].
  rewrite handlerroutine_nack by done. unfold handle_nack. cbn [app].
  goroutine_step 2 tt. cbn.
  goroutine_step 2 (Some 0). { cbn. by rewrite Hch. } cbn. apply rtc_refl.
Qed.

(** The three together. *)
Lemma waiter_and_handlers line layer msgID nackID p :
  opens p line layer -> Type_ layer = "ACK" -> MsgID layer = msgID ->
  sforall graphic nackID = true -> msgID <> nackID ->
  PendingACKs (node p) !! msgID = Some 0 -> PendingACKs (node p) !! nackID = Some 0 ->
  exists k, node_reach (Cfg p [Chan [] 1] [Thread [] (forget_ack msgID nackID)])
    (Cfg (on_node (upd_PendingACKs (delete msgID)) p) [Chan [true] 1]
      [Thread [] (forget_ack msgID nackID); Thread [] (Ret tt);
       Thread [(Mu, Exclusive)] (Vis (EChanSend 0 false) k)]).
Proof.
  intros Ho Ht Hid Hg Hne Hm Hn.
  destruct (nack_blocks (forget_ack msgID nackID) (Ret tt) nackID
    (on_node (upd_PendingACKs (delete msgID)) p)) as [k Hk]; [done|cbn; by rewrite lookup_delete_ne|].
  exists k. eapply ack_arrives; [done..|exact Hk].
Qed.
(** ... after which nothing that wants [Node.Mu] moves any more. *)
Lemma blocked_for_good msgID nackID p p2 d k c' :
  let c := Cfg p2 [Chan [true] 1] [Thread [] (forget_ack msgID nackID); d;
    Thread [(Mu, Exclusive)] (Vis (EChanSend 0 false) k)] in
  node_reach (Cfg p [Chan [] 1] [Thread [] (forget_ack msgID nackID)]) c -> node_reach c c' ->
  holds_lock c' 2 Mu /\ ~ can_step c' 2 /\ waits_lock c' 0 Mu /\
  forall i, waits_lock c' i Mu -> ~ can_step c' i.
Proof.
  intros c Hc Hr.
  set (fresh := other_than 0). set (ok := guarded (fun _ : Proc => True) fresh).
  assert (Hst : forall q, node_starts q -> fine ok fresh q)
    by (intros q Hq; by eapply node_starts_fine, Hq; apply stable_true).
  assert (Hb : forall g, fine ok fresh (body g)) by (intros g; by apply body_fine, stable_true).
  assert (Hfine : Forall (fine_thread ok fresh) (c_threads c)).
  { refine (proj1 (fine_reach body (node_starts) ok fresh Hst Hb _ _ _ _ Hc)).
    - intros n Hn. cbn in Hn. unfold fresh, other_than. lia.
    - apply Forall_singleton. apply bal_forget_ack, stable_true. }
  set (tj := Thread [(Mu, Exclusive)] (Vis (EChanSend 0 false) k) : thread).
  assert (Hs : sends_on 0 Mu tj) by (split; [done|by left]).
  destruct (stuck_forever body (node_starts) ok 0 Mu) with (c := c) (c' := c') (j := 2) (tj := tj)
    as (Hfull & H2 & H0); try done.
  { by intros n h [_ ?]. }
  { by eexists. }
  specialize (H0 0 _ ltac:(done) eq_refl eq_refl).
  split; [by exists tj, Exclusive; split; [|left]|].
  split; [eapply (stuck_no_step 0 Mu c' 2 tj 2 tj); [done..|by left]|].
  split; [by eexists|].
  intros i (t & Ht & Hw). eapply (stuck_no_step 0 Mu c' 2 tj i t); [done..|by right].
Qed.

(** ** A key that expires while an onion is built

    [Encapsulator_func] tests the keys of the route first and reads them again
    when it encrypts; in between [cleanCache] may have removed one.  The clock
    shows [T] at the test and [T + 1] at the cleaning. *)
Lemma key_cleaned ip port message p k T :
  lacks colon ip -> lacks colon port -> cache p !! (ip +:+ ":" +:+ port) = Some (MkCachedKey k T) ->
  exists done, node_reach (Cfg p [] [Thread [] (cli_MSG (ip +:+ ":" +:+ port +:+ ":" +:+ message))])
    (Cfg (MkProc (node p) (clean (T + 1) (cache p))) [] [Thread [] (Raise "nil pointer dereference"); Thread [] done]).
Proof.
  intros Hi Hp Hk. eexists. unfold cli_MSG.
  assert (Hf : SplitN (ip +:+ ":" +:+ port +:+ ":" +:+ message) colon 3 = [ip; port; message]).
  { rewrite !(app_str_cons ":"), !app_str_nil_l. do 2 (rewrite SplitN_app by done). by rewrite SplitN_1. }
  rewrite Hf. cbn iota zeta. clear Hf. generalize dependent (ip +:+ ":" +:+ port). intros dst Hk.
  unfold node_address, Encapsulator_func.
  goroutine_step 0 (own_addr (node p)). cbn.
  goroutine_step 0 tt. cbn.
  goroutine_step 0 (Some (MkCachedKey k T)). { cbn. by rewrite Hk. } cbn.
  goroutine_step 0 tt. cbn. goroutine_step 0 T. cbn.
  unfold expired. cbn. rewrite Z.ltb_irrefl. cbn.
  do 20 (eapply (reach_effect _ _ 0 _ 0%Z); [reflexivity|split; [lia|done]|cbn]).
  eapply reach_start; [apply starts_clean|]. unfold cleanCache_pass. cbn [app].
  goroutine_step 1 (T + 1)%Z. cbn. goroutine_step 1 tt. cbn. goroutine_step 1 tt. cbn.
  goroutine_step 1 tt. cbn.
  goroutine_step 0 tt. cbn.
  goroutine_step 0 (@None CachedKey).
  { cbn. f_equal. apply clean_lookup_None. intros v Hv. rewrite Hk in Hv. injection Hv as <-.
    apply Z.ltb_lt. cbn. lia. }
  cbn. goroutine_step 0 tt. cbn.
  goroutine_step 0 (byte_str (replicate 32 0)). cbn. goroutine_step 0 "". cbn. goroutine_step 0 "". apply rtc_refl.
Qed.
End Schedules.
