(* ===== verification/Duplicates.v ===== *)
(** * One message delivered by several goroutines

    The invariant by which concurrent deliveries of one line add its message
    once: at most one goroutine wins the race for the identifier under
    [SeenMu], and only the winner reaches [ReceivedMsgs]. *)

From S2P Require Import Prelude GoStrings Base64 GoMonad Concurrency Ghost Crypto OnionLayer KeyCache Node.
From S2P Require Import NodeSpec Cluster Send Commands NodeConcurrency.

(** How far a goroutine is with the line: not at the test of the identifier
    yet; past the test, the identifier was new; past the mark; past the
    delivery; past the test, the identifier was known.  [Aside]: a goroutine
    that does something else. *)
Inductive stage := Before | Checked | Won | Delivered | Lost | Aside.

#[export] Instance stage_eq_dec : EqDecision stage.
Proof. solve_decision. Defined.

Ltac stages :=
  cbn [snd] in *;
  repeat match goal with H : _ ∈ (_ :: _) |- _ => apply list_elem_of_In in H; cbn [In] in H end;
  try (apply list_elem_of_In; cbn [In]); intuition congruence.

Section Duplicates.
Context {C : CryptoLib} {G : GoSort}.
Variable id message : string.
Variable sk : PrivateKey.
Variable received : list string.

Definition seen (p : Proc) : bool := bool_decide (is_Some (mget (SeenMsgs (node p)) !! id)).

(** What the invariant looks at. *)
Definition looked_at (p : Proc) : PrivateKey * bool * list string :=
  (NPrivateKey (node p), seen p, ReceivedMsgs (node p)).

Definition only (l : list stage) (gs : list (held * stage)) : Prop :=
  forall i g, gs !! i = Some g -> g.2 ∈ l.

Inductive phase (p : Proc) (gs : list (held * stage)) : Prop :=
| phase_fresh :
    seen p = false -> ReceivedMsgs (node p) = received -> only [Before; Checked; Aside] gs -> phase p gs
| phase_claimed j h :
    seen p = true -> ReceivedMsgs (node p) = received -> gs !! j = Some (h, Won) ->
    (forall i g, i <> j -> gs !! i = Some g -> g.2 ∈ [Before; Lost; Aside]) -> phase p gs
| phase_delivered :
    seen p = true -> ReceivedMsgs (node p) = received ++ [message] ->
    only [Before; Lost; Delivered; Aside] gs -> phase p gs.

Record at_most_once (p : Proc) (gs : list (held * stage)) : Prop := {
  amo_key : NPrivateKey (node p) = sk;
  amo_lock i h : gs !! i = Some (h, Checked) -> (SeenMu, Exclusive) ∈ h;
  amo_first : exists h t, gs !! 0 = Some (h, t) /\ t <> Aside;
  amo_phase : phase p gs }.

Lemma only_insert l gs i h t : only l gs -> t ∈ l -> only l (<[i := (h, t)]> gs).
Proof. intros Ho Ht k g [(-> & <- & _)|[_ Hk]]%list_lookup_insert_Some; [done|by eapply Ho]. Qed.

Lemma phase_same p p' gs i h h' t :
  looked_at p' = looked_at p -> gs !! i = Some (h, t) -> phase p gs -> phase p' (<[i := (h', t)]> gs).
Proof.
  intros [= _ Hs Hr] Hi Hp. destruct Hp as [H1 H2 Ho|j hj H1 H2 Hj Ho|H1 H2 Ho].
  - apply phase_fresh; [congruence..|]. apply only_insert; [done|]. apply (Ho _ _ Hi).
  - destruct (decide (i = j)) as [->|Hne].
    + rewrite Hi in Hj. injection Hj as -> ->. apply (phase_claimed _ _ j h'); [congruence..| |].
      * apply list_lookup_insert_eq. by eapply lookup_lt_Some.
      * intros k g Hk. rewrite list_lookup_insert_ne by done. by apply Ho.
    + apply (phase_claimed _ _ j hj); [congruence..| |].
      * by rewrite list_lookup_insert_ne.
      * intros k g Hk [(-> & <- & _)|[_ Hg]]%list_lookup_insert_Some; [by apply (Ho _ _ Hne Hi)|by eapply Ho].
  - apply phase_delivered; [congruence..|]. apply only_insert; [done|]. apply (Ho _ _ Hi).
Qed.

Lemma first_insert (gs : list (held * stage)) i h t h' t' :
  (exists h t, gs !! 0 = Some (h, t) /\ t <> Aside) -> gs !! i = Some (h, t) ->
  (t <> Aside -> t' <> Aside) ->
  exists h t, <[i := (h', t')]> gs !! 0 = Some (h, t) /\ t <> Aside.
Proof.
  intros (h0 & t0 & H0 & Hne) Hi Ht. destruct i as [|i].
  - rewrite H0 in Hi. injection Hi as -> ->. exists h', t'. split; [|by apply Ht].
    apply list_lookup_insert_eq. by eapply lookup_lt_Some.
  - exists h0, t0. by rewrite list_lookup_insert_ne.
Qed.

(** The ghost value stays, the state does in what matters. *)
Lemma amo_same p p' gs i h h' t :
  looked_at p' = looked_at p -> (t = Checked -> (SeenMu, Exclusive) ∈ h') ->
  at_most_once p gs -> gs !! i = Some (h, t) -> at_most_once p' (<[i := (h', t)]> gs).
Proof.
  intros Hv Hh [H1 H2 H3 H4] Hi. split.
  - by injection Hv as -> _ _.
  - intros k hk [(-> & [= <- ->] & _)|[_ Hk]]%list_lookup_insert_Some; [by apply Hh|by eapply H2].
  - by apply first_insert with (h := h) (t := t).
  - by eapply phase_same.
Qed.

(** The test of the identifier. *)
Lemma amo_test p gs i h :
  (SeenMu, Exclusive) ∈ h -> at_most_once p gs -> gs !! i = Some (h, Before) ->
  at_most_once p (<[i := (h, if seen p then Lost else Checked)]> gs).
Proof.
  intros Hh [H1 H2 H3 H4] Hi. split; [done| | |].
  - intros k hk [(-> & [= <- _] & _)|[_ Hk]]%list_lookup_insert_Some; [done|by eapply H2].
  - apply first_insert with (h := h) (t := Before); [done..|by destruct (seen p)].
  - destruct H4 as [E Hr Ho|j hj E Hr Hj Ho|E Hr Ho]; rewrite E.
    + apply phase_fresh; [done..|]. apply only_insert; [done|stages].
    + assert (i <> j) by congruence. apply (phase_claimed _ _ j hj); [done..| |].
      * by rewrite list_lookup_insert_ne.
      * intros k g Hk [(-> & <- & _)|[_ Hg]]%list_lookup_insert_Some; [stages|by eapply Ho].
    + apply phase_delivered; [done..|]. apply only_insert; [done|stages].
Qed.

(** The mark: the others that hold no [SeenMu] have not passed the test. *)
Lemma amo_mark p p' gs i h :
  NPrivateKey (node p') = NPrivateKey (node p) -> ReceivedMsgs (node p') = ReceivedMsgs (node p) ->
  seen p' = true -> apart i h gs -> at_most_once p gs -> gs !! i = Some (h, Checked) ->
  at_most_once p' (<[i := (h, Won)]> gs).
Proof.
  intros Hk Hr Hs Ha [H1 H2 H3 H4] Hi. split; [congruence| | |].
  - intros k hk [(-> & [=] & _)|[_ Hg]]%list_lookup_insert_Some. by eapply H2.
  - by eapply first_insert.
  - destruct H4 as [E Hrec Ho|j hj E Hrec Hj Ho|E Hrec Ho].
    + apply (phase_claimed _ _ i h); [done|congruence|apply list_lookup_insert_eq; by eapply lookup_lt_Some|].
      intros k g Hne. rewrite list_lookup_insert_ne by done. intros Hg.
      assert (Hin := Ho _ _ Hg). destruct g as [hk tk]. cbn in *. destruct (decide (tk = Checked)) as [->|].
      * exfalso. by apply (Ha k (hk, Checked) Hne Hg SeenMu Exclusive (H2 i h Hi)), (H2 k hk).
      * stages.
    + destruct (decide (i = j)) as [->|Hne]; [congruence|]. exfalso. specialize (Ho i _ Hne Hi). stages.
    + exfalso. specialize (Ho i _ Hi). stages.
Qed.

Lemma amo_deliver p p' gs i h :
  NPrivateKey (node p') = NPrivateKey (node p) ->
  ReceivedMsgs (node p') = ReceivedMsgs (node p) ++ [message] ->
  seen p' = seen p -> at_most_once p gs -> gs !! i = Some (h, Won) ->
  at_most_once p' (<[i := (h, Delivered)]> gs).
Proof.
  intros Hk Hr Hs [H1 H2 H3 H4] Hi. split; [congruence| | |].
  - intros k hk [(-> & [=] & _)|[_ Hg]]%list_lookup_insert_Some. by eapply H2.
  - by eapply first_insert.
  - destruct H4 as [E Hrec Ho|j hj E Hrec Hj Ho|E Hrec Ho].
    + exfalso. specialize (Ho i _ Hi). stages.
    + destruct (decide (i = j)) as [->|Hne]; [|exfalso; specialize (Ho i _ Hne Hi); stages].
      apply phase_delivered; [congruence|congruence|].
      intros k g [(-> & <- & _)|[Hne Hg]]%list_lookup_insert_Some; [stages|].
      assert (Hin := Ho k g (not_eq_sym Hne) Hg). stages.
    + exfalso. specialize (Ho i _ Hi). stages.
Qed.
(** ** The handler of the line *)

Abbreviation Inv := at_most_once.

Definition settled (t : stage) : Prop := t = Lost \/ t = Delivered \/ t = Aside.

Abbreviation safe_for := (safe Inv).

(** An effect that changes nothing the invariant looks at. *)
Lemma safe_quiet {A X} (e : goE Proc X) (k : X -> prog Proc A) h h' t Q :
  (forall p, keeps_inv (fun p' => looked_at p' = looked_at p) (fun _ => True) X e) ->
  held_after e h = Some h' -> (t = Checked -> (SeenMu, Exclusive) ∈ h') ->
  (forall x, safe_for (k x) h' t Q) -> safe_for (Vis e k) h t Q.
Proof.
  intros Hk Hh Ht HQ p gs i o cs a p' cs' h1 HI Hi _ He. exists t.
  assert (h1 = h') as -> by (apply effect_held in He; congruence). split; [|done].
  eapply amo_same; [|done|exact HI|exact Hi]. by eapply effect_view.
Qed.

Lemma safe_aside (q : prog Proc unit) :
  (forall I, sends_stable I -> balanced I (fun _ => True) q) ->
  forall t, t <> Checked -> settled t -> safe_for q [] t (fun _ _ t => settled t).
Proof.
  intros Hq t Hc Ht. eapply safe_mono.
  - apply (safe_view_kept Inv looked_at t).
    + intros p p' gs i h h' Hv HI Hi. by eapply amo_same.
    + apply balanced_view_kept. intros v. apply Hq. by split.
  - by intros a h' t' ->.
Qed.
(** Over one such effect. *)
Ltac quiet_step :=
  apply safe_bind; eapply safe_quiet; [intros ?; cbn; intros; try done|reflexivity|try done|intros ?; apply safe_ret; cbn beta].

Lemma seen_init_same p :
  looked_at (on_node (fun n => match SeenMsgs n with None => set_SeenMsgs (Some ∅) n | Some _ => n end) p)
  = looked_at p.
Proof. unfold looked_at, seen, on_node. cbn. by destruct (SeenMsgs (node p)) as [m|] eqn:E; cbn; rewrite ?E. Qed.

(** The test-and-set of the identifier. *)
Lemma safe_seenMsg Q :
  Q true [] Lost -> Q false [] Won -> safe_for (seenMsg id) [] Before Q.
Proof.
  intros Hlost Hwon. unfold seenMsg. quiet_step. quiet_step; [by rewrite seen_init_same|].
  apply safe_bind. intros p gs i o cs answer p' cs' h' HI Hi Ha He. cbn in He.
  destruct He as ([= <- <-] & _ & ->). eexists. split; [eapply amo_test; [by left|exact HI|exact Hi]|].
  apply safe_ret. unfold seen. destruct (mget (SeenMsgs (node p)) !! id) as [t|] eqn:E.
  - rewrite bool_decide_eq_true_2 by done. quiet_step. done.
  - rewrite bool_decide_eq_false_2 by (intros [? ?]; congruence).
    quiet_step; [intros; by left|]. apply safe_bind.
    intros p1 gs1 i1 o1 cs1 answer1 p1' cs1' h1' HI1 Hi1 Ha1 He1. cbn in He1.
    destruct He1 as ([= <- <-] & _ & ->). exists Won. split.
    + refine (amo_mark p1 _ gs1 i1 _ _ _ _ Ha1 HI1 Hi1); [done..|].
      apply bool_decide_eq_true_2. cbn. rewrite lookup_insert_eq. by eexists.
    + apply safe_ret. quiet_step. done.
Qed.

Lemma safe_receive Q : Q tt [] Delivered -> safe_for (receive message) [] Won Q.
Proof.
  intros HQ. unfold receive. quiet_step. apply safe_bind.
  intros p gs i o cs answer p' cs' h' HI Hi _ He. cbn in He. destruct He as ([= <- <-] & _ & ->).
  exists Delivered. split; [by refine (amo_deliver p _ gs i _ _ _ _ HI Hi)|]. apply safe_ret.
  eapply safe_quiet; [by intros|reflexivity|done|]. by intros [].
Qed.

Lemma safe_final layer :
  Type_ layer = "FINAL" -> MsgID layer = id -> Frag layer = "" -> Message layer = message ->
  safe_for (handle_layer layer) [] Before (fun _ _ t => settled t).
Proof.
  intros Ht Hid Hf Hm.
  replace (handle_layer layer)
    with (dup ← seenMsg id; if (dup : bool) then Ret tt else receive message ;; send_ack layer)
    by (unfold handle_layer, dispatch, handle_final; by rewrite Ht, Hid, Hf, Hm).
  apply safe_bind, safe_seenMsg; [by left|].
  apply safe_bind, safe_receive. apply safe_aside; [|done|by right; left].
  intros I _. apply bal_send_ack.
Qed.

Lemma safe_line line pt layer :
  BroadcastDecrypt line sk = GOk pt -> StringToOnionLayer pt = GOk layer ->
  Type_ layer = "FINAL" -> MsgID layer = id -> Frag layer = "" -> Message layer = message ->
  safe_for (handle_onion line) [] Before (fun _ _ t => settled t).
Proof.
  intros Hd Hp Ht Hid Hf Hm. unfold handle_onion. quiet_step.
  apply safe_bind. intros p gs i o cs answer p' cs' h' HI Hi _ He. cbn in He.
  destruct He as ([= <- <-] & _ & ->). exists Before. split.
  { eapply amo_same; [done|done|exact HI|exact Hi]. }
  apply safe_ret. rewrite (amo_key _ _ HI), Hd. apply safe_bind, safe_ret. quiet_step. rewrite Hp. by apply safe_final.
Qed.

(** ** Runs *)

(** What runs beside: more deliveries of the line, the goroutines that send,
    the cleaning of the key cache, requests for the key and for the list. *)
Inductive replays (line : string) : prog Proc unit -> Prop :=
| replay_line : replays line (handlerroutine (line +:+ str1 nl))
| replay_send g : replays line (body g)
| replay_clean : replays line cleanCache_pass
| replay_pubkey : replays line handle_getpubkey
| replay_nodes : replays line (handleNodes ;; Ret tt).

Definition entry (t : stage) : Prop := t = Before \/ t = Aside.

Lemma amo_entry p gs t :
  entry t -> Inv p gs -> Inv p (gs ++ [([], t)]).
Proof.
  intros Ht [H1 H2 H3 H4].
  assert (Hcase : forall k g, (gs ++ [([], t)]) !! k = Some g -> gs !! k = Some g \/ (gs !! k = None /\ g = ([], t))).
  { intros k g [?|[Hk Hg]]%lookup_app_Some; [by left|right]. apply list_lookup_singleton_Some in Hg as [_ <-].
    split; [by apply lookup_ge_None_2|done]. }
  split; [done| | |].
  - intros k h [Hk|[_ [= -> <-]]]%Hcase; [by eapply H2|]. by destruct Ht.
  - destruct H3 as (h & t0 & H0 & Hne). exists h, t0. split; [by apply lookup_app_l_Some|done].
  - destruct H4 as [E Hr Ho|j h E Hr Hj Ho|E Hr Ho].
    + apply phase_fresh; [done..|]. intros k g [Hk|[_ ->]]%Hcase; [by eapply Ho|]. destruct Ht as [->| ->]; stages.
    + apply (phase_claimed _ _ j h); [done..|by apply lookup_app_l_Some|].
      intros k g Hk [Hg|[_ ->]]%Hcase; [by eapply Ho|]. destruct Ht as [->| ->]; stages.
    + apply phase_delivered; [done..|]. intros k g [Hk|[_ ->]]%Hcase; [by eapply Ho|].
      destruct Ht as [->| ->]; stages.
Qed.
Lemma aside_starts (q : prog Proc unit) :
  (forall I, sends_stable I -> balanced I (fun _ => True) q) -> starts_safe Inv settled entry q.
Proof.
  intros Hq. exists Aside. split; [by right|]. apply safe_aside; [done..|]. by right; right.
Qed.

Lemma body_safe g : starts_safe Inv settled entry (body g).
Proof. apply aside_starts. intros I HI. by apply bal_body. Qed.

Section Line.
Context (line pt : string) (layer : OnionLayer).
Hypothesis Hline : onion_line line.
Hypothesis Hopen : BroadcastDecrypt line sk = GOk pt.
Hypothesis Hlayer : StringToOnionLayer pt = GOk layer.
Hypothesis Hfinal : Type_ layer = "FINAL" /\ MsgID layer = id /\ Frag layer = "" /\ Message layer = message.

Lemma line_safe : safe_for (handlerroutine (line +:+ str1 nl)) [] Before (fun _ _ t => settled t).
Proof. rewrite handlerroutine_onion by done. destruct Hfinal as (? & ? & ? & ?). by eapply safe_line. Qed.

Lemma replays_safe q : replays line q -> starts_safe Inv settled entry q.
Proof.
  intros []; [|apply body_safe|..]; [|apply aside_starts; intros I HI..].
  - exists Before. split; [by left|apply line_safe].
  - by apply bal_cleanCache_pass.
  - apply bal_getpubkey.
  - apply bal_bind; [apply bal_handleNodes|done].
Qed.

(** From one delivery on. *)
Lemma deliveries_good p cs c :
  NPrivateKey (node p) = sk -> seen p = false -> ReceivedMsgs (node p) = received ->
  reach body (replays line) (Cfg p cs [Thread [] (handlerroutine (line +:+ str1 nl))]) c ->
  exists gs, good Inv settled c gs.
Proof.
  intros Hk Hs Hr. apply (good_reach Inv body (replays line) settled entry amo_entry replays_safe body_safe _ _
    [([], Before)]).
  split; [|split].
  - apply Forall2_cons. split; [|done]. split; [done|apply line_safe].
  - split; [done| | |].
    + by intros [|i] h ?.
    + by exists [], Before.
    + apply phase_fresh; [done..|]. intros [|i] g; [intros [= <-]; by left|done].
  - intros [|i] [|j] ti tj ?; done.
Qed.

Definition ended (c : @config Proc) : Prop :=
  forall i t, c_threads c !! i = Some t -> t_prog t = Ret tt.

Lemma good_outcome c gs :
  good Inv settled c gs ->
  (ReceivedMsgs (node (c_st c)) = received \/ ReceivedMsgs (node (c_st c)) = received ++ [message]) /\
  (ended c -> ReceivedMsgs (node (c_st c)) = received ++ [message]).
Proof.
  intros (Hm & [_ _ (h & t & H0 & Hne) Hp] & _).
  split; [destruct Hp; auto|]. intros He.
  assert (Hset : forall i g, gs !! i = Some g -> settled g.2).
  { intros i g Hg. destruct (Forall2_lookup_r _ _ _ _ _ Hm Hg) as (th & Hth & _ & Hs).
    by rewrite (He _ _ Hth) in Hs. }
  destruct Hp as [E Hr Ho|j hj E Hr Hj Ho|E Hr Ho]; [| |done]; exfalso.
  - assert (H1 := Ho _ _ H0). destruct (Hset _ _ H0) as [E1|[E1|E1]]; cbn in E1; subst t; [stages|stages|done].
  - destruct (Hset _ _ Hj) as [|[|]]; done.
Qed.
End Line.
End Duplicates.
