(* ===== verification/Reassembling.v ===== *)
(** * The chunks of one message, handled by several goroutines

    The invariant by which the handlers of the chunks of a message, each run any
    number of times and all side by side, deliver the message once: a chunk is
    stored by the one handler that won the race for its identifier, the section
    under [FragMu] is one step of the buffer, and only the handler that stores
    the last chunk takes the message out. *)

From S2P Require Import Prelude GoStrings Base64 GoMonad Concurrency Ghost Crypto OnionLayer KeyCache Node.
From S2P Require Import NodeSpec Fragments Cluster Send Commands NodeConcurrency Duplicates.

(** ** Lists up to their order *)

Lemma insert_perm {A} (l : list A) i x y :
  l !! i = Some x -> exists r, l ≡ₚ x :: r /\ <[i := y]> l ≡ₚ y :: r /\
    forall z, z ∈ r -> exists j, j <> i /\ l !! j = Some z.
Proof.
  intros Hi. exists (delete i l). rewrite delete_take_drop.
  assert (Hlt : i < length l) by (by eapply lookup_lt_Some).
  split.
  - rewrite <- (take_drop_middle l i x Hi) at 1. by rewrite Permutation_middle.
  - split; [rewrite insert_take_drop by done; by rewrite Permutation_middle|].
    rewrite <- delete_take_drop. intros z (j & Hj)%list_elem_of_lookup_1. destruct (decide (j < i)).
    + rewrite list_lookup_delete_lt in Hj by done. exists j. split; [lia|done].
    + rewrite list_lookup_delete_ge in Hj by lia. exists (S j). split; [lia|done].
Qed.

Section Reassembling.
Context {C : CryptoLib} {G : GoSort}.

(** ** Stages of a handler *)

(** Of the handler of chunk [i]: before the test of the identifier; past it,
    the identifier was new; past the mark; in the section under [FragMu], which
    found the buffers of [n0] and has made them those of [n1]; past it with
    chunks missing; past it with the message in hand; past the delivery; past
    the test, the identifier was known.  [Beside]: another goroutine. *)
Inductive chunk_stage :=
| Arrived (i : nat) | Tested (i : nat) | Marked (i : nat) | Storing (i : nat) (n0 n1 : Node)
| Stored (i : nat) | Holding (i : nat) | Handed (i : nat) | Known (i : nat) | Beside.

Definition chunk (t : chunk_stage) : option nat :=
  match t with
  | Arrived i | Tested i | Marked i | Storing i _ _ | Stored i | Holding i | Handed i | Known i => Some i
  | Beside => None
  end.
(** The handler that stores the chunk. *)
Definition owner (t : chunk_stage) : option nat :=
  match t with Marked i | Storing i _ _ | Stored i | Holding i | Handed i => Some i | _ => None end.
Definition past (t : chunk_stage) : option nat :=
  match t with Stored i | Holding i | Handed i => Some i | _ => None end.
Definition storing (t : chunk_stage) : option Node :=
  match t with Storing _ n0 _ => Some n0 | _ => None end.
Definition holding (t : chunk_stage) : option nat :=
  match t with Holding i => Some i | _ => None end.
Definition known (t : chunk_stage) : option nat :=
  match t with Known i => Some i | _ => None end.

Variables (fid : string) (chunks ids : list string) (sk : PrivateKey) (received : list string).
Hypothesis Hchunks : chunks <> [].
Hypothesis Hids : length ids = length chunks.
Hypothesis Hnodup : NoDup ids.

Abbreviation N := (length chunks).
Abbreviation message := (str_concat chunks).

Definition seen_id (p : Proc) (i : nat) : bool :=
  bool_decide (is_Some (mget (SeenMsgs (node p)) !! (ids !!! i))).

Definition frags (n : Node) : option (gmap string (gmap Z string)) * option (gmap string Z) :=
  (FragBuf n, FragTotal n).

(** The buffer when the chunks [D] have been stored. *)
Definition buffered (D : list nat) (n : Node) : Prop :=
  wf_frag n /\ pending fid chunks (if decide (length D = N) then [] else D) n.

Record consistent (p : Proc) (L : list chunk_stage) : Prop := {
  c_key : NPrivateKey (node p) = sk;
  c_chunks : Forall (fun i => i < N) (omap chunk L);
  c_seen i : i < N -> seen_id p i = true <-> i ∈ omap owner L;
  c_known : Forall (fun i => seen_id p i = true) (omap known L);
  c_owners : NoDup (omap owner L);
  c_buffer :
    (omap storing L = [] /\ buffered (omap past L) (node p)) \/
    (exists n0, omap storing L = [n0] /\ buffered (omap past L) n0);
  c_outcome :
    (omap holding L = [] /\
     ReceivedMsgs (node p) = received ++ (if decide (length (omap past L) = N) then [message] else [])) \/
    (exists i, omap holding L = [i] /\ length (omap past L) = N /\ ReceivedMsgs (node p) = received) }.

(** ** It does not depend on the order *)

Lemma chunk_map_perm D D' : NoDup D -> D ≡ₚ D' -> chunk_map chunks D = chunk_map chunks D'.
Proof.
  intros Hn Hp. unfold chunk_map. apply list_to_map_proper; [by apply chunk_keys_NoDup|].
  unfold chunk_pairs. by rewrite Hp.
Qed.

Lemma pending_perm D D' n : NoDup D -> D ≡ₚ D' -> pending fid chunks D n -> pending fid chunks D' n.
Proof.
  intros Hn Hp. unfold pending. destruct D as [|i D], D' as [|j D']; try done.
  - by apply Permutation_nil_cons in Hp.
  - by apply symmetry, Permutation_nil_cons in Hp.
  - by rewrite (chunk_map_perm _ _ Hn Hp).
Qed.

Lemma buffered_perm D D' n : NoDup D -> D ≡ₚ D' -> buffered D n -> buffered D' n.
Proof.
  intros Hn Hp [Hw H]. split; [done|]. rewrite <- (Permutation_length Hp).
  destruct (decide _); [done|]. by eapply pending_perm.
Qed.

Lemma past_owner L : omap past L `sublist_of` omap owner L.
Proof.
  induction L as [|[] L IH]; cbn; first [exact IH|by apply sublist_skip|by apply sublist_cons|apply sublist_nil].
Qed.

Lemma past_NoDup L : NoDup (omap owner L) -> NoDup (omap past L).
Proof. intros H. eapply sublist_NoDup; [exact H|apply past_owner]. Qed.

Lemma consistent_perm p L L' : L ≡ₚ L' -> consistent p L -> consistent p L'.
Proof.
  intros Hp [H1 H2 H3 H4 H5 H6 H7]. assert (Hn := past_NoDup _ H5). split.
  - done.
  - by rewrite <- Hp.
  - intros i Hi. rewrite H3 by done. by rewrite Hp.
  - by rewrite <- Hp.
  - by rewrite <- Hp.
  - destruct H6 as [[Hs Hb]|(n0 & Hs & Hb)].
    + left. split; [|by eapply buffered_perm; [..|exact Hb]; [|by rewrite Hp]].
      by apply Permutation_nil; rewrite <- Hs, Hp.
    + right. exists n0. split; [|by eapply buffered_perm; [..|exact Hb]; [|by rewrite Hp]].
      apply Permutation_singleton_r. by rewrite <- Hs, Hp.
  - rewrite <- (Permutation_length (omap_Permutation past _ _ Hp)).
    destruct H7 as [[Hh Hr]|(i & Hh & Hr)].
    + left. split; [|done]. by apply Permutation_nil; rewrite <- Hh, Hp.
    + right. exists i. split; [|done]. apply Permutation_singleton_r. by rewrite <- Hh, Hp.
Qed.

(** ** The steps of one handler *)

(** What a handler relies on while it holds a mutex. *)
Definition relies (p : Proc) (t : chunk_stage) (h : held) : Prop :=
  match t with
  | Tested i => (SeenMu, Exclusive) ∈ h /\ seen_id p i = false
  | Storing i n0 n1 => (FragMu, Exclusive) ∈ h /\ frags (node p) = frags n1
  | _ => True
  end.

Lemma test_consistent p L i :
  i < N -> consistent p (Arrived i :: L) ->
  consistent p ((if seen_id p i then Known i else Tested i) :: L).
Proof.
  intros Hi [H1 H2 H3 H4 H5 H6 H7]. destruct (seen_id p i) eqn:E; split; try done.
  cbn. by constructor.
Qed.

Lemma mark_consistent p p' L i :
  i < N -> seen_id p i = false -> seen_id p' i = true ->
  (forall j, j < N -> j <> i -> seen_id p' j = seen_id p j) ->
  NPrivateKey (node p') = NPrivateKey (node p) -> ReceivedMsgs (node p') = ReceivedMsgs (node p) ->
  frags (node p') = frags (node p) ->
  consistent p (Tested i :: L) -> consistent p' (Marked i :: L).
Proof.
  intros Hi Hs Hs' Ho Hk Hr Hf [H1 H2 H3 H4 H5 H6 H7]. cbn in *. split; cbn; try done.
  - congruence.
  - intros j Hj. rewrite elem_of_cons. destruct (decide (j = i)) as [->|Hne]; [by split; [left|]|].
    rewrite Ho, H3 by done. naive_solver.
  - rewrite Forall_forall in H4 |- *. intros j Hj. specialize (H4 j Hj).
    destruct (decide (j = i)) as [->|Hne]; [done|]. rewrite Ho; [done| |done].
    rewrite Forall_forall in H2. apply H2. right. apply list_elem_of_omap in Hj as (t & Ht & Hj).
    apply list_elem_of_omap. exists t. split; [done|]. by destruct t.
  - constructor; [|done]. intros Hin. apply H3 in Hin; [congruence|done].
  - destruct H6 as [[E Hb]|?]; [left; split; [done|]|by right].
    unfold buffered, wf_frag, pending, view in *. injection Hf as -> ->. done.
  - by rewrite Hr.
Qed.

(** The same but for the buffers of fragments. *)
Definition same_but_frags (p p' : Proc) : Prop :=
  NPrivateKey (node p') = NPrivateKey (node p) /\
  mget (SeenMsgs (node p')) = mget (SeenMsgs (node p)) /\
  ReceivedMsgs (node p') = ReceivedMsgs (node p).

Lemma same_seen p p' i : same_but_frags p p' -> seen_id p' i = seen_id p i.
Proof. intros (_ & Hs & _). unfold seen_id. by rewrite Hs. Qed.

Lemma buffered_frags D n n' : frags n' = frags n -> buffered D n -> buffered D n'.
Proof. unfold frags, buffered, wf_frag, pending, view. by intros [= -> ->]. Qed.

(** A step that moves one handler and touches only the buffers: what is left to
    show. *)
Lemma moved_consistent p p' t t' L :
  same_but_frags p p' -> chunk t' = chunk t -> owner t' = owner t -> known t = None -> known t' = None ->
  consistent p (t :: L) ->
  ((omap storing (t' :: L) = [] /\ buffered (omap past (t' :: L)) (node p')) \/
   (exists n0, omap storing (t' :: L) = [n0] /\ buffered (omap past (t' :: L)) n0)) ->
  ((omap holding (t' :: L) = [] /\ ReceivedMsgs (node p) =
      received ++ (if decide (length (omap past (t' :: L)) = N) then [message] else [])) \/
   (exists i, omap holding (t' :: L) = [i] /\ length (omap past (t' :: L)) = N /\
      ReceivedMsgs (node p) = received)) ->
  consistent p' (t' :: L).
Proof.
  intros Hsame Hc Ho Hk Hk' [H1 H2 H3 H4 H5 _ _] Hb Hout. assert (Hs := Hsame).
  destruct Hs as (E1 & _ & E3). split; cbn [omap list_omap] in *; rewrite ?Hc, ?Ho, ?Hk, ?Hk' in *.
  - congruence.
  - done.
  - intros i Hi. by rewrite (same_seen p p'), H3.
  - eapply Forall_impl; [exact H4|]. cbn. intros i. by rewrite (same_seen p p').
  - done.
  - done.
  - by rewrite E3.
Qed.

Lemma enter_consistent p p' L i n1 :
  same_but_frags p p' -> omap storing L = [] -> consistent p (Marked i :: L) ->
  consistent p' (Storing i (node p) n1 :: L).
Proof.
  intros Hsame Hno Hc. apply (moved_consistent p p' (Marked i)); [done..| |exact (c_outcome _ _ Hc)].
  right. exists (node p). cbn [omap list_omap storing past]. rewrite Hno. split; [done|].
  destruct (c_buffer _ _ Hc) as [[_ Hb]|(n0 & E & _)]; [done|]. cbn in E. by rewrite Hno in E.
Qed.

Lemma advance_consistent p p' L i n0 n1 n1' :
  same_but_frags p p' -> consistent p (Storing i n0 n1 :: L) -> consistent p' (Storing i n0 n1' :: L).
Proof.
  intros Hsame Hc. apply (moved_consistent p p' (Storing i n0 n1)); [done..| |exact (c_outcome _ _ Hc)].
  destruct (c_buffer _ _ Hc) as [[E _]|(n & E & Hb)]; [done|]. right. by exists n.
Qed.

Lemma stored_set (D : list nat) :
  NoDup D -> Forall (fun i => i < N) D -> length D <= N /\ (length D = N -> D ≡ₚ seq 0 N).
Proof.
  intros Hn HD. assert (Hsub : D ⊆+ seq 0 N).
  { apply NoDup_submseteq; [done|]. intros i Hi. apply elem_of_seq. rewrite Forall_forall in HD.
    specialize (HD i Hi). lia. }
  split; [apply submseteq_length in Hsub; by rewrite length_seq in Hsub|].
  intros Hl. apply submseteq_length_Permutation; [done|]. rewrite length_seq. lia.
Qed.

Lemma past_chunk (L : list chunk_stage) : omap past L ⊆ omap chunk L.
Proof.
  intros i (t & Ht & Hp)%list_elem_of_omap. apply list_elem_of_omap. exists t. split; [done|]. by destruct t.
Qed.

(** The section of one handler, from the buffers it found. *)
Lemma storing_facts p L i n0 n1 :
  consistent p (Storing i n0 n1 :: L) ->
  omap storing L = [] /\ wf_frag n0 /\ pending fid chunks (omap past L) n0 /\
  NoDup (i :: omap past L) /\ length (i :: omap past L) <= N /\
  (length (i :: omap past L) = N -> i :: omap past L ≡ₚ seq 0 N) /\
  omap holding L = [] /\ ReceivedMsgs (node p) = received.
Proof.
  intros [_ H2 _ _ H5 H6 H7]. cbn [omap list_omap] in *. cbn [chunk owner storing past holding] in *.
  assert (Hn : NoDup (i :: omap past L)).
  { eapply sublist_NoDup; [exact H5|]. apply sublist_skip, past_owner. }
  assert (HD : Forall (fun j => j < N) (i :: omap past L)).
  { apply Forall_cons_1 in H2 as [Hi H2]. constructor; [done|]. rewrite Forall_forall in H2 |- *.
    intros j Hj. by apply H2, past_chunk. }
  destruct (stored_set _ Hn HD) as [Hle Hall]. cbn [length] in Hle.
  destruct H6 as [[E _]|(n & E & Hw & Hp)]; [done|]. injection E as -> E.
  rewrite decide_False in Hp by lia.
  destruct H7 as [[Eh Hr]|(j & _ & Hl & _)]; [|lia]. rewrite decide_False, app_nil_r in Hr by lia. done.
Qed.

Lemma store_consistent p L i n0 n1 :
  n1 = frag_put fid (Z.of_nat i + 1) (Z.of_nat N) (chunks !!! i) n0 ->
  frags (node p) = frags n1 -> consistent p (Storing i n0 n1 :: L) ->
  (if frag_complete fid n1
   then assemble (Z.of_nat N) (frag_chunks fid n1) = message /\
        forall p', same_but_frags p p' -> frags (node p') = frags (frag_drop fid n1) ->
          consistent p' (Holding i :: L)
   else consistent p (Stored i :: L)).
Proof.
  intros Hn1 Hf Hc. destruct (storing_facts _ _ _ _ _ Hc) as (Hno & Hw & Hp & Hnd & Hle & Hall & Hh & Hr).
  destruct (pending_step fid chunks (omap past L) i n0 Hw Hp Hnd) as [Hlt Heq].
  assert (Hwn := wf_frag_step (chunk_fragment fid chunks i) n0 Hw).
  unfold f_out, f_step, frag_step, chunk_fragment in Hlt, Heq, Hwn. cbn [f_id f_idx f_total f_msg] in Hlt, Heq, Hwn.
  rewrite <- Hn1 in Hlt, Heq, Hwn. destruct (decide (length (i :: omap past L) = N)) as [Hl|Hl].
  - destruct (Heq (Hall Hl)) as [Ho Hpn]. destruct (frag_complete fid n1) eqn:Ecomp; [|done]. injection Ho as Ho. split; [done|].
    intros p' Hsame Hf'. apply (moved_consistent p p' (Storing i n0 n1)); [done..| |].
    + left. cbn [omap list_omap storing past]. rewrite Hno. split; [done|].
      eapply (buffered_frags _ _ _ Hf'). split; [exact Hwn|]. by rewrite decide_True.
    + right. exists i. cbn [omap list_omap holding past]. by rewrite Hh.
  - destruct Hlt as [Ho Hpn]; [cbn [length] in *; lia|]. destruct (frag_complete fid n1); [done|].
    apply (moved_consistent p p (Storing i n0 n1)); [done..| |].
    + left. cbn [omap list_omap storing past]. rewrite Hno. split; [done|].
      eapply (buffered_frags _ _ _ Hf). split; [exact Hwn|]. by rewrite decide_False.
    + left. cbn [omap list_omap holding past]. by rewrite Hh, decide_False, app_nil_r.
Qed.

Lemma hand_consistent p p' L i :
  NPrivateKey (node p') = NPrivateKey (node p) ->
  mget (SeenMsgs (node p')) = mget (SeenMsgs (node p)) ->
  frags (node p') = frags (node p) -> ReceivedMsgs (node p') = ReceivedMsgs (node p) ++ [message] ->
  consistent p (Holding i :: L) -> consistent p' (Handed i :: L).
Proof.
  intros Hk Hs Hf Hr [H1 H2 H3 H4 H5 H6 H7].
  assert (Hseen : forall j, seen_id p' j = seen_id p j) by (intros j; unfold seen_id; by rewrite Hs).
  split; cbn [omap list_omap] in *; cbn [chunk owner storing past holding known] in *.
  - congruence.
  - done.
  - intros j Hj. by rewrite Hseen, H3.
  - eapply Forall_impl; [exact H4|]. cbn. intros j. by rewrite Hseen.
  - done.
  - destruct H6 as [[E Hb]|?]; [left|by right]. split; [done|]. by eapply buffered_frags.
  - destruct H7 as [[E _]|(j & E & Hl & Hr0)]; [done|]. injection E as -> E. left.
    by rewrite Hr, Hr0, decide_True.
Qed.

(** ** The invariant of a configuration *)

Record inv (p : Proc) (gs : list (held * chunk_stage)) : Prop := {
  inv_consistent : consistent p gs.*2;
  inv_relies j h t : gs !! j = Some (h, t) -> relies p t h;
  inv_first i : i < N -> exists h t, gs !! i = Some (h, t) /\ chunk t = Some i }.

(** One handler moves. *)
Lemma inv_move p p' gs i h h' t t' :
  gs !! i = Some (h, t) -> inv p gs -> chunk t' = chunk t -> relies p' t' h' ->
  (forall j hj tj, j <> i -> gs !! j = Some (hj, tj) -> relies p' tj hj) ->
  (forall L, (forall z, z ∈ L -> exists j hj, j <> i /\ gs !! j = Some (hj, z)) ->
     consistent p (t :: L) -> consistent p' (t' :: L)) ->
  inv p' (<[i := (h', t')]> gs).
Proof.
  intros Hi [Hc Hr Hf] Hch Hrel Hoth Hmove. split.
  - assert (Hi2 : gs.*2 !! i = Some t) by (by rewrite list_lookup_fmap, Hi).
    destruct (insert_perm gs.*2 i t t' Hi2) as (L & HL & HL' & Hin). rewrite list_fmap_insert. cbn [snd].
    eapply consistent_perm; [symmetry; exact HL'|]. apply Hmove; [|by eapply consistent_perm].
    intros z (j & Hne & Hj)%Hin. rewrite list_lookup_fmap in Hj.
    destruct (gs !! j) as [[hj tj]|] eqn:Ej; [|done]. injection Hj as <-. by exists j, hj.
  - intros j hj tj [(-> & [= <- <-] & _)|[Hne Hj]]%list_lookup_insert_Some; [done|by eapply Hoth].
  - intros k Hk. destruct (Hf k Hk) as (hk & tk & Hgk & Hck). destruct (decide (k = i)) as [->|Hne].
    + exists h', t'. rewrite list_lookup_insert_eq by (by eapply lookup_lt_Some).
      split; [done|]. rewrite Hch. congruence.
    + exists hk, tk. by rewrite list_lookup_insert_ne.
Qed.

(** What the invariant looks at. *)
Definition looked (p : Proc) :=
  (NPrivateKey (node p), mget (SeenMsgs (node p)), ReceivedMsgs (node p), frags (node p)).

Definition guard (t : chunk_stage) : option mutex :=
  match t with Tested _ => Some SeenMu | Storing _ _ _ => Some FragMu | _ => None end.
Definition guarded_by (t : chunk_stage) (h : held) : Prop := forall m, guard t = Some m -> (m, Exclusive) ∈ h.

Lemma relies_same p p' t h h' : looked p' = looked p -> guarded_by t h' -> relies p t h -> relies p' t h'.
Proof.
  intros Hl Hg. unfold looked in Hl. assert (Es : mget (SeenMsgs (node p')) = mget (SeenMsgs (node p))) by congruence.
  assert (Ef : frags (node p') = frags (node p)) by congruence.
  destruct t; cbn; try done; unfold seen_id; rewrite ?Es, ?Ef; intros [_ ?]; (split; [by apply Hg|done]).
Qed.

Lemma relies_guarded p t h : relies p t h -> guarded_by t h.
Proof. destruct t; cbn; try (by intros _ m); by intros [? _] m [= <-]. Qed.

Lemma consistent_same p p' t L : looked p' = looked p -> consistent p (t :: L) -> consistent p' (t :: L).
Proof.
  unfold looked. intros Hl [H1 H2 H3 H4 H5 H6 H7].
  assert (Es : mget (SeenMsgs (node p')) = mget (SeenMsgs (node p))) by congruence.
  assert (Hseen : forall j, seen_id p' j = seen_id p j) by (intros j; unfold seen_id; by rewrite Es).
  assert (Er : ReceivedMsgs (node p') = ReceivedMsgs (node p)) by congruence.
  split; try done.
  - congruence.
  - intros j Hj. by rewrite Hseen, H3.
  - eapply Forall_impl; [exact H4|]. cbn. intros j. by rewrite Hseen.
  - destruct H6 as [[E Hb]|?]; [left|by right]. split; [done|]. eapply buffered_frags; [|done].
    unfold frags in *. congruence.
  - by rewrite Er.
Qed.

Lemma inv_same p p' gs i h h' t :
  looked p' = looked p -> guarded_by t h' -> inv p gs -> gs !! i = Some (h, t) ->
  inv p' (<[i := (h', t)]> gs).
Proof.
  intros Hl Hg HI Hi. apply (inv_move p p' gs i h h' t t); [done..| | |].
  - eapply relies_same; [done..|]. by eapply inv_relies.
  - intros j hj tj _ Hj. assert (Hrj := inv_relies _ _ HI _ _ _ Hj).
    eapply relies_same; [done| |exact Hrj]. by eapply relies_guarded.
  - intros L _. by apply consistent_same.
Qed.

(** The others hold none of what this one does, so rely on none of it. *)
Lemma others_apart p gs i h m j hj tj :
  (m, Exclusive) ∈ h -> apart i h gs -> inv p gs -> j <> i -> gs !! j = Some (hj, tj) ->
  guard tj <> Some m.
Proof.
  intros Hm Ha HI Hne Hj Hg. assert (Hr := relies_guarded _ _ _ (inv_relies _ _ HI _ _ _ Hj) m Hg).
  exact (Ha j _ Hne Hj m Exclusive Hm Hr).
Qed.

(** ** The handler of a chunk *)

Abbreviation safe_for := (safe inv).

Definition finished (t : chunk_stage) : Prop :=
  match t with Known _ | Stored _ | Handed _ | Beside => True | _ => False end.

Lemma safe_plain {A X} (e : goE Proc X) (k : X -> prog Proc A) h h' t Q :
  (forall p, keeps_inv (fun p' => looked p' = looked p) (fun _ => True) X e) ->
  held_after e h = Some h' -> guarded_by t h' ->
  (forall x, safe_for (k x) h' t Q) -> safe_for (Vis e k) h t Q.
Proof.
  intros Hk Hh Hg HQ p gs i o cs a p' cs' h1 HI Hi _ He. exists t.
  assert (h1 = h') as -> by (apply effect_held in He; congruence). split; [|done].
  eapply inv_same; [|done|exact HI|exact Hi]. by eapply effect_view.
Qed.

Lemma safe_beside (q : prog Proc unit) :
  (forall I, sends_stable I -> balanced I (fun _ => True) q) ->
  forall t, guard t = None -> finished t -> safe_for q [] t (fun _ _ t => finished t).
Proof.
  intros Hq t Hg Ht. eapply safe_mono.
  - apply (safe_view_kept inv looked t).
    + intros p p' gs i h h' Hv HI Hi. eapply inv_same; [done| |exact HI|exact Hi]. intros m ?. congruence.
    + apply balanced_view_kept. intros v. apply Hq. by split.
  - by intros a h' t' ->.
Qed.

(** Over an effect that changes nothing the invariant looks at. *)
Ltac plain_step :=
  apply safe_bind; eapply safe_plain; [intros ?; cbn; intros; try done|reflexivity|try done|intros ?; apply safe_ret; cbn beta].

(** At an access that moves the handler. *)
Ltac move_step :=
  apply safe_bind; intros p gs j o cs ? ? ? ? HI Hj Ha He; cbn in He; destruct He as ([= <- <-] & _ & ->).

Lemma seen_init_looked p :
  looked (on_node (fun n => match SeenMsgs n with None => set_SeenMsgs (Some ∅) n | Some _ => n end) p)
  = looked p.
Proof. unfold looked, on_node. cbn. by destruct (SeenMsgs (node p)) as [m|] eqn:E; cbn; rewrite ?E. Qed.

Lemma id_inj i j : i < N -> j < N -> ids !!! i = ids !!! j -> i = j.
Proof.
  intros Hi Hj He. apply (NoDup_lookup ids i j (ids !!! i) Hnodup).
  - apply list_lookup_lookup_total_lt. lia.
  - rewrite He. apply list_lookup_lookup_total_lt. lia.
Qed.

Lemma safe_test_and_set i Q :
  i < N -> Q true [] (Known i) -> Q false [] (Marked i) -> safe_for (seenMsg (ids !!! i)) [] (Arrived i) Q.
Proof.
  intros Hi Hlost Hwon. unfold seenMsg. plain_step. plain_step; [by rewrite seen_init_looked|].
  move_step. exists (if seen_id p i then Known i else Tested i). split.
  { apply (inv_move p p gs j [(SeenMu, Exclusive)] _ (Arrived i)); [done|done|by destruct (seen_id p i)| | |].
    - destruct (seen_id p i) eqn:E; [done|]. split; [by left|done].
    - intros k hk tk _ Hk. by eapply inv_relies.
    - intros L _. by apply test_consistent. }
  apply safe_ret. unfold seen_id. destruct (mget (SeenMsgs (node p)) !! (ids !!! i)) as [t|] eqn:E.
  { rewrite bool_decide_eq_true_2 by done. plain_step. done. }
  rewrite bool_decide_eq_false_2 by (intros [? ?]; congruence).
  plain_step; [intros m [= <-]; by left|]. clear E Ha HI Hj. clear p gs j cs o.
  move_step. exists (Marked i). split.
  - assert (Hrel := inv_relies _ _ HI _ _ _ Hj). destruct Hrel as [Hh Hs].
    eapply (inv_move p _ gs j _ _ (Tested i)); [exact Hj|exact HI|done|done| |].
    + intros k hk tk Hne Hk. assert (Hrk := inv_relies _ _ HI _ _ _ Hk).
      assert (Hg := others_apart p gs j _ SeenMu k hk tk Hh Ha HI Hne Hk).
      destruct tk; try done.
    + intros L _. apply mark_consistent; try done.
      * unfold seen_id. cbn. apply bool_decide_eq_true_2. rewrite lookup_insert_eq. by eexists.
      * intros k Hk Hne. unfold seen_id. cbn. rewrite lookup_insert_ne; [done|].
        intros He. by apply Hne, id_inj.
  - apply safe_ret. plain_step. done.
Qed.

(** *** The section under [FragMu] *)

Lemma inv_at p gs j h t : gs !! j = Some (h, t) -> inv p gs -> exists L, consistent p (t :: L).
Proof.
  intros Hj HI. assert (Hj2 : gs.*2 !! j = Some t) by (by rewrite list_lookup_fmap, Hj).
  destruct (insert_perm _ _ _ t Hj2) as (L & HL & _). exists L.
  eapply consistent_perm; [exact HL|apply HI].
Qed.

Lemma no_storing (L : list chunk_stage) :
  (forall z, z ∈ L -> guard z <> Some FragMu) -> omap storing L = [].
Proof.
  intros HL. induction L as [|t L IH]; [done|]. cbn [omap list_omap].
  assert (Ht := HL t (list_elem_of_here _ _)). rewrite IH by (intros z Hz; apply HL; by right).
  by destruct t.
Qed.

(** A change of the buffers alone, by the handler that holds [FragMu]. *)
Lemma inv_section p p' gs j h h' t t' :
  (FragMu, Exclusive) ∈ h -> same_but_frags p p' -> apart j h gs -> inv p gs -> gs !! j = Some (h, t) ->
  chunk t' = chunk t -> relies p' t' h' ->
  (forall L, omap storing L = [] -> consistent p (t :: L) -> consistent p' (t' :: L)) ->
  inv p' (<[j := (h', t')]> gs).
Proof.
  intros Hh Hsame Ha HI Hj Hch Hrel Hmove.
  apply (inv_move p p' gs j h h' t t'); [done..| |].
  - intros k hk tk Hne Hk. assert (Hg := others_apart p gs j h FragMu k hk tk Hh Ha HI Hne Hk).
    assert (Hrk := inv_relies _ _ HI _ _ _ Hk). destruct tk; cbn in *; try done.
    destruct Hrk as [? Hseen]. split; [done|]. rewrite (same_seen p p' _ Hsame). exact Hseen.
  - intros L HL. apply Hmove, no_storing. intros z (k & hk & Hne & Hk)%HL.
    by apply (others_apart p gs j h FragMu k hk).
Qed.

(** An update that depends on the buffers alone. *)
Definition on_frags (f : Node -> Node) : Prop :=
  (forall n n', frags n = frags n' -> frags (f n) = frags (f n')) /\
  forall p, same_but_frags p (on_node f p).

Lemma frag_init_on : on_frags frag_init.
Proof.
  split; [intros n n' [= E1 E2]|intros p]; unfold frag_init, frags, same_but_frags, on_node; cbn.
  - destruct (FragBuf n) eqn:E3, (FragBuf n') eqn:E4; cbn; congruence.
  - by destruct (FragBuf (node p)).
Qed.

Lemma frag_open_on total : on_frags (frag_open fid total).
Proof.
  split; [intros n n' [= E1 E2]|intros p]; unfold frag_open, frags, same_but_frags, on_node; cbn.
  - rewrite E1. destruct (mget (FragBuf n') !! fid); cbn; congruence.
  - by destruct (mget (FragBuf (node p)) !! fid).
Qed.

Lemma frag_store_on idx m : on_frags (frag_store fid idx m).
Proof.
  split; [intros n n' [= E1 E2]|intros p]; unfold frag_store, frag_chunks, frags, same_but_frags; cbn; [|done].
  by rewrite E1, E2.
Qed.

Lemma frag_drop_on : on_frags (frag_drop fid).
Proof.
  split; [intros n n' [= E1 E2]|intros p]; unfold frag_drop, frags, same_but_frags; cbn; [|done].
  by rewrite E1, E2.
Qed.

Abbreviation in_section := [(FragMu, Exclusive)].

Lemma safe_enter {A} i f (k : unit -> prog Proc A) Q :
  on_frags f -> (forall n0, safe_for (k tt) in_section (Storing i n0 (f n0)) Q) ->
  safe_for (write FragMu (on_node f) ≫= k) in_section (Marked i) Q.
Proof.
  intros [Hf Hs] HQ. move_step. exists (Storing i (node p) (f (node p))). split; [|apply safe_ret, HQ].
  eapply inv_section; [by left|apply Hs|exact Ha|exact HI|exact Hj|done|split; [by left|done]|].
  intros L HL. by apply enter_consistent.
Qed.

Lemma safe_advance {A} i n0 n1 f (k : unit -> prog Proc A) Q :
  on_frags f -> safe_for (k tt) in_section (Storing i n0 (f n1)) Q ->
  safe_for (write FragMu (on_node f) ≫= k) in_section (Storing i n0 n1) Q.
Proof.
  intros [Hf Hs] HQ. move_step. exists (Storing i n0 (f n1)). split; [|by apply safe_ret].
  assert (Hrel := inv_relies _ _ HI _ _ _ Hj). destruct Hrel as [_ Hfr].
  eapply inv_section; [by left|apply Hs|exact Ha|exact HI|exact Hj|done|split; [by left|by apply Hf]|].
  intros L _. by apply advance_consistent.
Qed.

Lemma safe_hand i Q : Q tt [] (Handed i) -> safe_for (receive message) [] (Holding i) Q.
Proof.
  intros HQ. unfold receive. plain_step. move_step. exists (Handed i). split.
  - eapply (inv_move p _ gs j _ _ (Holding i)); [exact Hj|exact HI|done|done| |].
    + intros k hk tk _ Hk. assert (Hrk := inv_relies _ _ HI _ _ _ Hk). by destruct tk.
    + intros L _. by apply hand_consistent.
  - apply safe_ret. eapply safe_plain; [by intros|reflexivity|done|]. by intros [].
Qed.

(** The handler at its test whether the message is complete. *)
Lemma safe_complete i n0 n1 Q :
  i < N -> n1 = frag_put fid (Z.of_nat i + 1) (Z.of_nat N) (chunks !!! i) n0 ->
  Q tt [] (Stored i) -> Q tt [] (Handed i) ->
  safe_for (complete ← read FragMu (fun p => frag_complete fid (node p));
            if (complete : bool) then
              assembled ← read FragMu (fun p => assemble (Z.of_nat N) (frag_chunks fid (node p)));
              write FragMu (on_node (frag_drop fid)) ;;
              Unlock FragMu ;;
              receive assembled
            else Unlock FragMu) in_section (Storing i n0 n1) Q.
Proof.
  intros Hi Hn1 Hstored Hhanded.
  assert (Hcomp : forall n, frags n = frags n1 -> frag_complete fid n = frag_complete fid n1).
  { intros n [= E1 E2]. unfold frag_complete, frag_chunks. by rewrite E1, E2. }
  move_step. assert (Hrel := inv_relies _ _ HI _ _ _ Hj). destruct Hrel as [Hh Hf].
  destruct (inv_at _ _ _ _ _ Hj HI) as [L0 Hc0].
  assert (Hstore := store_consistent p L0 i n0 n1 Hn1 Hf Hc0). rewrite (Hcomp _ Hf).
  destruct (frag_complete fid n1) eqn:Ecomp.
  - exists (Storing i n0 n1). split.
    { eapply inv_same; [done| |exact HI|exact Hj]. intros m [= <-]. by left. }
    apply safe_ret. destruct Hstore as [Hmsg _]. clear HI Hj Ha Hf Hh Hc0 L0 p gs j o cs.
    move_step. assert (Hrel := inv_relies _ _ HI _ _ _ Hj). destruct Hrel as [Hh Hf].
    exists (Storing i n0 n1). split.
    { eapply inv_same; [done| |exact HI|exact Hj]. intros m [= <-]. by left. }
    apply safe_ret.
    assert (frag_chunks fid (node p) = frag_chunks fid n1) as ->.
    { injection Hf as E1 E2. unfold frag_chunks. by rewrite E1. }
    rewrite Hmsg. clear HI Hj Ha Hf Hh p gs j o cs.
    move_step. assert (Hrel := inv_relies _ _ HI _ _ _ Hj). destruct Hrel as [Hh Hf].
    exists (Holding i). split.
    + eapply inv_section; [by left|apply frag_drop_on|exact Ha|exact HI|exact Hj|done|done|].
      intros L _ Hc. assert (Hst := store_consistent p L i n0 n1 Hn1 Hf Hc). rewrite Ecomp in Hst.
      apply Hst; [apply frag_drop_on|]. by apply frag_drop_on.
    + apply safe_ret. plain_step. by apply safe_hand.
  - exists (Stored i). split.
    + eapply inv_section; [by left|done|exact Ha|exact HI|exact Hj|done|done|].
      intros L _ Hc. assert (Hst := store_consistent p L i n0 n1 Hn1 Hf Hc). by rewrite Ecomp in Hst.
    + apply safe_ret. eapply safe_plain; [by intros|reflexivity|done|]. by intros [].
Qed.

Lemma safe_handle_frag i layer Q :
  i < N -> carries layer (chunk_fragment fid chunks i) ->
  Q tt [] (Stored i) -> Q tt [] (Handed i) -> safe_for (handle_frag layer) [] (Marked i) Q.
Proof.
  intros Hi (Hl & Hm & Hlc & Hidx & Htot) Hstored Hhanded. unfold handle_frag.
  destruct (frag_label_parse fid (Z.of_nat i + 1) (Z.of_nat N) Hlc) as [E1 E2].
  cbn [chunk_fragment f_id f_idx f_total f_msg] in *. rewrite Hl, E1. cbn zeta.
  apply safe_bind, (safe_ret inv fid). apply safe_bind, (safe_ret inv). rewrite E2.
  apply safe_bind, (safe_ret inv). apply safe_bind, (safe_ret inv).
  rewrite !atoi_val_Itoa, Hm by done. plain_step.
  apply safe_enter; [apply frag_init_on|]. intros n0.
  apply safe_advance; [apply frag_open_on|]. apply safe_advance; [apply frag_store_on|].
  by apply safe_complete.
Qed.

Lemma safe_chunk_layer i layer :
  i < N -> carries layer (chunk_fragment fid chunks i) ->
  Type_ layer = "FINAL" -> MsgID layer = ids !!! i ->
  safe_for (handle_layer layer) [] (Arrived i) (fun _ _ t => finished t).
Proof.
  intros Hi Hcar Ht Hid. assert (Hf := Hcar). destruct Hf as (Hfr & _).
  replace (handle_layer layer)
    with (dup ← seenMsg (ids !!! i); if (dup : bool) then Ret tt else handle_frag layer ;; send_ack layer).
  2:{ unfold handle_layer, dispatch, handle_final. rewrite Ht, Hid, Hfr. unfold frag_label.
      cbn [f_id chunk_fragment]. by destruct fid. }
  apply safe_bind, safe_test_and_set; [done|done|].
  apply safe_bind, (safe_handle_frag i); [done|done|..];
    (apply safe_beside; [intros I _; apply bal_send_ack|done|done]).
Qed.

(** ** Runs *)

Definition arriving (t : chunk_stage) : Prop := t = Beside \/ exists i, i < N /\ t = Arrived i.

Lemma arriving_consistent p L t : arriving t -> consistent p L -> consistent p (t :: L).
Proof.
  intros [->|(i & Hi & ->)] [H1 H2 H3 H4 H5 H6 H7]; (split; [done|..]); try done. by constructor.
Qed.

Lemma inv_arriving p gs t : arriving t -> inv p gs -> inv p (gs ++ [([], t)]).
Proof.
  intros Ht [H1 H2 H3]. split.
  - rewrite fmap_app. eapply consistent_perm; [apply Permutation_cons_append|]. by apply arriving_consistent.
  - intros j h t' [Hj|[_ Hj]]%lookup_app_Some; [by eapply H2|].
    apply list_lookup_singleton_Some in Hj as [_ [= <- <-]]. by destruct Ht as [->|(i & _ & ->)].
  - intros i Hi. destruct (H3 i Hi) as (h & t' & Hg & Hc). exists h, t'. split; [by apply lookup_app_l_Some|done].
Qed.

Lemma beside_starts (q : prog Proc unit) :
  (forall I, sends_stable I -> balanced I (fun _ => True) q) -> starts_safe inv finished arriving q.
Proof. intros Hq. exists Beside. split; [by left|]. by apply safe_beside. Qed.

(** [line] is an onion for this node, with the FINAL layer of chunk [i]. *)
Definition chunk_line (i : nat) (line : string) : Prop :=
  exists pt layer, onion_line line /\ BroadcastDecrypt line sk = GOk pt /\
    StringToOnionLayer pt = GOk layer /\ carries layer (chunk_fragment fid chunks i) /\
    Type_ layer = "FINAL" /\ MsgID layer = ids !!! i.

Lemma safe_chunk_line i line :
  i < N -> chunk_line i line ->
  safe_for (handlerroutine (line +:+ str1 nl)) [] (Arrived i) (fun _ _ t => finished t).
Proof.
  intros Hi (pt & layer & Hol & Hd & Hp & Hcar & Ht & Hid). rewrite handlerroutine_onion by done.
  unfold handle_onion. plain_step. move_step. exists (Arrived i). split.
  { by eapply inv_same; [..|exact HI|exact Hj]. }
  apply safe_ret. rewrite (c_key _ _ (inv_consistent _ _ HI)), Hd. apply safe_bind, safe_ret. plain_step.
  rewrite Hp. by apply safe_chunk_layer.
Qed.

Section Lines.
Variable lines : list string.
Hypothesis Hlines : Forall2 chunk_line (seq 0 N) lines.

(** Any of the lines again, or what runs beside. *)
Definition arrivals (q : prog Proc unit) : Prop := exists line, line ∈ lines /\ replays line q.

Lemma arrivals_safe q : arrivals q -> starts_safe inv finished arriving q.
Proof.
  intros (line & Hin & Hq). destruct Hq; [|apply beside_starts; intros I HI..].
  - apply list_elem_of_lookup_1 in Hin as [i Hi].
    destruct (Forall2_lookup_r _ _ _ _ _ Hlines Hi) as (k & Hk & Hline).
    apply lookup_seq in Hk as [-> Hlt]. exists (Arrived i). split; [right; by exists i|].
    by apply safe_chunk_line.
  - by apply bal_body.
  - by apply bal_cleanCache_pass.
  - apply bal_getpubkey.
  - apply bal_bind; [apply bal_handleNodes|done].
Qed.

Lemma body_beside g : starts_safe inv finished arriving (body g).
Proof. apply beside_starts. intros I HI. by apply bal_body. Qed.

(** The node before: no chunk seen, nothing buffered. *)
Definition untouched (p : Proc) : Prop :=
  NPrivateKey (node p) = sk /\ (forall i, i < N -> seen_id p i = false) /\ wf_frag (node p) /\
  view fid (node p) = (None, None) /\ ReceivedMsgs (node p) = received.

Lemma untouched_consistent p : untouched p -> consistent p [].
Proof.
  intros (H1 & H2 & H3 & H4 & H5).
  assert (HN : @length nat [] <> N) by (by destruct chunks).
  split; [done|constructor| |constructor|constructor| |].
  - intros i Hi. rewrite H2 by done. split; [done|by intros ?%not_elem_of_nil].
  - left. split; [done|]. split; [done|]. change (omap past []) with (@nil nat). by rewrite decide_False.
  - left. split; [done|]. change (omap past []) with (@nil nat). by rewrite decide_False, app_nil_r.
Qed.

Lemma arrived_consistent p l :
  untouched p -> Forall (fun i => i < N) l -> consistent p (Arrived <$> l).
Proof.
  intros Hu Hl. induction Hl as [|i l Hi Hl IH]; [by apply untouched_consistent|].
  rewrite fmap_cons. apply arriving_consistent; [right; by exists i|done].
Qed.

Definition handlers : list (@thread Proc) :=
  (fun line => Thread [] (handlerroutine (line +:+ str1 nl))) <$> lines.

Lemma handlers_good p cs c :
  untouched p -> reach body arrivals (Cfg p cs handlers) c -> exists gs, good inv finished c gs.
Proof.
  intros Hu. set (gs := (fun i => (@nil (mutex * lockmode), Arrived i)) <$> seq 0 N).
  apply (good_reach inv body arrivals finished arriving inv_arriving arrivals_safe body_beside _ _ gs).
  split; [|split].
  - unfold handlers, gs. cbn [c_threads]. apply Forall2_fmap, Forall2_flip. eapply Forall2_impl; [|].
    2:{ intros i line H. exact H. }
    apply Forall2_same_length_lookup. split; [by eapply Forall2_length|].
    intros i k line Hk Hi. cbn. apply lookup_seq in Hk as [-> Hlt]. split; [done|].
    apply safe_chunk_line; [done|]. destruct (Forall2_lookup_r _ _ _ _ _ Hlines Hi) as (k & Hk & H).
    by apply lookup_seq in Hk as [-> _].
  - split.
    + unfold gs. rewrite <- list_fmap_compose. apply arrived_consistent; [done|].
      apply Forall_forall. intros i Hi%elem_of_seq. lia.
    + intros j h t Hj. unfold gs in Hj. rewrite list_lookup_fmap in Hj.
      destruct (seq 0 N !! j); [|done]. by injection Hj as <- <-.
    + intros i Hi. exists [], (Arrived i). unfold gs. by rewrite list_lookup_fmap, lookup_seq_lt.
  - intros i j ti tj _ Hi Hj. unfold handlers in Hi, Hj. cbn [c_threads] in Hi, Hj.
    rewrite list_lookup_fmap in Hi. destruct (lines !! i); [|done]. injection Hi as <-.
    by intros m md ?%not_elem_of_nil.
Qed.
End Lines.

(** At the end. *)
Lemma handlers_outcome c gs :
  good inv finished c gs ->
  (ReceivedMsgs (node (c_st c)) = received \/ ReceivedMsgs (node (c_st c)) = received ++ [message]) /\
  (ended c -> ReceivedMsgs (node (c_st c)) = received ++ [message] /\ view fid (node (c_st c)) = (None, None)).
Proof.
  intros (Hm & HI & _). assert (Hc := inv_consistent _ _ HI). split.
  { destruct (c_outcome _ _ Hc) as [[_ ->]|(i & _ & _ & ->)]; [|by left].
    destruct (decide _); [by right|left; apply app_nil_r]. }
  intros He.
  assert (Hfin : forall j h t, gs !! j = Some (h, t) -> finished t).
  { intros j h t Hj. destruct (Forall2_lookup_r _ _ _ _ _ Hm Hj) as (th & Hth & _ & Hs).
    by rewrite (He _ _ Hth) in Hs. }
  assert (Hfin2 : forall t, t ∈ gs.*2 -> finished t).
  { intros t ([h t'] & -> & (j & Hj)%list_elem_of_lookup_1)%list_elem_of_fmap. by eapply Hfin. }
  assert (Hall : seq 0 N ⊆+ omap past gs.*2).
  { apply NoDup_submseteq; [apply NoDup_seq|]. intros i Hi%elem_of_seq.
    assert (Hs : seen_id (c_st c) i = true).
    { destruct (inv_first _ _ HI i) as (h & t & Hg & Hch); [lia|]. assert (Hf := Hfin _ _ _ Hg).
      assert (Ht : t ∈ gs.*2) by (apply list_elem_of_fmap; by eexists (h, t); split; [|eapply list_elem_of_lookup_2]).
      destruct t; try done; injection Hch as ->.
      - apply (c_seen _ _ Hc); [lia|]. apply list_elem_of_omap. by exists (Stored i).
      - apply (c_seen _ _ Hc); [lia|]. apply list_elem_of_omap. by exists (Handed i).
      - assert (Hk := c_known _ _ Hc). rewrite Forall_forall in Hk. apply Hk, list_elem_of_omap. by exists (Known i). }
    apply (c_seen _ _ Hc) in Hs as (t & Ht & Ho)%list_elem_of_omap; [|lia].
    apply list_elem_of_omap. exists t. split; [done|]. specialize (Hfin2 t Ht). by destruct t. }
  assert (Hlen : length (omap past gs.*2) = N).
  { apply submseteq_length in Hall. rewrite length_seq in Hall.
    destruct (stored_set (omap past gs.*2)) as [? _]; [by apply past_NoDup, Hc| |lia].
    apply Forall_forall. intros i Hi. assert (Hch := c_chunks _ _ Hc). rewrite Forall_forall in Hch.
    by apply Hch, past_chunk. }
  assert (Hnone : forall A (f : chunk_stage -> option A),
    (forall t, finished t -> f t = None) -> omap f gs.*2 = []).
  { intros A f Hf. apply elem_of_nil_inv. intros x (t & Ht & Hx)%list_elem_of_omap.
    rewrite Hf in Hx by (by apply Hfin2). done. }
  split.
  - destruct (c_outcome _ _ Hc) as [[_ ->]|(i & E & _)]; [by rewrite decide_True|].
    rewrite Hnone in E by (by intros []). done.
  - destruct (c_buffer _ _ Hc) as [[_ [_ Hp]]|(n & E & _)]; [by rewrite decide_True in Hp|].
    rewrite Hnone in E by (by intros []). done.
Qed.
End Reassembling.

(** ** From the layers of a message *)

Lemma chunks_nonempty msg size chunks :
  splitMessage msg size = Some chunks -> 0 < size -> msg <> "" -> str_concat chunks = msg /\ chunks <> [].
Proof.
  intros Hsp Hs Hne.
  destruct (split_loop_spec (S (String.length msg)) msg size [] Hs) as (ch & Hch & Hcat & _); [lia|].
  unfold splitMessage in Hsp. rewrite Hch in Hsp. injection Hsp as <-. split; [done|]. by intros ->.
Qed.

Lemma chunk_lines {C : CryptoLib} fid chunks p lines layers :
  Forall2 (opens p) lines layers ->
  Forall2 carries layers (chunk_fragment fid chunks <$> seq 0 (length chunks)) ->
  Forall (fun l => Type_ l = "FINAL") layers ->
  Forall2 (chunk_line fid chunks (MsgID <$> layers) (NPrivateKey (node p))) (seq 0 (length chunks)) lines.
Proof.
  intros Ho Hc Ht. apply Forall2_same_length_lookup. split.
  - rewrite (Forall2_length _ _ _ Ho), (Forall2_length _ _ _ Hc). by rewrite length_fmap.
  - intros k i line Hi Hl. destruct (Forall2_lookup_l _ _ _ _ _ Ho Hl) as (layer & Hla & Hline & pt & Hd & Hp).
    destruct (Forall2_lookup_l _ _ _ _ _ Hc Hla) as (f & Hf & Hcar).
    rewrite list_lookup_fmap, Hi in Hf. injection Hf as <-. apply lookup_seq in Hi as [-> _].
    exists pt, layer. split_and!; try done.
    + rewrite Forall_lookup in Ht. by eapply Ht.
    + symmetry. apply list_lookup_total_correct. cbn [Nat.add]. by rewrite list_lookup_fmap, Hla.
Qed.
