(* ===== verification/ToyNetwork.v ===== *)
(** * Concrete processes and networks for the witnesses

    A process with the toy keys of ToyCrypto, a network of such processes, and
    merge sort as an instance of the interface to [sort.Slice]. *)

From Stdlib Require Import Sorting.Sorted.
From stdpp Require Import sorting.
From S2P Require Import Prelude GoStrings Base64 GoMonad Crypto ToyCrypto OnionLayer KeyCache.
From S2P Require Import Node NodeSpec OnionBuild Network Directory Cluster.
Import Toy.

Module ToyNet.

Definition not_less {A} (less : A -> A -> bool) (x y : A) : Prop := less y x = false.

#[export] Instance not_less_dec {A} (less : A -> A -> bool) : RelDecision (not_less less).
Proof. intros x y. unfold not_less. apply _. Defined.

#[export] Instance merge_sort_slice : GoSort := fun A less l => merge_sort (not_less less) l.

#[export] Instance merge_sort_laws : GoSortLaws merge_sort_slice.
Proof.
  split.
  - intros A less l. apply merge_sort_Permutation.
  - intros A less l Hasym _ Htr.
    assert (Total (not_less less)).
    { intros x y. unfold not_less. destruct (less y x) eqn:E; [right|by left]. by apply Hasym. }
    assert (Transitive (not_less less)).
    { intros x y z Hxy Hyz. by apply (Htr z y x). }
    apply (StronglySorted_merge_sort (not_less less)).
Qed.

(** The process that listens on [ip:port] with the key [key]. *)
Definition toy_node (name ip : string) (port : Z) (key : string) : Node :=
  MkNode name port key key ip ∅ ∅ None None None [].
Definition toy_proc (name ip : string) (port : Z) (key : string) : Proc :=
  MkProc (toy_node name ip port key) ∅.

(** The sender waits for [msgID] and [nack] on its channel 0. *)
Definition waiting_proc (name ip : string) (port : Z) (key msgID nack : string) : Proc :=
  on_node (upd_PendingACKs (fun _ => <[nack := 0]> {[msgID := 0]})) (toy_proc name ip port key).

Definition toy_group (addrs keys : list string) : LayerGroup := MkGroup addrs keys.

Definition msg0 : string := "msg-0123456789".
Definition nacks0 : list string := ["nack-0000000001"; "nack-0000000002"; "nack-0000000003"].

(** Sender s:1, relays a:2 (down), b:3 and c:4, destination d:5. *)
Definition toy_procs : gmap string (Proc * list chan) :=
  <["s:1" := (waiting_proc "s" "s" 1 "ks" msg0 "nack-0000000001", [Chan [] 1])]>
  (<["b:3" := (toy_proc "b" "b" 3 "kb", [])]>
  (<["c:4" := (toy_proc "c" "c" 4 "kc", [])]>
  {["d:5" := (toy_proc "d" "d" 5 "kd", [])]})).

Definition toy_route : list LayerGroup :=
  [toy_group ["a:2"; "b:3"] ["ka"; "kb"]; toy_group ["c:4"] ["kc"]; toy_group ["d:5"] ["kd"]].
Definition toy_return : list LayerGroup :=
  [toy_group ["c:4"] ["kc"]; toy_group ["a:2"; "b:3"] ["ka"; "kb"]; toy_group ["s:1"] ["ks"]].

Definition toy_d : Proc := toy_proc "d" "d" 5 "kd".
Definition toy_d_seen (id : string) : Proc := on_node (set_SeenMsgs (Some {[id := 0%Z]})) toy_d.
Definition toy_relay : OnionLayer := MkOnionLayer "RELAY" "n-1:n-2" "a:2,b:3" "s:1" "xx" "" "".

(** Any well-formed layer can be sent to that node. *)
Lemma toy_line (p : Proc) layer :
  NPrivateKey (node p) = "kd" -> wf_layer layer -> exists line, opens p line layer.
Proof.
  intros Hk Hwf.
  assert (Hs : Forall (fun pk => 128 <= @Size toy_lib pk) ["kd"])
    by (apply Forall_cons_2; [cbn; lia|by apply Forall_nil_2]).
  assert (H : wp toy_env (BroadcastEncrypt (C:=toy_lib) (OnionlayerToString layer) ["kd"])
    (World 0 [] [] []) (fun r _ => exists ct, @layer_ct toy_lib ["kd"] (OnionlayerToString layer) ct)).
  { apply (wp_BroadcastEncrypt (C:=toy_lib)); [done|exact Hs|]. intros ct w Hct _. by exists ct. }
  apply wp_run in H as (_ & _ & _ & ct & [Hl Hm _]). exists ct. split; [done|].
  exists (OnionlayerToString layer). split; [rewrite Hk; apply Hm; by left|by apply parse_print].
Qed.

Lemma toy_relay_wf : wf_layer toy_relay.
Proof. apply (bool_decide_unpack _). by vm_compute. Qed.

End ToyNet.
