(* ===== verification/NetworkTheorems.v ===== *)
(** * Theorems: messages through the network

    An onion made by either encapsulator reaches its destination and its
    acknowledgement comes back; one that meets a dead hop comes back as a
    refusal. *)

From S2P Require Import Prelude GoStrings Base64 GoMonad Crypto ToyCrypto OnionLayer KeyCache.
From S2P Require Import Node NodeSpec OnionBuild Network Directory Cluster ToyNetwork.
Import Toy ToyNet.

Section Theorems.
Context {C : CryptoLib} {L : CryptoLaws C}.

(** C4. Round trip: an encapsulated message, handed to a listening member of
    the first hop, whole message or chunk, is received by the destination
    exactly once and by nobody else; its acknowledgement travels back and puts [true] on the channel the
    sender waits on, whose entry is removed; no other process's pending
    acknowledgements change, no process changes but for its bookkeeping of the
    messages under way, and nothing stays on the wire.  One listening
    member per group is enough, whatever the others do and whatever the
    draws are. *)
Theorem message_round_trip hops rhops rsender k message nacks msgID payload N dest sender i evs :
  encapsulated hops rhops sender rsender (parcel_text k) message nacks msgID payload -> parcel_ok k ->
  routed N hops rhops dest sender -> fresh N nacks msgID -> waits N sender msgID i ->
  lacks pipe sender -> lacks pipe rsender -> at_hop N (List.hd ("", []) hops) payload ->
  length evs = length hops + length rhops ->
  exists N', deliver_all evs N = Some N' /\ delivered N N' dest sender k message msgID i.
Proof. apply round_trip. Qed.

(** C5. Failure: on a route of single relays whose first dead hop comes after
    at least one live one, the refusal travels back relay by relay to the
    sender, whose channel gets [false]; every relay has forgotten its pending
    entry and nobody has received anything. *)
Theorem failure_comes_back ups down rest rhops rsender frag message nacks msgID payload N sender
    n0 i evs :
  encapsulated (ups ++ down :: rest) rhops sender rsender frag message nacks msgID payload ->
  ups <> [] -> at_hop N (List.hd ("", []) ups) payload ->
  Forall (hop_ok N) (ups ++ [down]) -> Forall (up_single N) ups -> down_hop N down ->
  lacks pipe sender -> ParseAddresses sender = [sender] ->
  fresh N nacks msgID -> Forall (idle N) (tail nacks) ->
  nacks !! 0 = Some n0 -> waits N sender n0 i -> length evs = 2 * length ups ->
  exists N', deliver_all evs N = Some N' /\ refused N N' sender n0 i.
Proof.
  intros [_ Hnacks _ (ret & _ & Ho)] Hne Hat Hok Hup Hdown Hs Hss Hfr Hidle Hn0 Hw Hevs.
  assert (Hnk : Forall nack_ok nacks) by (eapply Forall_impl; [exact Hnacks|apply nack_id_ok]).
  destruct nacks as [|n nacks]; [done|]. injection Hn0 as ->.
  eapply (nack_round ups down rest sender (n0 :: nacks)); try done; [apply Hfr|].
  by eapply fresh_pair_ids.
Qed.

(** C8. The encapsulator of SSEND produces, for every route of usable groups,
    fresh identifiers of the documented shape and two nested onions: one that
    the route unwraps to the message, one inside it that the return route
    unwraps to the acknowledgement. *)
Theorem super_encapsulation (ev : env Proc) p message route returnRoute sender c t :
  route <> [] -> Forall usable route -> Forall usable returnRoute ->
  (returnRoute <> [] -> length returnRoute = length route) ->
  wp ev (Encapsulator_func_super message route returnRoute sender) (World p [] c t) (fun r w =>
    exists nacks msgID payload n0 u,
      encapsulated (ghop <$> route) (ghop <$> returnRoute) sender
        (match returnRoute with [] => "" | g :: _ => JoinAddresses (Addrs (List.last returnRoute g)) end)
        "" message nacks msgID payload /\
      nacks !! 0 = Some n0 /\ r = inl (payload, msgID, n0) /\
      w = World p [] c (t ++ u) /\ Forall internal u).
Proof.
  intros. apply wp_Encapsulator_func_super; [done..|].
  intros nacks msgID payload n0 u He Hn Hu. by exists nacks, msgID, payload, n0, u.
Qed.

(** C9. The encapsulator of SEND does the same for a route of single relays:
    it asks the directory for the keys that are missing or expired, leaves a
    key for every relay in the cache, and wraps the message and the
    acknowledgement for those keys. *)
Theorem send_encapsulation (ev : env Proc) pk_of message frag route returnRoute sender p c t :
  route <> [] -> Forall (fun a => key_fits (pk_of a)) (route ++ returnRoute) ->
  (returnRoute <> [] -> length returnRoute = length route) ->
  dir_knows ev pk_of (route ++ returnRoute) -> agrees pk_of (route ++ returnRoute) (cache p) ->
  wp ev (Encapsulator_func message frag route returnRoute sender) (World p [] c t) (fun r w =>
    exists nacks msgID payload n0 m u,
      encapsulated (single pk_of <$> route) (single pk_of <$> returnRoute) sender
        (List.last returnRoute "") frag message nacks msgID payload /\
      nacks !! 0 = Some n0 /\ r = inl (payload, msgID, n0) /\
      w = World (with_cache m p) [] c (t ++ u) /\ NodeSpec.emits u [] /\
      (forall a, a ∈ route ++ returnRoute -> Key <$> m !! a = Some (pk_of a))).
Proof.
  intros. apply (wp_Encapsulator_func ev pk_of (route ++ returnRoute)); [done..|].
  intros nacks msgID payload n0 m u He Hn Hu Hag Hall. exists nacks, msgID, payload, n0, m, u.
  do 5 (split; [done|]). intros a Ha. destruct (Hall a Ha) as [v Hv]. rewrite Hv. cbn. f_equal. by apply (Hag a).
Qed.

(** Some onion exists for any identifiers: the builders make it. *)
Lemma encapsulated_exists (ev : env Proc) (p : Proc) message route returnRoute sender rsender nacks msgID :
  route <> [] -> returnRoute <> [] -> Forall usable route -> Forall usable returnRoute ->
  length returnRoute = length route -> length nacks = length route ->
  id_shape "msg" msgID -> Forall (id_shape "nack") nacks ->
  exists payload, encapsulated (ghop <$> route) (ghop <$> returnRoute) sender rsender "" message
    nacks msgID payload.
Proof.
  intros Hne Hrne Hu Hru Hl Hn Hid Hnk.
  assert (Hex : forall inner rt s ns, rt <> [] -> Forall usable rt -> length ns = length rt ->
    exists ct, onion (ghop <$> rt) s ns (OnionlayerToString inner) ct).
  { intros inner rt s ns Hrt Hur Hns.
    assert (Hwp := wp_encryptOnionLayersGroup ev p inner rt s ns [] []
      (fun r _ => exists ct, onion (ghop <$> rt) s ns (OnionlayerToString inner) ct)).
    assert (H : wp ev (encryptOnionLayersGroup inner rt s ns) (World p [] [] [])
      (fun _ _ => exists ct, onion (ghop <$> rt) s ns (OnionlayerToString inner) ct)).
    { apply Hwp; [done..|]. intros ct u Ho _. by exists ct. }
    apply wp_run in H as (r & w & _ & H). exact H. }
  destruct (Hex (ack_layer msgID) returnRoute rsender (reverse nacks)) as [ret Hret];
    [done|done|by rewrite length_reverse, Hn|].
  destruct (Hex (MkOnionLayer "FINAL" msgID (match ghop <$> returnRoute with [] => "" | h :: _ => h.1 end)
    "" ret "" message) route sender nacks) as [payload Ho]; [done..|].
  exists payload. split; [done|done|by rewrite length_fmap|]. exists ret. split; [|done].
  by destruct returnRoute.
Qed.
End Theorems.

(** ** Witnesses *)

Ltac by_decide := apply (bool_decide_unpack _); by vm_compute.

Lemma toy_usable : Forall usable toy_route /\ Forall usable toy_return.
Proof.
  split; repeat (apply Forall_cons_2; [split; [done|repeat (apply Forall_cons_2; [unfold key_fits; cbn; lia|]);
    by apply Forall_nil_2]|]); by apply Forall_nil_2.
Qed.

Lemma toy_ids : id_shape "msg" msg0 /\ Forall (id_shape "nack") nacks0.
Proof.
  split; [by exists "0123456789"|].
  repeat (apply Forall_cons_2; [eexists; split; [reflexivity|by vm_compute]|]). by apply Forall_nil_2.
Qed.

Lemma toy_clean wr :
  map_Forall (fun _ x => SeenMsgs (node x.1) = None /\ PendingRelays (node x.1) = ∅)
    (procs (Net toy_procs wr)).
Proof.
  unfold procs, toy_procs.
  repeat (apply map_Forall_insert_2; [done|]). apply map_Forall_empty.
Qed.

Lemma toy_unseen wr id : unseen (Net toy_procs wr) id.
Proof. intros a p c Hp. destruct (toy_clean wr a (p, c) Hp) as [Hs _]. cbn in Hs. by rewrite Hs. Qed.

Lemma toy_fresh wr : fresh (Net toy_procs wr) nacks0 msg0.
Proof.
  split; [|intros; apply toy_unseen|apply toy_unseen].
  by_decide.
Qed.

(** [hop_ok] and [up_hop] by computation. *)
Definition hop_check (N : net) (h : hop) : bool :=
  negb (Contains h.1 pipe) && Contains h.1 colon &&
  forallb (fun b => match procs N !! b with
                    | Some (p, _) => bool_decide (Public (NPrivateKey (node p)) ∈ h.2)
                    | None => true end) (ParseAddresses h.1) &&
  existsb (up N) (ParseAddresses h.1).

Lemma hop_check_ok N hops :
  forallb (hop_check N) hops = true -> Forall (hop_ok N) hops /\ Forall (up_hop N) hops.
Proof.
  intros H. rewrite forallb_forall in H. split; apply Forall_forall; intros h Hh;
    apply list_elem_of_In, H in Hh; unfold hop_check in Hh; b2p.
  - split; [done|]. split; [done|]. intros b p c Hb Hp.
    match goal with H : forallb _ _ = true |- _ => rewrite forallb_forall in H;
      apply list_elem_of_In, H in Hb; rewrite Hp in Hb end.
    by apply bool_decide_eq_true in Hb.
  - match goal with H : existsb _ _ = true |- _ => apply existsb_exists in H as (b & Hb & Hu) end.
    exists b. by rewrite list_elem_of_In.
Qed.

Lemma toy_routed wr :
  routed (Net toy_procs wr) (ghop <$> toy_route) (ghop <$> toy_return) "d:5" "s:1".
Proof.
  split.
  - apply (hop_check_ok _ (_ ++ _)). by vm_compute.
  - apply (hop_check_ok _ (_ ++ _)). by vm_compute.
  - done.
  - by vm_compute.
  - by vm_compute.
Qed.

Lemma toy_waits wr id : id ∈ [msg0; "nack-0000000001"] -> waits (Net toy_procs wr) "s:1" id 0.
Proof.
  intros Hid. exists (waiting_proc "s" "s" 1 "ks" msg0 "nack-0000000001"), [Chan [] 1].
  split; [apply lookup_insert_eq|]. split.
  - repeat (apply elem_of_cons in Hid as [->|Hid]; [by vm_compute|]). by apply not_elem_of_nil in Hid.
  - exists (Chan [] 1). split; [done|cbn; lia].
Qed.

Lemma message_round_trip_witness :
  exists payload N',
    deliver_all (replicate 6 toy_env) (Net toy_procs [("b:3", payload +:+ str1 nl)]) = Some N' /\
    delivered (Net toy_procs [("b:3", payload +:+ str1 nl)]) N' "d:5" "s:1" Whole "hello" msg0 0.
Proof.
  destruct toy_usable as [Hu Hru]. destruct toy_ids as [Hid Hnk].
  destruct (encapsulated_exists toy_env (toy_proc "s" "s" 1 "ks") "hello" toy_route toy_return "s:1"
    "s:1" nacks0 msg0) as [payload He]; [done|done|done|done|done|done|done|done|].
  exists payload.
  destruct (message_round_trip _ _ _ Whole _ _ _ _ (Net toy_procs [("b:3", payload +:+ str1 nl)]) "d:5" "s:1"
    0 (replicate 6 toy_env) He) as (N' & HN' & Hd).
  - exact I.
  - apply toy_routed.
  - apply toy_fresh.
  - apply toy_waits. by left.
  - by vm_compute.
  - by vm_compute.
  - exists "b:3". split; [done|]. split; [by_decide|by vm_compute].
  - done.
  - by exists N'.
Defined.

(** A route whose second relay, a:2, is dead. *)
Definition dead_route : list LayerGroup :=
  [toy_group ["b:3"] ["kb"]; toy_group ["a:2"] ["ka"]; toy_group ["d:5"] ["kd"]].

Lemma toy_idle wr n : n ∈ tail nacks0 -> idle (Net toy_procs wr) n.
Proof.
  intros Hn a p c Hp. split.
  - destruct (toy_clean wr a (p, c) Hp) as [_ Hr]. cbn in Hr. by rewrite Hr.
  - assert (H : map_Forall (fun _ x => PendingACKs (node x.1) !! n = None) toy_procs).
    { unfold toy_procs. apply map_Forall_insert_2;
        [|repeat (apply map_Forall_insert_2; [done|]); apply map_Forall_empty].
      repeat (apply elem_of_cons in Hn as [->|Hn]; [by vm_compute|]). by apply not_elem_of_nil in Hn. }
    exact (H a (p, c) Hp).
Qed.

Lemma failure_comes_back_witness :
  exists payload N',
    deliver_all (replicate 2 toy_env) (Net toy_procs [("b:3", payload +:+ str1 nl)]) = Some N' /\
    refused (Net toy_procs [("b:3", payload +:+ str1 nl)]) N' "s:1" "nack-0000000001" 0.
Proof.
  destruct toy_ids as [Hid Hnk].
  assert (Hu : Forall usable dead_route /\ Forall usable (reverse dead_route)).
  { split; [|apply Forall_reverse];
      repeat (apply Forall_cons_2; [split; [done|repeat (apply Forall_cons_2; [unfold key_fits; cbn; lia|]);
        by apply Forall_nil_2]|]); by apply Forall_nil_2. }
  destruct (encapsulated_exists toy_env (toy_proc "s" "s" 1 "ks") "hello" dead_route (reverse dead_route)
    "s:1" "s:1" nacks0 msg0) as [payload He]; [done|done|apply Hu|apply Hu|done|done|done|done|].
  exists payload. set (N := Net toy_procs [("b:3", payload +:+ str1 nl)]).
  destruct (failure_comes_back [ghop (toy_group ["b:3"] ["kb"])] (ghop (toy_group ["a:2"] ["ka"]))
    [ghop (toy_group ["d:5"] ["kd"])] _ _ _ _ _ msg0 payload N "s:1" "nack-0000000001" 0
    (replicate 2 toy_env) He) as (N' & HN' & Hr).
  - done.
  - exists "b:3". split; [done|]. split; [by_decide|by vm_compute].
  - apply Forall_cons_2; [|apply Forall_cons_2; [|by apply Forall_nil_2]].
    + assert (H : forallb (hop_check N) [ghop (toy_group ["b:3"] ["kb"])] = true) by by vm_compute.
      apply hop_check_ok in H as [H _]. by apply Forall_cons_1 in H as [H _].
    + split; [by vm_compute|]. split; [by vm_compute|]. intros b p c Hb Hp. exfalso.
      cbn [fst ghop] in Hb. apply list_elem_of_singleton in Hb as ->.
      assert (Hup : up N "a:2" = false) by by vm_compute. unfold up in Hup.
      apply bool_decide_eq_false in Hup. apply Hup. by exists (p, c).
  - apply Forall_cons_2; [|by apply Forall_nil_2]. exists "b:3". split; [done|by vm_compute].
  - intros b Hb. apply list_elem_of_singleton in Hb as ->. by vm_compute.
  - by vm_compute.
  - by vm_compute.
  - apply toy_fresh.
  - apply Forall_forall. apply toy_idle.
  - done.
  - apply toy_waits. right. by left.
  - done.
  - by exists N'.
Defined.

Lemma super_encapsulation_witness :
  exists payload msgID n0 w,
    run toy_env (Encapsulator_func_super "hello" toy_route toy_return "s:1")
      (World (toy_proc "s" "s" 1 "ks") [] [] []) = (Done (inl (payload, msgID, n0)), w) /\
    exists nacks, encapsulated (ghop <$> toy_route) (ghop <$> toy_return) "s:1" "s:1" "" "hello"
      nacks msgID payload.
Proof.
  destruct toy_usable as [Hu Hru].
  destruct (proj1 (wp_run _ _ _ _) (super_encapsulation toy_env (toy_proc "s" "s" 1 "ks") "hello"
    toy_route toy_return "s:1" [] [] ltac:(done) Hu Hru ltac:(done)))
    as (r & w & Hrun & nacks & msgID & payload & n0 & u & He & _ & -> & _).
  exists payload, msgID, n0, w. split; [exact Hrun|]. by exists nacks.
Defined.

(** A directory that knows one key per address. *)
Definition key_env : env Proc := Env Z.of_nat (fun _ _ => true)
  (fun _ l => Some ("KEY:" +:+ EncodeToString (TrimPrefix (TrimSpace l) "GET_KEY:") +:+ str1 nl))
  (fun _ => 0%Z) (fun _ => true) (fun _ => false) (fun _ s => (None, s)) (fun _ => "")
  (fun _ _ _ => NoDial).

Lemma send_encapsulation_witness :
  exists payload msgID n0 w,
    run key_env (Encapsulator_func "hello" "" ["b:3"; "d:5"] ["b:3"; "s:1"] "s:1")
      (World (toy_proc "s" "s" 1 "ks") [] [] []) = (Done (inl (payload, msgID, n0)), w) /\
    exists nacks, encapsulated (single id <$> ["b:3"; "d:5"]) (single id <$> ["b:3"; "s:1"]) "s:1" "s:1"
      "" "hello" nacks msgID payload.
Proof.
  destruct (proj1 (wp_run _ _ _ _) (send_encapsulation key_env id "hello" "" ["b:3"; "d:5"]
    ["b:3"; "s:1"] "s:1" (toy_proc "s" "s" 1 "ks") [] [] ltac:(done)
    ltac:(repeat (apply Forall_cons_2; [unfold key_fits; cbn; lia|]); by apply Forall_nil_2) ltac:(done)
    ltac:(intros a n Ha; eexists; split; [reflexivity|];
          repeat (apply elem_of_cons in Ha as [->|Ha]; [by vm_compute|]); by apply not_elem_of_nil in Ha)
    ltac:(by intros a v _ Hv)))
    as (r & w & Hrun & nacks & msgID & payload & n0 & m & u & He & _ & -> & _).
  exists payload, msgID, n0, w. split; [exact Hrun|]. by exists nacks.
Defined.
