(* ===== verification/PrivacyTheorems.v ===== *)
(** * Theorems: what relays learn

    Every relay of an onion reads its two neighbours and nothing else of the
    route; but the relay before the destination is also the first of the way
    back, and finds the sender in its layer of the return onion. *)

From S2P Require Import Prelude GoStrings Base64 GoMonad Crypto ToyCrypto OnionLayer KeyCache Node.
From S2P Require Import NodeSpec OnionBuild Network Views Directory Cluster ToyNetwork NetworkTheorems.
Import Toy ToyNet.

Section Theorems.
Context {C : CryptoLib} {L : CryptoLaws C}.

(** C13. Everything the groups of an SSEND onion can read.  The line for a group
    opens with the keys of its members and with no other key.  A relay group
    finds two NACK identifiers, the addresses of the next group and of the
    previous one (the sender for the first), the line for the next group, and
    nothing else: neither a message nor a fragment label.  The destination finds
    the message, its identifier, the addresses of the first return group and the
    return onion, and no previous hop.  The return onion is of the same kind,
    with the identifiers in reverse; its first group finds the addresses of its
    last one, the sender, as those of the previous hop. *)
Theorem relay_view (ev : env Proc) p message route returnRoute sender c t :
  route <> [] -> Forall usable route -> Forall usable returnRoute ->
  (returnRoute <> [] -> length returnRoute = length route) ->
  Forall (fun g => lacks pipe (JoinAddresses (Addrs g))) (route ++ returnRoute) ->
  lacks pipe sender ->
  wp ev (Encapsulator_func_super message route returnRoute sender) (World p [] c t) (fun r _ =>
    exists payload msgID nacks ret, r = inl (payload, msgID, List.hd "" nacks) /\
      id_shape "msg" msgID /\ Forall (id_shape "nack") nacks /\ length nacks = length route /\
      shows (ghop <$> route) sender nacks
        (MkOnionLayer "FINAL" msgID
           (match returnRoute with [] => "" | g :: _ => JoinAddresses (Addrs g) end) "" ret "" message)
        payload /\
      match returnRoute with
      | [] => ret = ""
      | g :: gs =>
          let last := JoinAddresses (Addrs (List.last gs g)) in
          shows (ghop <$> returnRoute) last (reverse nacks) (ack_layer msgID) ret /\
          (gs <> [] -> exists l, opens_only (PubKeys g) ret l /\ From l = last)
      end).
Proof.
  intros Hne Hu Hru Hlen Hp Hs. apply (wp_Encapsulator_func_super ev); [done..|].
  intros nacks msgID payload n0 u He Hn0 _.
  assert (Hid := enc_msgID _ _ _ _ _ _ _ _ _ He). assert (Hnk := enc_nacks _ _ _ _ _ _ _ _ _ He).
  assert (Hl := enc_len _ _ _ _ _ _ _ _ _ He). rewrite length_fmap in Hl.
  apply encapsulated_shows in He as (ret & Hv & Hrv & Hr0); [|by rewrite <- fmap_app; apply Forall_fmap|done| |done].
  2: { apply Forall_app in Hp as [_ Hp]. destruct returnRoute as [|g gs]; [apply lacks_nil|].
       exact (Forall_last _ (g :: gs) g ltac:(done) Hp). }
  exists payload, msgID, nacks, ret. split; [by destruct nacks; [|injection Hn0 as ->]|].
  do 3 (split; [done|]). split; [by destruct returnRoute|].
  destruct returnRoute as [|g gs]; [by apply Hr0|]. cbn zeta. specialize (Hrv ltac:(done)).
  assert (Elast : List.last (g :: gs) g = List.last gs g) by (by destruct gs).
  rewrite Elast in Hrv. split; [done|]. intros Hgs. destruct gs as [|g2 gs]; [done|]. cbn [fmap list_fmap shows] in Hrv.
  destruct (reverse nacks) as [|n1 [|n2 ns]]; [done|done|]. destruct Hrv as (data & Ho & _). by eexists.
Qed.

(** C14. The exit relay learns both ends.  In every onion of SEND, the relay
    before the destination reads the destination's address in its forward
    layer, and, with its own key, the sender's address in the [From] field of
    the return onion the destination hands it. *)
Theorem exit_relay_learns_sender (ev : env Proc) pk_of message frag front exit dest self p c t :
  let route := front ++ [exit; dest] in
  let returnRoute := exit :: reverse front ++ [self] in
  Forall (fun a => key_fits (pk_of a)) (route ++ returnRoute) ->
  dir_knows ev pk_of (route ++ returnRoute) -> agrees pk_of (route ++ returnRoute) (cache p) ->
  Forall (lacks pipe) (route ++ returnRoute) -> lacks pipe frag ->
  wp ev (Encapsulator_func message frag route returnRoute self) (World p [] c t) (fun r _ =>
    exists payload msgID n0, r = inl (payload, msgID, n0) /\
    forall sks sk dk, Forall2 (fun sk a => Public sk = pk_of a) sks front ->
      Public sk = pk_of exit -> Public dk = pk_of dest ->
      exists line forward final return_, reach sks payload = Some line /\
        peel sk line = Some forward /\ Next forward = dest /\
        peel dk (Data forward) = Some final /\ Message final = message /\ Next final = exit /\
        peel sk (Data final) = Some return_ /\ From return_ = self).
Proof.
  intros route returnRoute Hfit Hdir Hag Hp Hf. apply (wp_Encapsulator_func ev pk_of (route ++ returnRoute)); [by destruct front|done| |done..|].
  { intros _. unfold route, returnRoute. cbn. rewrite !length_app, length_reverse. cbn. lia. }
  intros nacks msgID payload n0 m u He _ _ _ _. exists payload, msgID, n0. split; [done|].
  assert (Hlast : List.last returnRoute "" = self).
  { unfold returnRoute. rewrite app_comm_cons. apply last_last. }
  rewrite Hlast in He.
  assert (Hself : lacks pipe self).
  { rewrite Forall_forall in Hp. apply Hp. unfold returnRoute. set_solver. }
  apply encapsulated_view in He as (ret & Hv & Hrv); [|by rewrite <- fmap_app; apply Forall_fmap|done..].
  specialize (Hrv ltac:(done)).
  assert (E : forall n, (single pk_of <$> route) !! (length front + n) = single pk_of <$> [exit; dest] !! n).
  { intros n. unfold route. rewrite list_lookup_fmap, lookup_app_r by lia. by rewrite Nat.add_sub'. }
  assert (E0 := E 0). assert (E1 := E 1). assert (E2 := E 2). cbn in E0, E1, E2.
  rewrite Nat.add_0_r in E0. rewrite Nat.add_1_r in E1.
  intros sks sk dk Hsks Hsk Hdk.
  destruct (readable_step _ _ _ _ _ _ _ sks sk Hv E0 E1) as (line & fwd & fin & Hl & Hp1 & Hat & Hp2 & Hat2).
  { unfold keys_of, route. rewrite fmap_app, take_app_length' by (symmetry; apply length_fmap).
    apply Forall2_fmap_r. eapply Forall2_impl; [exact Hsks|]. intros sk' a ->. by left. }
  { rewrite Hsk. by left. }
  destruct (Hrv 0 (single pk_of exit)) as (rline & rl & Hrl & Hp3 & Hat3); [done|].
  specialize (Hrl [] ltac:(constructor)). injection Hrl as <-.
  apply (layer_at_next _ _ _ _ _ (single pk_of dest)) in Hat as (? & ? & ? & Hfwd); [|exact E1].
  apply layer_at_end in Hat2; [|replace (S (S (length front))) with (length front + 2) by lia; exact E2].
  assert (exists h, (single pk_of <$> returnRoute) !! 1 = Some h) as [h Hh].
  { apply lookup_lt_is_Some_2. unfold returnRoute. rewrite length_fmap. cbn. rewrite length_app. cbn. lia. }
  destruct (layer_at_next _ _ _ _ _ h Hat3 Hh) as (? & ? & ? & Hret).
  exists line, fwd, fin, rl. split; [done|]. split; [done|]. split; [by rewrite Hfwd|].
  split; [apply Hp2; rewrite Hdk; by left|]. rewrite Hat2. split; [done|]. split; [done|].
  split; [|by rewrite Hret]. cbn [Data final_of]. rewrite Hp3. apply decide_True. rewrite Hsk. by left.
Qed.
End Theorems.

(** ** Witnesses *)

(** The first relay group, a:2 and b:3, of the toy route, and what c:4 finds on
    the way back. *)
Lemma relay_view_witness :
  exists r w, run toy_env (Encapsulator_func_super "hello" toy_route toy_return "s:1")
      (World (toy_proc "s" "s" 1 "ks") [] [] []) = (Done r, w) /\
    exists payload msgID n0 layer ret l, r = inl (payload, msgID, n0) /\ peel "kb" payload = Some layer /\
      Next layer = "c:4" /\ From layer = "s:1" /\ Frag layer = "" /\ peel "kc" ret = Some l /\ From l = "s:1".
Proof.
  destruct toy_usable as [Hu Hru].
  destruct (proj1 (wp_run _ _ _ _) (relay_view toy_env (toy_proc "s" "s" 1 "ks") "hello" toy_route
    toy_return "s:1" [] [] ltac:(done) Hu Hru ltac:(done)
    ltac:(repeat (apply Forall_cons_2; [by vm_compute|]); by apply Forall_nil_2) ltac:(by vm_compute)))
    as (r & w & Hrun & payload & msgID & nacks & ret & -> & _ & _ & Hlen & Hv & _ & Hex).
  exists (inl (payload, msgID, List.hd "" nacks)), w. split; [exact Hrun|].
  destruct nacks as [|n1 [|n2 ns]]; [discriminate|discriminate|].
  destruct Hv as (data & Ho & _). destruct (Hex ltac:(done)) as (l & Hl & Hf).
  exists payload, msgID, n1, (relay_layer n1 n2 "c:4" "s:1" data), ret, l. split; [reflexivity|].
  split; [rewrite (Ho "kb"); apply decide_True; apply (bool_decide_unpack _); by vm_compute|].
  split; [reflexivity|]. split; [reflexivity|]. split; [reflexivity|]. split; [|exact Hf].
  rewrite (Hl "kc"). apply decide_True; apply (bool_decide_unpack _); by vm_compute.
Defined.

(** With the route b:3, c:4 (whose key is known as its address), d:5. *)
Lemma exit_relay_learns_sender_witness :
  exists r w, run key_env (Encapsulator_func "hello" "" ["b:3"; "c:4"; "d:5"] ["c:4"; "b:3"; "s:1"] "s:1")
      (World (toy_proc "s" "s" 1 "ks") [] [] []) = (Done r, w) /\
    exists payload msgID n0 line forward final return_, r = inl (payload, msgID, n0) /\
      reach ["b:3"] payload = Some line /\ peel "c:4" line = Some forward /\ Next forward = "d:5" /\
      peel "d:5" (Data forward) = Some final /\ peel "c:4" (Data final) = Some return_ /\
      From return_ = "s:1".
Proof.
  destruct (proj1 (wp_run _ _ _ _) (exit_relay_learns_sender key_env id "hello" "" ["b:3"] "c:4" "d:5"
    "s:1" (toy_proc "s" "s" 1 "ks") [] []
    ltac:(repeat (apply Forall_cons_2; [unfold key_fits; cbn; lia|]); by apply Forall_nil_2)
    ltac:(intros a n Ha; eexists; split; [reflexivity|];
          repeat (apply elem_of_cons in Ha as [->|Ha]; [by vm_compute|]); by apply not_elem_of_nil in Ha)
    ltac:(by intros a v _ Hv)
    ltac:(repeat (apply Forall_cons_2; [by vm_compute|]); by apply Forall_nil_2) ltac:(by vm_compute)))
    as (r & w & Hrun & payload & msgID & n0 & -> & Hv).
  exists (inl (payload, msgID, n0)), w. split; [exact Hrun|].
  destruct (Hv ["b:3"] "c:4" "d:5" ltac:(repeat constructor) ltac:(reflexivity) ltac:(reflexivity))
    as (line & fwd & fin & ret & H1 & H2 & H3 & H4 & _ & _ & H5 & H6).
  exists payload, msgID, n0, line, fwd, fin, ret. repeat (split; [assumption || reflexivity|]). exact H6.
Defined.
