(* ===== verification/CodecTheorems.v ===== *)
(** * Theorems: texts, encryption of a layer, fragments *)

From S2P Require Import Prelude GoStrings Base64 GoMonad Crypto ToyCrypto OnionLayer KeyCache.
From S2P Require Import Node NodeSpec Fragments OnionBuild Network Directory Cluster ToyNetwork.
Import Toy ToyNet.

(** C39. The layer codec: a well-formed layer is read back from its text,
    whatever its message contains; and every text the parser accepts, in the
    seven-field or in the older six-field form, stands for a well-formed
    layer. *)
Theorem layer_codec l :
  (wf_layer l -> StringToOnionLayer (OnionlayerToString l) = GOk l) /\
  (forall s, StringToOnionLayer s = GOk l -> wf_layer l).
Proof. split; [apply parse_print|intros s; apply parse_wf]. Qed.

Lemma layer_codec_witness :
  StringToOnionLayer (OnionlayerToString (MkOnionLayer "FINAL" "msg-1" "a:1,b:2" "" "x;y:z" "" "m|:,m")) =
    GOk (MkOnionLayer "FINAL" "msg-1" "a:1,b:2" "" "x;y:z" "" "m|:,m") /\
  wf_layer (MkOnionLayer "ACK" "msg-1" "n" "f" "d" "" "old").
Proof.
  split; [apply layer_codec; apply (bool_decide_unpack _); by vm_compute|].
  apply (proj2 (layer_codec _) "ACK|msg-1|n|f|d|old"). reflexivity.
Defined.

(** A group of addresses is read back from the [Next] and [From] fields:
    [ParseAddresses] inverts [JoinAddresses] on lists of addresses without
    commas, and the empty field is the empty list. *)
Lemma addresses_round_trip addrs :
  Forall (lacks comma) addrs -> addrs <> [""] -> ParseAddresses (JoinAddresses addrs) = addrs.
Proof.
  intros Hl Hne. destruct addrs as [|a l]; [done|]. by apply ParseAddresses_Join.
Qed.

Lemma addresses_round_trip_witness :
  ParseAddresses (JoinAddresses ["10.0.0.1:4000"; "10.0.0.2:4000"]) = ["10.0.0.1:4000"; "10.0.0.2:4000"].
Proof. apply addresses_round_trip; [|done]. repeat (apply Forall_cons_2; [done|]). by apply Forall_nil_2. Defined.

Section Crypto.
Context {C : CryptoLib} {L : CryptoLaws C}.

(** C31. One layer for a group: [BroadcastEncrypt] succeeds for every non-empty
    group of keys of at least 1024 bits; its text is one line the handler
    cannot take for another command; the holder of any key of the group
    decrypts it to the plaintext, the holder of any other key gets an error. *)
Theorem group_encryption {S} (ev : env S) plaintext pks w :
  pks <> [] -> Forall (fun pk => 128 <= Size pk) pks ->
  wp ev (BroadcastEncrypt plaintext pks) w (fun r _ => exists ct, r = inl ct /\ onion_line ct /\
    (forall sk, Public sk ∈ pks -> BroadcastDecrypt ct sk = GOk plaintext) /\
    (forall sk, Public sk ∉ pks -> BroadcastDecrypt ct sk = GErr "aucune clé correspondante")).
Proof.
  intros Hne Hs. apply wp_BroadcastEncrypt; [done..|]. intros ct w' [Hl Hm Ho] _. by exists ct.
Qed.

(** [encryptForNode], used by SEND, writes the same format for a group of
    one: [BroadcastDecrypt] reads it with that key and with no other. *)
Lemma single_encryption {S} (ev : env S) plaintext pk w :
  128 <= Size pk ->
  wp ev (encryptForNode plaintext (Some pk)) w (fun r _ => exists ct, r = inl ct /\ onion_line ct /\
    (forall sk, Public sk = pk -> BroadcastDecrypt ct sk = GOk plaintext) /\
    (forall sk, Public sk <> pk -> BroadcastDecrypt ct sk = GErr "aucune clé correspondante")).
Proof.
  intros Hs. apply wp_encryptForNode; [done|]. intros ct w' [Hl Hm Ho] _. exists ct.
  split; [done|]. split; [done|]. split.
  - intros sk <-. apply Hm. by left.
  - intros sk Hne. apply Ho. by intros ?%list_elem_of_singleton.
Qed.
End Crypto.

Definition world0 : world nat := World 0 [] [] [].

Lemma group_encryption_witness :
  exists ct w, run toy_env (BroadcastEncrypt (C:=toy_lib) "secret" ["k1"; "k2"]) world0 = (Done (inl ct), w) /\
    BroadcastDecrypt ct "k2" = GOk "secret" /\
    BroadcastDecrypt ct "k3" = GErr "aucune clé correspondante".
Proof.
  assert (Hs : Forall (fun pk => 128 <= @Size toy_lib pk) ["k1"; "k2"])
    by (repeat (apply Forall_cons_2; [cbn; lia|]); by apply Forall_nil_2).
  destruct (proj1 (wp_run _ _ _ _) (group_encryption (C:=toy_lib) toy_env "secret" ["k1"; "k2"] world0 ltac:(done) Hs))
    as (r & w & Hrun & ct & -> & _ & Hm & Ho).
  exists ct, w. split; [exact Hrun|]. split.
  - apply Hm. apply (bool_decide_unpack _). reflexivity.
  - apply Ho. apply (bool_decide_unpack _). reflexivity.
Defined.

Lemma single_encryption_witness :
  exists ct w, run toy_env (encryptForNode (C:=toy_lib) "secret" (Some "k1")) world0 = (Done (inl ct), w) /\
    BroadcastDecrypt ct "k1" = GOk "secret" /\
    BroadcastDecrypt ct "k3" = GErr "aucune clé correspondante".
Proof.
  destruct (proj1 (wp_run _ _ _ _) (single_encryption (C:=toy_lib) toy_env "secret" "k1" world0 ltac:(cbn; lia)))
    as (r & w & Hrun & ct & -> & _ & Hm & Ho).
  exists ct, w. split; [exact Hrun|]. split; [by apply Hm|by apply Ho].
Defined.

(** [splitMessage] with a positive size ends, and its chunks are not empty,
    all of exactly that size but the last, and concatenate to the message. *)
Lemma split_message msg size :
  0 < size -> exists chunks, splitMessage msg size = Some chunks /\ chunks_of msg size chunks.
Proof. intros H. apply split_loop_spec; [done|lia]. Qed.

Lemma split_message_witness :
  exists chunks, splitMessage "abcdefg" 3 = Some chunks /\ chunks_of "abcdefg" 3 chunks.
Proof. apply split_message. lia. Defined.

Section Fragments.
Context {C : CryptoLib}.

(** Reassembly: when the FINAL layers that carry all the chunks of a split
    message arrive, each once and in any order, with fragments of other
    messages anywhere in between, the recipient delivers that message under
    its [fragID] exactly once and its buffer for it is empty again; everything
    delivered is appended to [ReceivedMsgs]. *)
Lemma message_reassembled (ev : env Proc) fid msg size chunks R fs ls p c t :
  splitMessage msg size = Some chunks -> 0 < size -> msg <> "" ->
  R ≡ₚ seq 0 (length chunks) -> of_id fid fs = chunk_fragment fid chunks <$> R ->
  Forall2 carries ls fs ->
  wf_frag (node p) -> view fid (node p) = (None, None) ->
  wp ev (handle_frags ls) (World p [] c t) (fun _ w => exists outs,
    ReceivedMsgs (node (w_st w)) = ReceivedMsgs (node p) ++ outs.*2 /\
    filter (fun o => o.1 = fid) outs = [(fid, msg)] /\
    view fid (node (w_st w)) = (None, None) /\ w_chans w = c /\ w_trace w = t).
Proof. apply wp_reassembled. Qed.
End Fragments.

Definition toy_final (frag msg : string) : OnionLayer := MkOnionLayer "FINAL" "m" "" "" "" frag msg.

Lemma message_reassembled_witness :
  exists w, run toy_env (handle_frags
      [toy_final "f:3/3" "g"; toy_final "x:1/2" "?"; toy_final "f:1/3" "abc"; toy_final "f:2/3" "def"])
      (World (toy_proc "d" "d" 5 "kd") [] [] []) = (Done tt, w) /\
    exists outs, ReceivedMsgs (node (w_st w)) = [] ++ outs.*2 /\
      filter (fun o => o.1 = "f") outs = [("f", "abcdefg")].
Proof.
  destruct (proj1 (wp_run _ _ _ _) (message_reassembled toy_env "f" "abcdefg" 3 ["abc"; "def"; "g"]
    [2; 0; 1] [MkFragment "f" 3 3 "g"; MkFragment "x" 1 2 "?"; MkFragment "f" 1 3 "abc";
               MkFragment "f" 2 3 "def"]
    [toy_final "f:3/3" "g"; toy_final "x:1/2" "?"; toy_final "f:1/3" "abc"; toy_final "f:2/3" "def"]
    (toy_proc "d" "d" 5 "kd") [] [] ltac:(done) ltac:(lia) ltac:(done)
    (Permutation_cons_append [0; 1] 2) ltac:(reflexivity)
    ltac:(repeat (apply Forall2_cons_2;
            [split; [reflexivity|]; split; [reflexivity|]; split; [reflexivity|];
             unfold is_int64, min_int, max_int; cbn; lia|]); by apply Forall2_nil_2)
    ltac:(done) ltac:(done)))
    as ([] & w & Hrun & outs & Hr & Ho & _).
  exists w. split; [exact Hrun|]. exists outs. split; [exact Hr|exact Ho].
Defined.
