(* ===== verification/NodeTheorems.v ===== *)
(** * Theorems: the connection handler *)

From S2P Require Import Prelude GoStrings Base64 GoMonad Crypto ToyCrypto OnionLayer KeyCache.
From S2P Require Import Node NodeSpec OnionBuild Network Directory Cluster ToyNetwork.
Import Toy ToyNet.

Section Theorems.
Context {C : CryptoLib} {L : CryptoLaws C}.

(** Replay: a RELAY or FINAL layer whose identifier is in the seen set is
    dropped: the handler returns with state, channels and trace unchanged, so
    nothing is sent, delivered or answered. *)
Lemma duplicate_dropped (ev : env Proc) p line layer c t :
  opens p line layer -> deduplicated layer -> is_Some (mget (SeenMsgs (node p)) !! MsgID layer) ->
  run ev (handlerroutine (line +:+ str1 nl)) (World p [] c t) = (Done tt, World p [] c t).
Proof.
  intros Ho Hg Hs.
  assert (H : wp ev (handlerroutine (line +:+ str1 nl)) (World p [] c t) (fun _ w => w = World p [] c t)).
  { eapply wp_opens; [done|]. by apply wp_handle_dup. }
  apply wp_run in H as ([] & w & Hr & ->). exact Hr.
Qed.

(** C28. The window of a replay.  A FINAL line is delivered; the eviction
    goroutine runs some rounds; the line comes again.  It is delivered a second
    time exactly when one of the rounds came more than 30 seconds after the
    first delivery, at whatever times the others came. *)
Theorem replay_window (ev0 ev1 ev2 : env Proc) (up0 up2 : string -> bool) p line layer c t0 rounds :
  opens p line layer -> Type_ layer = "FINAL" -> Frag layer = "" ->
  mget (SeenMsgs (node p)) !! MsgID layer = None ->
  (forall n a, e_dial ev0 n a = up0 a) -> (forall n a, e_dial ev2 n a = up2 a) ->
  (forall n, e_now ev0 n = t0) ->
  wp ev0 (handlerroutine (line +:+ str1 nl)) (World p [] c []) (fun _ w =>
    ReceivedMsgs (node (w_st w)) = ReceivedMsgs (node p) ++ [Message layer] /\
    wp ev1 (evict_loop rounds) (World (w_st w) [] c []) (fun _ w' => exists clocks,
      length clocks = rounds /\ Forall (fun now => exists n, now = e_now ev1 n) clocks /\
      wp ev2 (handlerroutine (line +:+ str1 nl)) (World (w_st w') [] c []) (fun _ w2 =>
        ReceivedMsgs (node (w_st w2)) = ReceivedMsgs (node p) ++ [Message layer] ++
          if forallb (fun now => now - t0 <=? 30 * second)%Z clocks then [] else [Message layer]))).
Proof.
  intros Ho Ht Hfr Hs Hup0 Hup2 Hnow.
  eapply wp_opens; [exact Ho|]. apply wp_handle_fresh_at; [by right|done|]. intros now u [n ->] _.
  rewrite Hnow. apply (wp_whole ev0 up0 Hup0); [done|done|]. intros u1 _. split; [done|]. cbn [w_st].
  apply wp_evict_loop. intros clocks u2 Hl Hc. exists clocks. do 2 (split; [done|]). cbn [w_st].
  set (q := on_node _ _). assert (Hq : opens q line layer) by exact Ho.
  assert (Hseen : mget (SeenMsgs (node q)) !! MsgID layer = if forallb (young t0) clocks then Some t0 else None).
  { apply evict_all_lookup. cbn. apply lookup_insert_eq. }
  change (fun now => now - t0 <=? 30 * second)%Z with (young t0).
  eapply wp_opens; [exact Hq|]. destruct (forallb (young t0) clocks).
  - apply wp_handle_dup; [by right|by eexists|]. done.
  - apply wp_handle_fresh; [by right|done|]. intros now u3 _.
    apply (wp_whole ev2 up2 Hup2); [done|done|]. intros u4 _. cbn. by rewrite <- app_assoc.
Qed.

(** C32. A fresh RELAY layer [a:b] is forwarded to one listening address of
    [Next], and [b] is remembered with [a] and [From] for a refusal; when none
    listens nothing is remembered under [b], and the refusal [NACK:a] goes to
    the first listening address of [From].  In both cases the identifier is
    now marked. *)
Theorem relay_forwards_or_refuses (ev : env Proc) (up : string -> bool) p line layer a b c t :
  (forall n x, e_dial ev n x = up x) ->
  opens p line layer -> Type_ layer = "RELAY" -> Contains (Next layer) colon = true ->
  SplitN (MsgID layer) colon 2 = [a; b] -> mget (SeenMsgs (node p)) !! MsgID layer = None ->
  wp ev (handlerroutine (line +:+ str1 nl)) (World p [] c t) (fun _ w => exists u,
    w_trace w = t ++ u /\ w_chans w = c /\
    is_Some (mget (SeenMsgs (node (w_st w))) !! MsgID layer) /\
    ReceivedMsgs (node (w_st w)) = ReceivedMsgs (node p) /\
    (((exists x, x ∈ ParseAddresses (Next layer) /\ up x = true /\
         sends u = [(x, Data layer +:+ str1 nl)]) /\
      PendingRelays (node (w_st w)) = <[b := MkNack a (From layer)]> (PendingRelays (node p))) \/
     ((forall x, x ∈ ParseAddresses (Next layer) -> up x = false) /\
      sends u = sent_to up (ParseAddresses (From layer)) ("NACK:" +:+ a) /\
      PendingRelays (node (w_st w)) = delete b (PendingRelays (node p))))).
Proof.
  intros Hup Ho Ht Hn Hid Hs. eapply wp_opens; [done|]. apply wp_handle_fresh; [by left|done|].
  intros now u Hu. rewrite dispatch_relay by done. eapply (wp_handle_relay ev up Hup); [done..|].
  intros order v Hord. destruct (first_up up order) as [x|] eqn:E; intros (Hv & _);
    exists (u ++ v); cbn [w_trace w_chans w_st]; (split; [by rewrite app_assoc|]); (split; [done|]);
    (split; [cbn; rewrite lookup_insert_eq; eauto|]); (split; [done|]);
    autorewrite with dor_trace; rewrite Hv; [left|right].
  - apply first_up_Some in E as [Hx Hux]. rewrite Hord in Hx. split; [by exists x|done].
  - split; [|done]. intros x Hx. apply (first_up_None _ _ E). by rewrite Hord.
Qed.

(** The line [NACK:id]: the sender that waits for [id] gets [false] on its
    channel and forgets the entry; a relay that has [id] pending forgets it and
    sends the previous identifier to the first listening address of the
    previous hop; anyone else ignores it. *)
Lemma nack_handling (ev : env Proc) (up : string -> bool) p id c t :
  (forall n x, e_dial ev n x = up x) -> sforall graphic id = true ->
  (forall i, PendingACKs (node p) !! id = Some i -> has_room i c) ->
  wp ev (handlerroutine ("NACK:" +:+ id +:+ str1 nl)) (World p [] c t) (fun _ w =>
    match PendingACKs (node p) !! id with
    | Some i => w = World (on_node (upd_PendingACKs (delete id)) p) [] (push i false c) t
    | None => exists u,
        w = World (on_node (upd_PendingRelays (delete id)) p) [] c (t ++ u) /\
        sends u = match PendingRelays (node p) !! id with
                  | Some nk => sent_to up (ParseAddresses (PrevNodeAddr nk)) ("NACK:" +:+ PrevNackID nk)
                  | None => []
                  end
    end).
Proof.
  intros Hup Hg Hroom. rewrite handlerroutine_nack by done.
  destruct (PendingACKs (node p) !! id) as [i|] eqn:E.
  - eapply wp_handle_nack_sender; [done|by apply Hroom|done].
  - apply (wp_handle_nack_relay ev up Hup); [done|]. intros u (Hu & _). by exists u.
Qed.

(** [GET_PUBKEY] answers one line from which [parsePublicKey] recovers the
    node's public key; nothing else changes. *)
Lemma public_key_served (ev : env Proc) p c t :
  wp ev (handlerroutine ("GET_PUBKEY" +:+ str1 nl)) (World p [] c t) (fun _ w => exists ans ok,
    w = World p [] c (t ++ [EvReply ans ok]) /\
    parsePublicKey (TrimSpace ans) = Some (NPublicKey (node p))).
Proof.
  change (handlerroutine ("GET_PUBKEY" +:+ str1 nl)) with handle_getpubkey.
  unfold handle_getpubkey. wp_steps. eexists _, _. split; [reflexivity|].
  rewrite TrimSpace_line by apply EncodeToString_graphic.
  unfold parsePublicKey. by rewrite DecodeString_EncodeToString, parse_marshal.
Qed.

(** C40. Anybody who can encrypt a 32-byte key for a node can stop it: a payload
    shorter than a GCM nonce makes [DecryptAES] slice out of bounds, and the
    panic is not recovered. *)
Theorem short_payload_panics (ev : env Proc) p seed aesKey ct payload c t :
  EncryptOAEP seed (Public (NPrivateKey (node p))) aesKey = Some ct ->
  String.length aesKey = 32 -> String.length payload < NonceSize ->
  (run ev (handlerroutine (EncodeToString ct +:+ ":" +:+ EncodeToString payload +:+ str1 nl))
    (World p [] c t)).1 = Panicked "slice bounds out of range".
Proof.
  intros Hct Hk Hp. set (line := EncodeToString ct +:+ ":" +:+ EncodeToString payload).
  replace (EncodeToString ct +:+ ":" +:+ EncodeToString payload +:+ str1 nl)
    with (line +:+ str1 nl) by (unfold line; by rewrite !app_str_assoc).
  assert (Hd : BroadcastDecrypt line (NPrivateKey (node p)) = GPanic "slice bounds out of range").
  { change line with (Join (EncodeToString <$> [ct]) semi +:+ ":" +:+ EncodeToString payload).
    rewrite BroadcastDecrypt_line by done.
    erewrite (find_key_member aesKey [Public (NPrivateKey (node p))]); [|by repeat econstructor|by left].
    unfold DecryptAES, aes_key_ok. rewrite Hk. cbn [Nat.eqb orb]. apply Nat.ltb_lt in Hp. by rewrite Hp. }
  rewrite handlerroutine_onion.
  - unfold handle_onion, RLock, read, trigger. cbn [mbind prog_mbind prog_bind run exec is_free forallb
      w_held set_held w_st w_chans w_trace set_st]. by rewrite Hd.
  - apply (onion_line_intro ct "" payload); [done|].
    pose proof (length_EncodeToString_ge ct). pose proof (oaep_length _ _ _ _ Hct). lia.
Qed.

(** The eviction pass keeps exactly the identifiers seen in the last 30
    seconds. *)
Lemma eviction (ev : env Proc) p c t :
  wp ev evict_pass (World p [] c t) (fun _ w => exists now,
    w_trace w = t ++ [EvNow now] /\ w_held w = [] /\ w_chans w = c /\
    forall id seen, mget (SeenMsgs (node (w_st w))) !! id = Some seen <->
      mget (SeenMsgs (node p)) !! id = Some seen /\ (now - seen <= 30 * second)%Z).
Proof.
  unfold evict_pass. wp_steps. eexists. split; [reflexivity|]. split; [done|]. split; [done|].
  intros id seen. cbn [w_st node on_node SeenMsgs set_SeenMsgs].
  destruct (SeenMsgs (node p)) as [m|]; cbn [fmap option_fmap option_map mget].
  - unfold evict. rewrite map_lookup_filter_Some. cbn [snd]. by rewrite Z.leb_le.
  - rewrite lookup_empty. by split; [|intros []].
Qed.

(** The cleaning pass of the key cache keeps exactly the keys that have not
    expired. *)
Lemma cache_cleaning (ev : env Proc) p c t :
  wp ev cleanCache_pass (World p [] c t) (fun _ w => exists now,
    w_trace w = t ++ [EvNow now] /\ w_held w = [] /\ node (w_st w) = node p /\
    forall a v, cache (w_st w) !! a = Some v <->
      cache p !! a = Some v /\ (now <= ExpiresAt v)%Z).
Proof.
  unfold cleanCache_pass. wp_steps. eexists. split; [reflexivity|]. split; [done|]. split; [done|].
  intros a v. cbn [w_st get_cache set_cache proc_has_cache cache]. rewrite clean_lookup.
  unfold expired. by rewrite Z.ltb_ge.
Qed.

(** Identifiers: [GenerateMsgID] returns its prefix, a dash and ten decimal
    digits; no colon, bar or comma can appear unless the prefix has one. *)
Lemma generated_id {S} (ev : env S) prefix w :
  wp ev (GenerateMsgID prefix) w (fun id _ =>
    id_shape (if String.eqb prefix "" then "msg" else prefix) id /\
    forall s, s ∈ [colon; pipe; comma] -> lacks s prefix -> lacks s id).
Proof.
  apply wp_GenerateMsgID. intros id w' Hid _. split; [done|]. intros s Hs Hl.
  assert (s <> "-"%char /\ is_digit s = false /\ lacks s "msg") as (? & ? & ?).
  { repeat (apply elem_of_cons in Hs as [->|Hs]; [done|]). by apply not_elem_of_nil in Hs. }
  eapply id_shape_lacks; [exact Hid| |done..]. by destruct (String.eqb prefix "").
Qed.
End Theorems.

(** ** Witnesses *)

Lemma duplicate_dropped_witness :
  exists line, run toy_env (handlerroutine (line +:+ str1 nl)) (World (toy_d_seen "n-1:n-2") [] [] []) =
    (Done tt, World (toy_d_seen "n-1:n-2") [] [] []).
Proof.
  destruct (toy_line (toy_d_seen "n-1:n-2") toy_relay eq_refl toy_relay_wf) as [line Hl]. exists line.
  apply (duplicate_dropped toy_env (toy_d_seen "n-1:n-2") line toy_relay); [exact Hl|by left|].
  exists 0%Z. by vm_compute.
Defined.

Definition toy_final : OnionLayer := MkOnionLayer "FINAL" "m-1" "" "" "" "" "hello".

Lemma toy_final_wf : wf_layer toy_final.
Proof. apply (bool_decide_unpack _). by vm_compute. Qed.

(** The clock of the eviction goroutine: 1 s, and 31 s after the first delivery. *)
Definition clock_at (s : Z) : env Proc := {|
  e_rand := fun n => Z.of_nat n; e_dial := fun _ _ => true; e_request := fun _ _ => None;
  e_now := fun _ => (s * second)%Z; e_reply := fun _ => true; e_fault := fun _ => false;
  e_wait := fun _ s => (None, s); e_getenv := fun _ => ""; e_ask := fun _ _ _ => NoDial |}.

(** One line, delivered once when the round comes after 1 s and twice when it
    comes after 31 s. *)
Lemma replay_window_witness :
  exists line, forall s, s ∈ [1; 31]%Z -> exists w w1 w2,
    run toy_env (handlerroutine (line +:+ str1 nl)) (World toy_d [] [] []) = (Done tt, w) /\
    run (clock_at s) (evict_loop 1) (World (w_st w) [] [] []) = (Done tt, w1) /\
    run toy_env (handlerroutine (line +:+ str1 nl)) (World (w_st w1) [] [] []) = (Done tt, w2) /\
    ReceivedMsgs (node (w_st w2)) = if (s =? 1)%Z then ["hello"] else ["hello"; "hello"].
Proof.
  destruct (toy_line toy_d toy_final eq_refl toy_final_wf) as [line Hl]. exists line. intros s Hs.
  destruct (proj1 (wp_run _ _ _ _) (replay_window toy_env (clock_at s) toy_env (fun _ => true) (fun _ => true)
    toy_d line toy_final [] 0 1 Hl eq_refl eq_refl ltac:(reflexivity) ltac:(reflexivity) ltac:(reflexivity)
    ltac:(reflexivity))) as ([] & w & Hr & _ & Hw).
  apply wp_run in Hw as ([] & w1 & Hr1 & clocks & Hlen & Hc & Hw).
  apply wp_run in Hw as ([] & w2 & Hr2 & Hm).
  exists w, w1, w2. do 3 (split; [done|]). rewrite Hm.
  destruct clocks as [|now [|? ?]]; [discriminate Hlen| |discriminate Hlen].
  apply Forall_singleton in Hc as [n ->]. cbn [e_now clock_at forallb].
  apply elem_of_cons in Hs as [->|Hs]; [reflexivity|].
  apply elem_of_cons in Hs as [->|Hs]; [reflexivity|]. by apply not_elem_of_nil in Hs.
Defined.

(** Only b:3 listens. *)
Definition some_up (a : string) : bool := String.eqb a "b:3".

Lemma relay_forwards_or_refuses_witness :
  exists line w, run (with_dial some_up toy_env) (handlerroutine (line +:+ str1 nl))
      (World (on_node (set_SeenMsgs None) toy_d) [] [] []) = (Done tt, w) /\
    is_Some (mget (SeenMsgs (node (w_st w))) !! "n-1:n-2").
Proof.
  destruct (toy_line (on_node (set_SeenMsgs None) toy_d) toy_relay eq_refl toy_relay_wf) as [line Hl]. exists line.
  destruct (proj1 (wp_run _ _ _ _) (relay_forwards_or_refuses (with_dial some_up toy_env) some_up
    (on_node (set_SeenMsgs None) toy_d) line toy_relay "n-1" "n-2" [] [] ltac:(reflexivity) Hl
    ltac:(reflexivity) ltac:(reflexivity) ltac:(reflexivity) ltac:(reflexivity)))
    as ([] & w & Hr & u & _ & _ & Hs & _).
  exists w. split; [exact Hr|exact Hs].
Defined.

Lemma nack_handling_witness :
  exists w, run (with_dial some_up toy_env) (handlerroutine ("NACK:" +:+ "n-2" +:+ str1 nl))
      (World (on_node (upd_PendingRelays (fun _ => {["n-2" := MkNack "n-1" "b:3"]})) toy_d) [] [] [])
    = (Done tt, w) /\ sends (w_trace w) = [("b:3", ("NACK:" +:+ "n-1") +:+ str1 nl)].
Proof.
  destruct (proj1 (wp_run _ _ _ _) (nack_handling (with_dial some_up toy_env) some_up
    (on_node (upd_PendingRelays (fun _ => {["n-2" := MkNack "n-1" "b:3"]})) toy_d) "n-2" [] []
    ltac:(reflexivity) ltac:(reflexivity) ltac:(intros i Hi; vm_compute in Hi; discriminate Hi)))
    as ([] & w & Hr & u & Hw & Hu).
  exists w. split; [exact Hr|]. rewrite Hw. exact Hu.
Defined.

Lemma public_key_served_witness :
  exists w ans ok, run toy_env (handlerroutine ("GET_PUBKEY" +:+ str1 nl)) (World toy_d [] [] []) = (Done tt, w) /\
    w_trace w = [EvReply ans ok] /\ parsePublicKey (C:=toy_lib) (TrimSpace ans) = Some "kd".
Proof.
  destruct (proj1 (wp_run _ _ _ _) (public_key_served toy_env toy_d [] []))
    as ([] & w & Hr & ans & ok & Hw & Hp).
  exists w, ans, ok. split; [exact Hr|]. split; [by rewrite Hw|exact Hp].
Defined.

Definition key32 : string := "0123456789abcdef0123456789abcdef".

Lemma short_payload_panics_witness :
  exists ct, (run toy_env (handlerroutine (EncodeToString ct +:+ ":" +:+ EncodeToString "short" +:+ str1 nl))
    (World toy_d [] [] [])).1 = Panicked "slice bounds out of range".
Proof.
  destruct (oaep_fits "" (Public (NPrivateKey (node toy_d))) key32) as [ct Hct];
    [cbn; lia|cbn; lia|].
  exists ct. apply (short_payload_panics toy_env toy_d "" key32 ct "short" [] [] Hct); [done|].
  unfold NonceSize. cbn. lia.
Defined.
