(* ===== verification/DirectoryTheorems.v ===== *)
(** * Theorems: the directory server and its clients *)

From S2P Require Import Prelude GoStrings Base64 GoMonad Crypto ToyCrypto OnionLayer KeyCache.
From S2P Require Import Node NodeSpec OnionBuild Network Directory DirectorySpec Cluster Concurrency.
From S2P Require Import DirectoryConcurrency ToyNetwork Send SendSpec.
Import Toy ToyNet.

Section Theorems.
Context {C : CryptoLib} {L : CryptoLaws C}.
Variable uuid_text : string -> string.

(** C33. Registration: the [INIT] line a node sends appends exactly one row with
    the node's name, address, key and scores; the answer makes the node learn
    its address; and from then on the node's key is what any client gets when
    it asks the directory for that address, as long as the table fits one
    sample. *)
Theorem registration (evd : env Table) (ev : env Proc) remote sa sn p t c tr :
  let name := ID (node p) in
  let key := EncodeToString (MarshalPKIX (NPublicKey (node p))) in
  let line := init_line name (Port (node p)) key sa sn in
  let host := host_of evd remote in
  (forall n, e_fault evd n = false) ->
  field_ok name -> field_ok host -> is_int64 (Port (node p)) -> is_int64 sa -> is_int64 sn ->
  (forall n, n ∈ infos t -> Ip n = host -> IPort n <> Port (node p)) ->
  length (rows t) < MaxSampleNodes ->
  exists u ack,
    let t' := insert_row (MkInfo u name host (Port (node p)) key sa sn) t in
    answer uuid_text evd remote line t = (Some ack, t') /\
    ((forall n, e_request ev n line = Some ack) ->
     wp ev (JoinServerList sa sn) (World p [] c tr) (fun r w =>
       r = inl tt /\ w_st w = on_node (set_NodeIP host) p)) /\
    forall (evd' : env Table) (ev' : env Proc) remote' q c' tr',
      (forall n, e_fault evd' n = false) ->
      (forall n, e_request ev' n (get_key_line host (Port (node p))) =
         (answer uuid_text evd' remote' (get_key_line host (Port (node p))) t').1) ->
      wp ev' (FetchKeyFromServer (host +:+ ":" +:+ Itoa (Port (node p)))) (World q [] c' tr')
        (fun r w => r = inl (NPublicKey (node p)) /\ w_st w = q).
Proof.
  intros name key line host Hok Hn Hh Hp Hsa Hsn Hnew Hlen.
  set (ack := "INIT_ACK:" +:+ name +:+ ":" +:+ host +:+ str1 nl).
  assert (Hrow : exists u, answer uuid_text evd remote line t =
    (Some ack, insert_row (MkInfo u name host (Port (node p)) key sa sn) t)).
  { assert (Hwp : wp evd (handleConnection uuid_text remote line) (World t [] [] []) (fun _ w =>
      exists u, head (replies (w_trace w)) = Some ack /\
        w_st w = insert_row (MkInfo u name host (Port (node p)) key sa sn) t)).
    { apply wp_INIT; [done|done|apply b64_field|done..|]. intros u tr0 ok Htr. exists u.
      split; [|done]. by apply internal_head_reply. }
    apply wp_run in Hwp as ([] & w & Hrun & u & Hr & Hst). exists u.
    unfold answer. rewrite Hrun. cbn [snd]. by rewrite Hr, Hst. }
  destruct Hrow as [u Hrow]. exists u, ack. cbn zeta. split; [exact Hrow|]. split.
  - intros He. apply wp_JoinServerList with (host := host); [done|done|exact He|]. done.
  - intros evd' ev' remote' q c' tr' Hok' He.
    assert (Hans : answer uuid_text evd' remote' (get_key_line host (Port (node p)))
      (insert_row (MkInfo u name host (Port (node p)) key sa sn) t) =
      (Some ("KEY:" +:+ key +:+ str1 nl),
       insert_row (MkInfo u name host (Port (node p)) key sa sn) t)).
    { apply answer_wp. apply wp_GET_KEY with (k := key); [done|done|done| | |].
      - by apply key_of_insert.
      - cbn [rows insert_row]. rewrite length_app. cbn. lia.
      - intros tr0 ok Htr. split; [by apply internal_head_reply|done]. }
    rewrite Hans in He. apply wp_FetchKey with (pk := NPublicKey (node p)); [done|exact He|done].
Qed.

(** C36. The reachability test: with distinct names and a table that fits one
    sample, one tick applies to every row, in whatever order the sample comes,
    the same rule: reachable nodes gain 5 up to 100, unreachable ones lose half
    of their score and are removed when less than 5 is left. *)
Theorem ping_tick (ev : env Table) (up : string -> bool) t c tr :
  (forall n, e_fault ev n = false) -> (forall n a, e_dial ev n a = up a) ->
  NoDup (names t) -> length (rows t) <= MaxSampleNodes ->
  wp ev TestPing_tick (World t [] c tr) (fun _ w =>
    w_st w = tick_table up t /\ replies (w_trace w) = replies tr).
Proof.
  intros Hok Hup Hnd Hl. apply (wp_TestPing_tick ev up Hok Hup); [done..|]. intros u Hu.
  split; [done|]. cbn [w_trace]. by rewrite replies_app, Hu, app_nil_r.
Qed.

(** Eviction: when scores start at 100 at most, after five ticks (fifty
    seconds) or more of the reachability test under an unchanged reachability
    the table holds exactly the reachable nodes, otherwise unchanged but for
    their scores. *)
Lemma ping_eviction (ev : env Table) (up : string -> bool) k t c tr :
  (forall n, e_fault ev n = false) -> (forall n a, e_dial ev n a = up a) ->
  NoDup (names t) -> length (rows t) <= MaxSampleNodes ->
  5 <= k -> Forall (fun n => AvailabilityScore n <= 100)%Z (infos t) ->
  wp ev (TestPing k) (World t [] c tr) (fun _ w =>
    ident <$> infos (w_st w) = ident <$> filter (fun n => is_up up n = true) (infos t)).
Proof.
  intros Hok Hup Hnd Hl Hk Hs. apply (wp_TestPing up); [done..|]. intros u _.
  cbn [w_st]. by apply ticks_evict.
Qed.

(** C34. The table of a running server: after [main] has started, whatever an
    earlier run left in it, and in every interleaving of connections, console
    and reachability test, the rows are in the order of their identifiers,
    which are never given twice; no removed row comes back; and a row keeps
    its name, address and network score as long as it is there. *)
Theorem table_invariant (ev : env Table) leftover :
  wp ev start_server (World leftover [] [] []) (fun ok w => ok = true ->
    forall c c', server_reach uuid_text (Cfg (w_st w) [] []) c -> server_reach uuid_text c c' ->
      rows_ok (c_st c') /\ evolves (c_st c) (c_st c')).
Proof.
  eapply wp_mono; [apply wp_start_server|]. cbn. intros ok w Hw Hok c c' Hr.
  destruct (Hw Hok) as [E _]. rewrite E in Hr. by apply server_table.
Qed.

(** C35. A name is not an identity: a node that comes back with its old row still
    in the table, unreachable and at a score below 10, is acknowledged, and is
    out of the table after the next tick, reachable or not. *)
Theorem restart_evicted (ev : env Table) (up : string -> bool) remote name port key sa sn old t c tr :
  (forall n, e_fault ev n = false) -> (forall n a, e_dial ev n a = up a) ->
  field_ok name -> field_ok key -> is_int64 port -> is_int64 sa -> is_int64 sn ->
  old ∈ infos t -> Name old = name -> is_up up old = false -> (AvailabilityScore old < 10)%Z ->
  length (rows t) < MaxSampleNodes ->
  wp ev (handleConnection uuid_text remote (init_line name port key sa sn) ;; TestPing_tick)
    (World t [] c tr) (fun _ w =>
      replies (w_trace w) = replies tr ++ ["INIT_ACK:" +:+ name +:+ ":" +:+ host_of ev remote +:+ str1 nl] /\
      name ∉ names (w_st w)).
Proof.
  intros Hok Hup Hn Hk Hp Hsa Hsn Hold Hname Hdown Hscore Hlen.
  apply wp_bind, wp_INIT; [done..|]. intros u tr' ok Htr.
  apply (wp_TestPing_tick_names ev up Hok Hup).
  - cbn [rows insert_row]. rewrite length_app. cbn. lia.
  - intros t' v Hv _ Hs. cbn [w_trace w_st]. split.
    + by rewrite !replies_app, (NodeSpec.internal_replies tr'), Hv, app_nil_r by done.
    + rewrite <- Hname. apply Hs; [|split; [done|by apply quot_2_lt]].
      unfold infos, insert_row. cbn [rows]. rewrite fmap_app. apply elem_of_app. by left.
Qed.

(** [GET_LIST]: the answer is read back by both senders.  SEND gets the
    addresses of the listed nodes, less its own and the destination's; SSEND
    gets their names, addresses, keys and scores. *)
Lemma list_round_trip nodes self dest :
  nodes <> [] -> Forall wf_info nodes ->
  let listStr := TrimSpace (list_answer nodes) in
  candidates_of listStr self dest = filter (fun a => a <> self /\ a <> dest) (node_addr <$> nodes) /\
  omap parse_info (Split (TrimPrefix listStr "LIST:") comma) =
    (fun n => MkInfo "" (Name n) (Ip n) (IPort n) (PublicKeyText n) (AvailabilityScore n)
       (NetworkScore n)) <$> nodes.
Proof. intros. split; [by apply candidates_of_list|by apply infos_of_list]. Qed.

(** The sample the directory returns holds registered nodes only, each at
    most as often as it is registered, and all of them when they fit; the table
    is left as it was. *)
Lemma sample_of_table (ev : env Table) limit t c tr :
  (forall n, e_fault ev n = false) ->
  wp ev (GetNodesList limit) (World t [] c tr) (fun r w => exists l,
    r = inl l /\ l ⊆+ infos t /\ length l = Nat.min limit (length (infos t)) /\ w_st w = t).
Proof.
  intros Hok. apply wp_GetNodesList; [done|]. intros l u Hl _. exists (take limit l).
  split; [done|]. split; [|split; [|done]].
  - rewrite <- Hl. apply sublist_submseteq, sublist_take.
  - by rewrite length_take, Hl.
Qed.
End Theorems.

(** ** Witnesses *)

Definition uuid0 (s : string) : string := "00000000-0000-4000-8000-000000000000".
Definition row (name ip : string) (port : Z) (key : string) (sa sn : Z) : NodeInfo :=
  MkInfo "u" name ip port (EncodeToString key) sa sn.
Definition toy_table : Table :=
  MkTable [(1%Z, row "b" "b" 3 "kb" 100 100); (2%Z, row "c" "c" 4 "kc" 60 85)] 2.

Lemma registration_witness :
  exists u ack, answer uuid0 toy_env "d:50123" (init_line "d" 5 (EncodeToString "kd") 60 85) toy_table
    = (Some ack, insert_row (MkInfo u "d" "d" 5 (EncodeToString "kd") 60 85) toy_table).
Proof.
  destruct (registration uuid0 toy_env toy_env "d:50123" 60 85 (toy_proc "d" "" 5 "kd") toy_table [] [])
    as (u & ack & Ha & _).
  - reflexivity.
  - split; reflexivity.
  - split; reflexivity.
  - unfold is_int64, min_int, max_int. cbn. lia.
  - unfold is_int64, min_int, max_int. lia.
  - unfold is_int64, min_int, max_int. lia.
  - intros n Hn Hi. repeat (apply elem_of_cons in Hn as [->|Hn]; [vm_compute in Hi; discriminate Hi|]).
    by apply not_elem_of_nil in Hn.
  - unfold MaxSampleNodes. cbn. lia.
  - exists u, ack. exact Ha.
Defined.

(** c:4 is down. *)
Definition up_b (a : string) : bool := String.eqb a "b:3".
Definition table_env : env Table :=
  Env Z.of_nat (fun _ a => up_b a) (fun _ _ => None) (fun _ => 0%Z) (fun _ => true) (fun _ => false)
    (fun _ s => (None, s)) (fun _ => "") (fun _ _ _ => NoDial).

Lemma ping_tick_witness :
  exists w, run table_env TestPing_tick (World toy_table [] [] []) = (Done tt, w) /\
    infos (w_st w) = [row "b" "b" 3 "kb" 100 100; row "c" "c" 4 "kc" 30 85].
Proof.
  destruct (proj1 (wp_run _ _ _ _) (ping_tick table_env up_b toy_table [] []
    ltac:(reflexivity) ltac:(reflexivity) ltac:(apply (bool_decide_unpack _); by vm_compute)
    ltac:(unfold MaxSampleNodes; cbn; lia))) as ([] & w & Hr & Hw & _).
  exists w. split; [exact Hr|]. by rewrite Hw.
Defined.

Lemma ping_eviction_witness :
  exists w, run table_env (TestPing 5) (World toy_table [] [] []) = (Done tt, w) /\
    ident <$> infos (w_st w) = ident <$> [row "b" "b" 3 "kb" 100 100].
Proof.
  destruct (proj1 (wp_run _ _ _ _) (ping_eviction table_env up_b 5 toy_table [] []
    ltac:(reflexivity) ltac:(reflexivity) ltac:(apply (bool_decide_unpack _); by vm_compute)
    ltac:(unfold MaxSampleNodes; cbn; lia) ltac:(lia)
    ltac:(repeat (apply Forall_cons_2; [cbn; lia|]); by apply Forall_nil_2)))
    as ([] & w & Hr & Hw).
  exists w. split; [exact Hr|]. by rewrite Hw.
Defined.

(** An earlier run left a table; a node registers while a tick is about to
    start. *)
Lemma table_invariant_witness :
  exists w, run table_env start_server (World toy_table [] [] []) = (Done true, w) /\
    exists ts, let t := insert_row (MkInfo (uuid0 "") "d" "d" 5 "key" 60 85) (MkTable [] 0) in
      server_reach uuid0 (Cfg (w_st w) [] []) (Cfg t [] ts) /\ rows_ok t.
Proof.
  destruct (proj1 (wp_run _ _ _ _) (table_invariant uuid0 table_env toy_table)) as ([|] & w & Hr & Hw);
    [|vm_compute in Hr; discriminate Hr].
  exists w. split; [exact Hr|]. specialize (Hw eq_refl). vm_compute in Hr. injection Hr as <-.
  match goal with |- exists ts, let t := ?t1 in _ => set (t := t1) end.
  assert (Hreach : exists ts, server_reach uuid0 (Cfg (MkTable [] 0) [] []) (Cfg t [] ts)).
  { eexists. unfold server_reach.
    eapply reach_start; [apply (starts_connection uuid0 "d:50123" (init_line "d" 5 "key" 60 85))|].
    eapply reach_start; [apply (starts_TestPing uuid0 1)|].
    eapply (reach_effect _ _ 0 _ ""); [reflexivity|by split_and!|].
    eapply (reach_effect _ _ 0 _ ""); [reflexivity|by split_and!|].
    eapply (reach_effect _ _ 0 _ false); [reflexivity|by split_and!|].
    eapply (reach_effect _ _ 0 _ None); [reflexivity|by split_and!|].
    apply rtc_refl. }
  destruct Hreach as [ts Hreach]. exists ts. split; [exact Hreach|].
  apply (Hw (Cfg (MkTable [] 0) [] []) (Cfg t [] ts)); [apply rtc_refl|exact Hreach].
Defined.

(** The row of c is left over from a crash; c comes back on another port. *)
Definition worn_table : Table := MkTable [(1%Z, row "b" "b" 3 "kb" 100 100); (2%Z, row "c" "c" 4 "kc" 6 85)] 2.

Lemma restart_evicted_witness :
  exists w, run table_env (handleConnection uuid0 "c:50123" (init_line "c" 7 (EncodeToString "kn") 60 85) ;;
                           TestPing_tick) (World worn_table [] [] []) = (Done tt, w) /\
    names (w_st w) = ["b"].
Proof.
  destruct (proj1 (wp_run _ _ _ _) (restart_evicted uuid0 table_env up_b "c:50123" "c" 7 (EncodeToString "kn")
    60 85 (row "c" "c" 4 "kc" 6 85) worn_table [] [] ltac:(reflexivity) ltac:(reflexivity)
    ltac:(split; reflexivity) ltac:(apply b64_field) ltac:(unfold is_int64, min_int, max_int; lia)
    ltac:(unfold is_int64, min_int, max_int; lia) ltac:(unfold is_int64, min_int, max_int; lia)
    ltac:(right; left) ltac:(reflexivity) ltac:(reflexivity) ltac:(reflexivity)
    ltac:(unfold MaxSampleNodes; cbn; lia))) as ([] & w & Hr & _ & Hw).
  exists w. split; [exact Hr|]. revert Hw. vm_compute in Hr. injection Hr as <-. reflexivity.
Defined.

Lemma list_round_trip_witness :
  candidates_of (TrimSpace (list_answer (infos toy_table))) "s:1" "b:3" = ["c:4"].
Proof.
  destruct (list_round_trip (infos toy_table) "s:1" "b:3") as [H _]; [done| |exact H].
  repeat (apply Forall_cons_2; [repeat split; try reflexivity; cbn; unfold min_int, max_int; lia|]).
  by apply Forall_nil_2.
Defined.

Lemma sample_of_table_witness :
  exists l w, run table_env (GetNodesList 1) (World toy_table [] [] []) = (Done (inl l), w) /\
    length l = 1.
Proof.
  destruct (proj1 (wp_run _ _ _ _) (sample_of_table table_env 1 toy_table [] [] ltac:(reflexivity)))
    as (r & w & Hr & l & -> & _ & Hl & _).
  exists l, w. split; [exact Hr|exact Hl].
Defined.
