(* ===== verification/SendTheorems.v ===== *)
(** * Theorems: the senders and the groups of relays *)

From S2P Require Import Prelude GoStrings Base64 GoMonad Crypto ToyCrypto OnionLayer KeyCache.
From S2P Require Import Node NodeSpec OnionBuild Network Directory DirectorySpec Cluster.
From S2P Require Import ClusterSpec ToyNetwork Send SendSpec SuperSendSpec Commands.
Import Toy ToyNet.

Section Theorems.
Context {C : CryptoLib} {G : GoSort} {GL : GoSortLaws G}.

(** C15. The goroutine of SEND, whatever the relay count, the directory's
    answers, the relays reachable, the order of the draws, and the answer or
    silence at each wait together with any change the other goroutines make to
    the node meanwhile.  It returns after at most [maxRetries] requests for the
    list and [maxRetries] first hops contacted, each neither the sender nor the
    destination, with no mutex held and at most one result printed; or it
    panics, which it does only for a negative relay count, and then before it
    contacts anybody or prints anything.  It never waits for ever when it finds
    its mutexes free, which is the case run here, each wait for an
    acknowledgement being closed by its 8 s; what the other goroutines can do to
    the mutexes is the matter of [only_acks_block] and [ack_and_nack_block]. *)
Theorem send_ends (ev : env Proc) destAddr message frag numRelays maxRetries startTime p c t :
  (forall n s, own_addr (node s) = own_addr (node p) ->
     own_addr (node (e_wait ev n s).2) = own_addr (node p)) ->
  finishes ev (body (GoSend destAddr message frag numRelays maxRetries startTime)) (World p [] c t)
    (fun _ w => exists u, w_trace w = t ++ u /\ w_held w = [] /\
      length (lists u) <= Z.to_nat maxRetries /\ length (dials u) <= Z.to_nat maxRetries /\
      Forall (fun a => a <> own_addr (node p) /\ a <> destAddr) (dials u) /\
      length (prints u) <= 1)
    (fun why w => exists u, w_trace w = t ++ u /\ (numRelays < 0)%Z /\
      why = "slice bounds out of range" /\ dials u = [] /\ prints u = []).
Proof.
  intros Hwait. cbn [body]. destruct (Z_lt_dec numRelays 0) as [Hneg|Hpos].
  - apply (negative_finishes ev (own_addr (node p)) destAddr); [done|..].
    + rewrite Z.sub_0_r. intros p' c' u (H1 & H2 & H3). by exists u.
    + intros w u Hw [H1 H2]. by exists u.
  - apply finishes_wp, (wp_SendWithRetry ev (own_addr (node p)) destAddr Hwait); [lia..|done|].
    rewrite Z.sub_0_r. intros p' c' u (H1 & H2 & H3). by exists u.
Qed.

(** C16. The goroutine of SSEND, whatever the relay count, the directory's
    answers, the relays reachable, the draws, and the answer or silence at each
    wait with any change the other goroutines make to the node meanwhile:  with
    its mutexes free it returns without a panic, after at most [maxRetries]
    requests for the list, with no mutex held and at most one result printed.
    Every relay it contacts is neither the sender nor the destination; a member
    that could not be reached is not contacted again in any later attempt, that
    is, once the list has been asked for again, although the blacklist starts
    empty and is carried from attempt to attempt; and after a successful
    connection no other member is contacted in the same attempt. *)
Theorem super_send_ends (ev : env Proc) destAddr message numHops groupSize maxRetries startTime p c t :
  (forall n s, own_addr (node s) = own_addr (node p) ->
     own_addr (node (e_wait ev n s).2) = own_addr (node p)) ->
  wp ev (body (GoSendSuper destAddr message numHops groupSize maxRetries startTime))
    (World p [] c t) (fun _ w => exists u, w_trace w = t ++ u /\ w_held w = [] /\
      length (lists u) <= Z.to_nat maxRetries /\
      Forall (fun a => a <> own_addr (node p) /\ a <> destAddr) (dials u) /\
      length (prints u) <= 1 /\
      (forall u1 a m u2 r u3, u = u1 ++ EvDial a m false :: u2 ++ EvRequest list_request r :: u3 ->
         a ∉ dials u3) /\
      (forall u1 a m u2 a' m' ok u3, u = u1 ++ EvDial a m true :: u2 ++ EvDial a' m' ok :: u3 ->
         lists u2 <> [])).
Proof.
  intros Hwait. cbn [body]. apply (wp_SendWithRetrySuper ev (own_addr (node p)) destAddr Hwait); [lia|done|].
  rewrite Z.sub_0_r. intros p' c' u (H1 & H2 & H3). exists u.
  assert (Hd := polite_dials _ _ _ _ _ _ H1). do 3 (split; [done|]). split; [|split; [done|split]].
  - eapply Forall_impl; [exact Hd|]. intros a (? & ? & _). done.
  - intros u1 a m u2 r u3 ->. by eapply polite_spared.
  - intros u1 a m u2 a' m' ok u3 ->. by eapply polite_single.
Qed.

(** C17. [BuildSmartClusters] makes exactly [numHops] groups with as many keys as
    addresses; taken together they hold every candidate whose key can be read
    and whose address is not blacklisted, exactly once, with that key, and
    nothing else; and no group is empty when there are at least [numHops] such
    candidates. *)
Theorem clusters_partition (ev : env Proc) nodes numHops blacklist p c t :
  0 < numHops ->
  wp ev (BuildSmartClusters nodes numHops blacklist) (World p [] c t) (fun r w =>
    let usable := members_of (filter (fun n => not_blacklisted blacklist n = true) nodes) in
    length r.1 = numHops /\ Forall aligned r.1 /\ pairs r.1 ≡ₚ usable /\
    (numHops <= length usable -> Forall filled r.1) /\ w_st w = p /\ w_chans w = c).
Proof. intros Hn. apply wp_BuildSmartClusters; [done|]. done. Qed.
End Theorems.

(** ** Witnesses *)

(** A directory that lists two relays and the destination, and knows their
    keys; nobody answers the message. *)
Definition list3 : list NodeInfo :=
  [MkInfo "" "b" "b" 3 (EncodeToString "kb") 100 100; MkInfo "" "c" "c" 4 (EncodeToString "kc") 60 85;
   MkInfo "" "d" "d" 5 (EncodeToString "kd") 60 85; MkInfo "" "e" "e" 6 (EncodeToString "ke") 30 75].
Definition dir_env : env Proc :=
  Env Z.of_nat (fun _ a => String.eqb a "b:3")
    (fun _ l => if HasPrefix l "GET_LIST" then Some (list_answer list3)
                else Some ("KEY:" +:+ EncodeToString (TrimPrefix (TrimSpace l) "GET_KEY:") +:+ str1 nl))
    (fun _ => 0%Z) (fun _ => true) (fun _ => false) (fun _ s => (Some false, s)) (fun _ => "")
    (fun _ _ _ => NoDial).

(** Two relays asked for: the sender returns, after at most three first hops.
    Minus one: it panics. *)
Lemma send_ends_witness :
  (match run dir_env (body (GoSend "d:5" "hello" "" 2 3 0)) (World (toy_proc "s" "s" 1 "ks") [] [] []) with
   | (Done _, w) => length (dials (w_trace w)) <= 3 /\ lists (w_trace w) <> []
   | _ => False
   end) /\
  (run dir_env (body (GoSend "d:5" "hello" "" (-1) 3 0)) (World (toy_proc "s" "s" 1 "ks") [] [] [])).1 =
    Panicked "slice bounds out of range".
Proof.
  split; [|by vm_compute].
  assert (H := send_ends dir_env "d:5" "hello" "" 2 3 0 (toy_proc "s" "s" 1 "ks") [] [] ltac:(done)).
  unfold finishes in H.
  assert (Hd : lists (w_trace (run dir_env (body (GoSend "d:5" "hello" "" 2 3 0))
    (World (toy_proc "s" "s" 1 "ks") [] [] [])).2) <> []) by (apply (bool_decide_unpack _); by vm_compute).
  destruct (run _ _ _) as [[| |why] w]; [|exact H|].
  - destruct H as (u & Hu & _ & _ & Hl & _). split; [by rewrite Hu|exact Hd].
  - destruct H as (u & _ & Hlt & _). lia.
Defined.

(** The first group answers with a NACK, that of the second attempt is dead and
    is not contacted again. *)
Lemma super_send_ends_witness :
  exists w, run dir_env (body (GoSendSuper "d:5" "hello" 3 1 3 0)) (World (toy_proc "s" "s" 1 "ks") [] [] []) =
      (Done tt, w) /\
    (forall u1 a m u2 r u3, w_trace w = u1 ++ EvDial a m false :: u2 ++ EvRequest list_request r :: u3 ->
       a ∉ dials u3) /\ dials (w_trace w) = ["b:3"; "e:6"] /\ length (lists (w_trace w)) = 3.
Proof.
  assert (Hd : dials (w_trace (run dir_env (body (GoSendSuper "d:5" "hello" 3 1 3 0))
    (World (toy_proc "s" "s" 1 "ks") [] [] [])).2) = ["b:3"; "e:6"]) by (by vm_compute).
  assert (Hl : length (lists (w_trace (run dir_env (body (GoSendSuper "d:5" "hello" 3 1 3 0))
    (World (toy_proc "s" "s" 1 "ks") [] [] [])).2)) = 3) by (by vm_compute).
  destruct (proj1 (wp_run _ _ _ _) (super_send_ends dir_env "d:5" "hello" 3 1 3 0
    (toy_proc "s" "s" 1 "ks") [] [] ltac:(done)))
    as ([] & w & Hr & u & Hu & _ & _ & _ & _ & Hspared & _).
  exists w. split; [exact Hr|]. rewrite Hr in Hd, Hl. rewrite Hu. split; [exact Hspared|].
  split; [rewrite <- Hu; exact Hd|rewrite <- Hu; exact Hl].
Defined.

Lemma clusters_partition_witness :
  exists gs rel w, run dir_env (BuildSmartClusters list3 3 ["c:4"])
      (World (toy_proc "s" "s" 1 "ks") [] [] []) = (Done (gs, rel), w) /\
    pairs gs ≡ₚ [("b:3", "kb"); ("d:5", "kd"); ("e:6", "ke")] /\ Forall filled gs.
Proof.
  destruct (proj1 (wp_run _ _ _ _) (clusters_partition dir_env list3 3 ["c:4"]
    (toy_proc "s" "s" 1 "ks") [] [] ltac:(lia))) as ([gs rel] & w & Hr & _ & _ & Hp & Hf & _).
  exists gs, rel, w. split; [exact Hr|]. split; [exact Hp|]. apply Hf. vm_compute. lia.
Defined.
