(* ===== verification/CommandTheorems.v ===== *)
(** * Theorems: the commands *)

From S2P Require Import Prelude GoStrings Base64 GoMonad Crypto ToyCrypto OnionLayer KeyCache Node.
From S2P Require Import NodeSpec Fragments OnionBuild Network Directory DirectorySpec Cluster.
From S2P Require Import ToyNetwork Send SendSpec Commands CommandSpec FrontEnds.
Import Toy ToyNet.

Section Theorems.
Context {C : CryptoLib} {G : GoSort} {L : CryptoLaws C}.

(** Fragmentation: a SEND of more than 4096 bytes starts
    goroutines that send it in pieces of at most that size to the destination;
    when the FINAL layers with these pieces and labels arrive there, in any
    order, exactly the message is delivered. *)
Lemma fragmented_send (ev : env Proc) nbr ip port message k p c t :
  lacks colon nbr -> lacks colon ip -> lacks colon port -> Atoi nbr = (k, None) ->
  fragChunkSize < String.length message -> (Z.of_nat (String.length message) <= max_int)%Z ->
  wp ev (cli_SEND (nbr +:+ ":" +:+ ip +:+ ":" +:+ port +:+ ":" +:+ message))
    (World p [] c t) (fun _ w => exists u fid, w = World p [] c (t ++ u) /\ id_shape "frag" fid /\
      Forall (sends_to (ip +:+ ":" +:+ port) k) (spawns u) /\
      forall evd q cq tq ls,
        (fun l => (Frag l, Message l)) <$> ls ≡ₚ omap piece_of (spawns u) ->
        wf_frag (node q) -> view fid (node q) = (None, None) ->
        wp evd (handle_frags ls) (World q [] cq tq) (fun _ w' =>
          ReceivedMsgs (node (w_st w')) = ReceivedMsgs (node q) ++ [message] /\
          view fid (node (w_st w')) = (None, None))).
Proof.
  intros Hn Hi Hp Hk Hl Hmax. apply (wp_cli_SEND_long ev nbr ip port message k); [done..|].
  intros u fid chunks Hid Hch Hu. exists u, fid. split; [done|]. split; [done|].
  assert (Hof : chunks_of message fragChunkSize chunks) by (apply split_chunks; [done|unfold fragChunkSize; lia]).
  assert (Hcount := chunks_count _ _ _ Hof). split.
  - by eapply chunk_senders.
  - intros evd q cq tq ls Hls Hwf Hv.
    assert (Hf : lacks colon fid) by (eapply id_shape_lacks; [exact Hid|done..]).
    destruct (pieces_carried (ip +:+ ":" +:+ port) fid chunks k (spawns u) ls) as (R & HR & Hc);
      [done|lia|done|done|].
    eapply (wp_all_chunks evd fid message fragChunkSize chunks R); [exact Hch|..]; try done.
    + unfold fragChunkSize; lia.
    + intros ->. unfold fragChunkSize in Hl. cbn in Hl. lia.
Qed.

(** A negative relay count is accepted and kills the node: the SEND command
    starts its goroutine, which panics as soon as the directory lists anybody,
    whoever is listed. *)
Lemma negative_relays_panic (ev ev' : env Proc) nbr ip port message k p c t p' c' t' :
  lacks colon nbr -> lacks colon ip -> lacks colon port -> Atoi nbr = (k, None) -> (k < 0)%Z ->
  String.length message <= fragChunkSize ->
  (forall n, exists r, e_request ev' n ("GET_LIST" +:+ str1 nl) = Some r /\ TrimSpace r <> "LIST:empty") ->
  wp ev (cli_SEND (nbr +:+ ":" +:+ ip +:+ ":" +:+ port +:+ ":" +:+ message))
    (World p [] c t) (fun _ w => exists u g, w = World p [] c (t ++ u) /\ spawns u = [g] /\
      (run ev' (body g) (World p' [] c' t')).1 = Panicked "slice bounds out of range").
Proof.
  intros Hn Hi Hp Hk Hneg Hl Hlist. unfold cli_SEND. rewrite fields_4, Hk by done. cbn iota zeta.
  destruct (Nat.leb_spec (String.length message) fragChunkSize); [|lia]. wp_steps.
  eexists _, _. split; [by rewrite <- app_assoc|]. split; [reflexivity|].
  cbn [body]. by apply negative_panics.
Qed.


(** FETCH: when the peer is a node, which answers with its handler, the
    console and the web page both end with that node's current public key in
    the cache for 30 seconds, and nothing else changed. *)
Lemma fetch_learns_key (ev evq : env Proc) addr q cq p c t :
  (forall n l, e_ask ev n addr l =
     match peer_answer evq q cq l with Some s => Dialed true s true | None => Dialed true "" false end) ->
  Forall (fun fetch : prog Proc unit => wp ev fetch (World p [] c t) (fun _ w => exists now,
      node (w_st w) = node p /\
      cache (w_st w) = <[addr := MkCachedKey (NPublicKey (node q)) (now + 30 * second)]> (cache p)))
    [cli_FETCH addr; web_FETCH addr].
Proof.
  intros He. unfold cli_FETCH, web_FETCH.
  apply Forall_cons_2; [|apply Forall_cons_2; [|by apply Forall_nil_2]]; wp_steps;
    rewrite He, peer_key; cbn [negb]; rewrite parsed_key; wp_steps; apply wp_cache_set; unfold Println; wp_steps;
    by eexists.
Qed.

(** BENCH starts exactly as many senders as asked, numbered from 0, each
    with the relay count and the retries given. *)
Lemma bench_starts (ev : env Proc) data nbr k r ip port p c t :
  SplitN data colon 5 = [nbr; k; r; ip; port] ->
  wp ev (cli_BENCH data) (World p [] c t) (fun _ w => exists nows u,
    w = World p [] c (t ++ u) /\ length nows = Z.to_nat (atoi_val nbr) /\
    spawns u = zip_with (fun i now =>
        GoSend (ip +:+ ":" +:+ port) ("bench-msg-" +:+ Itoa i) "" (atoi_val k) (atoi_val r) now)
      (seqZ 0 (Z.of_nat (Z.to_nat (atoi_val nbr)))) nows).
Proof.
  intros Hs. unfold cli_BENCH. rewrite Hs. cbn zeta.
  apply (wp_bench_loop ev _ _ (fun i now => GoSend _ (_ +:+ Itoa i) _ _ _ now)). intros nows u Hn Hu.
  by exists nows, u.
Qed.

Variable listen : string -> option Z.

(** C19. Start: with an identifier, a free port and a directory that accepts it,
    [main] leaves a node with a matching key pair, the port of its listener and
    the address the directory told it; the accept loop was started. *)
Theorem startup (ev : env Proc) prog_name id host port p0 c t :
  HasPrefix id "--" = false -> id <> "" -> field_ok id -> field_ok host ->
  (forall a, listen a = Some port) -> e_getenv ev "ENABLE_WEB" = "" ->
  (forall n l, HasPrefix l "INIT:" = true ->
     e_request ev n l = Some ("INIT_ACK:" +:+ id +:+ ":" +:+ host +:+ str1 nl)) ->
  wp ev (main listen [prog_name; id] "") (World p0 [] c t) (fun _ w => exists sk,
    w_st w = MkProc (MkNode id port sk (Public sk) host ∅ ∅ None None None []) ∅ /\ w_held w = [] /\
    exists u, w_trace w = t ++ u /\ GoStartNode ∈ spawns u).
Proof.
  intros Hpre Hid Hfid Hfh Hlisten Hweb He. unfold main, newKeyCache, node_id. rewrite Hpre. cbn [negb].
  wp_steps. apply String.eqb_neq in Hid. rewrite Hid. unfold NewNode. wp_steps.
  apply wp_rand_bytes. intros seed w' _ (u & -> & Hu)%quiet_inv. wp_steps.
  rewrite Hlisten. wp_steps.
  match goal with |- context [JoinServerList ?a ?b] => generalize a; generalize b end.
  intros sn sa. apply (wp_JoinServerList ev sa sn host); [done|done| |].
  { intros n. by apply He. }
  intros v. wp_steps. rewrite Hweb. cbn [String.eqb]. wp_steps. unfold runCLI, banner. cbn [print_all].
  wp_steps. cbn [cli_loop]. rewrite <- !app_assoc.
  eexists. split; [reflexivity|]. split; [done|]. eexists. split; [reflexivity|].
  autorewrite with dor_trace. cbn [spawns omap list_omap app]. set_solver.
Qed.

Variable uuid_text : string -> string.

(** C18. Key rotation: [RegenerateKeys] installs a matching pair and sends the
    directory a line after which any client that asks for the node's address
    gets the new key, as long as the table fits one sample; when the directory
    cannot be reached the pair is installed all the same, and the error
    returned. *)
Theorem key_rotation (ev : env Proc) host t p c tr :
  field_ok (ID (node p)) -> field_ok host -> is_int64 (Port (node p)) ->
  registered_at t (ID (node p)) host (Port (node p)) -> length (rows t) <= MaxSampleNodes ->
  wp ev RegenerateKeys (World p [] c tr) (fun r w => exists sk u v line resp,
    w = World (on_node (set_keys sk (Public sk)) p) [] c (tr ++ u ++ EvRequest line resp :: v) /\
    match resp with Some _ => r = inl tt | None => exists connected, r = inr (regen_error connected) end /\
    forall (evd evd' : env Table) (ev' : env Proc) remote remote' q c' tr',
      (forall n, e_fault evd n = false) -> (forall n, e_fault evd' n = false) ->
      (forall n l, e_request ev' n l =
         (answer uuid_text evd' remote' l (answer uuid_text evd remote line t).2).1) ->
      wp ev' (FetchKeyFromServer (host +:+ ":" +:+ Itoa (Port (node p)))) (World q [] c' tr')
        (fun r' w' => r' = inl (Public sk) /\ w_st w' = q)).
Proof.
  intros Hid Hh Hp Hreg Hlen. unfold RegenerateKeys. wp_steps.
  apply wp_rand_bytes. intros seed w' _ (u & -> & Hu)%quiet_inv. wp_steps.
  set (sk := GenerateKey seed). set (key := EncodeToString (MarshalPKIX (Public sk))).
  fold (update_key_line (ID (node p)) key).
  match goal with |- context [e_request ev ?n ?l] => set (line := l); set (resp := e_request ev n line) end.
  assert (Hgoal : forall (evd evd' : env Table) (ev' : env Proc) remote remote' q c' tr',
      (forall n, e_fault evd n = false) -> (forall n, e_fault evd' n = false) ->
      (forall n l, e_request ev' n l =
         (answer uuid_text evd' remote' l (answer uuid_text evd remote line t).2).1) ->
      wp ev' (FetchKeyFromServer (host +:+ ":" +:+ Itoa (Port (node p)))) (World q [] c' tr')
        (fun r' w' => r' = inl (Public sk) /\ w_st w' = q)).
  { intros evd evd' ev' remote remote' q c' tr' Hok Hok' He.
    assert (Hup : answer uuid_text evd remote line t =
      (None, update_where (ID (node p)) (set_keytext key) t)).
    { apply answer_wp. apply wp_UPDATE_KEY; [done|done|apply b64_field|]. intros v Hv.
      cbn [w_trace app]. by rewrite (NodeSpec.internal_replies v). }
    rewrite Hup in He. cbn [snd] in He.
    apply wp_FetchKey with (pk := Public sk); [done| |done]. intros n. rewrite He.
    assert (Hans : answer uuid_text evd' remote' (get_key_line host (Port (node p)))
      (update_where (ID (node p)) (set_keytext key) t) =
      (Some ("KEY:" +:+ key +:+ str1 nl), update_where (ID (node p)) (set_keytext key) t)).
    { apply answer_wp. apply wp_GET_KEY with (k := key); [done|done|done| | |].
      - by apply key_of_update.
      - cbn [rows update_where]. by rewrite length_fmap.
      - intros v ok Hv. split; [by apply internal_head_reply|done]. }
    by rewrite Hans. }
  clearbody resp. destruct resp as [s|]; wp_steps; rewrite <- !app_assoc.
  - by exists sk, u, [], line, (Some s).
  - eexists sk, u, _, line, None. split; [reflexivity|]. split; [by eexists|done].
Qed.
End Theorems.

(** ** Witnesses *)

Definition toy_s : Proc := toy_proc "s" "s" 1 "ks".
Definition world_s : world Proc := World toy_s [] [] [].

(** One byte more than a fragment. *)
Definition long_message : string := byte_str (replicate 4097 97).

Lemma fragmented_send_witness :
  exists w, run toy_env (cli_SEND ("2" +:+ ":" +:+ "d" +:+ ":" +:+ "5" +:+ ":" +:+ long_message))
      world_s = (Done tt, w) /\
    exists fid, id_shape "frag" fid /\ Forall (sends_to "d:5" 2) (spawns (w_trace w)).
Proof.
  destruct (proj1 (wp_run _ _ _ _) (fragmented_send toy_env "2" "d" "5" long_message 2 toy_s [] []
    ltac:(reflexivity) ltac:(reflexivity) ltac:(reflexivity) ltac:(reflexivity)
    ltac:(apply (bool_decide_unpack _); by vm_compute) ltac:(apply (bool_decide_unpack _); by vm_compute)))
    as ([] & w & Hr & u & fid & Hw & Hid & Hs & _).
  exists w. split; [exact Hr|]. exists fid. split; [exact Hid|]. rewrite Hw. exact Hs.
Defined.

(** A directory that lists one relay. *)
Definition list_env : env Proc :=
  Env Z.of_nat (fun _ _ => true) (fun _ _ => Some ("LIST:b|b|3|k|1|1" +:+ str1 nl))
    (fun _ => 0%Z) (fun _ => true) (fun _ => false) (fun _ s => (None, s)) (fun _ => "")
    (fun _ _ _ => NoDial).

Lemma negative_relays_panic_witness :
  exists w g, run toy_env (cli_SEND ("-1" +:+ ":" +:+ "d" +:+ ":" +:+ "5" +:+ ":" +:+ "hello"))
      world_s = (Done tt, w) /\ spawns (w_trace w) = [g] /\
    (run list_env (body g) world_s).1 = Panicked "slice bounds out of range".
Proof.
  destruct (proj1 (wp_run _ _ _ _) (negative_relays_panic toy_env list_env "-1" "d" "5" "hello" (-1)
    toy_s [] [] toy_s [] [] ltac:(reflexivity) ltac:(reflexivity) ltac:(reflexivity) ltac:(reflexivity)
    ltac:(lia) ltac:(apply (bool_decide_unpack _); by vm_compute)
    ltac:(intros n; eexists; split; [reflexivity|by vm_compute])))
    as ([] & w & Hr & u & g & Hw & Hg & Hp).
  exists w, g. split; [exact Hr|]. split; [rewrite Hw; exact Hg|exact Hp].
Defined.


(** A peer that runs node d. *)
Definition peer_env : env Proc :=
  Env Z.of_nat (fun _ _ => true) (fun _ _ => None) (fun _ => 0%Z) (fun _ => true) (fun _ => false)
    (fun _ s => (None, s)) (fun _ => "")
    (fun _ _ l => match peer_answer toy_env (toy_proc "d" "d" 5 "kd") [] l with
                  | Some s => Dialed true s true | None => Dialed true "" false end).

Lemma fetch_learns_key_witness :
  exists w, run peer_env (cli_FETCH "d:5") world_s = (Done tt, w) /\
    Key <$> cache (w_st w) !! "d:5" = Some "kd".
Proof.
  pose proof (fetch_learns_key peer_env toy_env "d:5" (toy_proc "d" "d" 5 "kd") [] toy_s [] []
    ltac:(reflexivity)) as H.
  apply Forall_cons_1 in H as [H _]. apply wp_run in H as ([] & w & Hr & now & _ & Hc).
  exists w. split; [exact Hr|]. rewrite Hc, lookup_insert_eq. reflexivity.
Defined.

Lemma bench_starts_witness :
  exists w, run toy_env (cli_BENCH "3:2:1:d:5") world_s = (Done tt, w) /\ length (spawns (w_trace w)) = 3.
Proof.
  destruct (proj1 (wp_run _ _ _ _) (bench_starts toy_env "3:2:1:d:5" "3" "2" "1" "d" "5" toy_s [] []
    ltac:(reflexivity))) as ([] & w & Hr & nows & u & Hw & Hn & Hu).
  exists w. split; [exact Hr|]. rewrite Hw. cbn [w_trace app]. rewrite Hu, length_zip_with, Hn. reflexivity.
Defined.

Definition ack_env : env Proc :=
  Env Z.of_nat (fun _ _ => true) (fun _ _ => Some ("INIT_ACK:" +:+ "n" +:+ ":" +:+ "10.0.0.7" +:+ str1 nl))
    (fun _ => 0%Z) (fun _ => true) (fun _ => false) (fun _ s => (None, s)) (fun _ => "")
    (fun _ _ _ => NoDial).

Lemma startup_witness :
  exists w, run ack_env (main (fun _ => Some 9000%Z) ["node"; "n"] "") world_s = (Done tt, w) /\
    NodeIP (node (w_st w)) = "10.0.0.7" /\ Port (node (w_st w)) = 9000%Z.
Proof.
  destruct (proj1 (wp_run _ _ _ _) (startup (fun _ => Some 9000%Z) ack_env "node" "n" "10.0.0.7" 9000
    toy_s [] [] ltac:(reflexivity) ltac:(discriminate) ltac:(split; reflexivity) ltac:(split; reflexivity)
    ltac:(reflexivity) ltac:(reflexivity) ltac:(reflexivity))) as ([] & w & Hr & sk & Hw & _).
  exists w. split; [exact Hr|]. rewrite Hw. split; reflexivity.
Defined.

Definition table_s : Table :=
  MkTable [(1%Z, MkInfo "u" "s" "s" 1 (EncodeToString "ks") 60 85)] 1.

Lemma key_rotation_witness :
  exists r w, run toy_env RegenerateKeys world_s = (Done r, w) /\
    NPublicKey (node (w_st w)) = Public (NPrivateKey (node (w_st w))).
Proof.
  destruct (proj1 (wp_run _ _ _ _) (key_rotation (fun s => s) toy_env "s" table_s toy_s [] []
    ltac:(split; reflexivity) ltac:(split; reflexivity)
    ltac:(unfold is_int64, min_int, max_int; cbn; lia)
    ltac:(split; [eexists; split; [by left|done]|intros n Hn; by apply list_elem_of_singleton in Hn as ->])
    ltac:(unfold MaxSampleNodes; cbn; lia))) as (r & w & Hr & sk & u & v & line & resp & Hw & _).
  exists r, w. split; [exact Hr|]. rewrite Hw. reflexivity.
Defined.
