(* ===== verification/EndToEndTheorems.v ===== *)
(** * Theorems: SEND from the command to the acknowledgement *)

From S2P Require Import Prelude GoStrings Base64 GoMonad Crypto ToyCrypto OnionLayer KeyCache Node.
From S2P Require Import NodeSpec OnionBuild Network Directory Cluster ToyNetwork Send SendSpec.
From S2P Require Import ClusterSpec Fragments EndToEnd SuperEndToEnd Commands CommandSpec LongSend.
Import Toy ToyNet.

Section Theorems.
Context {C : CryptoLib} {G : GoSort} {L : CryptoLaws C}.

(** C1. SEND delivers.  When the directory answers with reachable nodes and
    their keys, the goroutine of a SEND, of a whole message or of one chunk,
    comes to its wait having posted exactly one line, the onion for a route
    over listed relays, to the first of them.  From there, when the identifiers
    it drew are new, the network brings what it carries to the destination once
    and to nobody else, nothing stays on the wire, and the goroutine, resumed
    on its channel, prints the result ACK of its first attempt and ends. *)
Theorem send_delivers (ev : env Proc) pk_of N nodes p chs t dest pc message k maxRetries t0 :
  let self := own_addr (node p) in
  let cands := filter (fun a => a <> self /\ a <> dest) (node_addr <$> nodes) in
  (forall n a, e_dial ev n a = Network.up N a) ->
  wire N = [] -> procs N !! self = Some (p, chs) ->
  (forall n, e_request ev n ("GET_LIST" +:+ str1 nl) = Some (list_answer nodes)) ->
  nodes <> [] -> Forall wf_info nodes -> cands <> [] ->
  Forall (reachable pk_of N) (self :: dest :: cands) ->
  dir_knows ev pk_of (self :: dest :: cands) -> agrees pk_of (self :: dest :: cands) (cache p) ->
  (0 < k)%Z -> (0 < maxRetries)%Z -> parcel_ok pc ->
  pauses ev (fun c kont w => exists nacks msgID,
      posted pk_of cands dest pc message self p t nacks msgID w /\
      (fresh N nacks msgID ->
       comes_back "RESULT" (sent_net N self t w) dest pc message self 0 c kont (length nacks)))
    (body (GoSend dest message (parcel_text pc) k maxRetries t0)) (World p [] chs t).
Proof.
  intros self cands Hup Hw Hself Hlist Hne Hwf Hc Hr Hd Ha Hk Hm Hpc.
  eapply pauses_mono; [apply (pauses_SendWithRetry ev pk_of _ Hup N) with (nodes := nodes); try done|].
  - intros a (_ & _ & _ & _ & q & cq & Hq & _). apply bool_decide_eq_true_2. rewrite Hq. by eexists.
  - intros c kont w Hl. by eapply launched_delivers.
Qed.

(** C2. SSEND delivers, and survives crashes.  When the directory answers with
    enough reachable nodes, the goroutine of an SSEND comes to its wait having
    dealt all of them into non-empty groups and posted exactly one line, the
    onion of the message for a route of these groups, to a member of the first.
    From there any processes may go: as long as the sender, the destination,
    the relay that has the onion and one member of every group are left, the
    message reaches the destination once and nobody else, and the goroutine
    prints the result ACK and ends. *)
Theorem super_send_delivers {GL : GoSortLaws G} (ev : env Proc) pk_of N nodes p chs t dest message
    numHops groupSize maxRetries t0 :
  let self := own_addr (node p) in
  let cands := filter (fun n => node_addr n <> self /\ node_addr n <> dest) nodes in
  let hops := Z.max MinClusters numHops in
  (forall n a, e_dial ev n a = Network.up N a) ->
  wire N = [] -> procs N !! self = Some (p, chs) -> NPublicKey (node p) = pk_of self ->
  (forall n, e_request ev n ("GET_LIST" +:+ str1 nl) = Some (list_answer nodes)) ->
  Forall wf_info nodes -> Forall (lists_key pk_of) nodes -> (hops <= Z.of_nat (length cands))%Z ->
  Forall (reachable pk_of N) (self :: dest :: (node_addr <$> cands)) ->
  Forall (lacks comma) [self; dest] -> dir_knows ev pk_of [dest] -> (0 < maxRetries)%Z ->
  pauses ev (fun c kont w => exists gs first nacks msgID payload u,
      length gs = Z.to_nat hops /\ Forall (matched pk_of) gs /\
      concat (Addrs <$> gs) ≡ₚ node_addr <$> cands /\ (exists g, head gs = Some g /\ first ∈ Addrs g) /\
      encapsulated (ghop <$> gs ++ [alone pk_of dest]) (ghop <$> reverse gs ++ [alone pk_of self]) self self
        "" message nacks msgID payload /\
      w_trace w = t ++ u /\ posts u [(first, payload +:+ str1 nl)] /\
      settle (node (w_st w)) = settle (node p) /\
      forall M, weakened (sent_net N self t w) M ->
        Forall (fun a => Network.up M a = true) [self; dest; first] -> Forall (listens M) gs ->
        fresh M nacks msgID ->
        comes_back "RESULT_SUPER" M dest Whole message self 0 c kont (length nacks))
    (body (GoSendSuper dest message numHops groupSize maxRetries t0)) (World p [] chs t).
Proof.
  intros self cands hops Hup Hw Hself Hpub Hlist Hwf Hkeys Hlen Hr Hc Hd Hm.
  eapply pauses_mono.
  - apply (pauses_SendWithRetrySuper ev pk_of _ Hup) with (nodes := nodes); try done.
    + apply Forall_fmap. do 2 apply Forall_cons_1 in Hr as [_ Hr]. rewrite Forall_fmap in Hr.
      eapply Forall_impl; [exact Hr|]. intros n (_ & _ & _ & _ & q & cq & Hq & _). cbn.
      apply bool_decide_eq_true_2. rewrite Hq. by eexists.
    + by eapply reachable_fits.
  - intros c kont w Hl. eapply launched_super_delivers; [exact Hl|done..|].
    apply (Forall_app_2 _ [self; dest]); [done|]. apply Forall_fmap, Forall_forall.
    intros n [_ Hn]%list_elem_of_filter. rewrite Forall_forall in Hwf. by apply node_addr_lacks, Hwf.
Qed.

(** C3. A long SEND delivers its message.  SEND of more than 4096 bytes, given
    to the console, starts goroutines; run in any order, one after the other,
    each of them posts one onion, and when the identifiers drawn are new the
    network brings all chunks to the destination, which then has exactly the
    message more, no buffer left, and every goroutine has reported its
    acknowledgement; no other node has received anything. *)
Theorem long_send_delivers (ev : env Proc) pk_of N nodes p chs t n nbr ip port message k :
  let self := own_addr (node p) in
  let dest := ip +:+ ":" +:+ port in
  let everyone := self :: dest :: offered self dest nodes in
  wire N = [] -> procs N !! self = Some (p, chs) -> holding N dest = Some n -> wf_frag n ->
  Forall wf_info nodes -> offered self dest nodes <> [] ->
  Forall (reachable pk_of N) everyone -> agrees pk_of everyone (cache p) ->
  lacks colon nbr -> lacks colon ip -> lacks colon port -> Atoi nbr = (k, None) -> (0 < k)%Z ->
  fragChunkSize < String.length message -> (Z.of_nat (String.length message) <= max_int)%Z ->
  wp ev (cli_SEND (nbr +:+ ":" +:+ ip +:+ ":" +:+ port +:+ ":" +:+ message))
    (World p [] chs t) (fun _ w => exists u fid, w = World p [] chs (t ++ u) /\ id_shape "frag" fid /\
      forall gs, gs ≡ₚ spawns u -> view fid n = (None, None) ->
        in_turn pk_of self dest nodes gs N (fun N' => wire N' = [] /\
          (forall a, a <> dest -> holding N' a = holding N a) /\
          exists n', holding N' dest = Some n' /\ ReceivedMsgs n' = ReceivedMsgs n ++ [message] /\
            view fid n' = (None, None))).
Proof.
  intros self dest everyone Hw Hself Hn Hwf Hinfo Hoff Hr Ha Hc1 Hc2 Hc3 Hk Hk0 Hl Hmax.
  apply (wp_cli_SEND_long ev nbr ip port message k); [done..|].
  intros u fid chunks Hid Hch Hu. exists u, fid. do 2 (split; [done|]). intros gs Hgs Hv.
  assert (Hcount : length chunks <= String.length message) by (eapply chunks_count, split_chunks; [done|unfold fragChunkSize; lia]).
  destruct (chunks_sent dest fid chunks k (spawns u) gs) as (R & HR & HF);
    [by eapply id_shape_lacks|by eapply id_shape_lacks|lia|done|done|].
  eapply (all_turns pk_of self dest nodes Hinfo); [by intros ->|done|done|exact HF| |].
  - split; [done|done|by exists p, chs].
  - intros N' Hw' Hh. split; [done|]. split; [intros a Hne; by rewrite Hh, decide_False|].
    exists (f_steps (chunk_fragment fid chunks <$> R) n).
    rewrite Hh, decide_True, Hn by done. cbn. rewrite all_arrive_chunks. split; [done|].
    eapply all_chunks; [exact Hch|unfold fragChunkSize; lia| |done..]. intros ->. cbn in Hl. lia.
Qed.
End Theorems.

(** ** Witness: node s:1 sends to d:5, the directory lists b:3 *)

Definition toy_info : NodeInfo := MkInfo "u" "b" "b" 3 (EncodeToString "kb") 100 100.
Definition toy_pk_of (a : string) : string :=
  if String.eqb a "s:1" then "ks" else if String.eqb a "b:3" then "kb" else "kd".
Definition toy_sender : Proc := toy_proc "s" "s" 1 "ks".
Definition toy_net : net :=
  Net (<["s:1" := (toy_sender, [])]> (<["b:3" := (toy_proc "b" "b" 3 "kb", [])]>
       {["d:5" := (toy_proc "d" "d" 5 "kd", [])]})) [].

(** The directory answers the list, and the key of the address it is asked
    for. *)
Definition toy_directory (line : string) : option string :=
  if String.eqb line ("GET_LIST" +:+ str1 nl) then Some (list_answer [toy_info])
  else Some ("KEY:" +:+ EncodeToString (toy_pk_of (TrimSpace (TrimPrefix line "GET_KEY:"))) +:+ str1 nl).
Definition toy_send_env : env Proc :=
  Env Z.of_nat (fun _ a => Network.up toy_net a) (fun _ => toy_directory) (fun _ => 0%Z) (fun _ => true)
    (fun _ => false) (fun _ s => (None, s)) (fun _ => "") (fun _ _ _ => NoDial).

Lemma toy_reachable : Forall (reachable (C:=toy_lib) toy_pk_of toy_net) ["s:1"; "d:5"; "b:3"].
Proof.
  repeat (apply Forall_cons_2;
    [do 3 (split; [reflexivity|]); split; [unfold key_fits; cbn; lia|]; eexists _, _; split; reflexivity|]).
  by apply Forall_nil_2.
Qed.

Lemma toy_wf_info : Forall wf_info [toy_info].
Proof. apply Forall_singleton. repeat split; try reflexivity; cbn; unfold min_int, max_int; lia. Qed.

Lemma send_delivers_witness :
  pauses toy_send_env (fun _ _ w => exists line, sends (w_trace w) = [("b:3", line)])
    (body (GoSend "d:5" "hello" "" 1 3 0)) (World toy_sender [] [] []).
Proof.
  eapply pauses_mono.
  - apply (send_delivers toy_send_env toy_pk_of toy_net [toy_info] toy_sender [] [] "d:5" Whole "hello" 1 3 0).
    + intros n a. reflexivity.
    + reflexivity.
    + reflexivity.
    + intros n. reflexivity.
    + discriminate.
    + exact toy_wf_info.
    + vm_compute. discriminate.
    + exact toy_reachable.
    + intros a n Ha. eexists. split; [reflexivity|].
      repeat (apply elem_of_cons in Ha as [->|Ha]; [reflexivity|]). by apply not_elem_of_nil in Ha.
    + intros a v _ Hv. cbn in Hv. by rewrite lookup_empty in Hv.
    + reflexivity.
    + reflexivity.
    + exact I.
  - intros c k w (nacks & msgID & (front & first & payload & u & _ & Hf & Hin & Hw & [Hs _] & _) & _).
    exists (payload +:+ str1 nl). rewrite Hw. cbn [app]. rewrite Hs. f_equal. f_equal.
    destruct front as [|f front]; [discriminate Hf|]. injection Hf as ->.
    apply Forall_inv in Hin. vm_compute in Hin. by apply list_elem_of_singleton in Hin.
Defined.

(** ** Witness: s:1 sends to d:5 through three groups of one relay *)

Definition toy_infos : list NodeInfo :=
  [MkInfo "u" "a" "a" 2 (EncodeToString "ka") 100 100; toy_info;
   MkInfo "u" "c" "c" 4 (EncodeToString "kc") 60 85].
Definition toy_pks (a : string) : string :=
  if String.eqb a "a:2" then "ka" else if String.eqb a "c:4" then "kc" else toy_pk_of a.
Definition toy_super_net : net :=
  Net (<["a:2" := (toy_proc "a" "a" 2 "ka", [])]> (<["c:4" := (toy_proc "c" "c" 4 "kc", [])]>
       (procs toy_net))) [].

Definition toy_super_directory (line : string) : option string :=
  if String.eqb line ("GET_LIST" +:+ str1 nl) then Some (list_answer toy_infos)
  else Some ("KEY:" +:+ EncodeToString "kd" +:+ str1 nl).
Definition toy_super_env : env Proc :=
  Env Z.of_nat (fun _ a => Network.up toy_super_net a) (fun _ => toy_super_directory) (fun _ => 0%Z)
    (fun _ => true) (fun _ => false) (fun _ s => (None, s)) (fun _ => "") (fun _ _ _ => NoDial).

Lemma toy_super_reachable :
  Forall (reachable (C:=toy_lib) toy_pks toy_super_net) ["s:1"; "d:5"; "a:2"; "b:3"; "c:4"].
Proof.
  repeat (apply Forall_cons_2;
    [do 3 (split; [reflexivity|]); split; [unfold key_fits; cbn; lia|]; eexists _, _; split; reflexivity|]).
  by apply Forall_nil_2.
Qed.

Lemma super_send_delivers_witness :
  pauses toy_super_env (fun _ _ w => exists first line,
      first ∈ ["a:2"; "b:3"; "c:4"] /\ sends (w_trace w) = [(first, line)])
    (body (G:=merge_sort_slice) (GoSendSuper "d:5" "hello" 1 1 3 0)) (World toy_sender [] [] []).
Proof.
  eapply pauses_mono.
  - apply (super_send_delivers (G:=merge_sort_slice) toy_super_env toy_pks toy_super_net toy_infos toy_sender [] []
      "d:5" "hello" 1 1 3 0).
    + intros n a. reflexivity.
    + reflexivity.
    + reflexivity.
    + reflexivity.
    + intros n. reflexivity.
    + repeat (apply Forall_cons_2;
        [repeat split; try reflexivity; cbn; unfold min_int, max_int; lia|]). by apply Forall_nil_2.
    + repeat (apply Forall_cons_2; [reflexivity|]). by apply Forall_nil_2.
    + vm_compute. discriminate.
    + exact toy_super_reachable.
    + repeat (apply Forall_cons_2; [reflexivity|]). by apply Forall_nil_2.
    + intros a n ->%list_elem_of_singleton. eexists. split; reflexivity.
    + reflexivity.
  - intros c k w (gs & first & nacks & msgID & payload & u & _ & _ & Hp & (g & Hg & Hf) & _ & Hw & [Hs _] & _).
    exists first, (payload +:+ str1 nl). rewrite Hw. cbn [app]. split; [|exact Hs].
    change ["a:2"; "b:3"; "c:4"] with (node_addr <$> toy_infos).
    assert (Hc : concat (Addrs <$> gs) ≡ₚ node_addr <$> toy_infos) by exact Hp.
    rewrite <- Hc. destruct gs as [|g' gs]; [discriminate Hg|]. injection Hg as ->.
    cbn [fmap list_fmap concat]. apply elem_of_app. left. exact Hf.
Defined.

(** ** Witness: node s:1 sends 4097 bytes to d:5 *)

Definition long_text : string := str_concat (replicate 17 (str_concat (replicate 241 "x"))).

Definition toy_dest : Node := node (toy_proc "d" "d" 5 "kd").

Lemma long_send_delivers_witness :
  exists w u fid, run toy_send_env (cli_SEND ("1" +:+ ":" +:+ "d" +:+ ":" +:+ "5" +:+ ":" +:+ long_text))
      (World toy_sender [] [] []) = (Done tt, w) /\ w = World toy_sender [] [] u /\
    in_turn toy_pk_of "s:1" "d:5" [toy_info] (spawns u) toy_net (fun N' => wire N' = [] /\
      (forall a, a <> "d:5" -> holding N' a = holding toy_net a) /\
      exists n', holding N' "d:5" = Some n' /\ ReceivedMsgs n' = [long_text] /\ view fid n' = (None, None)).
Proof.
  destruct (proj1 (wp_run _ _ _ _) (long_send_delivers toy_send_env toy_pk_of toy_net [toy_info]
    toy_sender [] [] (settle toy_dest) "1" "d" "5" long_text 1
    eq_refl eq_refl eq_refl (fun _ => eq_refl) toy_wf_info ltac:(vm_compute; discriminate)
    toy_reachable ltac:(intros a v _ Hv; cbn in Hv; by rewrite lookup_empty in Hv)
    ltac:(reflexivity) ltac:(reflexivity) ltac:(reflexivity) eq_refl eq_refl
    ltac:(apply Nat.ltb_lt; vm_compute; reflexivity) ltac:(apply Z.leb_le; vm_compute; reflexivity)))
    as ([] & w & Hrun & u & fid & Hw & _ & H).
  exists w, u, fid. split; [exact Hrun|]. split; [exact Hw|]. apply (H (spawns u)); reflexivity.
Defined.
