(* ===== verification/ConcurrencyTheorems.v ===== *)
(** * Theorems: goroutines side by side *)

From S2P Require Import Prelude GoStrings Base64 GoMonad Concurrency Crypto ToyCrypto OnionLayer.
From S2P Require Import KeyCache Node NodeSpec Fragments OnionBuild Network Directory Cluster Send.
From S2P Require Import ToyNetwork Commands NodeConcurrency Schedules Duplicates Reassembling.
Import Toy ToyNet.

Section Theorems.
Context {C : CryptoLib} {G : GoSort}.

Abbreviation node_reach := (reach body (node_starts)).

(** C10. Whatever connections, commands and cleaning passes a node runs side by
    side, no two goroutines are ever about to touch the same shared fields, one
    of them to write; and no mutex held exclusively by one is held by
    another. *)
Theorem no_data_race s c :
  node_reach (Cfg s [] []) c -> ~ race c /\ locks_ok (c_threads c).
Proof.
  intros Hr. destruct (node_disciplined s c Hr) as [Hf Hl].
  split; [by eapply race_free|done].
Qed.

(** C11. The mutexes of a node cannot deadlock by themselves: in every reachable
    configuration an unfinished goroutine can take its next step, or is at the
    send of an acknowledgement that finds its channel full, or waits for a
    mutex whose holder is in one of these two cases. *)
Theorem only_acks_block s c i :
  node_reach (Cfg s [] []) c -> no_panic c -> unfinished c i ->
  can_step c i \/ stuck_send c i \/
  exists m j, waits_lock c i m /\ holds_lock c j m /\ (can_step c j \/ stuck_send c j).
Proof.
  intros Hr Hnp Hu. destruct (node_disciplined s c Hr) as [Hf _].
  by eapply progress.
Qed.

(** C30. In every interleaving the published key stays that of the private key,
    the fragment maps stay well formed, identity and address stay what they
    were, and what was delivered is never lost or reordered. *)
Theorem node_invariant s c c' :
  node_reach (Cfg s [] []) c -> node_reach c c' -> kept (node (c_st c)) (node (c_st c')).
Proof.
  intros Hr Hr'. apply (node_keeps (fun p => kept (node (c_st c)) (node p)) s c c');
    [apply kept_stable|done..|by constructor].
Qed.

(** C12. The send of an acknowledgement does block a node for good: when an ACK
    and a NACK for one message arrive between the time-out of the goroutine
    that waits for them and its removal of the pending entries, the handler of
    the NACK keeps [Node.Mu] for ever, whatever happens next, and no goroutine
    that waits for it, the timed-out one included, ever takes a step. *)
Theorem ack_and_nack_block retry dest nodeAddr first msgID nackID try t0 line layer p :
  opens p line layer -> Type_ layer = "ACK" -> MsgID layer = msgID ->
  sforall graphic nackID = true -> msgID <> nackID ->
  PendingACKs (node p) !! msgID = Some 0 -> PendingACKs (node p) !! nackID = Some 0 ->
  exists c, node_reach (Cfg p [Chan [] 1]
      [Thread [] (await_ack retry dest nodeAddr first msgID nackID 0 try t0)]) c /\
    forall c', node_reach c c' ->
      holds_lock c' 2 Mu /\ ~ can_step c' 2 /\ waits_lock c' 0 Mu /\
      forall i, waits_lock c' i Mu -> ~ can_step c' i.
Proof.
  intros Ho Ht Hid Hg Hne Hm Hn.
  destruct (waiter_and_handlers line layer msgID nackID p) as [k Hk]; [done..|].
  eexists. split; [eapply waiter_times_out, Hk|]. intros c' Hr'.
  eapply (blocked_for_good); [exact Hk|exact Hr'].
Qed.
(** C29. A key that expires while an onion is built takes the node down: MSG to
    an address whose key is good until [T] tests the key at [T], the cleaner
    removes it at [T + 1], and the encryption that follows dereferences the nil
    key of the missing entry; nothing recovers the panic. *)
Theorem expired_key_panics ip port message p k T :
  lacks colon ip -> lacks colon port -> cache p !! (ip +:+ ":" +:+ port) = Some (MkCachedKey k T) ->
  exists c h, node_reach (Cfg p [] [Thread [] (cli_MSG (ip +:+ ":" +:+ port +:+ ":" +:+ message))]) c /\
    c_st c = MkProc (node p) (clean (T + 1) (cache p)) /\
    c_threads c !! 0 = Some (Thread h (Raise "nil pointer dereference")).
Proof.
  intros Hi Hp Hk. destruct (key_cleaned ip port message p k T Hi Hp Hk) as [d Hr].
  eexists _, []. split; [exact Hr|by split].
Qed.

(** C6. However many copies of a FINAL layer a node handles at the same time,
    and whatever it sends meanwhile, the message is delivered at most once;
    when all goroutines have ended it was delivered, exactly once. *)
Theorem concurrent_duplicates p cs line layer c :
  opens p line layer -> Type_ layer = "FINAL" -> Frag layer = "" ->
  mget (SeenMsgs (node p)) !! MsgID layer = None ->
  reach body (replays line) (Cfg p cs [Thread [] (handlerroutine (line +:+ str1 nl))]) c ->
  (ReceivedMsgs (node (c_st c)) = ReceivedMsgs (node p) \/
   ReceivedMsgs (node (c_st c)) = ReceivedMsgs (node p) ++ [Message layer]) /\
  (ended c -> ReceivedMsgs (node (c_st c)) = ReceivedMsgs (node p) ++ [Message layer]).
Proof.
  intros (Hl & pt & Hd & Hp) Ht Hf Hs Hr.
  destruct (deliveries_good (MsgID layer) (Message layer) (NPrivateKey (node p)) (ReceivedMsgs (node p))
    line pt layer) with (p := p) (cs := cs) (c := c) as [gs Hg]; try done.
  - apply bool_decide_eq_false_2. rewrite Hs. by intros [].
  - by eapply good_outcome.
Qed.

(** C7. The chunks of one message, each handled by a goroutine of its own and
    repeated any number of times, in every interleaving: the message is
    delivered at most once, and never in part; when all goroutines have ended it
    was delivered, exactly once, and no buffer is left. *)
Theorem concurrent_fragments p cs fid msg size chunks lines layers c :
  splitMessage msg size = Some chunks -> 0 < size -> msg <> "" ->
  Forall2 (opens p) lines layers ->
  Forall2 carries layers (chunk_fragment fid chunks <$> seq 0 (length chunks)) ->
  Forall (fun l => Type_ l = "FINAL" /\ mget (SeenMsgs (node p)) !! MsgID l = None) layers ->
  NoDup (MsgID <$> layers) -> wf_frag (node p) -> view fid (node p) = (None, None) ->
  reach body (arrivals lines) (Cfg p cs (handlers lines)) c ->
  (ReceivedMsgs (node (c_st c)) = ReceivedMsgs (node p) \/
   ReceivedMsgs (node (c_st c)) = ReceivedMsgs (node p) ++ [msg]) /\
  (ended c -> ReceivedMsgs (node (c_st c)) = ReceivedMsgs (node p) ++ [msg] /\
              view fid (node (c_st c)) = (None, None)).
Proof.
  intros Hsp Hsize Hne Hopen Hcar Hfin Hnd Hwf Hv Hr.
  destruct (chunks_nonempty msg size chunks Hsp Hsize Hne) as [<- Hch].
  assert (Hlen : length (MsgID <$> layers) = length chunks).
  { apply Forall2_length in Hcar. by rewrite length_fmap, length_seq, <- (length_fmap MsgID) in Hcar. }
  assert (Hlines := chunk_lines fid chunks p lines layers Hopen Hcar (Forall_impl _ _ _ Hfin (fun l H => proj1 H))).
  destruct (handlers_good fid chunks (MsgID <$> layers) (NPrivateKey (node p)) (ReceivedMsgs (node p))
    Hch Hlen Hnd lines Hlines p cs c) as [gs Hg]; [|done|by eapply handlers_outcome].
  split_and!; [done| |done..]. intros i Hi. apply bool_decide_eq_false_2. rewrite <- Hlen in Hi.
  destruct (lookup_lt_is_Some_2 _ _ Hi) as [id Hid]. rewrite (list_lookup_total_correct _ _ _ Hid).
  apply list_elem_of_lookup_2, list_elem_of_fmap in Hid as (l & -> & Hl).
  rewrite Forall_forall in Hfin. destruct (Hfin l Hl) as [_ ->]. by intros [].
Qed.
End Theorems.

(** ** Witnesses *)

(** Two connections, both asking for the key, accepted by the toy node. *)
Definition asking : @thread Proc := Thread [] (handlerroutine ("GET_PUBKEY" +:+ str1 nl)).
Definition two_asking : config := Cfg toy_d [] [asking; asking].

Lemma two_asking_reached : reach body (node_starts) (Cfg toy_d [] []) two_asking.
Proof.
  eapply reach_start; [apply (starts_conn ("GET_PUBKEY" +:+ str1 nl))|].
  eapply reach_start; [apply (starts_conn ("GET_PUBKEY" +:+ str1 nl))|]. apply rtc_refl.
Qed.

Lemma no_data_race_witness : ~ race two_asking /\ locks_ok (c_threads two_asking).
Proof. apply (no_data_race toy_d two_asking), two_asking_reached. Defined.

Lemma only_acks_block_witness :
  can_step two_asking 0 \/ stuck_send two_asking 0 \/
  exists m j, waits_lock two_asking 0 m /\ holds_lock two_asking j m /\
    (can_step two_asking j \/ stuck_send two_asking j).
Proof.
  apply (only_acks_block toy_d two_asking); [exact two_asking_reached| |].
  - by intros [|[|i]] h w.
  - by eexists _, _, _, _.
Defined.

Lemma node_invariant_witness : kept (node toy_d) (node (c_st two_asking)).
Proof.
  apply (node_invariant toy_d (Cfg toy_d [] []) two_asking); [apply rtc_refl|exact two_asking_reached].
Defined.

(** The toy node waits for [msg0] and its refusal on channel 0. *)
Definition toy_waiting : Proc := waiting_proc "d" "d" 5 "kd" msg0 "nack-0000000001".

Lemma ack_and_nack_block_witness :
  exists c, reach body (node_starts) (Cfg toy_waiting [Chan [] 1]
      [Thread [] (await_ack (Ret tt) "x:1" "d:5" "a:2" msg0 "nack-0000000001" 0 0 0)]) c /\
    holds_lock c 2 Mu /\ ~ can_step c 2.
Proof.
  destruct (toy_line toy_waiting (ack_layer msg0)) as [line Hl]; [reflexivity|apply (bool_decide_unpack _); by vm_compute|].
  destruct (ack_and_nack_block (Ret tt) "x:1" "d:5" "a:2" msg0 "nack-0000000001" 0 0 line
    (ack_layer msg0) toy_waiting Hl) as (c & Hr & Hc); [reflexivity..|discriminate|reflexivity|reflexivity|].
  exists c. split; [exact Hr|]. destruct (Hc c (rtc_refl _ _)) as (H1 & H2 & _). split; [exact H1|exact H2].
Defined.

Definition toy_final : OnionLayer := MkOnionLayer "FINAL" msg0 "" "" "" "" "hello".

(** Two copies arrive at once. *)
Lemma concurrent_duplicates_witness :
  exists line, let conn := handlerroutine (line +:+ str1 nl) in
  let c := Cfg toy_d [] [Thread [] conn; Thread [] conn] in
  reach body (replays line) (Cfg toy_d [] [Thread [] conn]) c /\
  (ReceivedMsgs (node (c_st c)) = [] \/ ReceivedMsgs (node (c_st c)) = ["hello"]).
Proof.
  destruct (toy_line toy_d toy_final) as [line Hl]; [reflexivity|apply (bool_decide_unpack _); by vm_compute|].
  exists line. intros conn c.
  assert (Hr : reach body (replays line) (Cfg toy_d [] [Thread [] conn]) c).
  { eapply reach_start; [apply replay_line|apply rtc_refl]. }
  split; [exact Hr|].
  apply (concurrent_duplicates toy_d [] line toy_final c Hl); [reflexivity..|exact Hr].
Defined.

(** The message abcdef in two chunks; the second comes twice. *)
Definition toy_chunk (id label text : string) : OnionLayer := MkOnionLayer "FINAL" id "" "" "" label text.
Definition toy_chunks : list OnionLayer := [toy_chunk msg0 "f:1/2" "abc"; toy_chunk "msg-2" "f:2/2" "def"].

Lemma concurrent_fragments_witness :
  exists lines c, reach body (arrivals lines) (Cfg toy_d [] (handlers lines)) c /\ length (c_threads c) = 3 /\
    (ReceivedMsgs (node (c_st c)) = [] \/ ReceivedMsgs (node (c_st c)) = ["abcdef"]).
Proof.
  destruct (toy_line toy_d (toy_chunk msg0 "f:1/2" "abc")) as [l1 H1]; [reflexivity|apply (bool_decide_unpack _); by vm_compute|].
  destruct (toy_line toy_d (toy_chunk "msg-2" "f:2/2" "def")) as [l2 H2]; [reflexivity|apply (bool_decide_unpack _); by vm_compute|].
  exists [l1; l2], (Cfg toy_d [] (handlers [l1; l2] ++ [Thread [] (handlerroutine (l2 +:+ str1 nl))])).
  assert (Hr : reach body (arrivals [l1; l2]) (Cfg toy_d [] (handlers [l1; l2]))
    (Cfg toy_d [] (handlers [l1; l2] ++ [Thread [] (handlerroutine (l2 +:+ str1 nl))]))).
  { eapply reach_start; [|apply rtc_refl]. exists l2. split; [right; left|apply replay_line]. }
  split; [exact Hr|]. split; [reflexivity|].
  apply (concurrent_fragments toy_d [] "f" "abcdef" 3 ["abc"; "def"] [l1; l2] toy_chunks).
  - reflexivity.
  - lia.
  - discriminate.
  - apply Forall2_cons_2; [exact H1|]. apply Forall2_cons_2; [exact H2|]. apply Forall2_nil_2.
  - repeat (apply Forall2_cons_2; [repeat split; try reflexivity; cbn; unfold min_int, max_int; lia|]). apply Forall2_nil_2.
  - repeat (apply Forall_cons_2; [split; reflexivity|]). by apply Forall_nil_2.
  - apply (bool_decide_unpack _). by vm_compute.
  - intros _. reflexivity.
  - reflexivity.
  - exact Hr.
Defined.

(** The toy node has the key of x:1 until 7. *)
Definition toy_keyed : Proc := MkProc (node toy_d) {["x:1" := MkCachedKey (C:=toy_lib) "kx" 7]}.

Lemma expired_key_panics_witness :
  exists c h, reach body node_starts (Cfg toy_keyed [] [Thread [] (cli_MSG "x:1:hi")]) c /\
    c_threads c !! 0 = Some (Thread h (Raise "nil pointer dereference")).
Proof.
  destruct (expired_key_panics "x" "1" "hi" toy_keyed "kx" 7) as (c & h & Hr & _ & Hc); [reflexivity|reflexivity|reflexivity|].
  exists c, h. split; [exact Hr|exact Hc].
Defined.
