(* ===== verification/HubTheorems.v ===== *)
(** * Theorems: the event streams *)

From S2P Require Import Prelude GoStrings Hub Dashboard LogBridge.

(** A stream is faithful: what a subscriber was sent and what is queued for
    it are, in order, broadcasts made since it subscribed, each at most once;
    the queue never exceeds the capacity; and as long as it never was full the
    subscriber misses nothing. *)
Lemma stream_in_order {A} capacity (h : @hub A) c q b :
  hub_reach capacity empty_hub h -> channels h !! c = Some (Channel q b) ->
  length q <= capacity /\ exists o n, out h !! c = Some o /\ since h !! c = Some n /\
    o ++ q `sublist_of` drop n (sent h) /\
    (sending h = None -> c ∈ subs h -> c ∉ dropped h -> o ++ q = drop n (sent h)).
Proof.
  intros Hr Hc. destruct (ok_streams _ _ (ok_reach _ _ Hr) c q b Hc) as (o & n & Ho & Hn & _ & Hq & Hs & Hl).
  split; [done|]. exists o, n. split; [done|]. split; [done|]. split.
  - etrans; [exact Hs|]. by apply due_sublist.
  - intros Hnone Hsub Hd. rewrite Hl by done. unfold due. by rewrite Hnone.
Qed.

(** Broadcasting never waits and never panics: no broadcast in progress finds
    a closed channel, and it ends after one offer per subscriber, whatever the
    subscribers do. *)
Lemma broadcast_returns {A} capacity (h : @hub A) x todo :
  hub_reach capacity empty_hub h -> sending h = Some (x, todo) ->
  (forall c rest, todo = c :: rest -> is_Some (offer capacity x c rest h)) /\
  exists h', nsteps (hub_step capacity Other) (length todo + 1) h h' /\ sending h' = None.
Proof.
  intros Hr Hs. apply ok_reach in Hr. split; [|by eapply broadcast_ends].
  intros c rest ->. destruct (offer_possible _ x c rest h Hr Hs) as (h' & -> & _). by eexists.
Qed.

(** The history of the dashboard is complete: it holds every event that was
    broadcast or is about to be, each as often as it was posted, so every page
    shows a part of it. *)
Lemma history_complete d :
  dash_reach empty_dash d ->
  sent (clients d) ++ recorded d ≡ₚ history d /\
  forall c o, out (clients d) !! c = Some o -> is_Some (channels (clients d) !! c) -> o ⊆+ history d.
Proof.
  intros Hr. split; [by apply dash_invariant|]. intros c o Ho Hc. by eapply shown_in_history.
Qed.

(** C37. The log page.  A page opens, at [g0].  What it reads from the bytes it
    has been sent at any later point [g] are lines of the node, in order, each at
    most once and whole: those printed since it opened, and before them those
    the bridge had not broadcast yet when it opened, that is the line in its
    hands and those in the pipe; none that had been broadcast before.  When the
    bridge has caught up and the page's queue was never full, the page has or is
    about to get all of them.  A line of 64 KiB or more is the end: nothing from
    it on is ever written to the terminal or sent to a page, although the node
    goes on. *)
Theorem log_page g0 c g bytes q b :
  log_reach empty_logger g0 -> sending (logs g0) = None -> channels (logs g0) !! c = None ->
  log_reach (open_log c g0) g -> handleLogs c g = Some bytes -> channels (logs g) !! c = Some (Channel q b) ->
  let shown := read_frames (Split bytes nl) in
  exists later, printed g = printed g0 ++ later /\
    let fresh := option_list (current g0) ++ (drop_cr <$> pipe g0 ++ later) in
    shown `sublist_of` fresh /\
    (pipe g = [] -> current g = None -> sending (logs g) = None -> c ∈ subs (logs g) ->
     c ∉ dropped (logs g) -> shown ++ q = fresh) /\
    (forall before line after, printed g = before ++ line :: after -> 64 * 1024 <= String.length line ->
     terminal g `prefix_of` drop_cr <$> before /\ shown `sublist_of` drop_cr <$> before).
Proof.
  intros Hr0 Hsend Hfresh Hr Hb Hc. cbn zeta.
  assert (Hrg : log_reach empty_logger g).
  { etrans; [exact Hr0|]. eapply rtc_l; [by apply open_log_step|exact Hr]. }
  destruct (log_subscriber c (length (sent (logs g0))) [] _ _ Hr (subscriber_new c _)) as (_ & Hsince & _).
  unfold handleLogs in Hb. destruct (out (logs g) !! c) as [o|] eqn:Ho; [|done]. injection Hb as <-.
  destruct (log_printed _ _ Hr) as [later Hl]. cbn [printed open_log] in Hl.
  destruct (page_lines g c _ o q b Hrg Hsince Ho Hc) as (-> & H1 & H2). exists later. split; [done|].
  rewrite Hl, printed_after in H1, H2 by (by apply log_ok_reach). do 2 (split; [done|]).
  intros before line after Hp Hlong. assert (Hw := nothing_beyond g before line after Hrg Hp Hlong).
  split; [done|]. destruct Hw as [k ->]. etrans; [by apply (shown_terminal g c o q b)|]. by apply sublist_inserts_r.
Qed.

(** ** Witnesses *)

(** One step at the front of a run of a hub, of the dashboard. *)
Tactic Notation "hub_go" uconstr(step) :=
  eapply rtc_l; [eexists; eapply step; (done || reflexivity)|].
Tactic Notation "dash_go" uconstr(step) := eapply rtc_l; [eapply step; (done || reflexivity)|].

(** One page opens, one line is broadcast to it, a second is on its way. *)
Definition toy_hub : @hub string :=
  begin "b" [0] (finish (Hub {[0 := Channel ["a"] false]} {[0]} (Some ("a", [])) {[0 := []]} ["a"]
    {[0 := 0]} ∅)).

Lemma toy_hub_reached : hub_reach 2 empty_hub toy_hub.
Proof.
  hub_go (step_subscribe 2 0). hub_go (step_begin 2 "a" [0]). hub_go (step_offer 2 "a" 0 []).
  hub_go (step_finish 2 "a"). hub_go (step_begin 2 "b" [0]). apply rtc_refl.
Qed.

Lemma stream_in_order_witness :
  length ["a"] <= 2 /\ exists o n, out toy_hub !! 0 = Some o /\ since toy_hub !! 0 = Some n /\
    o ++ ["a"] `sublist_of` drop n (sent toy_hub) /\
    (sending toy_hub = None -> 0 ∈ subs toy_hub -> 0 ∉ dropped toy_hub -> o ++ ["a"] = drop n (sent toy_hub)).
Proof. apply (stream_in_order 2 toy_hub 0 ["a"] false); [exact toy_hub_reached|reflexivity]. Defined.

Lemma broadcast_returns_witness :
  (forall c rest, [0] = c :: rest -> is_Some (offer 2 "b" c rest toy_hub)) /\
  exists h', nsteps (hub_step 2 Other) 2 toy_hub h' /\ sending h' = None.
Proof. apply (broadcast_returns 2 toy_hub "b" [0]); [exact toy_hub_reached|reflexivity]. Defined.

(** Two events are recorded in one order and broadcast in the other, since the
    handlers release the history before they broadcast. *)
Definition event (name : string) : Event := MkEvent name "" "SEND" "" "" 0.

Definition swapped : dash :=
  Dash [event "a"; event "b"] []
    (begin (event "a") [0] (finish (Hub {[0 := Channel [event "b"] false]} {[0]} (Some (event "b", []))
      {[0 := []]} [event "b"] {[0 := 0]} ∅))).

Lemma swapped_reached : dash_reach empty_dash swapped.
Proof.
  eapply rtc_l; [eapply dash_hub; by eapply (step_subscribe stream_capacity 0)|].
  dash_go (dash_record (event "a")). dash_go (dash_record (event "b")).
  eapply rtc_l; [eapply (dash_broadcast (event "b") [event "a"] []); [reflexivity|]|].
  { by eapply (step_begin stream_capacity (event "b") [0]). }
  eapply rtc_l; [eapply dash_hub; by eapply (step_offer stream_capacity (event "b") 0 [])|].
  eapply rtc_l; [eapply dash_hub; by eapply (step_finish stream_capacity (event "b"))|].
  eapply rtc_l; [eapply (dash_broadcast (event "a") [] []); [reflexivity|]|].
  { by eapply (step_begin stream_capacity (event "a") [0]). }
  apply rtc_refl.
Qed.

Lemma history_complete_witness :
  sent (clients swapped) ++ recorded swapped ≡ₚ history swapped /\
  forall c o, out (clients swapped) !! c = Some o -> is_Some (channels (clients swapped) !! c) ->
    o ⊆+ history swapped.
Proof. apply (history_complete swapped), swapped_reached. Defined.

(** The order on a page is not the order in the history. *)
Lemma stream_order_differs :
  dash_reach empty_dash swapped /\ history swapped = [event "a"; event "b"] /\
  sent (clients swapped) = [event "b"; event "a"].
Proof. split; [exact swapped_reached|done]. Qed.

(** A page opens, the node prints two lines at once, the first one reaches the
    page. *)
Definition toy_log : logger :=
  Logger ["a"; "b"] ["b"] ["a"] None true
    (finish (forward 0 "a" [] (Hub {[0 := Channel ["a"] false]} {[0]} (Some ("a", [])) {[0 := []]} ["a"]
       {[0 := 0]} ∅))).

Lemma toy_log_since : log_reach (open_log 0 empty_logger) toy_log.
Proof.
  eapply rtc_l; [eapply (log_print ("a" +:+ str1 nl +:+ "b"))|].
  eapply rtc_l; [eapply log_scan; reflexivity|].
  eapply rtc_l; [eapply (log_broadcast "a"); [reflexivity|by eapply (step_begin log_capacity "a" [0])]|].
  eapply rtc_l; [eapply log_hub; by eapply (step_offer log_capacity "a" 0 [])|].
  eapply rtc_l; [eapply log_hub; by eapply (step_forward log_capacity 0 "a" [])|].
  eapply rtc_l; [eapply log_hub; by eapply (step_finish log_capacity "a")|].
  apply rtc_refl.
Qed.

Lemma log_page_witness :
  exists bytes, handleLogs 0 toy_log = Some bytes /\ read_frames (Split bytes nl) `sublist_of` ["a"; "b"].
Proof.
  exists (frames ["a"]). split; [reflexivity|].
  destruct (log_page empty_logger 0 toy_log (frames ["a"]) [] false (rtc_refl _ _) eq_refl eq_refl toy_log_since
    eq_refl eq_refl) as (later & Hl & H & _).
  cbn in Hl. rewrite <- Hl in H. exact H.
Defined.
