(* ===== verification/PageTheorems.v ===== *)
(** * Theorems: the node's web page *)

From S2P Require Import Prelude GoStrings Base64 JavaScript Hub Dashboard GoMonad Crypto ToyCrypto OnionLayer KeyCache.
From S2P Require Import Node NodeSpec OnionBuild Network Directory Cluster ToyNetwork Send SendSpec EndToEnd.
From S2P Require Import Commands CommandSpec Web ChatPage ChatPageSpec ChatFlow.
Import Toy ToyNet.

(** C21. The page in step.  Whatever the user does and whatever lists, log
    lines and errors arrive, in any order: the conversation on the screen is the
    selected one, the side bar has every known node once, in the order they were
    first listed, with its name, its mark and its count, the inbox likewise; the
    selected node is a known one, and only then can a message be sent. *)
Theorem page_invariant p :
  page_reach opened p ->
  messagesDiv p = render_rows (conv p (selectedNodeKey p)) /\
  nodesListDiv p = sidebar_item p <$> nodeOrder p /\
  inboxItem p = (String.eqb (selectedNodeKey p) INBOX, badge_text (unread_of p INBOX)) /\
  nodeOrder p = keys (knownNodes p) /\ NoDup (nodeOrder p) /\
  unread_of p (selectedNodeKey p) = 0%Z /\
  match selectedNode p with
  | Some n => selectedNodeKey p = peer_key n /\ peer_key n ∈ nodeOrder p /\ sendBtn_disabled p = false
  | None => selectedNodeKey p = INBOX /\ sendBtn_disabled p = true
  end.
Proof.
  intros Hr. destruct (page_reach_ok p Hr) as [[[H1 H2 _ H4 H5] H6 H7 _ H8] H9].
  do 6 (split; [done|]). destruct (selectedNode p); [|done]. by destruct H4.
Qed.

Section Theorems.
Context {C : CryptoLib} {G : GoSort} {L : CryptoLaws C}.

(** C22. The side bar follows the directory.  After an answer of the directory
    that is news, the side bar has exactly the nodes listed, those already there
    in their old places and in front; names are as listed; nothing sent to a
    node that is gone is still shown as pending; the other conversations and,
    if its node is listed, the selection are untouched. *)
Theorem sidebar_follows (ev : env Proc) p nodes q c t :
  page_reach opened p -> nodes <> [] -> Forall wf_info nodes ->
  e_request ev (length t) ("GET_LIST" +:+ str1 nl) = Some (list_answer nodes) ->
  TrimSpace (list_answer nodes) <> lastNodeListRaw p ->
  wp ev handleNodes (World q [] c t) (fun list _ =>
    let p' := loadNodes list p in
    (forall a, a ∈ nodeOrder p' <-> a ∈ node_addr <$> nodes) /\
    i_key <$> nodesListDiv p' = nodeOrder p' /\ NoDup (nodeOrder p') /\
    filter (fun a => a ∈ node_addr <$> nodes) (nodeOrder p) `prefix_of` nodeOrder p' /\
    (forall a, a ∈ nodeOrder p' -> exists i, i ∈ nodes /\ node_addr i = a /\
       p_name <$> obj_get a (knownNodes p') = Some (Name i)) /\
    (forall a, a ∈ nodeOrder p -> a ∉ node_addr <$> nodes -> settled_conv (conv p' a)) /\
    (forall a, a ∈ node_addr <$> nodes -> conv p' a = conv p a) /\
    (selectedNodeKey p ∈ node_addr <$> nodes -> selectedNode p' = selectedNode p)).
Proof.
  intros Hr Hne Hw Hreq Hnew. apply (wp_handleNodes ev q c t nodes); [done..|]. intros u. cbn zeta.
  destruct (loadNodes_ok _ p (page_reach_ok p Hr) Hnew) as [Hok Ho Hn Hg Hk Hs].
  rewrite listed_peers_answer, peer_keys_of in * by done.
  set (p' := loadNodes _ p) in *. clearbody p'.
  assert (Hin : forall a, a ∈ nodeOrder p' <-> a ∈ node_addr <$> nodes).
  { intros a. rewrite Ho, list_elem_of_filter, elem_of_add_keys. tauto. }
  split; [done|]. destruct Hok as [Hco Hbar]. split; [by apply bar_keys|]. split; [apply Hco|].
  split; [rewrite Ho; by apply filter_add_keys|]. split; [|split; [done|split]].
  - intros a Ha. destruct (Hn a) as (n & Hin' & Hkey & Hname); [by apply Hin|].
    apply list_elem_of_fmap in Hin' as (i & -> & Hi). by exists i.
  - intros a Ha. apply Hk; [|by right]. intros ->. apply (order_not_inbox p' (co_nav _ Hco)). by apply Hin.
  - intros Hsel. apply Hs. by right.
Qed.

(** C23. An outage of the directory empties the page.  When the node gets no
    list, the page drops every node, goes back to the inbox and marks everything
    that was pending as failed; a result that comes later changes nothing, an
    acknowledgement neither. *)
Theorem outage_forgets (ev : env Proc) p q c t :
  page_reach opened p -> e_request ev (length t) ("GET_LIST" +:+ str1 nl) = None ->
  lastNodeListRaw p <> "LIST:empty" ->
  wp ev handleNodes (World q [] c t) (fun list _ =>
    let p' := loadNodes list p in
    nodeOrder p' = [] /\ nodesListDiv p' = [] /\ selectedNode p' = None /\ sendBtn_disabled p' = true /\
    forall a, a ∈ nodeOrder p -> settled_conv (conv p' a) /\
      forall label verdict try ms, result_label label -> lacks GoStrings.pipe a -> verdict ∈ verdicts ->
        conv (appendLog (result label a verdict try ms) p') a = conv p' a).
Proof.
  intros Hr Hreq Hnew. apply wp_handleNodes_failed; [done|]. intros u. cbn zeta.
  destruct (loadNodes_ok "LIST:empty" p (page_reach_ok p Hr) (not_eq_sym Hnew)) as [Hok Ho _ Hg _ _].
  set (p' := loadNodes _ p) in *. clearbody p'. change (listed_peers "LIST:empty") with (@nil peer) in *.
  assert (Hnil : nodeOrder p' = []).
  { destruct (nodeOrder p') as [|k l]; [done|]. assert (Hk : k ∈ k :: l) by left.
    rewrite Ho in Hk. apply list_elem_of_filter in Hk as [Hk _]. by apply not_elem_of_nil in Hk. }
  destruct Hok as [[Hn _ _ _ _] Hbar]. destruct (Hn) as [_ _ _ H4 H5].
  split; [done|]. split; [unfold bar_ok in Hbar; by rewrite Hbar, Hnil|].
  assert (Hsel : selectedNode p' = None).
  { destruct (selectedNode p') as [n|]; [|done]. destruct H4 as [_ Hin]. rewrite Hnil in Hin. by apply not_elem_of_nil in Hin. }
  rewrite Hsel in H5. do 2 (split; [done|]). intros a Ha. assert (Hs : settled_conv (conv p' a)).
  { apply Hg; [done|]. apply not_elem_of_nil. }
  split; [done|]. intros label verdict try ms Hl Hp Hv. apply result_too_late; try done.
  intros ->. destruct (page_reach_ok p Hr) as [[[H1 _ H3 _ _] _ _ _ _] _].
  rewrite H1 in Ha. apply list_elem_of_fmap in Ha as ([k n] & Hk & Hin). rewrite Forall_forall in H3.
  apply H3 in Hin. cbn in Hk, Hin. subst k. unfold peer_key in Hin. by destruct (p_ip n).
Qed.

(** C20. A message of the page, from the key stroke to its mark.  The message
    is shown as pending and posted; the node starts the goroutine for it, and
    nothing else; the acknowledgement that the goroutine reports comes back
    through the event stream and marks the message as delivered, a time-out or
    an abandonment marks it as failed, on the screen too. *)
Theorem web_send_status (ev : env Proc) p n q c t :
  let text := js_trim (msg_input (inputs p)) in
  let label := label_of (inputs p) in
  page_reach opened p -> selectedNode p = Some n -> text <> "" -> form_ok (inputs p) -> peer_ok n ->
  clean (peer_key n) -> TrimSpace (command p n text) = command p n text ->
  exists p' req m,
    sendMessage p = (p', Some req) /\ is_pending m = true /\ c_text m = text /\
    messagesDiv p' = render_rows (conv p (peer_key n) ++ [m]) /\
    (exists job, (makeHandleCmd "POST" (Some req)).2 = Some job /\
       wp ev job (World q [] c t) (fun _ w => exists now, w = World q [] c (t ++ [EvNow now;
         EvSpawn (job_of (inputs p) (group_size p) n (ID (node q)) text now)]))) /\
    (forall try q1 tr w, reported label (peer_key n) try q1 tr w -> exists u, w_trace w = tr ++ u /\
       messagesDiv (read_log (frames (prints u)) p')
       = render_rows (conv p (peer_key n) ++ [set_status "ok" m])) /\
    (forall verdict try ms, verdict ∈ ["TIMEOUT"; "ABANDON"] ->
       messagesDiv (read_log (frames [result label (peer_key n) verdict try ms]) p')
       = render_rows (conv p (peer_key n) ++ [set_status "fail" m])).
Proof.
  intros text label Hr Hn Ht Hf Hp Hc Htrim.
  destruct (sendMessage_posts p n (page_reach_ok p Hr) Hn Ht) as (p' & Hs & Hok & Hn' & _ & Hcv).
  fold text in Hs, Hcv. set (m := new_message _ _ _ _ _ _ _) in Hcv.
  assert (Hkey : forall p2, page_ok p2 -> nav p2 = nav p' -> messagesDiv p2 = render_rows (conv p2 (peer_key n))).
  { intros p2 Hp2 Hnv. rewrite (co_rows _ (proj1 Hp2)). unfold nav in Hnv. injection Hnv as _ -> _ _ _.
    destruct (selected_known p' n Hok Hn') as (-> & _). done. }
  assert (Hne : peer_key n <> "") by (unfold peer_key; by destruct (p_ip n)).
  assert (Hmark : forall verdict try ms, verdict ∈ verdicts ->
    messagesDiv (read_log (frames [result label (peer_key n) verdict try ms]) p')
    = render_rows (conv p (peer_key n) ++ [set_status (status_of verdict) m])).
  { intros verdict try ms Hv. unfold read_log.
    rewrite stream_of_frames by (apply Forall_singleton; apply result_clean; [apply label_of_ok|done|done]).
    cbn [foldl]. rewrite Hkey.
    - f_equal. apply (result_marks label (peer_key n) verdict try ms p' _ m []); try done; [apply label_of_ok|apply Hc|constructor].
    - by apply page_appendLog.
    - rewrite appendLog_result by (done || apply label_of_ok || apply Hc). by rewrite nav_updateLastPending. }
  eexists p', _, m. split; [exact Hs|]. do 2 (split; [done|]). split; [by rewrite Hkey, Hcv by done|]. split; [|split].
  - eexists. split; [reflexivity|]. cbn [Cmd Mode]. apply wp_posted; [done..|]. intros now. by exists now.
  - intros try q1 tr w (u & ms & cq & -> & _ & Hu). exists u. split; [done|]. rewrite Hu.
    apply (Hmark "ACK"). by left.
  - intros verdict try ms Hv. rewrite Hmark.
    + do 4 f_equal. apply elem_of_cons in Hv as [->|Hv]; [done|]. apply list_elem_of_singleton in Hv as ->. done.
    + by right.
Qed.

(** C24. A result does not say which message it is of: the page gives it to
    the newest pending one.  With two messages to a node on their way, the
    acknowledgement of the first one marks the second one as delivered. *)
Theorem result_marks_newest label dest try ms p l1 m1 l2 m2 l3 :
  result_label label -> lacks GoStrings.pipe dest -> dest <> "" ->
  conv p dest = l1 ++ m1 :: l2 ++ m2 :: l3 -> is_pending m1 = true -> is_pending m2 = true -> settled_conv l3 ->
  let p' := appendLog (result label dest "ACK" try ms) p in
  conv p' dest = l1 ++ m1 :: l2 ++ set_status "ok" m2 :: l3 /\
  (settled_conv l2 -> forall verdict try' ms', verdict ∈ ["TIMEOUT"; "ABANDON"] ->
   conv (appendLog (result label dest verdict try' ms') p') dest
   = l1 ++ set_status "fail" m1 :: l2 ++ set_status "ok" m2 :: l3).
Proof.
  intros Hl Hd Hne Hc H1 H2 H3. cbn zeta. rewrite app_comm_cons, app_assoc in Hc.
  assert (Ha := result_marks label dest "ACK" try ms p _ m2 l3 Hl Hd Hne ltac:(by left) Hc H2 H3).
  rewrite <- app_assoc, <- app_comm_cons in Ha. split; [exact Ha|].
  intros Hl2 verdict try' ms' Hv. assert (Hst : status_of verdict = "fail" /\ verdict ∈ verdicts).
  { apply elem_of_cons in Hv as [->|Hv]; [split; [done|]; by right; left|].
    apply list_elem_of_singleton in Hv as ->. split; [done|]. by right; right; left. }
  destruct Hst as [<- Hv']. apply (result_marks label dest verdict try' ms' _ l1 m1); try done.
  apply Forall_app. split; [done|]. apply Forall_cons. split; [by unfold is_pending; cbn; rewrite andb_false_r|done].
Qed.

End Theorems.

(** ** Witnesses: a page that knows d:5 and b:3 and has d:5 selected *)

Definition toy_d5 : peer := Peer "d" "d" "5".
Definition toy_list : string := "LIST:d|d|5|k|1|1,b|b|3|k|1|1".
Definition toy_listed : page := loadNodes toy_list opened.
Definition toy_page : page := edit (Form "hi" "3" "3" "anon" "send") (selectNode toy_d5 toy_listed).

Lemma toy_page_reached : page_reach opened toy_page.
Proof.
  apply (rtc_l _ _ toy_listed); [apply step_nodes|].
  apply (rtc_l _ _ (selectNode toy_d5 toy_listed)); [|apply rtc_once, step_edit].
  apply (step_node (Item "d:5" "d" false None) toy_d5 toy_listed).
  - assert (H : nodesListDiv toy_listed = [Item "d:5" "d" false None; Item "b:3" "b" false None])
      by (vm_compute; reflexivity). rewrite H. by left.
  - vm_compute. reflexivity.
Qed.

Lemma page_invariant_witness :
  i_key <$> nodesListDiv toy_page = ["d:5"; "b:3"] /\ NoDup (nodeOrder toy_page).
Proof.
  destruct (page_invariant toy_page toy_page_reached) as (_ & _ & _ & _ & Hn & _).
  split; [vm_compute; reflexivity|exact Hn].
Defined.

(** A directory that lists b:3 only, and one that does not answer. *)
Definition toy_b3 : NodeInfo := MkInfo "u" "b" "b" 3 (EncodeToString "kb") 100 100.
Definition b3_env : env Proc :=
  Env Z.of_nat (fun _ _ => true) (fun _ _ => Some (list_answer [toy_b3])) (fun _ => 0%Z) (fun _ => true)
    (fun _ => false) (fun _ s => (None, s)) (fun _ => "") (fun _ _ _ => NoDial).

Lemma sidebar_follows_witness :
  exists list w, run b3_env handleNodes (World toy_d [] [] []) = (Done list, w) /\
    (forall a, a ∈ nodeOrder (loadNodes list toy_page) <-> a ∈ ["b:3"]) /\
    (selectedNodeKey toy_page = "d:5").
Proof.
  destruct (proj1 (wp_run _ _ _ _) (sidebar_follows (C:=toy_lib) b3_env toy_page [toy_b3] toy_d [] [] toy_page_reached
    ltac:(discriminate) ltac:(apply Forall_singleton; repeat split; try reflexivity; cbn; unfold min_int, max_int; lia)
    ltac:(reflexivity) ltac:(vm_compute; discriminate))) as (list & w & Hr & H & _).
  exists list, w. split; [exact Hr|]. split; [exact H|vm_compute; reflexivity].
Defined.

Lemma outage_forgets_witness :
  exists list w, run toy_env handleNodes (World toy_d [] [] []) = (Done list, w) /\
    nodeOrder toy_page = ["d:5"; "b:3"] /\ nodeOrder (loadNodes list toy_page) = [].
Proof.
  destruct (proj1 (wp_run _ _ _ _) (outage_forgets (C:=toy_lib) toy_env toy_page toy_d [] [] toy_page_reached
    ltac:(reflexivity) ltac:(vm_compute; discriminate))) as (list & w & Hr & H & _).
  exists list, w. split; [exact Hr|]. split; [vm_compute; reflexivity|exact H].
Defined.

Lemma web_send_status_witness :
  exists p', (sendMessage toy_page).1 = p' /\ messagesDiv p' = [MeRow false "hi" "⏳"] /\
    messagesDiv (read_log (frames [result "RESULT" "d:5" "TIMEOUT" 0 8000]) p') = [MeRow false "hi" "✖"].
Proof.
  destruct (web_send_status (C:=toy_lib) toy_env toy_page toy_d5 toy_d [] [] toy_page_reached
    ltac:(vm_compute; reflexivity) ltac:(vm_compute; discriminate)
    ltac:(split; [exists 3%Z; vm_compute; reflexivity|split; vm_compute; reflexivity])
    ltac:(split; reflexivity) ltac:(repeat split) ltac:(vm_compute; reflexivity))
    as (p' & req & m & Hs & _ & _ & _ & _ & _ & Hfail).
  exists p'. split; [by rewrite Hs|]. assert (p' = (sendMessage toy_page).1) as -> by (by rewrite Hs).
  split; [vm_compute; reflexivity|].
  specialize (Hfail "TIMEOUT" 0%Z 8000%Z ltac:(by left)). vm_compute. reflexivity.
Defined.

(** Two messages to d:5 on their way. *)
Definition toy_two : page :=
  (sendMessage (set_inputs (Form "again" "3" "3" "anon" "send") (sendMessage toy_page).1)).1.
Definition toy_chat (id : Z) (text status : string) : chat := MkChat id "me" text status "anon" "" "send".

Lemma result_marks_newest_witness :
  conv toy_two "d:5" = [toy_chat 1 "hi" "pending"; toy_chat 2 "again" "pending"] /\
  conv (appendLog (result "RESULT" "d:5" "ACK" 0 12) toy_two) "d:5"
  = [toy_chat 1 "hi" "pending"; toy_chat 2 "again" "ok"].
Proof.
  split; [vm_compute; reflexivity|].
  destruct (result_marks_newest "RESULT" "d:5" 0 12 toy_two [] (toy_chat 1 "hi" "pending") []
    (toy_chat 2 "again" "pending") [] ltac:(by left) ltac:(reflexivity) ltac:(discriminate)
    ltac:(vm_compute; reflexivity) ltac:(reflexivity) ltac:(reflexivity) ltac:(apply Forall_nil_2)) as [H _].
  exact H.
Defined.

