(* ===== verification/RoutesTheorems.v ===== *)
(** * Theorems: the dashboard's page *)

From S2P Require Import Prelude GoStrings JavaScript GoMonad Crypto ToyCrypto KeyCache Node OnionBuild Network.
From S2P Require Import Directory Cluster ToyNetwork Send Hub Dashboard RoutesPage RoutesSpec Visit.
Import Toy ToyNet.

Section Theorems.
Context {C : CryptoLib} {G : GoSort}.

(** C26. The dashboard leaves the first relay out.  A sender posts its hop to
    the first relay and the hops from each relay to the next; from these events,
    in order and mixed in any way with those of other exchanges, the page makes
    the route from the sender to the second relay and on to the destination, and
    when the acknowledgement is reported the same route backwards. *)
Theorem first_relay_missing (ev : env Proc) self kind m exid first rest q h c t :
  is_send kind = true -> NoDup (self :: first :: rest) -> rest <> [] -> exid ∉ [""; no_exid] ->
  wp ev (telemetry_forward self kind m exid (first :: rest)) (World q h c t) (fun _ w => exists u,
    w_trace w = t ++ u /\ length (tels u) = S (length rest) /\
    forall evs ts p, obj_get exid (exchanges p) = None -> length ts = length (tels u) ->
      filter (fun e => ev_ExID e = exid) evs = zip_with stamp (tels u) ts ->
      let p' := processEvents evs p in
      fwdRoute (getEx exid p') = self :: rest /\ first ∉ fwdRoute (getEx exid p') /\
      forall ack, ev_Type ack = "ACK" -> ev_ExID ack = exid -> reconstruct p = true ->
        retRoute (getEx exid (processEvent ack p')) = reverse (self :: rest)).
Proof.
  intros Hk Hnd Hrest Hid. apply wp_route_posted. intros u Hu. exists u. split; [done|].
  assert (Hlen : forall a i, length (relay_tels (a :: rest) exid i) = length rest).
  { clear. induction rest as [|b r IH]; intros a i; [done|]. cbn. f_equal. apply (IH b). }
  assert (Hl : length (tels u) = S (length rest)) by (rewrite Hu; cbn [length]; by rewrite Hlen).
  split; [done|].
  intros evs ts p Hnew Hts Hf. cbn zeta.
  assert (He : forall e, exid_of e = exid <-> ev_ExID e = exid).
  { intros e. unfold exid_of, or_else. apply not_elem_of_cons in Hid as [H1 H2]. apply not_elem_of_cons in H2 as [H2 _].
    destruct (String.eqb_spec (ev_ExID e) "") as [->|]; [|done]. split; congruence. }
  apply NoDup_cons in Hnd as [Hs Hnd]. apply not_elem_of_cons in Hs as [Hsf Hs].
  apply NoDup_cons in Hnd as [Hfr Hnd].
  assert (Hr : fwdRoute (getEx exid (processEvents evs p)) = self :: rest).
  { rewrite processEvents_route. unfold getEx. rewrite Hnew. cbn [default fwdRoute new_exchange].
    rewrite (list_filter_iff _ (fun e => ev_ExID e = exid)) by (intros e; apply He). rewrite Hf, Hu.
    apply route_extend; [done|by apply NoDup_cons|]. by rewrite Hts. }
  split; [done|]. rewrite Hr. split; [by apply not_elem_of_cons|].
  intros ack Ht Hx Hrec. apply He in Hx. destruct (processEvents_counts evs p) as (_ & _ & _ & _ & Hc).
  destruct (processEvent_spec ack (processEvents evs p)) as (_ & _ & Hret). rewrite <- Hx, (Hret Ht), Hx, Hr, Hc, Hrec.
  destruct rest; [done|]. done.
Qed.
End Theorems.

(** C27. The page counts events twice, or not at all.  It opens the stream and
    asks for the history at the same time, and processes both.  When everything
    has arrived it has processed exactly the history as it was read, and from
    the stream the events recorded but not broadcast when the stream was opened
    and all those recorded since.  So if the history was read after the stream
    was opened, it has everything once and, a second time, the events recorded
    in between and those not broadcast at the opening; if the history was read
    first, it lacks the events recorded in between, once each, and has once more
    those not broadcast at the opening.  The counts on the screen are of these
    events.  And it happens: for any event there is a visit where it is counted
    twice. *)
Theorem counted_twice :
  (forall d v c d0 evs, dash_reach empty_dash d -> visit_reach (load d) v -> caught_up v c d0 evs ->
     statTotal (shown v) = Z.of_nat (length (allEvents (shown v))) /\
     statAck (shown v) = Z.of_nat (of_type "ACK" (allEvents (shown v))) /\
     statNack (shown v) = Z.of_nat (of_type "NACK" (allEvents (shown v))) /\
     ((exists between, evs = history d0 ++ between /\
         allEvents (shown v) ≡ₚ history (server v) ++ recorded d0 ++ between) \/
      (exists between, history d0 = evs ++ between /\
         allEvents (shown v) ++ between ≡ₚ history (server v) ++ recorded d0))) /\
  (forall ev, exists v c d0 evs, visit_reach (load empty_dash) v /\ caught_up v c d0 evs /\
     history (server v) = [ev] /\ allEvents (shown v) = [ev; ev] /\ statTotal (shown v) = 2%Z).
Proof.
  split.
  - intros d v c d0 evs Hd Hr Hc. assert (Hok := visit_ok_reach d v Hd Hr).
    destruct (streamed_all v c d0 evs Hok Hc) as (new & Hnew & Hst). destruct Hok as [_ Hs _ _ _ (l & He & Hl)].
    destruct (processEvents_counts l empty_routes) as (Ha & Ht & Hk & Hn & _). rewrite He, Ha, Ht, Hk, Hn.
    do 3 (split; [done|]). unfold merged_history in Hl. rewrite (cu_merged _ _ _ _ Hc), (cu_snapshot _ _ _ _ Hc) in Hl.
    cbn in *. destruct (prefix_weak_total (history d0) evs (history (server v))) as [[k Hk2]|[k Hk2]];
      [by exists new|by apply Hs, (cu_snapshot _ _ _ _ Hc)| |].
    + left. exists k. split; [done|]. rewrite Hl, Hst, Hk2, Hnew. solve_Permutation.
    + right. exists k. split; [done|]. rewrite Hl, Hst, Hnew, Hk2. solve_Permutation.
  - intros ev. exists (one_visit ev), 0, empty_dash, [ev]. split; [apply one_visit_reached|].
    split; [apply one_visit_caught_up|]. split; [done|].
    destruct (processEvents_counts [ev; ev] empty_routes) as (H1 & H2 & _). by split.
Qed.

(** ** Witness: s:1 sends over b:3 and c:4 to d:5 *)

Lemma first_relay_missing_witness :
  exists w, run toy_env (telemetry_forward (C:=toy_lib) "s:1" "SEND" "hi" "msg-1" ["b:3"; "c:4"; "d:5"])
      (World toy_d [] [] []) = (Done tt, w) /\
    fwdRoute (getEx "msg-1" (processEvents (zip_with stamp (tels (w_trace w)) [1; 2; 3]%Z) empty_routes))
    = ["s:1"; "c:4"; "d:5"].
Proof.
  destruct (proj1 (wp_run _ _ _ _) (first_relay_missing (C:=toy_lib) toy_env "s:1" "SEND" "hi" "msg-1" "b:3" ["c:4"; "d:5"]
    toy_d [] [] [] ltac:(reflexivity) ltac:(apply (bool_decide_unpack _); by vm_compute) ltac:(discriminate)
    ltac:(apply (bool_decide_unpack _); by vm_compute))) as ([] & w & Hr & u & Hw & Hl & H).
  assert (Hu : u = w_trace (run toy_env (telemetry_forward (C:=toy_lib) "s:1" "SEND" "hi" "msg-1" ["b:3"; "c:4"; "d:5"])
    (World toy_d [] [] [])).2) by (by rewrite Hr).
  exists w. split; [exact Hr|]. rewrite Hw. cbn [app].
  destruct (H (zip_with stamp (tels u) [1; 2; 3]%Z) [1; 2; 3]%Z empty_routes) as [Hf _];
    [reflexivity|by rewrite Hl|rewrite Hu; vm_compute; reflexivity|exact Hf].
Defined.

(** One event, counted twice. *)
Lemma counted_twice_witness :
  exists v, visit_reach (load empty_dash) v /\ statTotal (shown v) = 2%Z /\ length (history (server v)) = 1.
Proof.
  destruct (proj2 counted_twice (MkEvent "s:1" "b:3" "SEND" "hi" "msg-1" 1)) as (v & c & d0 & evs & Hr & Hc & Hh & _ & Ht).
  destruct (proj1 counted_twice empty_dash v c d0 evs (rtc_refl _ _) Hr Hc) as (Hn & _).
  exists v. split; [exact Hr|]. split; [exact Ht|]. by rewrite Hh.
Defined.
